(** * former: scaled multi-head self-attention and the transformer block

    A shallow embedding of [former/modules.py] ([SelfAttention],
    [TransformerBlock]) and of [former/transformers.py] (the four models
    stacked from the blocks) together with the part of the tensor library
    the classes call.  Floating-point numbers are idealised as real numbers,
    except for the attention weights, which are also followed through
    overflow, infinities and not-a-number; every other statement, those
    about what [forward] returns included, is about the idealised
    arithmetic.  A tensor is its size tuple together with its contiguous
    row-major storage; Python exceptions are the [Err] results of a small
    error monad. *)

From Stdlib Require Import Reals List Lia Lra ZArith Bool Arith Permutation.
Import ListNotations.

Set Implicit Arguments.

(** ** Exceptions and the error monad *)

Inductive error : Type :=
| ValueError        (* tuple unpacking of [x.size()]; refused constructor argument *)
| AssertionError    (* one of the two [assert] statements of [SelfAttention.forward] *)
| RuntimeError.     (* raised inside a tensor-library operation *)

Inductive result (A : Type) : Type :=
| Ok (a : A)
| Err (e : error).

Arguments Ok {A} a.
Arguments Err {A} e.

Definition bind {A B : Type} (r : result A) (k : A -> result B) : result B :=
  match r with
  | Ok a => k a
  | Err e => Err e
  end.

Notation "x <- e ;; k" := (bind e (fun x => k))
  (at level 61, e at next level, right associativity).
Notation "' p <- e ;; k" := (bind e (fun p => k))
  (at level 61, p pattern, e at next level, right associativity).

Definition assert_ (c : bool) : result unit :=
  if c then Ok tt else Err AssertionError.

(** ** Lists as rows of numbers *)

Fixpoint zipWith {A B C : Type} (f : A -> B -> C) (u : list A) (v : list B) : list C :=
  match u, v with
  | a :: u', b :: v' => f a b :: zipWith f u' v'
  | _, _ => []
  end.

(** [split_n count m l] cuts the first [count] consecutive pieces of length
    [m] off [l]. *)
Fixpoint split_n {A : Type} (count m : nat) (l : list A) : list (list A) :=
  match count with
  | O => []
  | S c => firstn m l :: split_n c m (skipn m l)
  end.

Definition sum (l : list R) : R := fold_right Rplus 0%R l.

Definition dotprod (u v : list R) : R := sum (zipWith Rmult u v).

Definition column (j : nat) (m : list (list R)) : list R :=
  map (fun row => nth j row 0%R) m.

(** [a] has rows of length [k], [b] has [k] rows of length [p]. *)
Definition matmul (p : nat) (a b : list (list R)) : list (list R) :=
  map (fun row => map (fun j => dotprod row (column j b)) (seq 0 p)) a.

(** Rows and columns of a [d1] by [d2] grid of cells exchanged. *)
Definition transpose_cells {A : Type} (d2 : nat) (g : list (list (list A)))
  : list (list (list A)) :=
  map (fun c => map (fun row => nth c row []) g) (seq 0 d2).

(** ** Tensors *)

Record tensor (A : Type) : Type := Tensor {
  size : list nat;
  storage : list A
}.

Definition numel (s : list nat) : nat := fold_right Nat.mul 1 s.

Definition wf_tensor {A : Type} (x : tensor A) : Prop :=
  length (storage x) = numel (size x).

Definition tmap {A B : Type} (f : A -> B) (x : tensor A) : tensor B :=
  Tensor (size x) (map f (storage x)).

(** Element [x[k, i, j]] of a three-dimensional tensor. *)
Definition get3 {A : Type} (d : A) (x : tensor A) (k i j : nat) : A :=
  match size x with
  | [_; d1; d2] => nth ((k * d1 + i) * d2 + j) (storage x) d
  | _ => d
  end.

(** [x.view(s)].  The requested sizes are Python integers.  A negative entry
    is refused: the only one the library accepts is [-1], which asks for that
    size to be inferred, and [forward] never passes it for a non-negative
    head count. *)
Definition view {A : Type} (x : tensor A) (s : list Z) : result (tensor A) :=
  if forallb (Z.leb 0) s then
    let s' := map Z.to_nat s in
    if numel s' =? numel (size x) then Ok (Tensor s' (storage x))
    else Err RuntimeError
  else Err RuntimeError.

(** [x.transpose(1, 2)], laid out contiguously. *)
Definition transpose12 {A : Type} (x : tensor A) : result (tensor A) :=
  match size x with
  | d0 :: d1 :: d2 :: rest =>
      let r := numel rest in
      Ok (Tensor (d0 :: d2 :: d1 :: rest)
            (concat (map (fun blk =>
                            concat (map (@concat A)
                              (transpose_cells d2
                                 (map (split_n d2 r) (split_n d1 (d2 * r) blk)))))
                         (split_n d0 (d1 * d2 * r) (storage x)))))
  | _ => Err RuntimeError
  end.

(** [torch.bmm(x, y)]. *)
Definition bmm (x y : tensor R) : result (tensor R) :=
  match size x, size y with
  | [n; m; k], [n'; k'; p] =>
      if (n =? n') && (k =? k') then
        Ok (Tensor [n; m; p]
              (concat (zipWith (fun a b =>
                                  concat (matmul p (split_n m k a) (split_n k p b)))
                               (split_n n (m * k) (storage x))
                               (split_n n (k * p) (storage y)))))
      else Err RuntimeError
  | _, _ => Err RuntimeError
  end.

(** [x + y] for tensors of one size (broadcasting between different sizes
    does not arise in the two classes and is reported as an error). *)
Definition tadd (x y : tensor R) : result (tensor R) :=
  if list_eq_dec Nat.eq_dec (size x) (size y)
  then Ok (Tensor (size x) (zipWith Rplus (storage x) (storage y)))
  else Err RuntimeError.

(** The size tuple split into its leading part and its last entry. *)
Definition last_dim (s : list nat) : option (list nat * nat) :=
  match rev s with
  | d :: r => Some (rev r, d)
  | [] => None
  end.

(** Apply [f] to every row along the last dimension, which must be [d_in]
    wide and becomes [d_out] wide. *)
Definition rowwise {A B : Type} (d_in d_out : nat) (f : list A -> list B)
  (x : tensor A) : result (tensor B) :=
  match last_dim (size x) with
  | Some (lead, d) =>
      if d =? d_in
      then Ok (Tensor (lead ++ [d_out])
                 (concat (map f (split_n (numel lead) d (storage x)))))
      else Err RuntimeError
  | None => Err RuntimeError
  end.

(** ** Layers of the tensor library *)

Definition tabulate {A : Type} (n : nat) (f : nat -> A) : list A := map f (seq 0 n).

(** [nn.Linear]: [weight] has [out_features] rows of [in_features] entries. *)
Record Linear : Type := {
  in_features : nat;
  out_features : nat;
  weight : list (list R);
  bias : option (list R)
}.

(** [nn.Linear(inf, outf, bias=with_bias)].  The library refuses to allocate
    a parameter with a negative size; a size of zero gives an empty
    parameter, as the current releases of the library allow.  [w0] and [b0]
    are the values drawn by the random initialisation. *)
Definition nn_Linear (inf outf : Z) (with_bias : bool)
  (w0 : nat -> nat -> R) (b0 : nat -> R) : result Linear :=
  if ((0 <=? inf) && (0 <=? outf))%Z then
    Ok {| in_features := Z.to_nat inf;
          out_features := Z.to_nat outf;
          weight := tabulate (Z.to_nat outf) (fun o => tabulate (Z.to_nat inf) (w0 o));
          bias := if with_bias then Some (tabulate (Z.to_nat outf) b0) else None |}
  else Err RuntimeError.

Definition linear_row (l : Linear) (v : list R) : list R :=
  let y := map (dotprod v) (weight l) in
  match bias l with
  | Some b => zipWith Rplus y b
  | None => y
  end.

Definition Linear_forward (l : Linear) (x : tensor R) : result (tensor R) :=
  rowwise (in_features l) (out_features l) (linear_row l) x.

(** [nn.LayerNorm] over the last dimension, with its learned scale and shift. *)
Record LayerNorm : Type := {
  normalized_shape : nat;
  eps : R;
  ln_weight : list R;
  ln_bias : list R
}.

(** [nn.LayerNorm(n)]: [eps] has the library's default [1e-5], the scale
    starts at one and the shift at zero. *)
Definition nn_LayerNorm (n : Z) : result LayerNorm :=
  if (0 <=? n)%Z then
    Ok {| normalized_shape := Z.to_nat n;
          eps := (1 / 100000)%R;
          ln_weight := tabulate (Z.to_nat n) (fun _ => 1%R);
          ln_bias := tabulate (Z.to_nat n) (fun _ => 0%R) |}
  else Err RuntimeError.

Definition mean (v : list R) : R := (sum v / INR (length v))%R.

(** The biased variance, as the library's layer normalisation uses it. *)
Definition var (v : list R) : R :=
  (sum (map (fun a => (a - mean v) * (a - mean v)) v) / INR (length v))%R.

Definition standardize (ep : R) (v : list R) : list R :=
  map (fun a => ((a - mean v) / sqrt (var v + ep))%R) v.

Definition layer_norm_row (ln : LayerNorm) (v : list R) : list R :=
  zipWith Rplus (zipWith Rmult (standardize (eps ln) v) (ln_weight ln)) (ln_bias ln).

Definition LayerNorm_forward (ln : LayerNorm) (x : tensor R) : result (tensor R) :=
  rowwise (normalized_shape ln) (normalized_shape ln) (layer_norm_row ln) x.

Definition ReLU (x : tensor R) : tensor R := tmap (Rmax 0) x.

(** [nn.Dropout]. *)
Record Dropout : Type := { p : R }.

Definition nn_Dropout (prob : R) : result Dropout :=
  if Rlt_dec prob 0 then Err ValueError
  else if Rlt_dec 1 prob then Err ValueError
  else Ok {| p := prob |}.

(** [noise i] tells whether element [i] survives this call; the draws come
    from the library's random number generator.  With [p = 0], or outside
    training, the input is returned as it is. *)
Definition Dropout_forward (d : Dropout) (training : bool) (noise : nat -> bool)
  (x : tensor R) : tensor R :=
  if negb training then x
  else if Req_dec_T (p d) 0 then x
  else if Req_dec_T (p d) 1 then tmap (fun _ => 0%R) x
  else Tensor (size x)
         (zipWith (fun i a => if noise i then (a / (1 - p d))%R else 0%R)
                  (seq 0 (length (storage x))) (storage x)).

(** A score before normalisation: a real number or minus infinity. *)
Inductive score : Type :=
| Fin (r : R)
| NegInf.

Definition exp_score (s : score) : R :=
  match s with
  | Fin r => exp r
  | NegInf => 0%R
  end.

(** The softmax of a row of real numbers and minus infinities.  Real
    numbers do not overflow: what the library returns once a score is an
    infinity of the element type or not-a-number is [fsoftmax_row]
    below. *)
Definition softmax_row (row : list score) : list R :=
  let z := sum (map exp_score row) in
  map (fun s => (exp_score s / z)%R) row.

(** [F.softmax(x, dim=2)] for the three-dimensional tensor it is called on. *)
Definition softmax_dim2 (x : tensor score) : result (tensor R) :=
  match size x with
  | [_; _; k] => rowwise k k softmax_row x
  | _ => Err RuntimeError
  end.

(** Modelled from the spec: [util.mask_], which [modules.py] imports from a
    file that is not part of the sources at hand.  In every matrix of the
    batch the entries at row [i], column [j] with [j > i] are overwritten by
    [maskval]; with [mask_diagonal] the diagonal [j = i] is overwritten too.
    The update is in place: the caller goes on with the returned tensor. *)
Definition mask_ (matrices : tensor score) (maskval : score) (mask_diagonal : bool)
  : result (tensor score) :=
  match size matrices with
  | [b; h; w] =>
      let offset := if mask_diagonal then 0 else 1 in
      let mask_row i row :=
        zipWith (fun j v => if i + offset <=? j then maskval else v) (seq 0 w) row in
      Ok (Tensor [b; h; w]
            (concat (map (fun m => concat (zipWith mask_row (seq 0 h) (split_n h w m)))
                         (split_n b (h * w) (storage matrices)))))
  | _ => Err ValueError
  end.

(** [s == z] for a size tuple [s] and a tuple of Python integers [z]. *)
Fixpoint size_eqb (s : list nat) (z : list Z) : bool :=
  match s, z with
  | [], [] => true
  | a :: s', c :: z' => (Z.of_nat a =? c)%Z && size_eqb s' z'
  | _, _ => false
  end.

(** ** [class SelfAttention] *)

Module SelfAttention.

Record t : Type := {
  emb : Z;
  heads : Z;
  mask : bool;
  tokeys : Linear;
  toqueries : Linear;
  tovalues : Linear;
  unifyheads : Linear
}.

(** [__init__(self, emb, heads, mask)].  [rnd k r c] is the initial value of
    entry [(r, c)] of the [k]-th parameter tensor. *)
Definition init (emb heads : Z) (mask : bool) (rnd : nat -> nat -> nat -> R)
  : result t :=
  tokeys <- nn_Linear emb (emb * heads) false (rnd 0) (rnd 0 0) ;;
  toqueries <- nn_Linear emb (emb * heads) false (rnd 1) (rnd 1 0) ;;
  tovalues <- nn_Linear emb (emb * heads) false (rnd 2) (rnd 2 0) ;;
  unifyheads <- nn_Linear (heads * emb) emb true (rnd 3) (rnd 4 0) ;;
  Ok {| emb := emb; heads := heads; mask := mask;
        tokeys := tokeys; toqueries := toqueries; tovalues := tovalues;
        unifyheads := unifyheads |}.

(** Lines 41-43: a projection of [x], seen as [(b, t, h, e)]. *)
Definition per_head (self : t) (l : Linear) (x : tensor R) (b t e : nat)
  : result (tensor R) :=
  y <- Linear_forward l x ;;
  view y [Z.of_nat b; Z.of_nat t; heads self; Z.of_nat e].

(** Lines 48-50: the heads folded into the batch dimension. *)
Definition fold_heads (self : t) (y : tensor R) (b t e : nat) : result (tensor R) :=
  y' <- transpose12 y ;;
  view y' [(Z.of_nat b * heads self)%Z; Z.of_nat t; Z.of_nat e].

(** Lines 55 and 66: the queries are divided by [math.sqrt(e)] and
    multiplied with the transposed keys. *)
Definition scaled_dot (e : nat) (queries keys : tensor R) : result (tensor R) :=
  let queries := tmap (fun q => (q / sqrt (INR e))%R) queries in
  kT <- transpose12 keys ;;
  bmm queries kT.

(** Lines 56-57, which the source keeps as comments: queries and keys are
    both divided by [math.pow(e, 0.25)]. *)
Definition scaled_dot_both (e : nat) (queries keys : tensor R) : result (tensor R) :=
  let queries := tmap (fun q => (q / Rpower (INR e) (1 / 4))%R) queries in
  let keys := tmap (fun k => (k / Rpower (INR e) (1 / 4))%R) keys in
  kT <- transpose12 keys ;;
  bmm queries kT.

(** Lines 68-98, from the raw scores [dot] on. *)
Definition attend (self : t) (b t e : nat) (dot values : tensor R)
  : result (tensor R * tensor R) :=
  let h := heads self in
  _ <- assert_ (size_eqb (size dot) [(Z.of_nat b * h)%Z; Z.of_nat t; Z.of_nat t]) ;;
  dot <- (if mask self then mask_ (tmap Fin dot) NegInf false
          else Ok (tmap Fin dot)) ;;
  dot <- softmax_dim2 dot ;;
  out <- bmm dot values ;;
  out <- view out [Z.of_nat b; h; Z.of_nat t; Z.of_nat e] ;;
  out <- transpose12 out ;;
  out <- view out [Z.of_nat b; Z.of_nat t; (h * Z.of_nat e)%Z] ;;
  out <- Linear_forward (unifyheads self) out ;;
  Ok (dot, out).

(** Lines 35-66: the raw scores and the folded values. *)
Definition scores (self : t) (x : tensor R)
  : result (nat * nat * nat * tensor R * tensor R) :=
  match size x with
  | [b; t; e] =>
      _ <- assert_ (Z.of_nat e =? emb self)%Z ;;
      keys <- per_head self (tokeys self) x b t e ;;
      queries <- per_head self (toqueries self) x b t e ;;
      values <- per_head self (tovalues self) x b t e ;;
      keys <- fold_heads self keys b t e ;;
      queries <- fold_heads self queries b t e ;;
      values <- fold_heads self values b t e ;;
      dot <- scaled_dot e queries keys ;;
      Ok (b, t, e, dot, values)
  | _ => Err ValueError
  end.

(** The body of [forward], which also hands back the row-wise
    self-attention probabilities ([dot] after line 78). *)
Definition forward_with_attention (self : t) (x : tensor R)
  : result (tensor R * tensor R) :=
  ' (b, t, e, dot, values) <- scores self x ;;
  attend self b t e dot values.

Definition attention (self : t) (x : tensor R) : result (tensor R) :=
  r <- forward_with_attention self x ;; Ok (fst r).

Definition forward (self : t) (x : tensor R) : result (tensor R) :=
  r <- forward_with_attention self x ;; Ok (snd r).

End SelfAttention.

(** ** [class TransformerBlock] *)

Module TransformerBlock.

Record t : Type := {
  attention : SelfAttention.t;
  mask : bool;
  norm1 : LayerNorm;
  norm2 : LayerNorm;
  ff : Linear * Linear;
  do_ : Dropout
}.

(** [__init__(self, emb, heads, mask, seq_length, ff_hidden_mult, dropout)]. *)
Definition init (emb heads : Z) (mask : bool) (seq_length ff_hidden_mult : Z)
  (dropout : R) (rnd : nat -> nat -> nat -> R) : result t :=
  attention <- SelfAttention.init emb heads mask rnd ;;
  norm1 <- nn_LayerNorm emb ;;
  norm2 <- nn_LayerNorm emb ;;
  ff1 <- nn_Linear emb (ff_hidden_mult * emb) true (rnd 5) (rnd 6 0) ;;
  ff2 <- nn_Linear (ff_hidden_mult * emb) emb true (rnd 7) (rnd 8 0) ;;
  do_ <- nn_Dropout dropout ;;
  Ok {| attention := attention; mask := mask; norm1 := norm1; norm2 := norm2;
        ff := (ff1, ff2); do_ := do_ |}.

(** [self.ff]: [nn.Sequential(Linear, ReLU, Linear)]. *)
Definition ff_forward (ff : Linear * Linear) (x : tensor R) : result (tensor R) :=
  hidden <- Linear_forward (fst ff) x ;;
  Linear_forward (snd ff) (ReLU hidden).

(** [forward(self, x)]; [training] is the mode of the module and [noise1],
    [noise2] are the draws of the two dropout calls. *)
Definition forward (self : t) (training : bool) (noise1 noise2 : nat -> bool)
  (x : tensor R) : result (tensor R) :=
  attended <- SelfAttention.forward (attention self) x ;;
  s <- tadd attended x ;;
  x <- LayerNorm_forward (norm1 self) s ;;
  let x := Dropout_forward (do_ self) training noise1 x in
  fedforward <- ff_forward (ff self) x ;;
  s <- tadd fedforward x ;;
  x <- LayerNorm_forward (norm2 self) s ;;
  let x := Dropout_forward (do_ self) training noise2 x in
  Ok x.

End TransformerBlock.

(** ** Well-formedness *)

(** [x] has size [s] and as many stored elements as [s] asks for. *)
Definition shaped {A : Type} (s : list nat) (x : tensor A) : Prop :=
  size x = s /\ length (storage x) = numel s.

Definition wf_Linear (l : Linear) : Prop :=
  length (weight l) = out_features l /\
  Forall (fun row => length row = in_features l) (weight l) /\
  match bias l with
  | Some b => length b = out_features l
  | None => True
  end.

(** A projection from [e] to [h * e] features without bias. *)
Definition full_width_projection (e h : nat) (l : Linear) : Prop :=
  in_features l = e /\ out_features l = h * e /\ bias l = None /\
  length (weight l) = h * e /\
  Forall (fun row => length row = e) (weight l).

Definition wf_LayerNorm (ln : LayerNorm) : Prop :=
  length (ln_weight ln) = normalized_shape ln /\
  length (ln_bias ln) = normalized_shape ln.

Definition wf_SelfAttention (a : SelfAttention.t) : Prop :=
  let e := Z.to_nat (SelfAttention.emb a) in
  let h := Z.to_nat (SelfAttention.heads a) in
  (0 <= SelfAttention.emb a)%Z /\ (0 <= SelfAttention.heads a)%Z /\
  wf_Linear (SelfAttention.tokeys a) /\
  wf_Linear (SelfAttention.toqueries a) /\
  wf_Linear (SelfAttention.tovalues a) /\
  wf_Linear (SelfAttention.unifyheads a) /\
  in_features (SelfAttention.tokeys a) = e /\
  out_features (SelfAttention.tokeys a) = e * h /\
  in_features (SelfAttention.toqueries a) = e /\
  out_features (SelfAttention.toqueries a) = e * h /\
  in_features (SelfAttention.tovalues a) = e /\
  out_features (SelfAttention.tovalues a) = e * h /\
  in_features (SelfAttention.unifyheads a) = h * e /\
  out_features (SelfAttention.unifyheads a) = e.

Definition wf_TransformerBlock (blk : TransformerBlock.t) : Prop :=
  let a := TransformerBlock.attention blk in
  let e := Z.to_nat (SelfAttention.emb a) in
  wf_SelfAttention a /\
  wf_LayerNorm (TransformerBlock.norm1 blk) /\
  wf_LayerNorm (TransformerBlock.norm2 blk) /\
  normalized_shape (TransformerBlock.norm1 blk) = e /\
  normalized_shape (TransformerBlock.norm2 blk) = e /\
  wf_Linear (fst (TransformerBlock.ff blk)) /\
  wf_Linear (snd (TransformerBlock.ff blk)) /\
  in_features (fst (TransformerBlock.ff blk)) = e /\
  out_features (fst (TransformerBlock.ff blk)) =
    in_features (snd (TransformerBlock.ff blk)) /\
  out_features (snd (TransformerBlock.ff blk)) = e.

(** ** The block as the specification words it

    The specification describes the block position by position: the
    sublayer output is added to its input, the sum is normalised over the
    feature axis, dropout follows, and the feed-forward sublayer is two
    linear projections with a rectified-linear step in between. *)

Definition residual (sub x : list (list R)) : list (list R) :=
  zipWith (zipWith Rplus) sub x.

Definition Normalize (ln : LayerNorm) (rows : list (list R)) : list (list R) :=
  map (layer_norm_row ln) rows.

Definition FeedForward (ff : Linear * Linear) (rows : list (list R))
  : list (list R) :=
  map (fun v => linear_row (snd ff) (map (Rmax 0) (linear_row (fst ff) v))) rows.

(** The [b * t] positions of a tensor of size [(b, t, e)], and back. *)
Definition positions (b t e : nat) (x : tensor R) : list (list R) :=
  split_n (b * t) e (storage x).

Definition of_positions (b t e : nat) (rows : list (list R)) : tensor R :=
  Tensor [b; t; e] (concat rows).

Definition spec_block (blk : TransformerBlock.t) (training : bool)
  (noise1 noise2 : nat -> bool) (b t e : nat) (attended x : tensor R) : tensor R :=
  let x1 := Dropout_forward (TransformerBlock.do_ blk) training noise1
              (of_positions b t e
                 (Normalize (TransformerBlock.norm1 blk)
                    (residual (positions b t e attended) (positions b t e x)))) in
  let fed := FeedForward (TransformerBlock.ff blk) (positions b t e x1) in
  Dropout_forward (TransformerBlock.do_ blk) training noise2
    (of_positions b t e
       (Normalize (TransformerBlock.norm2 blk)
          (residual fed (positions b t e x1)))).

(** ** A small block used to exercise the statements

    Embedding width 2, one head, hidden width 4.  The value and unify-heads
    projections are the identity, keys and queries are projected to zero, and
    the feed-forward pair computes [relu(v) - relu(-v)], which is [v]. *)

Definition example_attention : SelfAttention.t := {|
  SelfAttention.emb := 2;
  SelfAttention.heads := 1;
  SelfAttention.mask := true;
  SelfAttention.tokeys :=
    {| in_features := 2; out_features := 2;
       weight := [[0; 0]; [0; 0]]%R; bias := None |};
  SelfAttention.toqueries :=
    {| in_features := 2; out_features := 2;
       weight := [[0; 0]; [0; 0]]%R; bias := None |};
  SelfAttention.tovalues :=
    {| in_features := 2; out_features := 2;
       weight := [[1; 0]; [0; 1]]%R; bias := None |};
  SelfAttention.unifyheads :=
    {| in_features := 2; out_features := 2;
       weight := [[1; 0]; [0; 1]]%R; bias := Some [0; 0]%R |}
|}.

Definition example_norm : LayerNorm := {|
  normalized_shape := 2;
  eps := (1 / 100000)%R;
  ln_weight := [1; 1]%R;
  ln_bias := [0; 0]%R
|}.

Definition example_block : TransformerBlock.t := {|
  TransformerBlock.attention := example_attention;
  TransformerBlock.mask := true;
  TransformerBlock.norm1 := example_norm;
  TransformerBlock.norm2 := example_norm;
  TransformerBlock.ff :=
    ({| in_features := 2; out_features := 4;
        weight := [[1; 0]; [0; 1]; [-1; 0]; [0; -1]]%R;
        bias := Some [0; 0; 0; 0]%R |},
     {| in_features := 4; out_features := 2;
        weight := [[1; 0; -1; 0]; [0; 1; 0; -1]]%R;
        bias := Some [0; 0]%R |});
  TransformerBlock.do_ := {| p := 0%R |}
|}.

(** One sequence of one position. *)
Definition example_input : tensor R := Tensor [1; 1; 2] [1; -1]%R.

(** The same with entries as small as the [eps] of the normalisation. *)
Definition small_input : tensor R :=
  Tensor [1; 1; 2] [1 / 100000; - (1 / 100000)]%R.

Definition zero_init : nat -> nat -> nat -> R := fun _ _ _ => 0%R.

Definition keep_all : nat -> bool := fun _ => true.

(** ** Rows of a causally masked matrix *)

(** The score is a real number. *)
Definition is_finite (s : score) : Prop := exists r, s = Fin r.

(** Row [i] of a causally masked matrix: columns after [i] are overwritten. *)
Definition causal_row (i : nat) (row : list score) : list score :=
  zipWith (fun j v => if i + 1 <=? j then NegInf else v) (seq 0 (length row)) row.

(** ** Blocks whose sublayers return their input *)

(** Every entry added to itself: a residual sum whose sublayer returned
    its input. *)
Definition doubled (rows : list (list R)) : list (list R) :=
  map (map (fun a => (a + a)%R)) rows.

(** [Normalize(Normalize(X))] for the two normalisations of a block. *)
Definition twice_normalized (blk : TransformerBlock.t) (b t e : nat) (x : tensor R)
  : tensor R :=
  of_positions b t e
    (Normalize (TransformerBlock.norm2 blk)
       (positions b t e
          (of_positions b t e
             (Normalize (TransformerBlock.norm1 blk) (positions b t e x))))).

(** What the block computes when both sublayers return their input: the
    first normalisation sees the input twice, the second one sees the
    result of the first twice. *)
Definition normalized_doubled (blk : TransformerBlock.t) (b t e : nat)
  (x : tensor R) : tensor R :=
  of_positions b t e
    (Normalize (TransformerBlock.norm1 blk) (doubled (positions b t e x))).

Definition normalized_doubled_twice (blk : TransformerBlock.t) (b t e : nat)
  (x : tensor R) : tensor R :=
  of_positions b t e
    (Normalize (TransformerBlock.norm2 blk)
       (doubled (positions b t e (normalized_doubled blk b t e x)))).

(** An entry [a] of a row [[a; -a]] after the normalisation with
    [eps = 1e-5]. *)
Definition std2 (a : R) : R := (a / sqrt (a * a + 1 / 100000))%R.

(** ** Attention, one sequence at a time *)

(** [l] with its entries taken in the order [p]. *)
Definition permute {A : Type} (d : A) (p : list nat) (l : list A) : list A :=
  map (fun i => nth i l d) p.

(** [x[:, p, :]] for a tensor of size [(b, t, e)]. *)
Definition permute_positions (p : list nat) (x : tensor R) : tensor R :=
  match size x with
  | [b; t; e] =>
      Tensor [b; t; e]
        (concat (map (fun blk => concat (permute [] p (split_n t e blk)))
                     (split_n b (t * e) (storage x))))
  | _ => x
  end.

(** The sequences of a tensor of size [(b, t, e)], each a list of [t] rows,
    and the storage of a list of sequences. *)
Definition sequences (b t e : nat) (st : list R) : list (list (list R)) :=
  map (split_n t e) (split_n b (t * e) st).

Definition flat3 {A : Type} (M : list (list (list A))) : list A :=
  concat (map (@concat A) M).

Definition uniform2 {A : Type} (t e : nat) (X : list (list A)) : Prop :=
  length X = t /\ Forall (fun row => length row = e) X.

Definition uniform3 {A : Type} (b t e : nat) (M : list (list (list A))) : Prop :=
  length M = b /\ Forall (uniform2 t e) M.

(** The part of head [c] in the projection [l] of every row of a sequence. *)
Definition head_rows (l : Linear) (h e c : nat) (X : list (list R)) : list (list R) :=
  map (fun row => nth c (split_n h e (linear_row l row)) []) X.

Definition transposeM (e : nat) (K : list (list R)) : list (list R) :=
  map (fun c => column c K) (seq 0 e).

(** The output of head [c] on the sequence [X], without mask. *)
Definition head_attention (a : SelfAttention.t) (t e h c : nat) (X : list (list R))
  : list (list R) :=
  let K := head_rows (SelfAttention.tokeys a) h e c X in
  let Q := map (map (fun q => (q / sqrt (INR e))%R))
               (head_rows (SelfAttention.toqueries a) h e c X) in
  let V := head_rows (SelfAttention.tovalues a) h e c X in
  matmul e (map softmax_row (map (map Fin) (matmul t Q (transposeM e K)))) V.

(** The rows [forward] returns for the sequence [X], without mask. *)
Definition attention_rows (a : SelfAttention.t) (t e h : nat) (X : list (list R))
  : list (list R) :=
  let outs := map (fun c => head_attention a t e h c X) (seq 0 h) in
  map (fun i => linear_row (SelfAttention.unifyheads a)
                  (concat (map (fun O => nth i O []) outs)))
      (seq 0 t).

(** The [h] heads of a sequence whose rows are [h * e] wide. *)
Definition heads_of {A : Type} (h e : nat) (X : list (list A)) : list (list (list A)) :=
  map (fun c => map (fun row => nth c (split_n h e row) []) X) (seq 0 h).

(** Row [i] of every head, one after the other. *)
Definition merged_rows {A : Type} (t : nat) (Os : list (list (list A)))
  : list (list A) :=
  map (fun i => concat (map (fun O => nth i O []) Os)) (seq 0 t).

(** One matrix per sequence and head, in the order of the folded batch
    dimension. *)
Definition heads_list {A : Type} (h : nat) (g : list (list R) -> nat -> A)
  (M : list (list (list R))) : list A :=
  concat (map (fun X => map (g X) (seq 0 h)) M).

(** The queries, keys and values of head [c] of the sequence [X]. *)
Definition head_K (a : SelfAttention.t) (h e : nat) (X : list (list R)) (c : nat) :=
  head_rows (SelfAttention.tokeys a) h e c X.

Definition head_Q (a : SelfAttention.t) (h e : nat) (X : list (list R)) (c : nat) :=
  map (map (fun q => (q / sqrt (INR e))%R))
      (head_rows (SelfAttention.toqueries a) h e c X).

Definition head_V (a : SelfAttention.t) (h e : nat) (X : list (list R)) (c : nat) :=
  head_rows (SelfAttention.tovalues a) h e c X.

Definition head_scores (a : SelfAttention.t) (t h e : nat) (X : list (list R))
  (c : nat) : list (list R) :=
  matmul t (head_Q a h e X c) (transposeM e (head_K a h e X c)).

(** The example attention module without mask, and one sequence of two
    positions. *)
Definition example_attention_unmasked : SelfAttention.t := {|
  SelfAttention.emb := SelfAttention.emb example_attention;
  SelfAttention.heads := SelfAttention.heads example_attention;
  SelfAttention.mask := false;
  SelfAttention.tokeys := SelfAttention.tokeys example_attention;
  SelfAttention.toqueries := SelfAttention.toqueries example_attention;
  SelfAttention.tovalues := SelfAttention.tovalues example_attention;
  SelfAttention.unifyheads := SelfAttention.unifyheads example_attention
|}.

Definition example_sequence : tensor R := Tensor [1; 2; 2] [1; -1; 2; 3]%R.

(** ** Attention with or without mask, one sequence at a time *)

(** A square matrix of scores after [mask_] without the diagonal. *)
Definition mask_matrix (t : nat) (S : list (list score)) : list (list score) :=
  zipWith (fun i row =>
             zipWith (fun j v => if i + 1 <=? j then NegInf else v) (seq 0 t) row)
          (seq 0 t) S.

(** The attention probabilities of one head, from its raw scores. *)
Definition head_weights (msk : bool) (t : nat) (S : list (list R)) : list (list R) :=
  map softmax_row
      (if msk then mask_matrix t (map (map Fin) S) else map (map Fin) S).

(** The output of head [c] on the sequence [X]. *)
Definition head_output (a : SelfAttention.t) (t e h c : nat) (X : list (list R))
  : list (list R) :=
  matmul e (head_weights (SelfAttention.mask a) t (head_scores a t h e X c))
         (head_V a h e X c).

(** The rows [forward] returns for the sequence [X]. *)
Definition sequence_output (a : SelfAttention.t) (t e h : nat) (X : list (list R))
  : list (list R) :=
  map (linear_row (SelfAttention.unifyheads a))
      (merged_rows t (map (fun c => head_output a t e h c X) (seq 0 h))).

(** Row [i] of a masked head: the value rows up to [i], weighted by the
    softmax of their scores. *)
Definition causal_head_row (a : SelfAttention.t) (t e h c : nat)
  (X : list (list R)) (i : nat) : list R :=
  let w := softmax_row
             (map Fin (firstn (i + 1) (nth i (head_scores a t h e X c) []))) in
  map (fun j => dotprod w (column j (head_V a h e X c))) (seq 0 e).

(** [x[:, :k, :]] for a tensor of size [(b, t, e)]. *)
Definition take_positions {A : Type} (k : nat) (x : tensor A) : tensor A :=
  match size x with
  | [b; t; e] =>
      Tensor [b; Nat.min k t; e]
        (concat (map (firstn (k * e)) (split_n b (t * e) (storage x))))
  | _ => x
  end.

(** What the block returns for the sequence [X] when dropout leaves its
    input as it is. *)
Definition block_sequence (blk : TransformerBlock.t) (t e h : nat)
  (X : list (list R)) : list (list R) :=
  let x1 := Normalize (TransformerBlock.norm1 blk)
              (residual (sequence_output (TransformerBlock.attention blk) t e h X) X) in
  Normalize (TransformerBlock.norm2 blk)
    (residual (FeedForward (TransformerBlock.ff blk) x1) x1).

(** Dropout that returns its input: outside training, or with [p = 0]. *)
Definition dropout_off (d : Dropout) (training : bool) : Prop :=
  training = false \/ p d = 0%R.

(** [x[n:n+1, :, :]] for a tensor of size [(b, t, e)] and [n < b]. *)
Definition select_sequence {A : Type} (n : nat) (x : tensor A) : tensor A :=
  match size x with
  | [b; t; e] => Tensor [1; t; e] (nth n (split_n b (t * e) (storage x)) [])
  | _ => x
  end.

(** The example block without mask. *)
Definition example_block_unmasked : TransformerBlock.t := {|
  TransformerBlock.attention := example_attention_unmasked;
  TransformerBlock.mask := false;
  TransformerBlock.norm1 := TransformerBlock.norm1 example_block;
  TransformerBlock.norm2 := TransformerBlock.norm2 example_block;
  TransformerBlock.ff := TransformerBlock.ff example_block;
  TransformerBlock.do_ := TransformerBlock.do_ example_block
|}.

(** * [former/transformers.py]

    The four models of [transformers.py] stack [TransformerBlock]s between
    an embedding of the input and a linear read-out.  Every tensor is taken
    to live on one device, so the [device=] arguments play no role. *)

(** ** More of the tensor library *)

(** [nn.Embedding]: [emb_weight] has [num_embeddings] rows of
    [embedding_dim] entries. *)
Record Embedding : Type := {
  num_embeddings : nat;
  embedding_dim : nat;
  emb_weight : list (list R)
}.

(** [nn.Embedding(num_embeddings=n, embedding_dim=d)].  As for [nn.Linear],
    a negative size is refused when the parameter is allocated; [w0] are the
    values drawn by the random initialisation. *)
Definition nn_Embedding (d n : Z) (w0 : nat -> nat -> R) : result Embedding :=
  if ((0 <=? n) && (0 <=? d))%Z then
    Ok {| num_embeddings := Z.to_nat n;
          embedding_dim := Z.to_nat d;
          emb_weight := tabulate (Z.to_nat n) (fun r => tabulate (Z.to_nat d) (w0 r)) |}
  else Err RuntimeError.

Definition lookup (m : Embedding) (i : Z) : list R :=
  nth (Z.to_nat i) (emb_weight m) [].

(** The table looked up at every index of an integer tensor of any size.
    An index outside [0 .. num_embeddings - 1] makes the library raise (its
    [IndexError], one of the errors raised inside a tensor-library
    operation). *)
Definition Embedding_forward (m : Embedding) (x : tensor Z) : result (tensor R) :=
  if forallb (fun i => (0 <=? i)%Z && (i <? Z.of_nat (num_embeddings m))%Z) (storage x)
  then Ok (Tensor (size x ++ [embedding_dim m]) (concat (map (lookup m) (storage x))))
  else Err RuntimeError.

(** [torch.arange(t)]. *)
Definition arange (t : nat) : tensor Z := Tensor [t] (map Z.of_nat (seq 0 t)).

(** [x[None, :, :]]: a leading dimension of size one; the two slices ask
    for two dimensions to be there. *)
Definition index_None (x : tensor R) : result (tensor R) :=
  match size x with
  | _ :: _ :: _ => Ok (Tensor (1 :: size x) (storage x))
  | _ => Err RuntimeError
  end.

(** A dimension may be expanded to [d] when it has that size already or has
    size one. *)
Definition expandable (d0 d : nat) : bool := (d0 =? d) || (d0 =? 1).

(** The [d0] pieces of one dimension, repeated to [d] pieces when [d0] is
    one and [d] is not. *)
Definition stretch {A : Type} (d0 d : nat) (l : list A) : list A :=
  if d0 =? d then l else concat (repeat l d).

(** [x.expand(b, t, e)] for a three-dimensional [x], laid out
    contiguously. *)
Definition expand (x : tensor R) (b t e : nat) : result (tensor R) :=
  match size x with
  | [b0; t0; e0] =>
      if expandable b0 b && expandable t0 t && expandable e0 e then
        let blocks := map (split_n t0 e0) (split_n b0 (t0 * e0) (storage x)) in
        Ok (Tensor [b; t; e]
              (flat3 (stretch b0 b
                        (map (fun rows => stretch t0 t (map (stretch e0 e) rows))
                             blocks))))
      else Err RuntimeError
  | _ => Err RuntimeError
  end.

(** The largest entry of a non-empty list. *)
Definition Rmax_list (l : list R) : R :=
  match l with
  | [] => 0%R
  | a :: l' => fold_left Rmax l' a
  end.

(** [x.max(dim=1)[0]] for the three-dimensional tensor it is called on: the
    largest value over the positions of every sequence, feature by feature.
    The library raises when there is no position to take it over. *)
Definition max_dim1 (x : tensor R) : result (tensor R) :=
  match size x with
  | [b; t; e] =>
      if t =? 0 then Err RuntimeError
      else Ok (Tensor [b; e]
                 (concat (map (fun blk =>
                                 map (fun j => Rmax_list (column j (split_n t e blk)))
                                     (seq 0 e))
                              (split_n b (t * e) (storage x)))))
  | _ => Err RuntimeError
  end.

(** [x.mean(dim=1)] for the three-dimensional tensor it is called on.  Over
    no position at all the library returns not-a-number, which the real
    numbers do not have: the values of this model mean something for
    [t > 0] only. *)
Definition mean_dim1 (x : tensor R) : result (tensor R) :=
  match size x with
  | [b; t; e] =>
      Ok (Tensor [b; e]
            (concat (map (fun blk =>
                            map (fun j => mean (column j (split_n t e blk)))
                                (seq 0 e))
                         (split_n b (t * e) (storage x)))))
  | _ => Err RuntimeError
  end.

Definition log_softmax_row (row : list R) : list R :=
  let z := sum (map exp row) in
  map (fun a => (a - ln z)%R) row.

(** [F.log_softmax(x, dim=2)] for the three-dimensional tensor it is called
    on. *)
Definition log_softmax_dim2 (x : tensor R) : result (tensor R) :=
  match size x with
  | [_; _; k] => rowwise k k log_softmax_row x
  | _ => Err RuntimeError
  end.

(** [F.log_softmax(x, dim=1)] for the two-dimensional tensor it is called
    on. *)
Definition log_softmax_dim1 (x : tensor R) : result (tensor R) :=
  match size x with
  | [_; k] => rowwise k k log_softmax_row x
  | _ => Err RuntimeError
  end.

(** The results of a list of constructor calls, up to the first that
    raises. *)
Fixpoint collect {A : Type} (l : list (result A)) : result (list A) :=
  match l with
  | [] => Ok []
  | r :: l' => a <- r ;; rest <- collect l' ;; Ok (a :: rest)
  end.

(** [nn.Sequential] of blocks.  [training] is the mode of the model, which
    [train()] and [eval()] set for every submodule; [noise k] are the draws
    of the [k]-th dropout call of the forward pass, of which every block
    makes two. *)
Fixpoint Sequential_forward (blocks : list TransformerBlock.t) (training : bool)
  (noise : nat -> nat -> bool) (call : nat) (x : tensor R) : result (tensor R) :=
  match blocks with
  | [] => Ok x
  | blk :: rest =>
      y <- TransformerBlock.forward blk training (noise call) (noise (call + 1)) x ;;
      Sequential_forward rest training noise (call + 2) y
  end.

(** ** [class GTransformer] *)

Module GTransformer.

Record t : Type := {
  num_tokens : Z;
  token_embedding : Embedding;
  pos_embedding : Embedding;
  tblocks : list TransformerBlock.t;
  toprobs : Linear
}.

(** [__init__(self, emb, heads, depth, seq_length, num_tokens)].
    [rnd m] holds the initial values of the parameters of the [m]-th
    submodule; [range(depth)] is empty for a [depth] that is not positive.
    The blocks take the defaults [ff_hidden_mult=4] and [dropout=0.0]. *)
Definition init (emb heads depth seq_length num_tokens : Z)
  (rnd : nat -> nat -> nat -> nat -> R) : result t :=
  token_embedding <- nn_Embedding emb num_tokens (rnd 0 0) ;;
  pos_embedding <- nn_Embedding emb seq_length (rnd 1 0) ;;
  tblocks <- collect (map (fun i => TransformerBlock.init emb heads true seq_length
                                      4 0 (rnd (3 + i)))
                          (seq 0 (Z.to_nat depth))) ;;
  toprobs <- nn_Linear emb num_tokens true (rnd 2 0) (rnd 2 1 0) ;;
  Ok {| num_tokens := num_tokens; token_embedding := token_embedding;
        pos_embedding := pos_embedding; tblocks := tblocks; toprobs := toprobs |}.

(** [forward(self, x)] for a tensor [x] of token indices. *)
Definition forward (self : t) (training : bool) (noise : nat -> nat -> bool)
  (x : tensor Z) : result (tensor R) :=
  tokens <- Embedding_forward (token_embedding self) x ;;
  match size tokens with
  | [b; t; e] =>
      positions <- Embedding_forward (pos_embedding self) (arange t) ;;
      positions <- index_None positions ;;
      positions <- expand positions b t e ;;
      x <- tadd tokens positions ;;
      x <- Sequential_forward (tblocks self) training noise 0 x ;;
      x <- view x [(Z.of_nat b * Z.of_nat t)%Z; Z.of_nat e] ;;
      x <- Linear_forward (toprobs self) x ;;
      x <- view x [Z.of_nat b; Z.of_nat t; num_tokens self] ;;
      log_softmax_dim2 x
  | _ => Err ValueError
  end.

End GTransformer.

(** ** [class CTransformer] *)

Module CTransformer.

Record t : Type := {
  num_tokens : Z;
  max_pool : bool;
  token_embedding : Embedding;
  pos_embedding : Embedding;
  tblocks : list TransformerBlock.t;
  toprobs : Linear;
  do_ : Dropout
}.

(** [__init__(self, emb, heads, depth, seq_length, num_tokens, num_classes,
    max_pool, dropout)]. *)
Definition init (emb heads depth seq_length num_tokens num_classes : Z)
  (max_pool : bool) (dropout : R) (rnd : nat -> nat -> nat -> nat -> R)
  : result t :=
  token_embedding <- nn_Embedding emb num_tokens (rnd 0 0) ;;
  pos_embedding <- nn_Embedding emb seq_length (rnd 1 0) ;;
  tblocks <- collect (map (fun i => TransformerBlock.init emb heads false seq_length
                                      4 dropout (rnd (3 + i)))
                          (seq 0 (Z.to_nat depth))) ;;
  toprobs <- nn_Linear emb num_classes true (rnd 2 0) (rnd 2 1 0) ;;
  do_ <- nn_Dropout dropout ;;
  Ok {| num_tokens := num_tokens; max_pool := max_pool;
        token_embedding := token_embedding; pos_embedding := pos_embedding;
        tblocks := tblocks; toprobs := toprobs; do_ := do_ |}.

(** [forward(self, x)]; [noise 0] are the draws of the model's own dropout
    call, the blocks use the following ones. *)
Definition forward (self : t) (training : bool) (noise : nat -> nat -> bool)
  (x : tensor Z) : result (tensor R) :=
  tokens <- Embedding_forward (token_embedding self) x ;;
  match size tokens with
  | [b; t; e] =>
      positions <- Embedding_forward (pos_embedding self) (arange t) ;;
      positions <- index_None positions ;;
      positions <- expand positions b t e ;;
      x <- tadd tokens positions ;;
      let x := Dropout_forward (do_ self) training (noise 0) x in
      x <- Sequential_forward (tblocks self) training noise 1 x ;;
      x <- (if max_pool self then max_dim1 x else mean_dim1 x) ;;
      x <- Linear_forward (toprobs self) x ;;
      log_softmax_dim1 x
  | _ => Err ValueError
  end.

End CTransformer.

(** ** [class TSTransformer] *)

Module TSTransformer.

Record t : Type := {
  max_pool : bool;
  pos_embedding : Embedding;
  tblocks : list TransformerBlock.t;
  toprobs : Linear;
  do_ : Dropout
}.

(** [__init__(self, feature_dim, heads, depth, seq_length, num_classes,
    max_pool, dropout)]. *)
Definition init (feature_dim heads depth seq_length num_classes : Z)
  (max_pool : bool) (dropout : R) (rnd : nat -> nat -> nat -> nat -> R)
  : result t :=
  pos_embedding <- nn_Embedding feature_dim seq_length (rnd 1 0) ;;
  tblocks <- collect (map (fun i => TransformerBlock.init feature_dim heads true
                                      seq_length 4 dropout (rnd (3 + i)))
                          (seq 0 (Z.to_nat depth))) ;;
  toprobs <- nn_Linear feature_dim num_classes true (rnd 2 0) (rnd 2 1 0) ;;
  do_ <- nn_Dropout dropout ;;
  Ok {| max_pool := max_pool; pos_embedding := pos_embedding;
        tblocks := tblocks; toprobs := toprobs; do_ := do_ |}.

(** [forward(self, x)] for a tensor [x] of numbers.  The positions are
    created on the device that [d()] of [util] names, a function that is
    not among the sources at hand; [x] is taken to live on that device. *)
Definition forward (self : t) (training : bool) (noise : nat -> nat -> bool)
  (x : tensor R) : result (tensor R) :=
  match size x with
  | [b; t; e] =>
      positions <- Embedding_forward (pos_embedding self) (arange t) ;;
      positions <- index_None positions ;;
      positions <- expand positions b t e ;;
      x <- tadd x positions ;;
      let x := Dropout_forward (do_ self) training (noise 0) x in
      x <- Sequential_forward (tblocks self) training noise 1 x ;;
      x <- (if max_pool self then max_dim1 x else mean_dim1 x) ;;
      x <- Linear_forward (toprobs self) x ;;
      log_softmax_dim1 x
  | _ => Err ValueError
  end.

End TSTransformer.

(** ** [class TSRegTransformer] *)

Module TSRegTransformer.

Record t : Type := {
  max_pool : bool;
  pos_embedding : Embedding;
  tblocks : list TransformerBlock.t;
  linear_output : Linear;
  do_ : Dropout
}.

(** [__init__(self, feature_dim, heads, depth, seq_length, out_dim,
    max_pool, dropout)]. *)
Definition init (feature_dim heads depth seq_length out_dim : Z)
  (max_pool : bool) (dropout : R) (rnd : nat -> nat -> nat -> nat -> R)
  : result t :=
  pos_embedding <- nn_Embedding feature_dim seq_length (rnd 1 0) ;;
  tblocks <- collect (map (fun i => TransformerBlock.init feature_dim heads true
                                      seq_length 4 dropout (rnd (3 + i)))
                          (seq 0 (Z.to_nat depth))) ;;
  linear_output <- nn_Linear feature_dim out_dim true (rnd 2 0) (rnd 2 1 0) ;;
  do_ <- nn_Dropout dropout ;;
  Ok {| max_pool := max_pool; pos_embedding := pos_embedding;
        tblocks := tblocks; linear_output := linear_output; do_ := do_ |}.

(** [forward(self, x)]; [x.float()] changes nothing for idealised
    numbers. *)
Definition forward (self : t) (training : bool) (noise : nat -> nat -> bool)
  (x : tensor R) : result (tensor R) :=
  match size x with
  | [b; t; e] =>
      positions <- Embedding_forward (pos_embedding self) (arange t) ;;
      positions <- index_None positions ;;
      positions <- expand positions b t e ;;
      x <- tadd x positions ;;
      let x := Dropout_forward (do_ self) training (noise 0) x in
      x <- Sequential_forward (tblocks self) training noise 1 x ;;
      x <- (if max_pool self then max_dim1 x else mean_dim1 x) ;;
      Linear_forward (linear_output self) x
  | _ => Err ValueError
  end.

End TSRegTransformer.

(** ** Well-formed models, and the models one sequence at a time *)

Definition wf_Embedding (m : Embedding) : Prop :=
  length (emb_weight m) = num_embeddings m /\
  Forall (fun row => length row = embedding_dim m) (emb_weight m).

(** The index has a row in the table. *)
Definition in_vocabulary (m : Embedding) (i : Z) : Prop :=
  (0 <= i < Z.of_nat (num_embeddings m))%Z.

(** The embeddings of the positions [0 .. t - 1]. *)
Definition position_rows (m : Embedding) (t : nat) : list (list R) :=
  map (fun i => lookup m (Z.of_nat i)) (seq 0 t).

(** Blocks of embedding width [e] with [h] heads. *)
Definition wf_stack (e h : nat) (blocks : list TransformerBlock.t) : Prop :=
  Forall (fun blk =>
            wf_TransformerBlock blk /\
            Z.of_nat e = SelfAttention.emb (TransformerBlock.attention blk) /\
            Z.of_nat h = SelfAttention.heads (TransformerBlock.attention blk))
         blocks.

(** What a stack of blocks returns for the sequence [X] when dropout leaves
    its input as it is. *)
Definition stack_sequence (blocks : list TransformerBlock.t) (t e h : nat)
  (X : list (list R)) : list (list R) :=
  fold_left (fun X blk => block_sequence blk t e h X) blocks X.

(** The entries are the logarithms of probabilities that sum to one. *)
Definition log_probabilities (row : list R) : Prop :=
  sum (map exp row) = 1%R.

(** [x[:, :k]] for a tensor of size [(b, t)]. *)
Definition take_tokens {A : Type} (k : nat) (x : tensor A) : tensor A :=
  match size x with
  | [b; t] =>
      Tensor [b; Nat.min k t] (concat (map (firstn k) (split_n b t (storage x))))
  | _ => x
  end.

(** What [GTransformer.forward] returns for the token sequence [toks]. *)
Definition generated_sequence (g : GTransformer.t) (t e h : nat) (toks : list Z)
  : list (list R) :=
  map (fun v => log_softmax_row (linear_row (GTransformer.toprobs g) v))
      (stack_sequence (GTransformer.tblocks g) t e h
         (residual (map (lookup (GTransformer.token_embedding g)) toks)
                   (position_rows (GTransformer.pos_embedding g) t))).

(** The lines the forward functions of the three pooled models share, from
    the position embedding to the pooling; [k] is what follows them. *)
Definition pooled_body {B : Type} (pos : Embedding)
  (blocks : list TransformerBlock.t) (d : Dropout) (mp : bool)
  (training : bool) (noise : nat -> nat -> bool) (b t e : nat) (x : tensor R)
  (k : tensor R -> result B) : result B :=
  positions <- Embedding_forward pos (arange t) ;;
  positions <- index_None positions ;;
  positions <- expand positions b t e ;;
  x <- tadd x positions ;;
  let x := Dropout_forward d training (noise 0) x in
  x <- Sequential_forward blocks training noise 1 x ;;
  x <- (if mp then max_dim1 x else mean_dim1 x) ;;
  k x.

(** One sequence of two tokens, and initial weights that are all zero. *)
Definition example_tokens : tensor Z := Tensor [1; 2] [1; 3]%Z.

Definition zero_weights : nat -> nat -> nat -> nat -> R := fun _ _ _ _ => 0%R.

Definition no_noise : nat -> nat -> bool := fun _ _ => true.

(** [x[n:n+1, :]] for a tensor of size [(b, t)] and [n < b]. *)
Definition select_row {A : Type} (n : nat) (x : tensor A) : tensor A :=
  match size x with
  | [b; t] => Tensor [1; t] (nth n (split_n b t (storage x)) [])
  | _ => x
  end.

(** ** A batch of two sequences

    A module whose keys, queries and values all depend on the input, the
    block around it, a batch of two different sequences of two positions, a
    batch of two rows of tokens, and weights that are not zero. *)

Definition mixing_attention : SelfAttention.t := {|
  SelfAttention.emb := 2;
  SelfAttention.heads := 1;
  SelfAttention.mask := true;
  SelfAttention.tokeys :=
    {| in_features := 2; out_features := 2;
       weight := [[1; 0]; [0; 1]]%R; bias := None |};
  SelfAttention.toqueries :=
    {| in_features := 2; out_features := 2;
       weight := [[1; 1]; [0; 1]]%R; bias := None |};
  SelfAttention.tovalues :=
    {| in_features := 2; out_features := 2;
       weight := [[1; 0]; [1; 1]]%R; bias := None |};
  SelfAttention.unifyheads :=
    {| in_features := 2; out_features := 2;
       weight := [[1; 0]; [0; 1]]%R; bias := Some [0; 1]%R |}
|}.

Definition mixing_block : TransformerBlock.t := {|
  TransformerBlock.attention := mixing_attention;
  TransformerBlock.mask := true;
  TransformerBlock.norm1 := example_norm;
  TransformerBlock.norm2 := example_norm;
  TransformerBlock.ff := TransformerBlock.ff example_block;
  TransformerBlock.do_ := {| p := 0%R |}
|}.

Definition example_batch : tensor R :=
  Tensor [2; 2; 2] [1; -1; 2; 3; 0; 1; 4; -2]%R.

Definition example_token_batch : tensor Z := Tensor [2; 2] [1; 3; 0; 2]%Z.

Definition example_weights : nat -> nat -> nat -> nat -> R :=
  fun m k r c => INR (1 + m + k + r + c).

(** ** Floating-point values in the attention weights

    Real numbers have no infinity and no not-a-number, so the idealised
    model cannot show what the softmax returns once a score has left the
    range of the element type.  The lines of [SelfAttention.forward] up to
    the softmax are therefore modelled a second time over floating-point
    values: a number in range, one of the two infinities, or not-a-number,
    with the arithmetic of the IEEE standard on them.  The rounding of a
    result in range stays idealised; a result out of range overflows to an
    infinity. *)

Inductive fvalue : Type :=
| Num (r : R)
| PosInf
| MinusInf
| NaN.

(** The largest number of the library's default element type, 32-bit
    floating point. *)
Definition float_max : R := ((2 - / 2 ^ 23) * 2 ^ 127)%R.

(** The result [r] of an operation, as the element type holds it. *)
Definition overflow (r : R) : fvalue :=
  if Rle_dec (Rabs r) float_max then Num r
  else if Rlt_dec 0 r then PosInf else MinusInf.

(** An infinity, positive or not, multiplied by the number [a]. *)
Definition scale_inf (positive : bool) (a : R) : fvalue :=
  if Req_dec_T a 0 then NaN
  else if Rlt_dec 0 a then (if positive then PosInf else MinusInf)
  else (if positive then MinusInf else PosInf).

Definition fadd (x y : fvalue) : fvalue :=
  match x, y with
  | NaN, _ | _, NaN => NaN
  | Num a, Num b => overflow (a + b)
  | PosInf, MinusInf | MinusInf, PosInf => NaN
  | PosInf, _ | _, PosInf => PosInf
  | MinusInf, _ | _, MinusInf => MinusInf
  end.

Definition fmul (x y : fvalue) : fvalue :=
  match x, y with
  | NaN, _ | _, NaN => NaN
  | Num a, Num b => overflow (a * b)
  | PosInf, Num a | Num a, PosInf => scale_inf true a
  | MinusInf, Num a | Num a, MinusInf => scale_inf false a
  | PosInf, PosInf | MinusInf, MinusInf => PosInf
  | PosInf, MinusInf | MinusInf, PosInf => MinusInf
  end.

(** [x / c] for the scalar [c = math.sqrt(e)], which is not negative; a
    division by zero raises nothing and gives an infinity or
    not-a-number. *)
Definition fdiv (x : fvalue) (c : R) : fvalue :=
  match x with
  | NaN => NaN
  | Num a => if Req_dec_T c 0 then scale_inf true a else overflow (a / c)
  | PosInf => PosInf
  | MinusInf => MinusInf
  end.

(** The products are summed from left to right.  The library may add them
    in another order, which shows only when a partial sum overflows. *)
Definition fdot (u v : list fvalue) : fvalue :=
  fold_left fadd (zipWith fmul u v) (Num 0).

Definition fcolumn (j : nat) (m : list (list fvalue)) : list fvalue :=
  map (fun row => nth j row (Num 0)) m.

Definition fmatmul (p : nat) (a b : list (list fvalue)) : list (list fvalue) :=
  map (fun row => map (fun j => fdot row (fcolumn j b)) (seq 0 p)) a.

(** [torch.bmm(x, y)] on floating-point values. *)
Definition fbmm (x y : tensor fvalue) : result (tensor fvalue) :=
  match size x, size y with
  | [n; m; k], [n'; k'; p] =>
      if (n =? n') && (k =? k') then
        Ok (Tensor [n; m; p]
              (concat (zipWith (fun a b =>
                                  concat (fmatmul p (split_n m k a) (split_n k p b)))
                               (split_n n (m * k) (storage x))
                               (split_n n (k * p) (storage y)))))
      else Err RuntimeError
  | _, _ => Err RuntimeError
  end.

(** A linear layer applied to a row of floating-point values; its weights
    are numbers in range. *)
Definition flinear_row (l : Linear) (v : list fvalue) : list fvalue :=
  let y := map (fun w => fdot v (map Num w)) (weight l) in
  match bias l with
  | Some b => zipWith fadd y (map Num b)
  | None => y
  end.

Definition fLinear_forward (l : Linear) (x : tensor fvalue) : result (tensor fvalue) :=
  rowwise (in_features l) (out_features l) (flinear_row l) x.

(** Modelled from the spec: [util.mask_] as above, on floating-point
    values. *)
Definition fmask_ (matrices : tensor fvalue) (maskval : fvalue) (mask_diagonal : bool)
  : result (tensor fvalue) :=
  match size matrices with
  | [b; h; w] =>
      let offset := if mask_diagonal then 0 else 1 in
      let mask_row i row :=
        zipWith (fun j v => if i + offset <=? j then maskval else v) (seq 0 w) row in
      Ok (Tensor [b; h; w]
            (concat (map (fun m => concat (zipWith mask_row (seq 0 h) (split_n h w m)))
                         (split_n b (h * w) (storage matrices)))))
  | _ => Err ValueError
  end.

Definition is_num (v : fvalue) : bool :=
  match v with
  | Num _ => true
  | _ => false
  end.

(** The value makes every softmax weight of its row not-a-number. *)
Definition spoils (v : fvalue) : bool :=
  match v with
  | PosInf | NaN => true
  | _ => false
  end.

Definition as_score (v : fvalue) : score :=
  match v with
  | Num r => Fin r
  | _ => NegInf
  end.

(** The number a value holds (zero for the values that hold none). *)
Definition number (v : fvalue) : R :=
  match v with
  | Num r => r
  | _ => 0%R
  end.

(** The softmax of a row of floating-point values.  The library subtracts
    the largest entry before it takes exponentials: a positive infinity or
    a not-a-number in the row, or a row of negative infinities only, leaves
    not-a-number everywhere; otherwise the weights are those of the numbers
    in the row, and zero at a negative infinity. *)
Definition fsoftmax_row (row : list fvalue) : list fvalue :=
  if existsb spoils row || negb (existsb is_num row)
  then map (fun _ => NaN) row
  else map Num (softmax_row (map as_score row)).

(** [F.softmax(x, dim=2)] on floating-point values. *)
Definition fsoftmax_dim2 (x : tensor fvalue) : result (tensor fvalue) :=
  match size x with
  | [_; _; k] => rowwise k k fsoftmax_row x
  | _ => Err RuntimeError
  end.

(** Lines 35-78 of [SelfAttention.forward] on floating-point values. *)
Module FloatAttention.

Definition per_head (self : SelfAttention.t) (l : Linear) (x : tensor fvalue)
  (b t e : nat) : result (tensor fvalue) :=
  y <- fLinear_forward l x ;;
  view y [Z.of_nat b; Z.of_nat t; SelfAttention.heads self; Z.of_nat e].

Definition fold_heads (self : SelfAttention.t) (y : tensor fvalue) (b t e : nat)
  : result (tensor fvalue) :=
  y' <- transpose12 y ;;
  view y' [(Z.of_nat b * SelfAttention.heads self)%Z; Z.of_nat t; Z.of_nat e].

Definition scaled_dot (e : nat) (queries keys : tensor fvalue)
  : result (tensor fvalue) :=
  let queries := tmap (fun q => fdiv q (sqrt (INR e))) queries in
  kT <- transpose12 keys ;;
  fbmm queries kT.

(** Lines 35-66: the raw scores. *)
Definition scores (self : SelfAttention.t) (x : tensor fvalue)
  : result (nat * nat * nat * tensor fvalue * tensor fvalue) :=
  match size x with
  | [b; t; e] =>
      _ <- assert_ (Z.of_nat e =? SelfAttention.emb self)%Z ;;
      keys <- per_head self (SelfAttention.tokeys self) x b t e ;;
      queries <- per_head self (SelfAttention.toqueries self) x b t e ;;
      values <- per_head self (SelfAttention.tovalues self) x b t e ;;
      keys <- fold_heads self keys b t e ;;
      queries <- fold_heads self queries b t e ;;
      values <- fold_heads self values b t e ;;
      dot <- scaled_dot e queries keys ;;
      Ok (b, t, e, dot, values)
  | _ => Err ValueError
  end.

(** Lines 68-78: the row-wise self-attention probabilities. *)
Definition attention (self : SelfAttention.t) (x : tensor fvalue)
  : result (tensor fvalue) :=
  ' (b, t, e, dot, values) <- scores self x ;;
  _ <- assert_ (size_eqb (size dot)
                  [(Z.of_nat b * SelfAttention.heads self)%Z; Z.of_nat t; Z.of_nat t]) ;;
  dot <- (if SelfAttention.mask self then fmask_ dot MinusInf false else Ok dot) ;;
  fsoftmax_dim2 dot.

End FloatAttention.

(** Row [i] of a causally masked matrix of floating-point values. *)
Definition fcausal_row (i : nat) (row : list fvalue) : list fvalue :=
  zipWith (fun j v => if i + 1 <=? j then MinusInf else v) (seq 0 (length row)) row.

(** The scores of a row up to column [i] as real numbers; the columns after
    [i] are masked anyway and are taken as zero. *)
Definition visible_scores (i : nat) (row : list fvalue) : list score :=
  map as_score (firstn (S i) row) ++ repeat (Fin 0) (length row - S i).

(** A module with one head of width one whose projections copy the input,
    and two inputs of two positions: one small, one whose square leaves the
    range of the element type. *)
Definition copying_attention : SelfAttention.t := {|
  SelfAttention.emb := 1;
  SelfAttention.heads := 1;
  SelfAttention.mask := true;
  SelfAttention.tokeys :=
    {| in_features := 1; out_features := 1; weight := [[1]]%R; bias := None |};
  SelfAttention.toqueries :=
    {| in_features := 1; out_features := 1; weight := [[1]]%R; bias := None |};
  SelfAttention.tovalues :=
    {| in_features := 1; out_features := 1; weight := [[1]]%R; bias := None |};
  SelfAttention.unifyheads :=
    {| in_features := 1; out_features := 1; weight := [[1]]%R;
       bias := Some [0]%R |}
|}.

Definition small_scores_input : tensor fvalue :=
  Tensor [1; 2; 1] [Num 1; Num 2].

Definition overflowing_input : tensor fvalue :=
  Tensor [1; 2; 1] [Num (10 ^ 20); Num (10 ^ 20)].

(** * The tensor operations on small inputs *)

Example split_n_pieces : split_n 2 3 [1; 2; 3; 4; 5; 6] = [[1; 2; 3]; [4; 5; 6]].
Proof. reflexivity. Qed.

Example view_same_storage :
  view (Tensor [2; 3] [1; 2; 3; 4; 5; 6]) [3; 2]%Z
  = Ok (Tensor [3; 2] [1; 2; 3; 4; 5; 6]).
Proof. reflexivity. Qed.

Example view_wrong_count :
  view (Tensor [2; 3] [1; 2; 3; 4; 5; 6]) [4; 2]%Z = Err RuntimeError.
Proof. reflexivity. Qed.

(** [x[0, i, j]] moves to [y[0, j, i]]. *)
Example transpose12_matrix :
  transpose12 (Tensor [1; 2; 3] [1; 2; 3; 4; 5; 6])
  = Ok (Tensor [1; 3; 2] [1; 4; 2; 5; 3; 6]).
Proof. reflexivity. Qed.

(** Two positions of two heads of width two: the heads come first. *)
Example transpose12_heads_first :
  transpose12 (Tensor [1; 2; 2; 2] [1; 2; 3; 4; 5; 6; 7; 8])
  = Ok (Tensor [1; 2; 2; 2] [1; 2; 5; 6; 3; 4; 7; 8]).
Proof. reflexivity. Qed.

Example mask_upper_triangle :
  mask_ (Tensor [1; 2; 2] [Fin 1; Fin 2; Fin 3; Fin 4]) NegInf false
  = Ok (Tensor [1; 2; 2] [Fin 1; NegInf; Fin 3; Fin 4]).
Proof. reflexivity. Qed.

Example mask_with_diagonal :
  mask_ (Tensor [1; 2; 2] [Fin 1; Fin 2; Fin 3; Fin 4]) NegInf true
  = Ok (Tensor [1; 2; 2] [NegInf; NegInf; Fin 3; NegInf]).
Proof. reflexivity. Qed.

Example bmm_two_by_two :
  bmm (Tensor [1; 2; 2] [1; 2; 3; 4]%R) (Tensor [1; 2; 2] [5; 6; 7; 8]%R)
  = Ok (Tensor [1; 2; 2] [19; 22; 43; 50]%R).
Proof.
  unfold bmm. simpl. unfold dotprod, sum. simpl.
  f_equal. f_equal.
  f_equal; [ring | f_equal; [ring | f_equal; [ring | f_equal; ring]]].
Qed.

Example permute_positions_swap :
  permute_positions [1; 0] (Tensor [1; 2; 2] [1; 2; 3; 4]%R)
  = Tensor [1; 2; 2] [3; 4; 1; 2]%R.
Proof. reflexivity. Qed.

Example forward_wrong_width :
  SelfAttention.forward example_attention (Tensor [1; 1; 3] [1; 2; 3]%R)
  = Err AssertionError.
Proof. reflexivity. Qed.

Example forward_not_three_dimensional :
  SelfAttention.forward example_attention (Tensor [1; 2] [1; 2]%R)
  = Err ValueError.
Proof. reflexivity. Qed.

(** * Auxiliary facts *)

(** ** Lists: lengths, pieces and their concatenation *)

Section ListFacts.

Context {A : Type}.

Lemma length_zipWith {B C : Type} (f : A -> B -> C) (u : list A) (v : list B) :
  length (zipWith f u v) = Nat.min (length u) (length v).
Proof.
  revert v; induction u as [|a u IH]; intros [|b v]; simpl; auto.
Qed.

Lemma length_split_n (count m : nat) (l : list A) :
  length (split_n count m l) = count.
Proof.
  revert l; induction count as [|c IH]; intros l; simpl; auto.
Qed.

Lemma split_n_lengths (count m : nat) (l : list A) :
  length l = count * m ->
  Forall (fun piece => length piece = m) (split_n count m l).
Proof.
  revert l; induction count as [|c IH]; intros l Hl; simpl.
  - constructor.
  - constructor.
    + rewrite length_firstn. simpl in Hl. lia.
    + apply IH. rewrite length_skipn. simpl in Hl. lia.
Qed.

Lemma concat_split_n (count m : nat) (l : list A) :
  length l = count * m -> concat (split_n count m l) = l.
Proof.
  revert l; induction count as [|c IH]; intros l Hl; simpl.
  - destruct l; simpl in *; [reflexivity | discriminate].
  - rewrite IH.
    + apply firstn_skipn.
    + rewrite length_skipn. simpl in Hl. lia.
Qed.

Lemma length_concat_uniform (m : nat) (ls : list (list A)) :
  Forall (fun piece => length piece = m) ls ->
  length (concat ls) = length ls * m.
Proof.
  induction 1 as [|piece ls Hp _ IH]; simpl; auto.
  rewrite length_app, IH, Hp. reflexivity.
Qed.

Lemma split_n_concat (m : nat) (ls : list (list A)) :
  Forall (fun piece => length piece = m) ls ->
  split_n (length ls) m (concat ls) = ls.
Proof.
  induction 1 as [|piece ls Hp _ IH]; simpl; auto.
  subst m. rewrite firstn_app, skipn_app, Nat.sub_diag, firstn_all, skipn_all.
  simpl. rewrite app_nil_r. now rewrite IH.
Qed.

Lemma Forall_map_length {B : Type} (f : A -> list B) (n : nat) (l : list A) :
  (forall a, In a l -> length (f a) = n) ->
  Forall (fun piece => length piece = n) (map f l).
Proof.
  intros H. apply Forall_forall. intros y Hy.
  apply in_map_iff in Hy. destruct Hy as [a [<- Ha]]. auto.
Qed.

End ListFacts.

Lemma numel_app (s1 s2 : list nat) : numel (s1 ++ s2) = numel s1 * numel s2.
Proof.
  induction s1 as [|a s1 IH]; simpl.
  - lia.
  - rewrite IH. lia.
Qed.

Lemma last_dim_app (lead : list nat) (d : nat) :
  last_dim (lead ++ [d]) = Some (lead, d).
Proof.
  unfold last_dim. rewrite rev_app_distr. simpl. now rewrite rev_involutive.
Qed.

(** ** Sizes of the results of the tensor operations *)

Lemma shaped_tmap {A B : Type} (f : A -> B) (s : list nat) (x : tensor A) :
  shaped s x -> shaped s (tmap f x).
Proof.
  intros [Hs Hl]. split; simpl; auto. now rewrite length_map.
Qed.

Lemma rowwise_shaped {A B : Type} (lead : list nat) (d d' : nat)
  (f : list A -> list B) (x : tensor A) :
  shaped (lead ++ [d]) x ->
  (forall v, length v = d -> length (f v) = d') ->
  exists y, rowwise d d' f x = Ok y /\ shaped (lead ++ [d']) y /\
            storage y = concat (map f (split_n (numel lead) d (storage x))).
Proof.
  intros [Hs Hl] Hf. unfold rowwise. rewrite Hs, last_dim_app, Nat.eqb_refl.
  eexists; split; [reflexivity|]. split; [|reflexivity].
  split; simpl; auto.
  rewrite numel_app in *. simpl in *.
  rewrite (@length_concat_uniform _ d').
  - rewrite length_map, length_split_n. lia.
  - apply Forall_map_length. intros v Hv. apply Hf.
    pose proof (@split_n_lengths _ (numel lead) d (storage x)) as HF.
    rewrite Forall_forall in HF. apply HF; auto. lia.
Qed.

Lemma rowwise_mismatch {A B : Type} (lead : list nat) (d d_in d' : nat)
  (f : list A -> list B) (x : tensor A) :
  size x = lead ++ [d] -> d <> d_in -> rowwise d_in d' f x = Err RuntimeError.
Proof.
  intros Hs Hd. unfold rowwise. rewrite Hs, last_dim_app.
  apply Nat.eqb_neq in Hd. now rewrite Hd.
Qed.

Lemma view_shaped {A : Type} (s : list nat) (z : list Z) (x : tensor A) :
  shaped s x -> Forall (fun c => (0 <= c)%Z) z -> numel (map Z.to_nat z) = numel s ->
  exists y, view x z = Ok y /\ shaped (map Z.to_nat z) y /\ storage y = storage x.
Proof.
  intros [Hs Hl] Hz Hn. unfold view.
  assert (forallb (Z.leb 0) z = true) as ->.
  { apply forallb_forall. rewrite Forall_forall in Hz. intros c Hc.
    apply Z.leb_le. auto. }
  rewrite Hs, Hn, Nat.eqb_refl.
  eexists; split; [reflexivity|]. split; [|reflexivity].
  split; simpl; auto. congruence.
Qed.

Lemma length_linear_row (l : Linear) (v : list R) :
  wf_Linear l -> length (linear_row l v) = out_features l.
Proof.
  intros (Hw & _ & Hb). unfold linear_row.
  destruct (bias l) as [b|].
  - rewrite length_zipWith, length_map. lia.
  - now rewrite length_map.
Qed.

Lemma Linear_forward_shaped (l : Linear) (lead : list nat) (x : tensor R) :
  wf_Linear l -> shaped (lead ++ [in_features l]) x ->
  exists y, Linear_forward l x = Ok y /\ shaped (lead ++ [out_features l]) y /\
            storage y = concat (map (linear_row l)
                                  (split_n (numel lead) (in_features l) (storage x))).
Proof.
  intros Hl Hx. apply rowwise_shaped; auto.
  intros v _. now apply length_linear_row.
Qed.

Lemma length_layer_norm_row (ln : LayerNorm) (v : list R) :
  wf_LayerNorm ln -> length v = normalized_shape ln ->
  length (layer_norm_row ln v) = normalized_shape ln.
Proof.
  intros [Hw Hb] Hv. unfold layer_norm_row, standardize.
  rewrite !length_zipWith, length_map. lia.
Qed.

Lemma LayerNorm_forward_shaped (ln : LayerNorm) (lead : list nat) (x : tensor R) :
  wf_LayerNorm ln -> shaped (lead ++ [normalized_shape ln]) x ->
  exists y, LayerNorm_forward ln x = Ok y /\
            shaped (lead ++ [normalized_shape ln]) y /\
            storage y = concat (map (layer_norm_row ln)
                                  (split_n (numel lead) (normalized_shape ln) (storage x))).
Proof.
  intros Hl Hx. apply rowwise_shaped; auto.
  intros v Hv. now apply length_layer_norm_row.
Qed.

Lemma length_transpose_block {A : Type} (d1 d2 r : nat) (blk : list A) :
  length blk = d1 * d2 * r ->
  length (concat (map (@concat A)
            (transpose_cells d2 (map (split_n d2 r) (split_n d1 (d2 * r) blk)))))
  = d2 * d1 * r.
Proof.
  intros Hb. unfold transpose_cells.
  rewrite (@length_concat_uniform _ (d1 * r)).
  - rewrite !length_map, length_seq. lia.
  - rewrite map_map. apply Forall_map_length. intros c Hc.
    apply in_seq in Hc.
    rewrite (@length_concat_uniform _ r).
    + rewrite !length_map, length_split_n. reflexivity.
    + rewrite map_map. apply Forall_map_length. intros row Hrow.
      pose proof (@split_n_lengths _ d1 (d2 * r) blk) as HF.
      rewrite Forall_forall in HF. specialize (HF ltac:(lia) row Hrow).
      pose proof (@split_n_lengths _ d2 r row ltac:(lia)) as HG.
      rewrite Forall_forall in HG. apply HG. apply nth_In.
      rewrite length_split_n. lia.
Qed.

Lemma transpose12_shaped {A : Type} (d0 d1 d2 : nat) (rest : list nat) (x : tensor A) :
  shaped (d0 :: d1 :: d2 :: rest) x ->
  exists y, transpose12 x = Ok y /\ shaped (d0 :: d2 :: d1 :: rest) y.
Proof.
  intros [Hs Hl]. unfold transpose12. rewrite Hs.
  eexists; split; [reflexivity|]. split; simpl; auto.
  simpl in Hl.
  rewrite (@length_concat_uniform _ (d2 * d1 * numel rest)).
  - rewrite length_map, length_split_n. lia.
  - apply Forall_map_length. intros blk Hblk.
    apply length_transpose_block.
    pose proof (@split_n_lengths _ d0 (d1 * d2 * numel rest) (storage x)) as HF.
    rewrite Forall_forall in HF. apply HF; auto. lia.
Qed.

Lemma length_matmul_flat (p : nat) (a b : list (list R)) :
  length (concat (matmul p a b)) = length a * p.
Proof.
  unfold matmul. rewrite (@length_concat_uniform _ p).
  - now rewrite length_map.
  - apply Forall_map_length. intros row _. now rewrite length_map, length_seq.
Qed.

Lemma Forall_zipWith {A B C : Type} (P : C -> Prop) (f : A -> B -> C)
  (u : list A) (v : list B) :
  (forall a b, In a u -> In b v -> P (f a b)) -> Forall P (zipWith f u v).
Proof.
  revert v; induction u as [|a u IH]; intros [|b v] H; simpl; constructor.
  - apply H; simpl; auto.
  - apply IH. intros a' b' Ha Hb. apply H; simpl; auto.
Qed.

Lemma bmm_shaped (n m k q : nat) (x y : tensor R) :
  shaped [n; m; k] x -> shaped [n; k; q] y ->
  exists z, bmm x y = Ok z /\ shaped [n; m; q] z.
Proof.
  intros [Hsx Hlx] [Hsy Hly]. unfold bmm. rewrite Hsx, Hsy, !Nat.eqb_refl. simpl.
  eexists; split; [reflexivity|]. split; simpl; auto.
  rewrite (@length_concat_uniform _ (m * q)).
  - rewrite length_zipWith, !length_split_n. lia.
  - apply Forall_zipWith. intros a b _ _.
    now rewrite length_matmul_flat, length_split_n.
Qed.

Lemma tadd_shaped (s : list nat) (x y : tensor R) :
  shaped s x -> shaped s y ->
  exists z, tadd x y = Ok z /\ shaped s z /\
            storage z = zipWith Rplus (storage x) (storage y).
Proof.
  intros [Hsx Hlx] [Hsy Hly]. unfold tadd.
  destruct (list_eq_dec Nat.eq_dec (size x) (size y)) as [_|Hne]; [|congruence].
  eexists; split; [reflexivity|]. split; [|reflexivity].
  split; simpl; auto. rewrite length_zipWith. lia.
Qed.

Lemma shaped_Dropout (d : Dropout) (training : bool) (noise : nat -> bool)
  (s : list nat) (x : tensor R) :
  shaped s x -> shaped s (Dropout_forward d training noise x).
Proof.
  intros Hx. unfold Dropout_forward.
  destruct (negb training); auto.
  destruct (Req_dec_T (p d) 0); auto.
  destruct (Req_dec_T (p d) 1).
  - now apply shaped_tmap.
  - destruct Hx as [Hs Hl]. split; simpl; auto.
    rewrite length_zipWith, length_seq. lia.
Qed.

Lemma softmax_dim2_shaped (n m k : nat) (x : tensor score) :
  shaped [n; m; k] x ->
  exists y, softmax_dim2 x = Ok y /\ shaped [n; m; k] y /\
            storage y = concat (map softmax_row (split_n (n * m) k (storage x))).
Proof.
  intros Hx. unfold softmax_dim2. rewrite (proj1 Hx).
  destruct (@rowwise_shaped _ _ [n; m] k k softmax_row x Hx) as (y & Hy & Hsh & Hst).
  { intros v Hv. unfold softmax_row. now rewrite length_map. }
  exists y. repeat split; auto; try apply Hsh.
  rewrite Hst. simpl. now rewrite Nat.mul_1_r.
Qed.

Lemma length_mask_matrix (h w offset : nat) (maskval : score) (m : list score) :
  length m = h * w ->
  length (concat (zipWith
     (fun i row => zipWith (fun j v => if i + offset <=? j then maskval else v)
                     (seq 0 w) row) (seq 0 h) (split_n h w m))) = h * w.
Proof.
  intros Hm. rewrite (@length_concat_uniform _ w).
  - rewrite length_zipWith, length_seq, length_split_n. lia.
  - apply Forall_zipWith. intros i row _ Hrow.
    rewrite length_zipWith, length_seq.
    pose proof (@split_n_lengths _ h w m Hm) as HF.
    rewrite Forall_forall in HF. rewrite (HF row Hrow). lia.
Qed.

Lemma mask__shaped (b h w : nat) (maskval : score) (diag : bool) (x : tensor score) :
  shaped [b; h; w] x ->
  exists y, mask_ x maskval diag = Ok y /\ shaped [b; h; w] y.
Proof.
  intros [Hs Hl]. unfold mask_. rewrite Hs.
  eexists; split; [reflexivity|]. split; simpl; auto.
  simpl in Hl. rewrite (@length_concat_uniform _ (h * w)).
  - rewrite length_map, length_split_n. lia.
  - apply Forall_map_length. intros m Hm. apply length_mask_matrix.
    pose proof (@split_n_lengths _ b (h * w) (storage x)) as HF.
    rewrite Forall_forall in HF. apply HF; auto. lia.
Qed.

(** ** Sizes along [SelfAttention.forward] *)

Lemma size_eqb_of_nat (s : list nat) : size_eqb s (map Z.of_nat s) = true.
Proof.
  induction s as [|a s IH]; simpl; auto. now rewrite Z.eqb_refl.
Qed.

Lemma size_eqb_true (s : list nat) (z : list Z) :
  size_eqb s z = true -> z = map Z.of_nat s.
Proof.
  revert z; induction s as [|a s IH]; intros [|c z] H; simpl in *;
    try discriminate; auto.
  apply andb_true_iff in H. destruct H as [H1 H2].
  apply Z.eqb_eq in H1. f_equal; auto.
Qed.

Section AttentionShapes.

Variable a : SelfAttention.t.
Hypothesis Hwf : wf_SelfAttention a.
Variables b t e h : nat.
Hypothesis He : Z.of_nat e = SelfAttention.emb a.
Hypothesis Hh : Z.of_nat h = SelfAttention.heads a.

Lemma emb_to_nat : Z.to_nat (SelfAttention.emb a) = e.
Proof. rewrite <- He. apply Nat2Z.id. Qed.

Lemma heads_to_nat : Z.to_nat (SelfAttention.heads a) = h.
Proof. rewrite <- Hh. apply Nat2Z.id. Qed.

Lemma per_head_shaped (l : Linear) (x : tensor R) :
  wf_Linear l -> in_features l = e -> out_features l = e * h ->
  shaped [b; t; e] x ->
  exists y, SelfAttention.per_head a l x b t e = Ok y /\ shaped [b; t; h; e] y.
Proof.
  intros Hl Hin Hout Hx. unfold SelfAttention.per_head.
  destruct (@Linear_forward_shaped l [b; t] x Hl) as (y & -> & Hy & _).
  { now rewrite Hin. }
  simpl. rewrite <- Hh.
  destruct (@view_shaped _ _ [Z.of_nat b; Z.of_nat t; Z.of_nat h; Z.of_nat e] y Hy)
    as (y' & -> & Hy' & _).
  - repeat constructor; lia.
  - simpl. rewrite !Nat2Z.id, Hout. lia.
  - exists y'. split; auto. simpl in Hy'. now rewrite !Nat2Z.id in Hy'.
Qed.

Lemma fold_heads_shaped (y : tensor R) :
  shaped [b; t; h; e] y ->
  exists y', SelfAttention.fold_heads a y b t e = Ok y' /\ shaped [b * h; t; e] y'.
Proof.
  intros Hy. unfold SelfAttention.fold_heads.
  destruct (transpose12_shaped Hy) as (y1 & -> & Hy1). simpl.
  rewrite <- Hh.
  destruct (@view_shaped _ _ [(Z.of_nat b * Z.of_nat h)%Z; Z.of_nat t; Z.of_nat e] y1 Hy1)
    as (y' & -> & Hy' & _).
  - repeat constructor; lia.
  - simpl. rewrite <- Nat2Z.inj_mul, !Nat2Z.id. lia.
  - exists y'. split; auto. simpl in Hy'.
    now rewrite <- Nat2Z.inj_mul, !Nat2Z.id in Hy'.
Qed.

Lemma scores_shaped (x : tensor R) :
  shaped [b; t; e] x ->
  exists dot values,
    SelfAttention.scores a x = Ok (b, t, e, dot, values) /\
    shaped [b * h; t; t] dot /\ shaped [b * h; t; e] values.
Proof.
  intros Hx. pose proof Hwf as Hwf'.
  destruct Hwf' as (_ & _ & Hk & Hq & Hv & _ & Hki & Hko & Hqi & Hqo & Hvi & Hvo & _).
  rewrite emb_to_nat, heads_to_nat in *.
  unfold SelfAttention.scores. rewrite (proj1 Hx), He, Z.eqb_refl. simpl.
  destruct (per_head_shaped Hk Hki Hko Hx) as (k4 & -> & Hk4). simpl.
  destruct (per_head_shaped Hq Hqi Hqo Hx) as (q4 & -> & Hq4). simpl.
  destruct (per_head_shaped Hv Hvi Hvo Hx) as (v4 & -> & Hv4). simpl.
  destruct (fold_heads_shaped Hk4) as (k3 & -> & Hk3). simpl.
  destruct (fold_heads_shaped Hq4) as (q3 & -> & Hq3). simpl.
  destruct (fold_heads_shaped Hv4) as (v3 & -> & Hv3). simpl.
  unfold SelfAttention.scaled_dot.
  destruct (transpose12_shaped Hk3) as (kT & -> & HkT). simpl.
  destruct (@bmm_shaped (b * h) t e t _ kT
              (shaped_tmap (fun q => (q / sqrt (INR e))%R) Hq3) HkT)
    as (dot & -> & Hdot). simpl.
  exists dot, v3. auto.
Qed.

Lemma attend_shaped (dot values : tensor R) :
  shaped [b * h; t; t] dot -> shaped [b * h; t; e] values ->
  exists att out,
    SelfAttention.attend a b t e dot values = Ok (att, out) /\
    shaped [b * h; t; t] att /\ shaped [b; t; e] out.
Proof.
  intros Hdot Hval. pose proof Hwf as Hwf'.
  destruct Hwf' as (_ & _ & _ & _ & _ & Hu & _ & _ & _ & _ & _ & _ & Hui & Huo).
  rewrite emb_to_nat, heads_to_nat in *.
  unfold SelfAttention.attend. rewrite <- Hh.
  assert (size_eqb (size dot) [(Z.of_nat b * Z.of_nat h)%Z; Z.of_nat t; Z.of_nat t]
          = true) as ->.
  { rewrite (proj1 Hdot), <- Nat2Z.inj_mul. apply (size_eqb_of_nat [b * h; t; t]). }
  simpl.
  assert (exists sc,
            (if SelfAttention.mask a then mask_ (tmap Fin dot) NegInf false
             else Ok (tmap Fin dot)) = Ok sc /\ shaped [b * h; t; t] sc)
    as (sc & -> & Hsc).
  { destruct (SelfAttention.mask a).
    - apply mask__shaped. now apply shaped_tmap.
    - eexists; split; [reflexivity|]. now apply shaped_tmap. }
  simpl.
  destruct (softmax_dim2_shaped Hsc) as (att & -> & Hatt & _). simpl.
  destruct (bmm_shaped Hatt Hval) as (o1 & -> & Ho1). simpl.
  destruct (@view_shaped _ _ [Z.of_nat b; Z.of_nat h; Z.of_nat t; Z.of_nat e] o1 Ho1)
    as (o2 & -> & Ho2 & _).
  { repeat constructor; lia. }
  { simpl. rewrite !Nat2Z.id. lia. }
  simpl in Ho2 |- *. rewrite !Nat2Z.id in Ho2.
  destruct (transpose12_shaped Ho2) as (o3 & -> & Ho3). simpl.
  destruct (@view_shaped _ _ [Z.of_nat b; Z.of_nat t; (Z.of_nat h * Z.of_nat e)%Z] o3 Ho3)
    as (o4 & -> & Ho4 & _).
  { repeat constructor; lia. }
  { simpl. rewrite <- Nat2Z.inj_mul, !Nat2Z.id. lia. }
  simpl in Ho4 |- *. rewrite <- Nat2Z.inj_mul, !Nat2Z.id in Ho4.
  destruct (@Linear_forward_shaped (SelfAttention.unifyheads a) [b; t] o4 Hu)
    as (out & -> & Hout & _).
  { simpl. now rewrite Hui. }
  simpl. exists att, out. repeat split; try apply Hatt; try apply Hout.
  - destruct Hout as [Hs _]. simpl in Hs. now rewrite Huo in Hs.
  - destruct Hout as [_ Hl]. simpl in Hl |- *. now rewrite Huo in Hl.
Qed.

Lemma forward_with_attention_shaped (x : tensor R) :
  shaped [b; t; e] x ->
  exists att out,
    SelfAttention.forward_with_attention a x = Ok (att, out) /\
    shaped [b * h; t; t] att /\ shaped [b; t; e] out.
Proof.
  intros Hx. unfold SelfAttention.forward_with_attention.
  destruct (scores_shaped Hx) as (dot & values & -> & Hdot & Hval). simpl.
  now apply attend_shaped.
Qed.

End AttentionShapes.

(** ** Constructors build well-formed modules *)

Ltac split_all := repeat match goal with |- _ /\ _ => split end.

Lemma length_tabulate {A : Type} (n : nat) (f : nat -> A) : length (tabulate n f) = n.
Proof. unfold tabulate. now rewrite length_map, length_seq. Qed.

Lemma nn_Linear_inv (inf outf : Z) (wb : bool) (w0 : nat -> nat -> R)
  (b0 : nat -> R) (l : Linear) :
  nn_Linear inf outf wb w0 b0 = Ok l ->
  (0 <= inf)%Z /\ (0 <= outf)%Z /\ wf_Linear l /\
  in_features l = Z.to_nat inf /\ out_features l = Z.to_nat outf /\
  (bias l = None <-> wb = false).
Proof.
  unfold nn_Linear. intros H.
  destruct ((0 <=? inf)%Z && (0 <=? outf)%Z) eqn:Hc; [|discriminate].
  apply andb_true_iff in Hc. destruct Hc as [Hi Ho].
  apply Z.leb_le in Hi. apply Z.leb_le in Ho.
  injection H as <-. simpl. split; [assumption|]. split; [assumption|].
  split; [|split; [reflexivity|split; [reflexivity|]]].
  - split; [apply length_tabulate|]. simpl. split.
    + unfold tabulate at 1. apply Forall_map_length. intros o _.
      apply length_tabulate.
    + destruct wb; auto. apply length_tabulate.
  - destruct wb; split; intros; auto; discriminate.
Qed.

Lemma nn_Linear_negative (inf outf : Z) (wb : bool) (w0 : nat -> nat -> R)
  (b0 : nat -> R) :
  (inf < 0 \/ outf < 0)%Z -> nn_Linear inf outf wb w0 b0 = Err RuntimeError.
Proof.
  intros H. unfold nn_Linear.
  destruct ((0 <=? inf)%Z && (0 <=? outf)%Z) eqn:Hc; auto.
  apply andb_true_iff in Hc. destruct Hc as [Hi Ho].
  apply Z.leb_le in Hi. apply Z.leb_le in Ho. lia.
Qed.

Lemma nn_Linear_nonneg (inf outf : Z) (wb : bool) (w0 : nat -> nat -> R)
  (b0 : nat -> R) :
  (0 <= inf)%Z -> (0 <= outf)%Z -> exists l, nn_Linear inf outf wb w0 b0 = Ok l.
Proof.
  intros Hi Ho. unfold nn_Linear.
  apply Z.leb_le in Hi. apply Z.leb_le in Ho. rewrite Hi, Ho. simpl. eauto.
Qed.

Lemma nn_LayerNorm_inv (n : Z) (ln : LayerNorm) :
  nn_LayerNorm n = Ok ln ->
  (0 <= n)%Z /\ wf_LayerNorm ln /\ normalized_shape ln = Z.to_nat n /\
  eps ln = (1 / 100000)%R.
Proof.
  unfold nn_LayerNorm. intros H.
  destruct (0 <=? n)%Z eqn:Hc; [|discriminate].
  apply Z.leb_le in Hc. injection H as <-. simpl.
  repeat split; auto; apply length_tabulate.
Qed.

Lemma bind_Ok {A B : Type} (r : result A) (k : A -> result B) (y : B) :
  bind r k = Ok y -> exists a, r = Ok a /\ k a = Ok y.
Proof.
  destruct r as [a|err]; simpl; intros H; [eauto | discriminate].
Qed.

Lemma SelfAttention_init_inv (emb heads : Z) (mask : bool)
  (rnd : nat -> nat -> nat -> R) (a : SelfAttention.t) :
  SelfAttention.init emb heads mask rnd = Ok a ->
  SelfAttention.emb a = emb /\ SelfAttention.heads a = heads /\
  SelfAttention.mask a = mask /\
  nn_Linear emb (emb * heads) false (rnd 0) (rnd 0 0) = Ok (SelfAttention.tokeys a) /\
  nn_Linear emb (emb * heads) false (rnd 1) (rnd 1 0) = Ok (SelfAttention.toqueries a) /\
  nn_Linear emb (emb * heads) false (rnd 2) (rnd 2 0) = Ok (SelfAttention.tovalues a) /\
  nn_Linear (heads * emb) emb true (rnd 3) (rnd 4 0) = Ok (SelfAttention.unifyheads a).
Proof.
  unfold SelfAttention.init. intros H.
  apply bind_Ok in H. destruct H as (k & Hk & H).
  apply bind_Ok in H. destruct H as (q & Hq & H).
  apply bind_Ok in H. destruct H as (v & Hv & H).
  apply bind_Ok in H. destruct H as (u & Hu & H).
  injection H as <-. simpl. repeat split; assumption.
Qed.

Lemma SelfAttention_init_wf (e h : nat) (mask : bool)
  (rnd : nat -> nat -> nat -> R) (a : SelfAttention.t) :
  SelfAttention.init (Z.of_nat e) (Z.of_nat h) mask rnd = Ok a ->
  wf_SelfAttention a.
Proof.
  intros H. apply SelfAttention_init_inv in H.
  destruct H as (He & Hh & _ & Hk & Hq & Hv & Hu).
  apply nn_Linear_inv in Hk, Hq, Hv, Hu.
  destruct Hk as (_ & _ & Hk & Hki & Hko & _).
  destruct Hq as (_ & _ & Hq & Hqi & Hqo & _).
  destruct Hv as (_ & _ & Hv & Hvi & Hvo & _).
  destruct Hu as (_ & _ & Hu & Hui & Huo & _).
  unfold wf_SelfAttention. rewrite He, Hh, !Nat2Z.id.
  rewrite <- Nat2Z.inj_mul, Nat2Z.id in Hko, Hqo, Hvo, Hui.
  rewrite Nat2Z.id in Hki, Hqi, Hvi, Huo.
  split_all; auto; lia.
Qed.

Lemma TransformerBlock_init_inv (emb heads : Z) (mask : bool)
  (seq_length ffm : Z) (dropout : R) (rnd : nat -> nat -> nat -> R)
  (blk : TransformerBlock.t) :
  TransformerBlock.init emb heads mask seq_length ffm dropout rnd = Ok blk ->
  SelfAttention.init emb heads mask rnd = Ok (TransformerBlock.attention blk) /\
  TransformerBlock.mask blk = mask /\
  nn_LayerNorm emb = Ok (TransformerBlock.norm1 blk) /\
  nn_LayerNorm emb = Ok (TransformerBlock.norm2 blk) /\
  nn_Linear emb (ffm * emb) true (rnd 5) (rnd 6 0) = Ok (fst (TransformerBlock.ff blk)) /\
  nn_Linear (ffm * emb) emb true (rnd 7) (rnd 8 0) = Ok (snd (TransformerBlock.ff blk)) /\
  nn_Dropout dropout = Ok (TransformerBlock.do_ blk).
Proof.
  unfold TransformerBlock.init. intros H.
  apply bind_Ok in H. destruct H as (a & Ha & H).
  apply bind_Ok in H. destruct H as (n1 & Hn1 & H).
  apply bind_Ok in H. destruct H as (n2 & Hn2 & H).
  apply bind_Ok in H. destruct H as (f1 & Hf1 & H).
  apply bind_Ok in H. destruct H as (f2 & Hf2 & H).
  apply bind_Ok in H. destruct H as (d & Hd & H).
  injection H as <-. simpl. repeat split; assumption.
Qed.

Lemma TransformerBlock_init_wf (e h : nat) (mask : bool)
  (seq_length ffm : Z) (dropout : R) (rnd : nat -> nat -> nat -> R)
  (blk : TransformerBlock.t) :
  TransformerBlock.init (Z.of_nat e) (Z.of_nat h) mask seq_length ffm dropout rnd
    = Ok blk ->
  wf_TransformerBlock blk /\
  SelfAttention.emb (TransformerBlock.attention blk) = Z.of_nat e /\
  SelfAttention.heads (TransformerBlock.attention blk) = Z.of_nat h.
Proof.
  intros H. apply TransformerBlock_init_inv in H.
  destruct H as (Ha & _ & Hn1 & Hn2 & Hf1 & Hf2 & _).
  pose proof (SelfAttention_init_wf _ _ _ _ Ha) as Hwa.
  apply SelfAttention_init_inv in Ha. destruct Ha as (He & Hh & _).
  apply nn_LayerNorm_inv in Hn1, Hn2.
  destruct Hn1 as (_ & Hn1 & Hs1 & _). destruct Hn2 as (_ & Hn2 & Hs2 & _).
  apply nn_Linear_inv in Hf1, Hf2.
  destruct Hf1 as (_ & _ & Hf1 & Hf1i & Hf1o & _).
  destruct Hf2 as (_ & _ & Hf2 & Hf2i & Hf2o & _).
  unfold wf_TransformerBlock. rewrite He, !Nat2Z.id.
  rewrite Nat2Z.id in Hs1, Hs2, Hf1i, Hf2o.
  split_all; auto; congruence.
Qed.

(** ** The block, position by position *)

Lemma tensor_eq {A : Type} (x y : tensor A) :
  size x = size y -> storage x = storage y -> x = y.
Proof. destruct x, y; simpl; intros -> ->; reflexivity. Qed.

Lemma firstn_zipWith {A B C : Type} (f : A -> B -> C) (n : nat) (u : list A)
  (v : list B) :
  firstn n (zipWith f u v) = zipWith f (firstn n u) (firstn n v).
Proof.
  revert u v; induction n as [|n IH]; intros [|a u] [|b v]; simpl; auto.
  now rewrite IH.
Qed.

Lemma skipn_zipWith {A B C : Type} (f : A -> B -> C) (n : nat) (u : list A)
  (v : list B) :
  skipn n (zipWith f u v) = zipWith f (skipn n u) (skipn n v).
Proof.
  revert u v; induction n as [|n IH]; intros [|a u] [|b v]; simpl; auto.
  destruct (skipn n u); reflexivity.
Qed.

Lemma split_n_zipWith {A B C : Type} (f : A -> B -> C) (count m : nat)
  (u : list A) (v : list B) :
  split_n count m (zipWith f u v)
  = zipWith (zipWith f) (split_n count m u) (split_n count m v).
Proof.
  revert u v; induction count as [|c IH]; intros u v; simpl; auto.
  now rewrite firstn_zipWith, skipn_zipWith, IH.
Qed.

Lemma split_n_concat_map {A B : Type} (f : A -> list B) (n m : nat) (l : list A) :
  length l = n -> (forall a, In a l -> length (f a) = m) ->
  split_n n m (concat (map f l)) = map f l.
Proof.
  intros Hl Hf. rewrite <- Hl, <- (length_map f l).
  apply split_n_concat. now apply Forall_map_length.
Qed.

Section BlockSpec.

Variable blk : TransformerBlock.t.
Hypothesis Hwf : wf_TransformerBlock blk.
Variables b t e h : nat.
Hypothesis He : Z.of_nat e = SelfAttention.emb (TransformerBlock.attention blk).
Hypothesis Hh : Z.of_nat h = SelfAttention.heads (TransformerBlock.attention blk).
Variable training : bool.
Variables noise1 noise2 : nat -> bool.

Lemma Normalize_shaped (ln : LayerNorm) (s : tensor R) :
  wf_LayerNorm ln -> normalized_shape ln = e -> shaped [b; t; e] s ->
  LayerNorm_forward ln s = Ok (of_positions b t e (Normalize ln (positions b t e s)))
  /\ shaped [b; t; e] (of_positions b t e (Normalize ln (positions b t e s))).
Proof.
  intros Hln Hn Hs.
  destruct (@LayerNorm_forward_shaped ln [b; t] s Hln) as (y & Hy & Hsh & Hst).
  { now rewrite Hn. }
  assert (y = of_positions b t e (Normalize ln (positions b t e s))) as <-.
  { apply tensor_eq.
    - rewrite (proj1 Hsh), Hn. reflexivity.
    - rewrite Hst, Hn. simpl. now rewrite Nat.mul_1_r. }
  split; auto. now rewrite Hn in Hsh.
Qed.

Lemma FeedForward_shaped (ff : Linear * Linear) (x : tensor R) :
  wf_Linear (fst ff) -> wf_Linear (snd ff) -> in_features (fst ff) = e ->
  out_features (fst ff) = in_features (snd ff) -> out_features (snd ff) = e ->
  shaped [b; t; e] x ->
  TransformerBlock.ff_forward ff x
    = Ok (of_positions b t e (FeedForward ff (positions b t e x)))
  /\ shaped [b; t; e] (of_positions b t e (FeedForward ff (positions b t e x))).
Proof.
  intros H1 H2 Hi Hio Ho Hx. unfold TransformerBlock.ff_forward.
  destruct (@Linear_forward_shaped (fst ff) [b; t] x H1) as (y & -> & Hy & Hsy).
  { now rewrite Hi. }
  simpl.
  destruct (@Linear_forward_shaped (snd ff) [b; t] (ReLU y) H2) as (z & -> & Hz & Hsz).
  { rewrite <- Hio. now apply shaped_tmap. }
  assert (z = of_positions b t e (FeedForward ff (positions b t e x))) as <-.
  { apply tensor_eq.
    - rewrite (proj1 Hz), Ho. reflexivity.
    - rewrite Hsz. simpl. rewrite Hsy, Hi, <- Hio. simpl.
      rewrite Nat.mul_1_r, concat_map, map_map.
      rewrite split_n_concat_map.
      + unfold FeedForward, positions. now rewrite map_map.
      + apply length_split_n.
      + intros v _. rewrite length_map. now apply length_linear_row. }
  split; auto. now rewrite Ho in Hz.
Qed.

Lemma residual_shaped (sub x : tensor R) :
  shaped [b; t; e] sub -> shaped [b; t; e] x ->
  exists s, tadd sub x = Ok s /\ shaped [b; t; e] s /\
            positions b t e s = residual (positions b t e sub) (positions b t e x).
Proof.
  intros Hsub Hx. destruct (tadd_shaped Hsub Hx) as (s & Hs & Hsh & Hst).
  exists s. split; auto. split; auto.
  unfold positions, residual. rewrite Hst. apply split_n_zipWith.
Qed.

Lemma block_forward_spec (x : tensor R) :
  shaped [b; t; e] x ->
  exists attended,
    SelfAttention.forward (TransformerBlock.attention blk) x = Ok attended /\
    shaped [b; t; e] attended /\
    TransformerBlock.forward blk training noise1 noise2 x
      = Ok (spec_block blk training noise1 noise2 b t e attended x) /\
    shaped [b; t; e] (spec_block blk training noise1 noise2 b t e attended x).
Proof.
  intros Hx.
  destruct Hwf as (Ha & Hn1 & Hn2 & Hs1 & Hs2 & Hf1 & Hf2 & Hfi & Hfio & Hfo).
  rewrite (@emb_to_nat _ _ He) in *.
  destruct (@forward_with_attention_shaped _ Ha _ _ _ _ He Hh _ Hx) as (att & out & Hfw & _ & Hout).
  exists out. unfold TransformerBlock.forward, SelfAttention.forward, spec_block.
  rewrite Hfw. simpl. split; auto. split; auto.
  destruct (residual_shaped Hout Hx) as (s1 & -> & Hsh1 & <-). simpl.
  destruct (Normalize_shaped Hn1 Hs1 Hsh1) as [-> Hx1]. simpl.
  set (x1 := Dropout_forward _ training noise1 _) in *.
  assert (shaped [b; t; e] x1) as Hx1' by now apply shaped_Dropout.
  destruct (FeedForward_shaped _ Hf1 Hf2 Hfi Hfio Hfo Hx1') as [-> Hfed]. simpl.
  destruct (residual_shaped Hfed Hx1') as (s2 & -> & Hsh2 & Hp2). simpl.
  destruct (Normalize_shaped Hn2 Hs2 Hsh2) as [-> Hx2]. simpl.
  assert (positions b t e (of_positions b t e
            (FeedForward (TransformerBlock.ff blk) (positions b t e x1)))
          = FeedForward (TransformerBlock.ff blk) (positions b t e x1)) as Hpos.
  { unfold positions at 1, of_positions. simpl. unfold FeedForward.
    apply split_n_concat_map.
    - unfold positions. apply length_split_n.
    - intros v _. now rewrite length_linear_row. }
  rewrite Hp2, Hpos in *. split; auto. now apply shaped_Dropout.
Qed.

End BlockSpec.

(** ** The example block is well formed *)

Lemma example_attention_wf : wf_SelfAttention example_attention.
Proof.
  unfold wf_SelfAttention, wf_Linear. simpl.
  split_all; try reflexivity; try lia; repeat constructor.
Qed.

Lemma example_block_wf : wf_TransformerBlock example_block.
Proof.
  unfold wf_TransformerBlock. split; [apply example_attention_wf|].
  unfold wf_LayerNorm, wf_Linear. simpl.
  split_all; try reflexivity; repeat constructor.
Qed.

Lemma example_input_shaped : shaped [1; 1; 2] example_input.
Proof. split; reflexivity. Qed.

(** * Shape invariance *)

(** C2: for a well-formed attention module and a well-formed block, and an
    input of size [(b, t, e)] whose last dimension is the configured
    embedding width, [SelfAttention.forward] and [TransformerBlock.forward]
    both return a tensor of size [(b, t, e)]. *)
Theorem forward_preserves_shape (a : SelfAttention.t) (blk : TransformerBlock.t)
  (b t e h h' : nat) (training : bool) (noise1 noise2 : nat -> bool)
  (x : tensor R) :
  shaped [b; t; e] x ->
  (wf_SelfAttention a ->
   Z.of_nat e = SelfAttention.emb a -> Z.of_nat h = SelfAttention.heads a ->
   exists y, SelfAttention.forward a x = Ok y /\
             size y = [b; t; e] /\ wf_tensor y) /\
  (wf_TransformerBlock blk ->
   Z.of_nat e = SelfAttention.emb (TransformerBlock.attention blk) ->
   Z.of_nat h' = SelfAttention.heads (TransformerBlock.attention blk) ->
   exists y, TransformerBlock.forward blk training noise1 noise2 x = Ok y /\
             size y = [b; t; e] /\ wf_tensor y).
Proof.
  intros Hx. split.
  - intros Hwf He Hh.
    destruct (@forward_with_attention_shaped _ Hwf _ _ _ _ He Hh _ Hx)
      as (att & out & Hfw & _ & [Hs Hl]).
    exists out. unfold SelfAttention.forward. rewrite Hfw. simpl.
    split_all; auto. unfold wf_tensor. now rewrite Hs.
  - intros Hwf He Hh.
    destruct (@block_forward_spec _ Hwf b t e h' He Hh training noise1 noise2 _ Hx)
      as (att & _ & _ & -> & [Hs Hl]).
    eexists. split; [reflexivity|]. split; auto.
    unfold wf_tensor. now rewrite Hs.
Qed.

Lemma forward_preserves_shape_witness :
  shaped [1; 1; 2] example_input /\
  wf_TransformerBlock example_block /\
  exists y, TransformerBlock.forward example_block true keep_all keep_all example_input
            = Ok y /\ size y = [1; 1; 2] /\ wf_tensor y.
Proof.
  split; [apply example_input_shaped|]. split; [apply example_block_wf|].
  apply (@forward_preserves_shape example_attention example_block 1 1 2 1 1
           true keep_all keep_all example_input example_input_shaped).
  - apply example_block_wf.
  - reflexivity.
  - reflexivity.
Defined.

(** * Failures of [SelfAttention.forward] *)

Lemma map_of_nat_inj (s s' : list nat) :
  map Z.of_nat s = map Z.of_nat s' -> s = s'.
Proof.
  revert s'. induction s as [|c s IH]; intros [|c' s'] Heq; simpl in *;
    try discriminate; auto.
  injection Heq as Hc Hs. apply Nat2Z.inj in Hc. f_equal; auto.
Qed.

Lemma size_eqb_false (s s' : list nat) :
  s <> s' -> size_eqb s (map Z.of_nat s') = false.
Proof.
  intros Hne. destruct (size_eqb s (map Z.of_nat s')) eqn:Heq; auto.
  apply size_eqb_true in Heq. apply map_of_nat_inj in Heq. congruence.
Qed.

Lemma forward_emb_mismatch (a : SelfAttention.t) (b t e : nat) (x : tensor R) :
  size x = [b; t; e] -> Z.of_nat e <> SelfAttention.emb a ->
  SelfAttention.forward a x = Err AssertionError.
Proof.
  intros Hs Hne.
  unfold SelfAttention.forward, SelfAttention.forward_with_attention,
    SelfAttention.scores.
  rewrite Hs. apply Z.eqb_neq in Hne. now rewrite Hne.
Qed.

Lemma attend_size_mismatch (a : SelfAttention.t) (b t e h : nat)
  (dot values : tensor R) :
  Z.of_nat h = SelfAttention.heads a -> size dot <> [b * h; t; t] ->
  SelfAttention.attend a b t e dot values = Err AssertionError.
Proof.
  intros Hh Hne. unfold SelfAttention.attend. rewrite <- Hh, <- Nat2Z.inj_mul.
  pose proof (@size_eqb_false (size dot) [b * h; t; t] Hne) as Hf.
  simpl in Hf. now rewrite Hf.
Qed.

(** C8: on an input of size [(b, t, e)] the call raises exactly when [e]
    differs from the configured embedding width, and then it is the first
    assertion that fails; the raw scores are checked to have size
    [(b * h, t, t)] and any other size is fatal; when [e] is the configured
    width the scores do have that size, so the second assertion passes. *)
Theorem forward_fails_iff_emb_mismatch (a : SelfAttention.t) (b t e h : nat)
  (x : tensor R) :
  wf_SelfAttention a -> Z.of_nat h = SelfAttention.heads a ->
  shaped [b; t; e] x ->
  ((exists err, SelfAttention.forward a x = Err err)
     <-> Z.of_nat e <> SelfAttention.emb a) /\
  (Z.of_nat e <> SelfAttention.emb a ->
     SelfAttention.forward a x = Err AssertionError) /\
  (forall dot values, size dot <> [b * h; t; t] ->
     SelfAttention.attend a b t e dot values = Err AssertionError) /\
  (Z.of_nat e = SelfAttention.emb a ->
     exists dot values att out,
       SelfAttention.scores a x = Ok (b, t, e, dot, values) /\
       size dot = [b * h; t; t] /\
       SelfAttention.attend a b t e dot values = Ok (att, out) /\
       SelfAttention.forward a x = Ok out).
Proof.
  intros Hwf Hh Hx.
  assert (Z.of_nat e = SelfAttention.emb a ->
          exists dot values att out,
            SelfAttention.scores a x = Ok (b, t, e, dot, values) /\
            size dot = [b * h; t; t] /\
            SelfAttention.attend a b t e dot values = Ok (att, out) /\
            SelfAttention.forward a x = Ok out) as Hok.
  { intros He.
    destruct (@scores_shaped _ Hwf _ _ _ _ He Hh _ Hx) as (dot & values & Hsc & Hd & Hv).
    destruct (@attend_shaped _ Hwf b t e h He Hh _ _ Hd Hv) as (att & out & Hat & _).
    exists dot, values, att, out. split_all; auto; [apply Hd|].
    unfold SelfAttention.forward, SelfAttention.forward_with_attention.
    rewrite Hsc. simpl. now rewrite Hat. }
  split; [split|split_all; auto].
  - intros [err Herr] He.
    destruct (Hok He) as (_ & _ & _ & out & _ & _ & _ & Hout). congruence.
  - intros Hne. exists AssertionError.
    apply (@forward_emb_mismatch a b t e x (proj1 Hx) Hne).
  - apply (@forward_emb_mismatch a b t e x (proj1 Hx)).
  - intros dot values. now apply attend_size_mismatch.
Qed.

Lemma forward_fails_iff_emb_mismatch_witness :
  wf_SelfAttention example_attention /\
  Z.of_nat 1 = SelfAttention.heads example_attention /\
  shaped [1; 1; 2] example_input /\
  exists out, SelfAttention.forward example_attention example_input = Ok out.
Proof.
  split; [apply example_attention_wf|]. split; [reflexivity|].
  split; [apply example_input_shaped|].
  destruct (@forward_fails_iff_emb_mismatch example_attention 1 1 2 1 example_input
              example_attention_wf eq_refl example_input_shaped)
    as (_ & _ & _ & Hok).
  destruct (Hok eq_refl) as (_ & _ & _ & out & _ & _ & _ & Hout).
  exists out. exact Hout.
Defined.

(** * The projections of [SelfAttention] *)

Lemma nn_Linear_full_width (e h : nat) (w0 : nat -> nat -> R) (b0 : nat -> R)
  (l : Linear) :
  nn_Linear (Z.of_nat e) (Z.of_nat e * Z.of_nat h) false w0 b0 = Ok l ->
  full_width_projection e h l.
Proof.
  intros H. apply nn_Linear_inv in H.
  destruct H as (_ & _ & (Hw & Hrows & _) & Hi & Ho & Hb).
  rewrite Nat2Z.id in Hi. rewrite <- Nat2Z.inj_mul, Nat2Z.id in Ho.
  unfold full_width_projection. rewrite Hw, Ho, <- Hi.
  split_all; auto; try lia. now apply Hb.
Qed.

(** C5: the module built by [SelfAttention.__init__] for embedding width [e]
    and [h] heads has three projections from [e] to [h * e] features without
    bias and a unify-heads projection from [h * e] to [e] features with a
    bias; on an input of size [(b, t, e)] each of the three projections,
    viewed per head, has size [(b, t, h, e)]. *)
Theorem projections_use_full_width (e h b t : nat) (mask : bool)
  (rnd : nat -> nat -> nat -> R) (a : SelfAttention.t) (x : tensor R) :
  SelfAttention.init (Z.of_nat e) (Z.of_nat h) mask rnd = Ok a ->
  shaped [b; t; e] x ->
  full_width_projection e h (SelfAttention.tokeys a) /\
  full_width_projection e h (SelfAttention.toqueries a) /\
  full_width_projection e h (SelfAttention.tovalues a) /\
  (in_features (SelfAttention.unifyheads a) = h * e /\
   out_features (SelfAttention.unifyheads a) = e /\
   length (weight (SelfAttention.unifyheads a)) = e /\
   Forall (fun row => length row = h * e) (weight (SelfAttention.unifyheads a)) /\
   exists bv, bias (SelfAttention.unifyheads a) = Some bv /\ length bv = e) /\
  (forall l,
     In l [SelfAttention.tokeys a; SelfAttention.toqueries a; SelfAttention.tovalues a] ->
     exists y, SelfAttention.per_head a l x b t e = Ok y /\
               size y = [b; t; h; e] /\ wf_tensor y).
Proof.
  intros Hinit Hx.
  pose proof (SelfAttention_init_wf _ _ _ _ Hinit) as Hwf.
  pose proof (SelfAttention_init_inv _ _ _ _ Hinit) as (He & Hh & _ & Hk & Hq & Hv & Hu).
  pose proof (nn_Linear_full_width _ _ _ _ Hk) as Fk.
  pose proof (nn_Linear_full_width _ _ _ _ Hq) as Fq.
  pose proof (nn_Linear_full_width _ _ _ _ Hv) as Fv.
  split_all; auto.
  - apply nn_Linear_inv in Hu. destruct Hu as (_ & _ & _ & Hi & _).
    rewrite Hi, <- Nat2Z.inj_mul. apply Nat2Z.id.
  - apply nn_Linear_inv in Hu. destruct Hu as (_ & _ & _ & _ & Ho & _).
    rewrite Ho. apply Nat2Z.id.
  - apply nn_Linear_inv in Hu. destruct Hu as (_ & _ & (Hw & _) & _ & Ho & _).
    rewrite Hw, Ho. apply Nat2Z.id.
  - apply nn_Linear_inv in Hu. destruct Hu as (_ & _ & (_ & Hr & _) & Hi & _).
    rewrite Hi, <- Nat2Z.inj_mul, Nat2Z.id in Hr. exact Hr.
  - apply nn_Linear_inv in Hu. destruct Hu as (_ & _ & (_ & _ & Hb) & _ & Ho & Hnone).
    destruct (bias (SelfAttention.unifyheads a)) as [bv|].
    + exists bv. split; auto. rewrite Hb, Ho. apply Nat2Z.id.
    + destruct Hnone as [Hnone _]. specialize (Hnone eq_refl). discriminate.
  - intros l Hl.
    assert (wf_Linear l /\ in_features l = e /\ out_features l = e * h)
      as (Hwl & Hi & Ho).
    { destruct Hwf as (_ & _ & Wk & Wq & Wv & _).
      simpl in Hl. destruct Hl as [<-|[<-|[<-|[]]]].
      - destruct Fk as (? & ? & _). split_all; auto; lia.
      - destruct Fq as (? & ? & _). split_all; auto; lia.
      - destruct Fv as (? & ? & _). split_all; auto; lia. }
    destruct (@per_head_shaped a b t e h (eq_sym Hh) l x Hwl Hi Ho Hx)
      as (y & Hy & Hs & Hlen).
    exists y. split_all; auto. unfold wf_tensor. now rewrite Hs.
Qed.

Lemma projections_use_full_width_witness :
  shaped [1; 1; 2] example_input /\
  match SelfAttention.init 2 1 true zero_init with
  | Ok a => full_width_projection 2 1 (SelfAttention.tokeys a) /\
            bias (SelfAttention.unifyheads a) <> None
  | Err _ => False
  end.
Proof.
  split; [apply example_input_shaped|].
  destruct (SelfAttention.init 2 1 true zero_init) as [a|err] eqn:Hinit.
  - destruct (@projections_use_full_width 2 1 1 1 true zero_init a example_input
                Hinit example_input_shaped)
      as (Hk & _ & _ & (_ & _ & _ & _ & Hb) & _).
    split; [exact Hk|]. destruct Hb as (bv & Hb & _). rewrite Hb. discriminate.
  - discriminate Hinit.
Defined.

(** * Construction *)

Lemma SelfAttention_init_negative (emb heads : Z) (mask : bool)
  (rnd : nat -> nat -> nat -> R) :
  (emb < 0 \/ emb * heads < 0)%Z ->
  SelfAttention.init emb heads mask rnd = Err RuntimeError.
Proof.
  intros H. unfold SelfAttention.init.
  rewrite nn_Linear_negative; auto.
Qed.

Lemma SelfAttention_init_nonneg (emb heads : Z) (mask : bool)
  (rnd : nat -> nat -> nat -> R) :
  (0 <= emb)%Z -> (0 <= emb * heads)%Z ->
  exists a, SelfAttention.init emb heads mask rnd = Ok a.
Proof.
  intros He Hp. unfold SelfAttention.init.
  destruct (@nn_Linear_nonneg emb (emb * heads) false (rnd 0) (rnd 0 0) He Hp) as (k & ->).
  destruct (@nn_Linear_nonneg emb (emb * heads) false (rnd 1) (rnd 1 0) He Hp) as (q & ->).
  destruct (@nn_Linear_nonneg emb (emb * heads) false (rnd 2) (rnd 2 0) He Hp) as (v & ->).
  destruct (@nn_Linear_nonneg (heads * emb) emb true (rnd 3) (rnd 4 0)) as (u & ->);
    auto; [lia|].
  simpl. eauto.
Qed.

Lemma TransformerBlock_init_negative (emb heads : Z) (mask : bool)
  (seq_length ffm : Z) (dropout : R) (rnd : nat -> nat -> nat -> R) :
  (emb < 0 \/ emb * heads < 0)%Z ->
  TransformerBlock.init emb heads mask seq_length ffm dropout rnd = Err RuntimeError.
Proof.
  intros H. unfold TransformerBlock.init.
  now rewrite (@SelfAttention_init_negative emb heads mask rnd H).
Qed.

Lemma TransformerBlock_init_nonneg (emb heads : Z) (mask : bool)
  (seq_length ffm : Z) (dropout : R) (rnd : nat -> nat -> nat -> R) :
  (0 <= emb)%Z -> (0 <= emb * heads)%Z -> (0 <= ffm * emb)%Z ->
  (0 <= dropout <= 1)%R ->
  exists blk,
    TransformerBlock.init emb heads mask seq_length ffm dropout rnd = Ok blk.
Proof.
  intros He Hp Hf [Hd0 Hd1].
  destruct (@SelfAttention_init_nonneg emb heads mask rnd He Hp) as (a & Ha).
  unfold TransformerBlock.init. rewrite Ha. simpl.
  unfold nn_LayerNorm. apply Z.leb_le in He. rewrite He. simpl.
  apply Z.leb_le in He.
  destruct (@nn_Linear_nonneg emb (ffm * emb) true (rnd 5) (rnd 6 0) He Hf) as (f1 & ->).
  destruct (@nn_Linear_nonneg (ffm * emb) emb true (rnd 7) (rnd 8 0) Hf He) as (f2 & ->).
  simpl. unfold nn_Dropout.
  destruct (Rlt_dec dropout 0); [lra|].
  destruct (Rlt_dec 1 dropout); [lra|].
  simpl. eauto.
Qed.

(** C9, as the constructors behave: they validate nothing themselves.
    Construction fails when the tensor library refuses to allocate a
    projection, that is when the embedding width is negative or the product
    of embedding width and head count is negative; otherwise
    [SelfAttention] is built, so a head count of zero and an embedding width
    of zero are accepted, and so is the block when moreover its hidden
    width is not negative and the dropout probability lies in [0, 1]. *)
Theorem construction_fails_only_on_negative_sizes (emb heads : Z) (mask : bool)
  (seq_length ffm : Z) (dropout : R) (rnd : nat -> nat -> nat -> R) :
  ((emb < 0 \/ emb * heads < 0)%Z ->
     SelfAttention.init emb heads mask rnd = Err RuntimeError /\
     TransformerBlock.init emb heads mask seq_length ffm dropout rnd
       = Err RuntimeError) /\
  ((0 <= emb)%Z -> (0 <= emb * heads)%Z ->
     (exists a, SelfAttention.init emb heads mask rnd = Ok a) /\
     ((0 <= ffm * emb)%Z -> (0 <= dropout <= 1)%R ->
      exists blk,
        TransformerBlock.init emb heads mask seq_length ffm dropout rnd = Ok blk)).
Proof.
  split.
  - intros H. split.
    + now apply SelfAttention_init_negative.
    + now apply TransformerBlock_init_negative.
  - intros He Hp. split.
    + now apply SelfAttention_init_nonneg.
    + intros Hf Hd. now apply TransformerBlock_init_nonneg.
Qed.

Lemma construction_fails_only_on_negative_sizes_witness :
  (-1 < 0 \/ -1 * 8 < 0)%Z /\
  SelfAttention.init (-1) 8 false zero_init = Err RuntimeError /\
  TransformerBlock.init (-1) 8 false 16 4 0 zero_init = Err RuntimeError.
Proof.
  split; [left; lia|].
  apply (@construction_fails_only_on_negative_sizes (-1) 8 false 16 4 0 zero_init).
  left; lia.
Defined.

(** C9 as stated fails: with embedding width 4 and head count 0, which is
    not positive, both constructors return a module. *)
Lemma zero_heads_are_accepted :
  (exists a, SelfAttention.init 4 0 false zero_init = Ok a) /\
  (exists blk, TransformerBlock.init 4 0 false 16 4 0 zero_init = Ok blk).
Proof.
  split.
  - eexists. reflexivity.
  - unfold TransformerBlock.init. simpl. unfold nn_Dropout.
    destruct (Rlt_dec 0 0); [lra|]. destruct (Rlt_dec 1 0); [lra|].
    simpl. eexists. reflexivity.
Qed.

(** * Independence of [seq_length] *)

(** C10: two blocks built from the same arguments and the same initial
    weights, except for [seq_length], return the same result on every input;
    and an input of size [(b, t, e)] is accepted whatever [t] is. *)
Theorem forward_ignores_seq_length (e h : nat) (mask : bool)
  (seq_length1 seq_length2 ffm : Z) (dropout : R) (rnd : nat -> nat -> nat -> R)
  (blk1 blk2 : TransformerBlock.t) (training : bool) (noise1 noise2 : nat -> bool) :
  TransformerBlock.init (Z.of_nat e) (Z.of_nat h) mask seq_length1 ffm dropout rnd
    = Ok blk1 ->
  TransformerBlock.init (Z.of_nat e) (Z.of_nat h) mask seq_length2 ffm dropout rnd
    = Ok blk2 ->
  (forall x, TransformerBlock.forward blk1 training noise1 noise2 x
             = TransformerBlock.forward blk2 training noise1 noise2 x) /\
  (forall b t x, shaped [b; t; e] x ->
     exists y, TransformerBlock.forward blk1 training noise1 noise2 x = Ok y /\
               TransformerBlock.forward blk2 training noise1 noise2 x = Ok y).
Proof.
  intros H1 H2.
  assert (blk1 = blk2) as <-.
  { unfold TransformerBlock.init in H1, H2. congruence. }
  split; [reflexivity|]. intros b t x Hx.
  destruct (@TransformerBlock_init_wf _ _ _ _ _ _ _ _ H1) as (Hwf & He & Hh).
  destruct (@block_forward_spec _ Hwf b t e h (eq_sym He) (eq_sym Hh)
              training noise1 noise2 _ Hx) as (att & _ & _ & Hfw & _).
  eauto.
Qed.

Lemma forward_ignores_seq_length_witness :
  exists blk1 blk2,
    TransformerBlock.init 2 1 true 16 4 0 zero_init = Ok blk1 /\
    TransformerBlock.init 2 1 true 99 4 0 zero_init = Ok blk2 /\
    forall x, TransformerBlock.forward blk1 true keep_all keep_all x
              = TransformerBlock.forward blk2 true keep_all keep_all x.
Proof.
  destruct (@TransformerBlock_init_nonneg 2 1 true 16 4 0 zero_init)
    as (blk1 & H1); try lia; try lra.
  destruct (@TransformerBlock_init_nonneg 2 1 true 99 4 0 zero_init)
    as (blk2 & H2); try lia; try lra.
  exists blk1, blk2. split; [exact H1|]. split; [exact H2|].
  apply (@forward_ignores_seq_length 2 1 true 16 99 4 0 zero_init blk1 blk2
           true keep_all keep_all H1 H2).
Defined.

(** * The order of the steps of the block *)

(** C4: for a block built by [TransformerBlock.__init__] and an input of
    size [(b, t, e)], [forward] returns the value of the fixed sequence
    attention, residual sum, first normalisation, dropout, feed-forward,
    residual sum, second normalisation, dropout; the feed-forward pair maps
    [e] features to [ff_hidden_mult * e] and back, both with bias. *)
Theorem block_follows_fixed_sequence (e h b t : nat) (mask : bool)
  (seq_length ffm : Z) (dropout : R) (rnd : nat -> nat -> nat -> R)
  (blk : TransformerBlock.t) (training : bool) (noise1 noise2 : nat -> bool)
  (x : tensor R) :
  TransformerBlock.init (Z.of_nat e) (Z.of_nat h) mask seq_length ffm dropout rnd
    = Ok blk ->
  shaped [b; t; e] x ->
  (in_features (fst (TransformerBlock.ff blk)) = e /\
   out_features (fst (TransformerBlock.ff blk)) = Z.to_nat (ffm * Z.of_nat e) /\
   bias (fst (TransformerBlock.ff blk)) <> None /\
   in_features (snd (TransformerBlock.ff blk)) = Z.to_nat (ffm * Z.of_nat e) /\
   out_features (snd (TransformerBlock.ff blk)) = e /\
   bias (snd (TransformerBlock.ff blk)) <> None) /\
  exists attended,
    SelfAttention.forward (TransformerBlock.attention blk) x = Ok attended /\
    TransformerBlock.forward blk training noise1 noise2 x
      = Ok (spec_block blk training noise1 noise2 b t e attended x).
Proof.
  intros Hinit Hx.
  destruct (@TransformerBlock_init_wf _ _ _ _ _ _ _ _ Hinit) as (Hwf & He & Hh).
  apply TransformerBlock_init_inv in Hinit.
  destruct Hinit as (_ & _ & _ & _ & Hf1 & Hf2 & _).
  apply nn_Linear_inv in Hf1, Hf2.
  destruct Hf1 as (_ & _ & _ & Hi1 & Ho1 & Hb1).
  destruct Hf2 as (_ & _ & _ & Hi2 & Ho2 & Hb2).
  rewrite Nat2Z.id in Hi1, Ho2.
  split.
  - split_all; auto.
    + intros Hn. apply Hb1 in Hn. discriminate.
    + intros Hn. apply Hb2 in Hn. discriminate.
  - destruct (@block_forward_spec _ Hwf b t e h (eq_sym He) (eq_sym Hh)
                training noise1 noise2 _ Hx) as (att & Ha & _ & Hfw & _).
    eauto.
Qed.

Lemma block_follows_fixed_sequence_witness :
  exists blk attended,
    TransformerBlock.init 2 1 true 16 4 0 zero_init = Ok blk /\
    shaped [1; 1; 2] example_input /\
    SelfAttention.forward (TransformerBlock.attention blk) example_input
      = Ok attended /\
    TransformerBlock.forward blk true keep_all keep_all example_input
      = Ok (spec_block blk true keep_all keep_all 1 1 2 attended example_input).
Proof.
  destruct (@TransformerBlock_init_nonneg 2 1 true 16 4 0 zero_init)
    as (blk & Hinit); try lia; try lra.
  destruct (@block_follows_fixed_sequence 2 1 1 1 true 16 4 0 zero_init blk
              true keep_all keep_all example_input Hinit example_input_shaped)
    as (_ & attended & Ha & Hfw).
  exists blk, attended. split_all; auto. apply example_input_shaped.
Defined.

(** * Scaling the queries once *)

Lemma split_n_map {A B : Type} (f : A -> B) (count m : nat) (l : list A) :
  split_n count m (map f l) = map (map f) (split_n count m l).
Proof.
  revert l; induction count as [|c IH]; intros l; simpl; auto.
  now rewrite firstn_map, skipn_map, IH.
Qed.

Lemma zipWith_map {A A' B B' C : Type} (f : A' -> B' -> C) (g : A -> A')
  (g' : B -> B') (u : list A) (v : list B) :
  zipWith f (map g u) (map g' v) = zipWith (fun a b => f (g a) (g' b)) u v.
Proof.
  revert v; induction u as [|a u IH]; intros [|b v]; simpl; auto.
  now rewrite IH.
Qed.

Lemma zipWith_ext {A B C : Type} (f g : A -> B -> C) (u : list A) (v : list B) :
  (forall a b, f a b = g a b) -> zipWith f u v = zipWith g u v.
Proof.
  intros H. revert v; induction u as [|a u IH]; intros [|b v]; simpl; auto.
  now rewrite H, IH.
Qed.

Lemma dotprod_scale_l (s : R) (u v : list R) :
  dotprod (map (fun a => (a / s)%R) u) v = (dotprod u v / s)%R.
Proof.
  unfold dotprod. revert v; induction u as [|a u IH]; intros [|b v]; simpl;
    try (unfold Rdiv; now rewrite Rmult_0_l).
  rewrite IH. unfold Rdiv. ring.
Qed.

Lemma dotprod_scale_both (r : R) (u v : list R) :
  dotprod (map (fun a => (a / r)%R) u) (map (fun a => (a / r)%R) v)
  = (dotprod u v / (r * r))%R.
Proof.
  unfold dotprod. revert v; induction u as [|a u IH]; intros [|b v]; simpl;
    try (unfold Rdiv; now rewrite Rmult_0_l).
  rewrite IH. destruct (Req_dec r 0) as [->|Hr].
  - unfold Rdiv. rewrite Rmult_0_l, !Rinv_0. ring.
  - field. exact Hr.
Qed.

Lemma column_map_scale (r : R) (j : nat) (m : list (list R)) :
  column j (map (map (fun a => (a / r)%R)) m)
  = map (fun a => (a / r)%R) (column j m).
Proof.
  unfold column. rewrite !map_map. apply map_ext. intros row.
  replace 0%R with (0 / r)%R at 1 by (unfold Rdiv; apply Rmult_0_l).
  apply (map_nth (fun a => (a / r)%R)).
Qed.

Lemma fourth_root_squared (e : nat) :
  (0 < e)%nat ->
  (Rpower (INR e) (1 / 4) * Rpower (INR e) (1 / 4))%R = sqrt (INR e).
Proof.
  intros He. assert (0 < INR e)%R as Hpos by (apply lt_0_INR; exact He).
  rewrite <- Rpower_plus.
  replace (1 / 4 + 1 / 4)%R with (/ 2)%R by field.
  now apply Rpower_sqrt.
Qed.

Lemma matmul_scale (e p : nat) (a b : list (list R)) :
  (0 < e)%nat ->
  matmul p (map (map (fun q => (q / sqrt (INR e))%R)) a) b
  = matmul p (map (map (fun q => (q / Rpower (INR e) (1 / 4))%R)) a)
             (map (map (fun k => (k / Rpower (INR e) (1 / 4))%R)) b).
Proof.
  intros He. unfold matmul. rewrite !map_map. apply map_ext. intros row.
  apply map_ext. intros j.
  rewrite column_map_scale, dotprod_scale_l, dotprod_scale_both.
  now rewrite fourth_root_squared.
Qed.

Lemma transpose12_tmap {A B : Type} (f : A -> B) (x : tensor A) :
  transpose12 (tmap f x)
  = match transpose12 x with
    | Ok y => Ok (tmap f y)
    | Err err => Err err
    end.
Proof.
  unfold transpose12, tmap. simpl.
  destruct (size x) as [|d0 [|d1 [|d2 rest]]]; auto.
  f_equal. f_equal. simpl.
  rewrite split_n_map, concat_map, !map_map. f_equal. apply map_ext. intros blk.
  rewrite split_n_map, concat_map, !map_map. f_equal.
  unfold transpose_cells. rewrite !map_map. apply map_ext. intros c.
  rewrite concat_map, !map_map. f_equal. apply map_ext. intros row.
  rewrite split_n_map. change (@nil B) with (map f (@nil A)).
  now rewrite map_nth.
Qed.

Lemma bmm_scale (e : nat) (q kT : tensor R) :
  (0 < e)%nat ->
  bmm (tmap (fun a => (a / sqrt (INR e))%R) q) kT
  = bmm (tmap (fun a => (a / Rpower (INR e) (1 / 4))%R) q)
        (tmap (fun a => (a / Rpower (INR e) (1 / 4))%R) kT).
Proof.
  intros He. unfold bmm, tmap. simpl.
  destruct (size q) as [|n [|m [|k [|]]]]; auto.
  destruct (size kT) as [|n' [|k' [|p [|]]]]; auto.
  destruct ((n =? n') && (k =? k')); auto.
  f_equal. f_equal. f_equal.
  rewrite !split_n_map.
  rewrite <- (map_id (split_n n (k * p) (storage kT))) at 1.
  rewrite !zipWith_map. apply zipWith_ext. intros a b.
  rewrite !split_n_map. unfold id. now rewrite (matmul_scale p _ _ He).
Qed.

(** C3: for every pair of tensors and every embedding width [e > 0], the
    scores computed with the queries alone divided by [sqrt e] are the
    scores computed with queries and keys both divided by the fourth root of
    [e]; whatever follows the scores in [forward], the attention weights
    after softmax included, is therefore the same. *)
Theorem scaling_queries_once_is_equivalent (e : nat) (queries keys : tensor R) :
  (0 < e)%nat ->
  SelfAttention.scaled_dot e queries keys
  = SelfAttention.scaled_dot_both e queries keys /\
  forall (self : SelfAttention.t) (b t : nat) (values : tensor R),
    (dot <- SelfAttention.scaled_dot e queries keys ;;
     SelfAttention.attend self b t e dot values)
    = (dot <- SelfAttention.scaled_dot_both e queries keys ;;
       SelfAttention.attend self b t e dot values).
Proof.
  intros He.
  assert (SelfAttention.scaled_dot e queries keys
          = SelfAttention.scaled_dot_both e queries keys) as Heq.
  { unfold SelfAttention.scaled_dot, SelfAttention.scaled_dot_both.
    rewrite transpose12_tmap.
    destruct (transpose12 keys) as [kT|err]; simpl; auto.
    now apply bmm_scale. }
  split; auto. intros. now rewrite Heq.
Qed.

Lemma scaling_queries_once_is_equivalent_witness :
  (0 < 2)%nat /\
  SelfAttention.scaled_dot 2 example_input example_input
  = SelfAttention.scaled_dot_both 2 example_input example_input.
Proof.
  split; [lia|].
  apply (@scaling_queries_once_is_equivalent 2 example_input example_input).
  lia.
Defined.

(** * Causal masking and the softmax rows *)

Lemma concat_map_concat {A : Type} (L : list (list (list A))) :
  concat (map (@concat A) L) = concat (concat L).
Proof.
  induction L as [|l L IH]; simpl; auto.
  now rewrite concat_app, IH.
Qed.

Lemma nth_concat_uniform {A : Type} (m : nat) (ls : list (list A)) (r j : nat) (d : A) :
  Forall (fun piece => length piece = m) ls -> j < m ->
  nth (r * m + j) (concat ls) d = nth j (nth r ls []) d.
Proof.
  intros H. revert r. induction H as [|piece ls Hp _ IH]; intros r Hj.
  - transitivity d; [destruct (r * m + j) | destruct r, j]; reflexivity.
  - destruct r as [|r]; simpl.
    + rewrite app_nth1; auto. lia.
    + rewrite app_nth2 by lia.
      replace (m + r * m + j - length piece) with (r * m + j) by lia. auto.
Qed.

Lemma nth_zipWith {A B C : Type} (f : A -> B -> C) (u : list A) (v : list B)
  (i : nat) (da : A) (db : B) (dc : C) :
  i < length u -> i < length v ->
  nth i (zipWith f u v) dc = f (nth i u da) (nth i v db).
Proof.
  revert v i; induction u as [|a u IH]; intros [|b v] [|i] Hu Hv; simpl in *;
    try lia; auto.
  apply IH; lia.
Qed.

Lemma map_nth_seq {A : Type} (l : list A) (d : A) (n : nat) :
  n <= length l -> map (fun j => nth j l d) (seq 0 n) = firstn n l.
Proof.
  revert n. induction l as [|a l IH]; intros [|n] Hn; simpl in *; try lia; auto.
  f_equal. rewrite <- seq_shift, map_map. apply IH. lia.
Qed.

(** A row of which everything from column [c] on is overwritten. *)
Lemma mask_row_split (c s : nat) (row : list score) :
  zipWith (fun j v => if c <=? j then NegInf else v) (seq s (length row)) row
  = firstn (c - s) row ++ repeat NegInf (length row - (c - s)).
Proof.
  revert s. induction row as [|v row IH]; intros s; simpl.
  - now rewrite firstn_nil.
  - rewrite IH. destruct (c <=? s) eqn:Hc.
    + apply Nat.leb_le in Hc.
      replace (c - s) with 0 by lia. replace (c - S s) with 0 by lia.
      simpl. now rewrite Nat.sub_0_r.
    + apply Nat.leb_gt in Hc.
      replace (c - s) with (S (c - S s)) by lia. reflexivity.
Qed.

Lemma Forall_firstn {A : Type} (P : A -> Prop) (n : nat) (l : list A) :
  Forall P l -> Forall P (firstn n l).
Proof.
  intros H. revert n. induction H as [|a l Ha _ IH]; intros [|n]; simpl;
    constructor; auto.
Qed.

Lemma Forall_skipn {A : Type} (P : A -> Prop) (n : nat) (l : list A) :
  Forall P l -> Forall P (skipn n l).
Proof.
  intros H. revert n. induction H as [|a l Ha Hl IH]; intros [|n]; simpl;
    auto.
Qed.

Lemma sum_app (u v : list R) : sum (u ++ v) = (sum u + sum v)%R.
Proof.
  unfold sum. induction u as [|a u IH]; simpl.
  - now rewrite Rplus_0_l.
  - rewrite IH. ring.
Qed.

Lemma sum_exp_masked (m : nat) : sum (map exp_score (repeat NegInf m)) = 0%R.
Proof.
  induction m as [|m IH]; simpl; auto. unfold sum in *. simpl. rewrite IH. ring.
Qed.

Lemma sum_exp_nonneg (row : list score) : (0 <= sum (map exp_score row))%R.
Proof.
  induction row as [|s row IH]; simpl.
  - unfold sum. simpl. lra.
  - unfold sum in *. simpl. destruct s as [r|]; simpl.
    + pose proof (exp_pos r). lra.
    + lra.
Qed.

Lemma sum_exp_pos (row : list score) :
  row <> [] -> Forall is_finite row -> (0 < sum (map exp_score row))%R.
Proof.
  intros Hne Hfin. destruct row as [|s row]; [congruence|].
  inversion Hfin as [|? ? [r ->] _]; subst.
  pose proof (sum_exp_nonneg row) as Hrest. pose proof (exp_pos r).
  unfold sum in *. simpl. lra.
Qed.

Lemma sum_map_div (z : R) (row : list score) :
  sum (map (fun s => (exp_score s / z)%R) row) = (sum (map exp_score row) / z)%R.
Proof.
  unfold sum. induction row as [|s row IH]; simpl.
  - unfold Rdiv. now rewrite Rmult_0_l.
  - rewrite IH. unfold Rdiv. ring.
Qed.

Section MaskedRow.

Variable row : list score.
Variable i : nat.
Hypothesis Hi : i < length row.
Hypothesis Hfin : Forall is_finite row.

Lemma masked_split :
  (causal_row i row) = firstn (S i) row ++ repeat NegInf (length row - S i).
Proof.
  unfold causal_row. rewrite mask_row_split.
  now replace (i + 1 - 0) with (S i) by lia.
Qed.

Lemma length_masked : length (causal_row i row) = length row.
Proof.
  unfold causal_row. rewrite length_zipWith, length_seq. lia.
Qed.

Lemma masked_visible (j : nat) :
  j <= i -> nth j (causal_row i row) NegInf = nth j row NegInf /\ is_finite (nth j (causal_row i row) NegInf).
Proof.
  intros Hj. rewrite masked_split, app_nth1.
  2:{ rewrite length_firstn. lia. }
  rewrite nth_firstn. assert ((j <? S i) = true) as -> by (apply Nat.ltb_lt; lia).
  split; auto. rewrite Forall_forall in Hfin. apply Hfin. apply nth_In. lia.
Qed.

Lemma masked_future (j : nat) : i < j -> nth j (causal_row i row) NegInf = NegInf.
Proof.
  intros Hj. rewrite masked_split, app_nth2.
  2:{ rewrite length_firstn. lia. }
  destruct (nth_in_or_default (j - length (firstn (S i) row))
              (repeat NegInf (length row - S i)) NegInf) as [Hin | ->]; auto.
  now apply repeat_spec in Hin.
Qed.

Lemma masked_denominator :
  sum (map exp_score (causal_row i row)) = sum (map exp_score (firstn (S i) row)) /\
  (0 < sum (map exp_score (causal_row i row)))%R.
Proof.
  assert (sum (map exp_score (causal_row i row)) = sum (map exp_score (firstn (S i) row))) as Heq.
  { rewrite masked_split, map_app, sum_app, sum_exp_masked. ring. }
  split; auto. rewrite Heq. apply sum_exp_pos.
  - destruct row; simpl in *; [lia | discriminate].
  - apply Forall_firstn. exact Hfin.
Qed.

Lemma softmax_future (j : nat) : i < j -> nth j (softmax_row (causal_row i row)) 0%R = 0%R.
Proof.
  intros Hj. unfold softmax_row.
  destruct (Nat.lt_ge_cases j (length (causal_row i row))) as [Hlt|Hge].
  - rewrite (nth_indep _ 0%R (exp_score NegInf / sum (map exp_score (causal_row i row)))%R)
      by now rewrite length_map.
    rewrite (map_nth (fun s => (exp_score s / sum (map exp_score (causal_row i row)))%R)).
    rewrite masked_future by exact Hj. simpl. unfold Rdiv. apply Rmult_0_l.
  - apply nth_overflow. now rewrite length_map.
Qed.

Lemma softmax_visible_sum :
  sum (map (fun j => nth j (softmax_row (causal_row i row)) 0%R) (seq 0 (S i))) = 1%R.
Proof.
  rewrite map_nth_seq.
  2:{ unfold softmax_row. rewrite length_map, length_masked. lia. }
  unfold softmax_row. rewrite firstn_map, sum_map_div.
  destruct masked_denominator as [Heq Hpos].
  assert (firstn (S i) (causal_row i row) = firstn (S i) row) as ->.
  { rewrite masked_split, firstn_app, firstn_firstn, Nat.min_id.
    rewrite length_firstn. replace (S i - Nat.min (S i) (length row)) with 0 by lia.
    simpl. apply app_nil_r. }
  rewrite Heq. field. rewrite <- Heq. lra.
Qed.

End MaskedRow.

Lemma Forall_split_n {A : Type} (P : A -> Prop) (count m : nat) (l : list A) :
  Forall P l -> Forall (Forall P) (split_n count m l).
Proof.
  revert l. induction count as [|c IH]; intros l H; simpl; constructor.
  - now apply Forall_firstn.
  - apply IH. now apply Forall_skipn.
Qed.

Lemma nth_split_n_length {A : Type} (count m i : nat) (l : list A) :
  length l = count * m -> i < count -> length (nth i (split_n count m l) []) = m.
Proof.
  intros Hl Hi. pose proof (split_n_lengths count m l Hl) as HF.
  rewrite Forall_forall in HF. apply HF. apply nth_In.
  now rewrite length_split_n.
Qed.

Lemma nth_Forall {A : Type} (P : A -> Prop) (l : list A) (i : nat) (d : A) :
  Forall P l -> i < length l -> P (nth i l d).
Proof.
  intros H Hi. rewrite Forall_forall in H. apply H. now apply nth_In.
Qed.

(** * Identity sublayers *)

Lemma zipWith_diag {A B : Type} (f : A -> A -> B) (u : list A) :
  zipWith f u u = map (fun a => f a a) u.
Proof. induction u as [|a u IH]; simpl; auto. now rewrite IH. Qed.

Lemma residual_diag (rows : list (list R)) : residual rows rows = doubled rows.
Proof.
  unfold residual, doubled. rewrite zipWith_diag. apply map_ext.
  intros v. apply zipWith_diag.
Qed.

Lemma Dropout_zero (d : Dropout) (training : bool) (noise : nat -> bool)
  (x : tensor R) :
  p d = 0%R -> Dropout_forward d training noise x = x.
Proof.
  intros Hp. unfold Dropout_forward. destruct (negb training); auto.
  destruct (Req_dec_T (p d) 0); auto. contradiction.
Qed.

Lemma sum_map_scale (c : R) (v : list R) :
  sum (map (fun a => (c * a)%R) v) = (c * sum v)%R.
Proof.
  unfold sum. induction v as [|a v IH]; simpl.
  - ring.
  - rewrite IH. ring.
Qed.

Lemma mean_double (v : list R) :
  mean (map (fun a => (a + a)%R) v) = (2 * mean v)%R.
Proof.
  unfold mean. rewrite length_map.
  rewrite (map_ext (fun a => (a + a)%R) (fun a => (2 * a)%R)) by (intros; ring).
  rewrite sum_map_scale. unfold Rdiv. ring.
Qed.

Lemma var_double (v : list R) :
  var (map (fun a => (a + a)%R) v) = (4 * var v)%R.
Proof.
  unfold var. rewrite mean_double, length_map, map_map.
  rewrite (map_ext (fun a => ((a + a - 2 * mean v) * (a + a - 2 * mean v))%R)
             (fun a => (4 * ((a - mean v) * (a - mean v)))%R)) by (intros; ring).
  rewrite <- (map_map (fun a => ((a - mean v) * (a - mean v))%R)
                      (fun s => (4 * s)%R)).
  rewrite sum_map_scale. unfold Rdiv. ring.
Qed.

Lemma sum_squares_nonneg (m : R) (v : list R) :
  (0 <= sum (map (fun a => (a - m) * (a - m)) v))%R.
Proof.
  unfold sum. induction v as [|a v IH]; simpl.
  - lra.
  - pose proof (Rle_0_sqr (a - m)) as Hs. unfold Rsqr in Hs. lra.
Qed.

Lemma var_nonneg (v : list R) : (0 <= var v)%R.
Proof.
  unfold var. destruct v as [|a v].
  - simpl. unfold sum, Rdiv. simpl. rewrite Rmult_0_l. lra.
  - apply Rmult_le_pos.
    + apply sum_squares_nonneg.
    + left. apply Rinv_0_lt_compat. apply lt_0_INR. simpl. lia.
Qed.

(** Without the [eps] term the normalisation does not see a factor of two. *)
Lemma standardize_double (v : list R) :
  standardize 0 (map (fun a => (a + a)%R) v) = standardize 0 v.
Proof.
  unfold standardize. rewrite mean_double, var_double, map_map.
  apply map_ext. intros a. rewrite !Rplus_0_r.
  rewrite sqrt_mult by (try lra; apply var_nonneg).
  replace 4%R with (2 * 2)%R by ring. rewrite sqrt_square by lra.
  destruct (Req_dec (sqrt (var v)) 0) as [Hz|Hnz].
  - rewrite Hz, Rmult_0_r. unfold Rdiv. rewrite Rinv_0. ring.
  - field. exact Hnz.
Qed.

Lemma Normalize_doubled (ln : LayerNorm) (rows : list (list R)) :
  eps ln = 0%R -> Normalize ln (doubled rows) = Normalize ln rows.
Proof.
  intros Heps. unfold Normalize, doubled. rewrite map_map. apply map_ext.
  intros v. unfold layer_norm_row. now rewrite Heps, standardize_double.
Qed.

Lemma positions_of_positions (b t e : nat) (rows : list (list R)) :
  length rows = b * t -> Forall (fun row => length row = e) rows ->
  positions b t e (of_positions b t e rows) = rows.
Proof.
  intros Hl Hu. unfold positions, of_positions. simpl.
  rewrite <- Hl. now apply split_n_concat.
Qed.

Lemma Ok_inj {A : Type} (u v : A) : Ok u = Ok v -> u = v.
Proof. intros H. now injection H. Qed.

Section IdentitySublayers.

Variable blk : TransformerBlock.t.
Hypothesis Hwf : wf_TransformerBlock blk.
Variables b t e h : nat.
Hypothesis He : Z.of_nat e = SelfAttention.emb (TransformerBlock.attention blk).
Hypothesis Hh : Z.of_nat h = SelfAttention.heads (TransformerBlock.attention blk).
Variable x : tensor R.
Hypothesis Hx : shaped [b; t; e] x.

Lemma normalized_doubled_shaped : shaped [b; t; e] (normalized_doubled blk b t e x).
Proof.
  pose proof Hwf as (_ & Hn1 & _ & Hs1 & _).
  rewrite (@emb_to_nat _ _ He) in *.
  unfold normalized_doubled. rewrite <- residual_diag.
  destruct (@residual_shaped b t e _ _ Hx Hx) as (s & _ & Hs & <-).
  now apply Normalize_shaped.
Qed.

Lemma block_with_identity_sublayers (training : bool) (noise1 noise2 : nat -> bool) :
  p (TransformerBlock.do_ blk) = 0%R ->
  SelfAttention.forward (TransformerBlock.attention blk) x = Ok x ->
  TransformerBlock.ff_forward (TransformerBlock.ff blk)
    (normalized_doubled blk b t e x) = Ok (normalized_doubled blk b t e x) ->
  TransformerBlock.forward blk training noise1 noise2 x
    = Ok (normalized_doubled_twice blk b t e x).
Proof.
  intros Hp Hatt Hff.
  destruct (@block_forward_spec _ Hwf b t e h He Hh training noise1 noise2 _ Hx)
    as (att & Ha & _ & Hfw & _).
  rewrite Hatt in Ha. apply Ok_inj in Ha. subst att.
  rewrite Hfw. f_equal. unfold spec_block, normalized_doubled_twice.
  rewrite !Dropout_zero by exact Hp. rewrite residual_diag.
  fold (normalized_doubled blk b t e x).
  pose proof Hwf as (_ & _ & _ & _ & _ & Hf1 & Hf2 & Hfi & Hfio & Hfo).
  rewrite (@emb_to_nat _ _ He) in *.
  destruct (@FeedForward_shaped b t e _ _ Hf1 Hf2 Hfi Hfio Hfo
              normalized_doubled_shaped) as [Hff' _].
  rewrite Hff in Hff'. apply Ok_inj in Hff'.
  assert (FeedForward (TransformerBlock.ff blk)
            (positions b t e (normalized_doubled blk b t e x))
          = positions b t e (normalized_doubled blk b t e x)) as ->.
  { rewrite Hff' at 2. symmetry. apply positions_of_positions.
    - unfold FeedForward, positions. now rewrite length_map, length_split_n.
    - unfold FeedForward. apply Forall_map_length. intros v _.
      now rewrite length_linear_row. }
  now rewrite residual_diag.
Qed.

Lemma normalized_doubled_twice_without_eps :
  eps (TransformerBlock.norm1 blk) = 0%R -> eps (TransformerBlock.norm2 blk) = 0%R ->
  normalized_doubled_twice blk b t e x = twice_normalized blk b t e x.
Proof.
  intros H1 H2. unfold normalized_doubled_twice, twice_normalized, normalized_doubled.
  now rewrite (@Normalize_doubled _ _ H1), (@Normalize_doubled _ _ H2).
Qed.

End IdentitySublayers.

(** ** The example block on the example input *)

Lemma mean_pair (a c : R) : c = (- a)%R -> mean [a; c] = 0%R.
Proof. intros ->. unfold mean, sum. simpl. field. Qed.

Lemma var_pair (a c : R) : c = (- a)%R -> var [a; c] = (a * a)%R.
Proof.
  intros Hc. unfold var. rewrite (mean_pair Hc). subst c.
  unfold sum. simpl. field.
Qed.

Lemma example_norm_row (a c : R) :
  c = (- a)%R -> layer_norm_row example_norm [a; c] = [std2 a; (- std2 a)%R].
Proof.
  intros Hc. unfold layer_norm_row, standardize.
  rewrite (mean_pair Hc), (var_pair Hc). subst c. simpl. unfold std2.
  f_equal; [|f_equal]; unfold Rdiv; ring.
Qed.

Lemma relu_difference (u : R) : (Rmax 0 u + - Rmax 0 (- u))%R = u.
Proof.
  unfold Rmax. destruct (Rle_dec 0 u), (Rle_dec 0 (- u)); lra.
Qed.

Lemma example_ff_row (u v : R) :
  linear_row (snd (TransformerBlock.ff example_block))
    (map (Rmax 0) (linear_row (fst (TransformerBlock.ff example_block)) [u; v]))
  = [u; v].
Proof.
  unfold linear_row, dotprod, sum. simpl.
  replace (u * 1 + (v * 0 + 0) + 0)%R with u by ring.
  replace (u * 0 + (v * 1 + 0) + 0)%R with v by ring.
  replace (u * -1 + (v * 0 + 0) + 0)%R with (- u)%R by ring.
  replace (u * 0 + (v * -1 + 0) + 0)%R with (- v)%R by ring.
  f_equal; [|f_equal].
  - transitivity (Rmax 0 u + - Rmax 0 (- u))%R; [ring | apply relu_difference].
  - transitivity (Rmax 0 v + - Rmax 0 (- v))%R; [ring | apply relu_difference].
Qed.

Lemma example_attention_identity (u v : R) :
  SelfAttention.forward example_attention (Tensor [1; 1; 2] [u; v])
  = Ok (Tensor [1; 1; 2] [u; v]).
Proof.
  unfold SelfAttention.forward, SelfAttention.forward_with_attention,
    SelfAttention.scores, example_attention.
  simpl. unfold dotprod, sum. simpl.
  set (s := exp _). assert (s <> 0%R) as Hs by apply exp_neq_0.
  f_equal. apply tensor_eq; [reflexivity|]. simpl.
  f_equal; [|f_equal]; field; lra.
Qed.

Lemma example_ff_identity (u v : R) :
  TransformerBlock.ff_forward (TransformerBlock.ff example_block)
    (Tensor [1; 1; 2] [u; v])
  = Ok (Tensor [1; 1; 2] [u; v]).
Proof.
  destruct example_block_wf as (_ & _ & _ & _ & _ & Hf1 & Hf2 & Hfi & Hfio & Hfo).
  destruct (@FeedForward_shaped 1 1 2 (TransformerBlock.ff example_block)
              (Tensor [1; 1; 2] [u; v]) Hf1 Hf2 Hfi Hfio Hfo) as [-> _].
  { split; reflexivity. }
  f_equal. unfold of_positions, FeedForward, positions.
  change (split_n (1 * 1) 2 (storage (Tensor [1; 1; 2] [u; v]))) with [[u; v]].
  cbn [map]. now rewrite example_ff_row.
Qed.

Lemma example_normalized_doubled (a : R) :
  normalized_doubled example_block 1 1 2 (Tensor [1; 1; 2] [a; (- a)%R])
  = Tensor [1; 1; 2] [std2 (a + a); (- std2 (a + a))%R].
Proof.
  unfold normalized_doubled, of_positions.
  change (positions 1 1 2 (Tensor [1; 1; 2] [a; (- a)%R])) with [[a; (- a)%R]].
  change (TransformerBlock.norm1 example_block) with example_norm.
  unfold doubled, Normalize. cbn [map].
  rewrite (@example_norm_row (a + a) (- a + - a)) by ring. reflexivity.
Qed.

Lemma example_normalized_doubled_twice (a : R) :
  normalized_doubled_twice example_block 1 1 2 (Tensor [1; 1; 2] [a; (- a)%R])
  = Tensor [1; 1; 2]
      [std2 (std2 (a + a) + std2 (a + a));
       (- std2 (std2 (a + a) + std2 (a + a)))%R].
Proof.
  unfold normalized_doubled_twice. rewrite example_normalized_doubled.
  unfold of_positions.
  change (positions 1 1 2 (Tensor [1; 1; 2] [std2 (a + a); (- std2 (a + a))%R]))
    with [[std2 (a + a); (- std2 (a + a))%R]].
  change (TransformerBlock.norm2 example_block) with example_norm.
  unfold doubled, Normalize. cbn [map].
  rewrite (@example_norm_row (std2 (a + a) + std2 (a + a))
             (- std2 (a + a) + - std2 (a + a))) by ring.
  reflexivity.
Qed.

Lemma example_twice_normalized (a : R) :
  twice_normalized example_block 1 1 2 (Tensor [1; 1; 2] [a; (- a)%R])
  = Tensor [1; 1; 2] [std2 (std2 a); (- std2 (std2 a))%R].
Proof.
  unfold twice_normalized, of_positions.
  change (positions 1 1 2 (Tensor [1; 1; 2] [a; (- a)%R])) with [[a; (- a)%R]].
  change (TransformerBlock.norm1 example_block) with example_norm.
  change (TransformerBlock.norm2 example_block) with example_norm.
  unfold Normalize. cbn [map].
  rewrite (@example_norm_row a (- a)) by ring.
  change (positions 1 1 2 (Tensor [1; 1; 2] (concat [[std2 a; (- std2 a)%R]])))
    with [[std2 a; (- std2 a)%R]].
  cbn [map].
  rewrite (@example_norm_row (std2 a) (- std2 a)) by ring.
  reflexivity.
Qed.

Lemma std2_root (a : R) :
  (0 < sqrt (a * a + 1 / 100000))%R /\
  (sqrt (a * a + 1 / 100000) * sqrt (a * a + 1 / 100000) = a * a + 1 / 100000)%R.
Proof.
  assert (0 < a * a + 1 / 100000)%R as Hpos by nra.
  split.
  - now apply sqrt_lt_R0.
  - apply sqrt_sqrt. lra.
Qed.

Lemma std2_pos (a : R) : (0 < a)%R -> (0 < std2 a)%R.
Proof.
  intros Ha. unfold std2. destruct (std2_root a) as [Hr _].
  now apply Rdiv_lt_0_compat.
Qed.

Lemma std2_square (a : R) :
  (std2 a * std2 a = a * a / (a * a + 1 / 100000))%R.
Proof.
  unfold std2. destruct (std2_root a) as [Hr Hr2].
  set (S := sqrt (a * a + 1 / 100000)) in *.
  rewrite <- Hr2. field. lra.
Qed.

(** On the input [[1e-5; -1e-5]] the squares of the first entries are
    [400000/425001] for the block and [100000/200001] for the
    twice-normalised input. *)
Lemma small_block_entry :
  let y := std2 (std2 (1 / 100000 + 1 / 100000) + std2 (1 / 100000 + 1 / 100000)) in
  (0 < y /\ y * y = 400000 / 425001)%R.
Proof.
  set (u := std2 (1 / 100000 + 1 / 100000)).
  assert (0 < u)%R as Hu by (apply std2_pos; lra).
  assert (u * u = 1 / 25001)%R as Hu2 by (unfold u; rewrite std2_square; field).
  simpl. split.
  - apply std2_pos. lra.
  - rewrite std2_square.
    replace ((u + u) * (u + u))%R with (4 * (u * u))%R by ring.
    rewrite Hu2. field.
Qed.

Lemma small_twice_normalized_entry :
  let z := std2 (std2 (1 / 100000)) in
  (0 < z /\ z * z = 100000 / 200001)%R.
Proof.
  set (u := std2 (1 / 100000)).
  assert (0 < u)%R as Hu by (apply std2_pos; lra).
  assert (u * u = 1 / 100001)%R as Hu2 by (unfold u; rewrite std2_square; field).
  simpl. split.
  - now apply std2_pos.
  - rewrite std2_square, Hu2. field.
Qed.

(** C6, as the code behaves: when dropout is off and the attention and
    feed-forward sublayers return their inputs, each residual sum is twice
    its input, so the block returns [Norm2(2 * Norm1(2 * X))]; this is
    [Normalize(Normalize(X))] when both normalisations have [eps = 0], the
    case in which a factor of two is not seen. *)
Theorem identity_sublayers_normalize_doubled_input (blk : TransformerBlock.t)
  (b t e h : nat) (training : bool) (noise1 noise2 : nat -> bool) (x : tensor R) :
  wf_TransformerBlock blk ->
  Z.of_nat e = SelfAttention.emb (TransformerBlock.attention blk) ->
  Z.of_nat h = SelfAttention.heads (TransformerBlock.attention blk) ->
  shaped [b; t; e] x ->
  p (TransformerBlock.do_ blk) = 0%R ->
  SelfAttention.forward (TransformerBlock.attention blk) x = Ok x ->
  TransformerBlock.ff_forward (TransformerBlock.ff blk)
    (normalized_doubled blk b t e x) = Ok (normalized_doubled blk b t e x) ->
  TransformerBlock.forward blk training noise1 noise2 x
    = Ok (normalized_doubled_twice blk b t e x) /\
  (eps (TransformerBlock.norm1 blk) = 0%R ->
   eps (TransformerBlock.norm2 blk) = 0%R ->
   TransformerBlock.forward blk training noise1 noise2 x
     = Ok (twice_normalized blk b t e x)).
Proof.
  intros Hwf He Hh Hx Hp Hatt Hff.
  pose proof (@block_with_identity_sublayers blk Hwf b t e h He Hh x Hx
                training noise1 noise2 Hp Hatt Hff) as Hfw.
  split; auto. intros H1 H2.
  now rewrite Hfw, (@normalized_doubled_twice_without_eps blk b t e x H1 H2).
Qed.

Lemma example_ff_at_normalized_doubled (a : R) :
  TransformerBlock.ff_forward (TransformerBlock.ff example_block)
    (normalized_doubled example_block 1 1 2 (Tensor [1; 1; 2] [a; (- a)%R]))
  = Ok (normalized_doubled example_block 1 1 2 (Tensor [1; 1; 2] [a; (- a)%R])).
Proof. rewrite example_normalized_doubled. apply example_ff_identity. Qed.

Lemma small_input_shaped : shaped [1; 1; 2] small_input.
Proof. split; reflexivity. Qed.

Lemma identity_sublayers_normalize_doubled_input_witness :
  wf_TransformerBlock example_block /\
  shaped [1; 1; 2] small_input /\
  p (TransformerBlock.do_ example_block) = 0%R /\
  SelfAttention.forward (TransformerBlock.attention example_block) small_input
    = Ok small_input /\
  TransformerBlock.forward example_block true keep_all keep_all small_input
    = Ok (normalized_doubled_twice example_block 1 1 2 small_input).
Proof.
  split; [apply example_block_wf|]. split; [apply small_input_shaped|].
  split; [reflexivity|]. split; [apply example_attention_identity|].
  apply (@identity_sublayers_normalize_doubled_input example_block 1 1 2 1
           true keep_all keep_all small_input example_block_wf eq_refl eq_refl
           small_input_shaped eq_refl
           (example_attention_identity (1 / 100000) (- (1 / 100000)))
           (example_ff_at_normalized_doubled (1 / 100000))).
Defined.

(** C6 as stated fails.  In the example block both sublayers are identity
    functions on every input of one position, all biases are zero and
    dropout is off, yet on the input [[1e-5; -1e-5]] the block does not
    return the twice-normalised input: the normalisation adds [eps = 1e-5]
    to the variance, so it is not invariant under the factor of two, and the
    first entries of the two tensors are more than 1/5 apart. *)
Lemma identity_block_is_not_twice_normalized :
  p (TransformerBlock.do_ example_block) = 0%R /\
  (forall u v,
     SelfAttention.forward (TransformerBlock.attention example_block)
       (Tensor [1; 1; 2] [u; v]) = Ok (Tensor [1; 1; 2] [u; v])) /\
  (forall u v,
     TransformerBlock.ff_forward (TransformerBlock.ff example_block)
       (Tensor [1; 1; 2] [u; v]) = Ok (Tensor [1; 1; 2] [u; v])) /\
  exists y,
    TransformerBlock.forward example_block true keep_all keep_all small_input
      = Ok y /\
    y <> twice_normalized example_block 1 1 2 small_input /\
    (1 / 5 < get3 0 y 0 0 0
             - get3 0 (twice_normalized example_block 1 1 2 small_input) 0 0 0)%R.
Proof.
  split; [reflexivity|]. split; [apply example_attention_identity|].
  split; [apply example_ff_identity|].
  exists (normalized_doubled_twice example_block 1 1 2 small_input).
  assert (1 / 5 < get3 0 (normalized_doubled_twice example_block 1 1 2 small_input)
                    0 0 0
                  - get3 0 (twice_normalized example_block 1 1 2 small_input) 0 0 0)%R
    as Hgap.
  { unfold small_input.
    rewrite example_normalized_doubled_twice, example_twice_normalized.
    unfold get3. cbn [size storage nth Nat.mul Nat.add].
    destruct small_block_entry as [Hy Hy2].
    destruct small_twice_normalized_entry as [Hz Hz2].
    set (y := std2 (std2 (1 / 100000 + 1 / 100000) + std2 (1 / 100000 + 1 / 100000))) in *.
    set (z := std2 (std2 (1 / 100000))) in *.
    assert (24 / 25 < y)%R by nra.
    assert (z < 18 / 25)%R by nra.
    lra. }
  split_all.
  - apply (@block_with_identity_sublayers example_block example_block_wf
             1 1 2 1 eq_refl eq_refl small_input small_input_shaped
             true keep_all keep_all eq_refl
             (example_attention_identity (1 / 100000) (- (1 / 100000)))
             (example_ff_at_normalized_doubled (1 / 100000))).
  - intros Heq. rewrite Heq in Hgap. lra.
  - exact Hgap.
Qed.

(** * Attention without mask, one sequence at a time *)

(** ** Storage and sequences *)

Lemma uniform2_concat {A : Type} (t e : nat) (X : list (list A)) :
  uniform2 t e X -> length (concat X) = t * e.
Proof.
  intros [Hl Hu]. rewrite (@length_concat_uniform _ e) by exact Hu.
  now rewrite Hl.
Qed.

Lemma uniform2_split {A : Type} (t e : nat) (X : list (list A)) :
  uniform2 t e X -> split_n t e (concat X) = X.
Proof.
  intros [Hl Hu]. rewrite <- Hl. now apply split_n_concat.
Qed.

Lemma split_uniform2 {A : Type} (t e : nat) (l : list A) :
  length l = t * e -> uniform2 t e (split_n t e l).
Proof.
  intros Hl. split; [apply length_split_n | now apply split_n_lengths].
Qed.

Lemma uniform3_blocks {A : Type} (b t e : nat) (M : list (list (list A))) :
  uniform3 b t e M -> split_n b (t * e) (flat3 M) = map (@concat A) M.
Proof.
  intros [Hl Hu]. unfold flat3. rewrite <- Hl, <- (length_map (@concat A) M).
  apply split_n_concat. apply Forall_map_length. intros X HX.
  rewrite Forall_forall in Hu. apply uniform2_concat. auto.
Qed.

Lemma uniform3_rows {A : Type} (b t e : nat) (M : list (list (list A))) :
  uniform3 b t e M -> split_n (b * t) e (flat3 M) = concat M.
Proof.
  intros [Hl Hu]. unfold flat3. rewrite concat_map_concat.
  assert (length (concat M) = b * t) as <-.
  { rewrite (@length_concat_uniform _ t), Hl; auto.
    eapply Forall_impl; [|exact Hu]. intros X [HX _]. exact HX. }
  apply split_n_concat. apply Forall_concat.
  eapply Forall_impl; [|exact Hu]. intros X [_ HX]. exact HX.
Qed.

Lemma uniform3_sequences {A : Type} (b t e : nat) (M : list (list (list A))) :
  uniform3 b t e M ->
  map (split_n t e) (split_n b (t * e) (flat3 M)) = M.
Proof.
  intros HM. rewrite (uniform3_blocks HM), map_map.
  rewrite <- (map_id M) at 2. apply map_ext_in. intros X HX.
  destruct HM as [_ Hu]. rewrite Forall_forall in Hu.
  apply uniform2_split. auto.
Qed.

Lemma length_flat3 {A : Type} (b t e : nat) (M : list (list (list A))) :
  uniform3 b t e M -> length (flat3 M) = b * (t * e).
Proof.
  intros [Hl Hu]. unfold flat3. rewrite (@length_concat_uniform _ (t * e)).
  - now rewrite length_map, Hl.
  - apply Forall_map_length. intros X HX. rewrite Forall_forall in Hu.
    apply uniform2_concat. auto.
Qed.

Lemma sequences_uniform (b t e : nat) (st : list R) :
  length st = b * (t * e) ->
  uniform3 b t e (sequences b t e st) /\ flat3 (sequences b t e st) = st.
Proof.
  intros Hl. unfold sequences. split.
  - split.
    + now rewrite length_map, length_split_n.
    + apply Forall_forall. intros X HX. apply in_map_iff in HX.
      destruct HX as (blk & <- & Hblk). apply split_uniform2.
      pose proof (@split_n_lengths _ b (t * e) st Hl) as HF.
      rewrite Forall_forall in HF. auto.
  - unfold flat3. rewrite map_map.
    rewrite (map_ext_in _ (fun blk => blk)).
    + rewrite map_id. now apply concat_split_n.
    + intros blk Hblk. apply concat_split_n.
      pose proof (@split_n_lengths _ b (t * e) st Hl) as HF.
      rewrite Forall_forall in HF. auto.
Qed.

Lemma uniform3_map_rows {A B : Type} (f : list A -> list B) (b t e e' : nat)
  (M : list (list (list A))) :
  (forall v, length v = e -> length (f v) = e') ->
  uniform3 b t e M -> uniform3 b t e' (map (map f) M).
Proof.
  intros Hf [Hl Hu]. split; [now rewrite length_map|].
  apply Forall_forall. intros X' HX'. apply in_map_iff in HX'.
  destruct HX' as (X & <- & HX). rewrite Forall_forall in Hu.
  destruct (Hu X HX) as [HXl HXu]. split; [now rewrite length_map|].
  apply Forall_map_length. intros v Hv. apply Hf.
  rewrite Forall_forall in HXu. auto.
Qed.

Lemma flat3_map_rows {A B : Type} (f : list A -> list B) (M : list (list (list A))) :
  concat (map f (concat M)) = flat3 (map (map f) M).
Proof.
  unfold flat3. rewrite concat_map, <- concat_map_concat, !map_map. reflexivity.
Qed.

Lemma rowwise_sequences {A B : Type} (b t d d' : nat) (f : list A -> list B)
  (x : tensor A) (M : list (list (list A))) :
  size x = [b; t; d] -> storage x = flat3 M -> uniform3 b t d M ->
  (forall v, length v = d -> length (f v) = d') ->
  exists y, rowwise d d' f x = Ok y /\ size y = [b; t; d'] /\
            storage y = flat3 (map (map f) M) /\
            uniform3 b t d' (map (map f) M).
Proof.
  intros Hs Hst HM Hf.
  destruct (@rowwise_shaped _ _ [b; t] d d' f x) as (y & Hy & [Hys _] & Hyst); auto.
  { split; auto. rewrite Hst, (length_flat3 HM). simpl. lia. }
  exists y. split_all; auto.
  - rewrite Hyst, Hst. simpl. rewrite Nat.mul_1_r, (uniform3_rows HM).
    apply flat3_map_rows.
  - now apply uniform3_map_rows with (e := d).
Qed.

(** ** Transposition, sequence by sequence *)

Lemma flat3_concat {A : Type} (G : list (list (list (list A)))) :
  flat3 (concat G) = concat (map (@flat3 A) G).
Proof.
  unfold flat3. rewrite concat_map, <- concat_map_concat, map_map. reflexivity.
Qed.

Lemma transpose12_storage {A : Type} (d0 d1 d2 : nat) (rest : list nat)
  (x : tensor A) :
  size x = d0 :: d1 :: d2 :: rest ->
  transpose12 x
  = Ok (Tensor (d0 :: d2 :: d1 :: rest)
          (concat (map (fun blk =>
                          concat (map (fun c =>
                                         concat (map (fun row =>
                                                        nth c (split_n d2 (numel rest) row) [])
                                                     (split_n d1 (d2 * numel rest) blk)))
                                      (seq 0 d2)))
                       (split_n d0 (d1 * d2 * numel rest) (storage x))))).
Proof.
  intros Hs. unfold transpose12. rewrite Hs. f_equal. f_equal. f_equal.
  apply map_ext. intros blk. f_equal. unfold transpose_cells.
  rewrite map_map. apply map_ext. intros c. now rewrite map_map.
Qed.

Lemma heads_of_uniform {A : Type} (t h e : nat) (X : list (list A)) :
  uniform2 t (h * e) X -> uniform3 h t e (heads_of h e X).
Proof.
  intros [Hl Hu]. unfold heads_of. split.
  - now rewrite length_map, length_seq.
  - apply Forall_forall. intros O HO. apply in_map_iff in HO.
    destruct HO as (c & <- & Hc). apply in_seq in Hc. split.
    + now rewrite length_map.
    + apply Forall_map_length. intros row Hrow.
      rewrite Forall_forall in Hu. apply nth_split_n_length; [|lia].
      rewrite (Hu row Hrow). reflexivity.
Qed.

Lemma uniform3_concat {A : Type} (b h t e : nat) (G : list (list (list (list A)))) :
  length G = b -> Forall (uniform3 h t e) G -> uniform3 (b * h) t e (concat G).
Proof.
  intros Hl Hu. split.
  - rewrite (@length_concat_uniform _ h), Hl; auto.
    eapply Forall_impl; [|exact Hu]. intros Os [HOs _]. exact HOs.
  - apply Forall_concat. eapply Forall_impl; [|exact Hu].
    intros Os [_ HOs]. exact HOs.
Qed.

(** [(b, t, h, e)] to [(b, h, t, e)]: the heads of every sequence. *)
Lemma transpose12_heads (b t h e : nat) (x : tensor R) (M : list (list (list R))) :
  size x = [b; t; h; e] -> storage x = flat3 M -> uniform3 b t (h * e) M ->
  transpose12 x = Ok (Tensor [b; h; t; e] (flat3 (concat (map (heads_of h e) M))))
  /\ uniform3 (b * h) t e (concat (map (heads_of h e) M)).
Proof.
  intros Hs Hst HM. split.
  - rewrite (transpose12_storage x Hs). f_equal. f_equal.
    rewrite Hst. simpl. rewrite !Nat.mul_1_r.
    replace (t * h * e) with (t * (h * e)) by lia.
    rewrite (uniform3_blocks HM), map_map, flat3_concat, map_map.
    f_equal. apply map_ext_in. intros X HX.
    destruct HM as [_ Hu]. rewrite Forall_forall in Hu.
    rewrite (uniform2_split (Hu X HX)).
    unfold flat3, heads_of. now rewrite map_map.
  - apply uniform3_concat.
    + rewrite length_map. apply HM.
    + apply Forall_forall. intros Os HOs. apply in_map_iff in HOs.
      destruct HOs as (X & <- & HX). apply heads_of_uniform.
      destruct HM as [_ Hu]. rewrite Forall_forall in Hu. auto.
Qed.

Lemma merged_rows_uniform {A : Type} (h t e : nat) (Os : list (list (list A))) :
  uniform3 h t e Os -> uniform2 t (h * e) (merged_rows t Os).
Proof.
  intros [Hl Hu]. unfold merged_rows. split.
  - now rewrite length_map, length_seq.
  - apply Forall_map_length. intros i Hi. apply in_seq in Hi.
    rewrite (@length_concat_uniform _ e).
    + now rewrite length_map, Hl.
    + apply Forall_map_length. intros O HO. rewrite Forall_forall in Hu.
      destruct (Hu O HO) as [HOl HOu].
      apply (@nth_Forall _ (fun row => length row = e)); auto. lia.
Qed.

(** [(b, h, t, e)] to [(b, t, h, e)]: the rows of the heads side by side. *)
Lemma transpose12_merge (b h t e : nat) (x : tensor R)
  (G : list (list (list (list R)))) :
  size x = [b; h; t; e] -> storage x = flat3 (concat G) ->
  length G = b -> Forall (uniform3 h t e) G ->
  transpose12 x = Ok (Tensor [b; t; h; e] (flat3 (map (merged_rows t) G)))
  /\ uniform3 b t (h * e) (map (merged_rows t) G).
Proof.
  intros Hs Hst Hl Hu. split.
  - rewrite (transpose12_storage x Hs). f_equal. f_equal.
    rewrite Hst. simpl. rewrite !Nat.mul_1_r, flat3_concat.
    assert (split_n b (h * t * e) (concat (map (@flat3 R) G)) = map (@flat3 R) G)
      as ->.
    { rewrite <- Hl, <- (length_map (@flat3 R) G). apply split_n_concat.
      apply Forall_map_length. intros Os HOs. rewrite Forall_forall in Hu.
      rewrite (length_flat3 (Hu Os HOs)). lia. }
    rewrite map_map. unfold flat3 at 2. rewrite map_map. f_equal.
    apply map_ext_in.
    intros Os HOs. rewrite Forall_forall in Hu. specialize (Hu Os HOs).
    rewrite (uniform3_blocks Hu). unfold merged_rows.
    f_equal. apply map_ext. intros i. rewrite map_map. f_equal.
    apply map_ext_in. intros O HO. destruct Hu as [_ Hu].
    rewrite Forall_forall in Hu. now rewrite (uniform2_split (Hu O HO)).
  - split; [now rewrite length_map|].
    apply Forall_forall. intros X HX. apply in_map_iff in HX.
    destruct HX as (Os & <- & HOs). apply merged_rows_uniform.
    rewrite Forall_forall in Hu. auto.
Qed.

Lemma nth_split_singletons {A : Type} (row : list A) (c : nat) (d : A) :
  c < length row -> nth c (split_n (length row) 1 row) [] = [nth c row d].
Proof.
  revert c. induction row as [|a row IH]; intros c Hc; simpl in *; [lia|].
  destruct c as [|c]; auto. apply IH. lia.
Qed.

Lemma transposeM_uniform (t e : nat) (X : list (list R)) :
  uniform2 t e X -> uniform2 e t (transposeM e X).
Proof.
  intros [Hl Hu]. unfold transposeM, column. split.
  - now rewrite length_map, length_seq.
  - apply Forall_map_length. intros c _. now rewrite length_map.
Qed.

Lemma concat_singletons {A B : Type} (f : A -> B) (l : list A) :
  concat (map (fun a => [f a]) l) = map f l.
Proof. induction l as [|a l IH]; simpl; auto. now rewrite IH. Qed.

(** [(n, t, e)] to [(n, e, t)]: every matrix transposed. *)
Lemma transpose12_matrices (n t e : nat) (x : tensor R) (K : list (list (list R))) :
  size x = [n; t; e] -> storage x = flat3 K -> uniform3 n t e K ->
  transpose12 x = Ok (Tensor [n; e; t] (flat3 (map (transposeM e) K)))
  /\ uniform3 n e t (map (transposeM e) K).
Proof.
  intros Hs Hst HK. split.
  - rewrite (transpose12_storage x Hs). f_equal. f_equal.
    rewrite Hst. simpl. rewrite !Nat.mul_1_r.
    rewrite (uniform3_blocks HK), map_map. unfold flat3. rewrite map_map.
    f_equal. apply map_ext_in. intros X HX.
    destruct HK as [_ Hu]. rewrite Forall_forall in Hu.
    destruct (Hu X HX) as [HXl HXu].
    rewrite (uniform2_split (Hu X HX)). unfold transposeM.
    f_equal. apply map_ext_in. intros c Hc. apply in_seq in Hc.
    unfold column. rewrite <- (concat_singletons (fun row => nth c row 0%R) X).
    f_equal.
    apply map_ext_in. intros row Hrow. rewrite Forall_forall in HXu.
    rewrite <- (HXu row Hrow). apply nth_split_singletons.
    rewrite (HXu row Hrow). lia.
  - split; [rewrite length_map; apply HK|].
    apply Forall_forall. intros X' HX'. apply in_map_iff in HX'.
    destruct HX' as (X & <- & HX). apply transposeM_uniform.
    destruct HK as [_ Hu]. rewrite Forall_forall in Hu. auto.
Qed.

(** ** Batched products, sequence by sequence *)

Lemma zipWith_ext_in {A B C : Type} (f g : A -> B -> C) (u : list A) (v : list B) :
  (forall a b, In a u -> In b v -> f a b = g a b) -> zipWith f u v = zipWith g u v.
Proof.
  revert v; induction u as [|a u IH]; intros [|b v] H; simpl; auto.
  rewrite H by (simpl; auto). f_equal. apply IH.
  intros a' b' Ha Hb. apply H; simpl; auto.
Qed.

Lemma map_zipWith {A B C D : Type} (g : C -> D) (f : A -> B -> C) (u : list A)
  (v : list B) :
  map g (zipWith f u v) = zipWith (fun a b => g (f a b)) u v.
Proof.
  revert v; induction u as [|a u IH]; intros [|b v]; simpl; auto.
  now rewrite IH.
Qed.

Lemma matmul_uniform (m p : nat) (a b : list (list R)) :
  length a = m -> uniform2 m p (matmul p a b).
Proof.
  intros Hl. unfold matmul. split.
  - now rewrite length_map.
  - apply Forall_map_length. intros row _. now rewrite length_map, length_seq.
Qed.

Lemma bmm_sequences (n m k q : nat) (x y : tensor R) (A B : list (list (list R))) :
  size x = [n; m; k] -> storage x = flat3 A -> uniform3 n m k A ->
  size y = [n; k; q] -> storage y = flat3 B -> uniform3 n k q B ->
  bmm x y = Ok (Tensor [n; m; q] (flat3 (zipWith (matmul q) A B)))
  /\ uniform3 n m q (zipWith (matmul q) A B).
Proof.
  intros Hsx Hx HA Hsy Hy HB. split.
  - unfold bmm. rewrite Hsx, Hsy, !Nat.eqb_refl. simpl. f_equal. f_equal.
    rewrite Hx, Hy, (uniform3_blocks HA), (uniform3_blocks HB), zipWith_map.
    unfold flat3 at 1. rewrite map_zipWith. f_equal.
    apply zipWith_ext_in. intros X Y HX HY.
    destruct HA as [_ HA]. destruct HB as [_ HB].
    rewrite Forall_forall in HA, HB.
    now rewrite (uniform2_split (HA X HX)), (uniform2_split (HB Y HY)).
  - destruct HA as [HAl HA]. destruct HB as [HBl HB]. split.
    + rewrite length_zipWith. lia.
    + apply Forall_zipWith. intros X Y HX HY. apply matmul_uniform.
      rewrite Forall_forall in HA. apply (HA X HX).
Qed.

(** ** Lists of heads *)

Lemma map_heads_list {A B : Type} (F : A -> B) (h : nat)
  (g : list (list R) -> nat -> A) (M : list (list (list R))) :
  map F (heads_list h g M) = heads_list h (fun X c => F (g X c)) M.
Proof.
  unfold heads_list. rewrite concat_map, map_map. f_equal. apply map_ext.
  intros X. now rewrite map_map.
Qed.

Lemma zipWith_app {A B C : Type} (f : A -> B -> C) (u u' : list A) (v v' : list B) :
  length u = length v ->
  zipWith f (u ++ u') (v ++ v') = zipWith f u v ++ zipWith f u' v'.
Proof.
  revert v; induction u as [|a u IH]; intros [|b v] Hl; simpl in *;
    try discriminate; auto.
  f_equal. apply IH. lia.
Qed.

Lemma zipWith_heads_list {A B C : Type} (F : A -> B -> C) (h : nat)
  (g1 : list (list R) -> nat -> A) (g2 : list (list R) -> nat -> B)
  (M : list (list (list R))) :
  zipWith F (heads_list h g1 M) (heads_list h g2 M)
  = heads_list h (fun X c => F (g1 X c) (g2 X c)) M.
Proof.
  unfold heads_list. induction M as [|X M IH]; simpl; auto.
  rewrite zipWith_app by now rewrite !length_map.
  rewrite IH. f_equal. rewrite zipWith_map. rewrite zipWith_diag. reflexivity.
Qed.

Lemma heads_list_uniform {A : Type} (b h t e : nat)
  (g : list (list R) -> nat -> list (list A)) (M : list (list (list R))) :
  length M = b ->
  (forall X c, In X M -> c < h -> uniform2 t e (g X c)) ->
  uniform3 (b * h) t e (heads_list h g M) /\
  Forall (uniform3 h t e) (map (fun X => map (g X) (seq 0 h)) M).
Proof.
  intros Hl Hg.
  assert (Forall (uniform3 h t e) (map (fun X => map (g X) (seq 0 h)) M)) as HF.
  { apply Forall_forall. intros Os HOs. apply in_map_iff in HOs.
    destruct HOs as (X & <- & HX). split.
    - now rewrite length_map, length_seq.
    - apply Forall_forall. intros O HO. apply in_map_iff in HO.
      destruct HO as (c & <- & Hc). apply in_seq in Hc. apply Hg; auto. lia. }
  split; auto. unfold heads_list. apply uniform3_concat; auto.
  now rewrite length_map.
Qed.

Lemma heads_of_projection (l : Linear) (h e : nat) (M : list (list (list R))) :
  concat (map (heads_of h e) (map (map (linear_row l)) M))
  = heads_list h (fun X c => head_rows l h e c X) M.
Proof.
  unfold heads_list. rewrite map_map. f_equal. apply map_ext. intros X.
  unfold heads_of, head_rows. apply map_ext. intros c. now rewrite map_map.
Qed.

Lemma head_rows_uniform (l : Linear) (t h e c : nat) (X : list (list R)) :
  wf_Linear l -> out_features l = h * e -> length X = t -> c < h ->
  uniform2 t e (head_rows l h e c X).
Proof.
  intros Hl Ho HX Hc. unfold head_rows. split.
  - now rewrite length_map.
  - apply Forall_map_length. intros row _. apply nth_split_n_length; auto.
    now rewrite length_linear_row.
Qed.

Lemma flat3_map {A B : Type} (f : A -> B) (M : list (list (list A))) :
  map f (flat3 M) = flat3 (map (map (map f)) M).
Proof.
  unfold flat3. rewrite concat_map, !map_map. f_equal. apply map_ext.
  intros X. now rewrite concat_map.
Qed.

Lemma uniform3_map {A B : Type} (f : A -> B) (b t e : nat) (M : list (list (list A))) :
  uniform3 b t e M -> uniform3 b t e (map (map (map f)) M).
Proof.
  intros HM. apply uniform3_map_rows with (e := e); auto.
  intros v Hv. now rewrite length_map.
Qed.

(** ** [SelfAttention.forward], sequence by sequence *)

Lemma view_storage {A : Type} (x : tensor A) (z : list Z) :
  Forall (fun c => (0 <= c)%Z) z -> numel (map Z.to_nat z) = numel (size x) ->
  view x z = Ok (Tensor (map Z.to_nat z) (storage x)).
Proof.
  intros Hz Hn. unfold view.
  assert (forallb (Z.leb 0) z = true) as ->.
  { apply forallb_forall. rewrite Forall_forall in Hz. intros c Hc.
    apply Z.leb_le. auto. }
  now rewrite Hn, Nat.eqb_refl.
Qed.

Section UnmaskedAttention.

Variable a : SelfAttention.t.
Hypothesis Hwf : wf_SelfAttention a.
Variables b t e h : nat.
Hypothesis He : Z.of_nat e = SelfAttention.emb a.
Hypothesis Hh : Z.of_nat h = SelfAttention.heads a.

Lemma per_head_sequences (l : Linear) (x : tensor R) (M : list (list (list R))) :
  wf_Linear l -> in_features l = e -> out_features l = e * h ->
  size x = [b; t; e] -> storage x = flat3 M -> uniform3 b t e M ->
  SelfAttention.per_head a l x b t e
    = Ok (Tensor [b; t; h; e] (flat3 (map (map (linear_row l)) M)))
  /\ uniform3 b t (h * e) (map (map (linear_row l)) M).
Proof.
  intros Hl Hi Ho Hs Hst HM.
  unfold SelfAttention.per_head, Linear_forward. rewrite Hi, Ho.
  destruct (@rowwise_sequences _ _ b t e (e * h) (linear_row l) x M Hs Hst HM)
    as (y & -> & Hys & Hyst & HyM).
  { intros v _. now rewrite length_linear_row. }
  simpl. rewrite <- Hh. split.
  - rewrite view_storage.
    + simpl. now rewrite !Nat2Z.id, Hyst.
    + repeat constructor; lia.
    + simpl. rewrite !Nat2Z.id, Hys. simpl. lia.
  - now rewrite Nat.mul_comm.
Qed.

Lemma fold_heads_sequences (y : tensor R) (M' : list (list (list R))) :
  size y = [b; t; h; e] -> storage y = flat3 M' -> uniform3 b t (h * e) M' ->
  SelfAttention.fold_heads a y b t e
    = Ok (Tensor [b * h; t; e] (flat3 (concat (map (heads_of h e) M'))))
  /\ uniform3 (b * h) t e (concat (map (heads_of h e) M')).
Proof.
  intros Hs Hst HM'. unfold SelfAttention.fold_heads.
  destruct (transpose12_heads y Hs Hst HM') as [-> Hu]. simpl.
  rewrite <- Hh. split; auto.
  rewrite view_storage.
  - simpl. now rewrite <- Nat2Z.inj_mul, !Nat2Z.id.
  - repeat constructor; lia.
  - simpl. rewrite <- Nat2Z.inj_mul, !Nat2Z.id. lia.
Qed.

Section OnSequences.

Variable x : tensor R.
Variable M : list (list (list R)).
Hypothesis Hs : size x = [b; t; e].
Hypothesis Hst : storage x = flat3 M.
Hypothesis HM : uniform3 b t e M.

Lemma projected_heads (l : Linear) :
  wf_Linear l -> in_features l = e -> out_features l = e * h ->
  (y <- SelfAttention.per_head a l x b t e ;; SelfAttention.fold_heads a y b t e)
    = Ok (Tensor [b * h; t; e]
            (flat3 (heads_list h (fun X c => head_rows l h e c X) M)))
  /\ uniform3 (b * h) t e (heads_list h (fun X c => head_rows l h e c X) M)
  /\ (forall X c, In X M -> c < h -> uniform2 t e (head_rows l h e c X)).
Proof.
  intros Hl Hi Ho.
  destruct (@per_head_sequences l x M Hl Hi Ho Hs Hst HM) as [-> Hu]. simpl.
  destruct (@fold_heads_sequences
              (Tensor [b; t; h; e] (flat3 (map (map (linear_row l)) M))) _
              eq_refl eq_refl Hu) as [-> Hu'].
  rewrite heads_of_projection in *. split_all; auto.
  intros X c HX Hc. apply head_rows_uniform; auto; [lia|].
  destruct HM as [_ HF]. rewrite Forall_forall in HF. apply (HF X HX).
Qed.

Lemma scores_sequences :
  SelfAttention.scores a x
    = Ok (b, t, e,
          Tensor [b * h; t; t] (flat3 (heads_list h (head_scores a t h e) M)),
          Tensor [b * h; t; e] (flat3 (heads_list h (head_V a h e) M)))
  /\ uniform3 (b * h) t t (heads_list h (head_scores a t h e) M)
  /\ uniform3 (b * h) t e (heads_list h (head_V a h e) M).
Proof.
  pose proof Hwf as (_ & _ & Hk & Hq & Hv & _ & Hki & Hko & Hqi & Hqo & Hvi & Hvo & _).
  rewrite (@emb_to_nat _ _ He), (@heads_to_nat _ _ Hh) in *.
  destruct (@projected_heads _ Hk Hki Hko) as (HK & HKu & _).
  destruct (@projected_heads _ Hq Hqi Hqo) as (HQ & HQu & _).
  destruct (@projected_heads _ Hv Hvi Hvo) as (HV & HVu & _).
  apply bind_Ok in HK. destruct HK as (k4 & Hk4 & Hk3).
  apply bind_Ok in HQ. destruct HQ as (q4 & Hq4 & Hq3).
  apply bind_Ok in HV. destruct HV as (v4 & Hv4 & Hv3).
  unfold SelfAttention.scores. rewrite Hs, He, Z.eqb_refl. simpl.
  rewrite Hk4, Hq4, Hv4. simpl. rewrite Hk3, Hq3, Hv3. simpl.
  unfold SelfAttention.scaled_dot.
  destruct (@transpose12_matrices (b * h) t e
              (Tensor [b * h; t; e]
                 (flat3 (heads_list h
                    (fun X c => head_rows (SelfAttention.tokeys a) h e c X) M)))
              _ eq_refl eq_refl HKu) as [-> HKT].
  simpl.
  pose proof (uniform3_map (fun q => (q / sqrt (INR e))%R) HQu) as HQs.
  destruct (@bmm_sequences (b * h) t e t
              (tmap (fun q => (q / sqrt (INR e))%R)
                 (Tensor [b * h; t; e]
                    (flat3 (heads_list h
                       (fun X c => head_rows (SelfAttention.toqueries a) h e c X) M))))
              (Tensor [b * h; e; t]
                 (flat3 (map (transposeM e)
                    (heads_list h
                       (fun X c => head_rows (SelfAttention.tokeys a) h e c X) M))))
              _ _ eq_refl (flat3_map _ _) HQs eq_refl eq_refl HKT) as [-> Hdot].
  simpl.
  rewrite !map_heads_list, zipWith_heads_list in *.
  split_all; auto.
Qed.

Lemma head_attention_uniform (X : list (list R)) (c : nat) :
  length X = t -> uniform2 t e (head_attention a t e h c X).
Proof.
  intros HX. unfold head_attention. apply matmul_uniform.
  unfold matmul, head_rows. now rewrite !length_map.
Qed.

Lemma attention_rows_merged (X : list (list R)) :
  attention_rows a t e h X
  = map (linear_row (SelfAttention.unifyheads a))
        (merged_rows t (map (fun c => head_attention a t e h c X) (seq 0 h))).
Proof. unfold attention_rows, merged_rows. now rewrite map_map. Qed.

Lemma attend_sequences :
  SelfAttention.mask a = false ->
  exists att,
    SelfAttention.attend a b t e
      (Tensor [b * h; t; t] (flat3 (heads_list h (head_scores a t h e) M)))
      (Tensor [b * h; t; e] (flat3 (heads_list h (head_V a h e) M)))
    = Ok (att, Tensor [b; t; e] (flat3 (map (attention_rows a t e h) M))).
Proof.
  intros Hm.
  pose proof Hwf as (_ & _ & _ & _ & _ & Hu & _ & _ & _ & _ & _ & _ & Hui & Huo).
  rewrite (@emb_to_nat _ _ He), (@heads_to_nat _ _ Hh) in *.
  destruct scores_sequences as (_ & HD & HV).
  set (D := heads_list h (head_scores a t h e) M) in *.
  set (Vs := heads_list h (head_V a h e) M) in *.
  unfold SelfAttention.attend. rewrite <- Hh, Hm.
  assert (size_eqb [b * h; t; t]
            [(Z.of_nat b * Z.of_nat h)%Z; Z.of_nat t; Z.of_nat t] = true) as Hsz.
  { rewrite <- Nat2Z.inj_mul. apply (size_eqb_of_nat [b * h; t; t]). }
  cbn [size]. rewrite Hsz. cbn [assert_ bind].
  unfold softmax_dim2, tmap. cbn [size storage].
  destruct (@rowwise_sequences _ _ (b * h) t t t softmax_row
              (Tensor [b * h; t; t] (map Fin (flat3 D)))
              (map (map (map Fin)) D) eq_refl (flat3_map Fin D)
              (uniform3_map Fin HD)) as (att & -> & Hatts & Hattst & HattM).
  { intros v Hv. unfold softmax_row. now rewrite length_map. }
  cbn [bind].
  destruct (@bmm_sequences (b * h) t t e att (Tensor [b * h; t; e] (flat3 Vs))
              _ _ Hatts Hattst HattM eq_refl eq_refl HV) as [-> Hout].
  cbn [bind]. exists att.
  unfold D, Vs in *. rewrite !map_heads_list, zipWith_heads_list in *.
  change (heads_list h
            (fun X c =>
               matmul e (map softmax_row (map (map Fin) (head_scores a t h e X c)))
                 (head_V a h e X c)) M)
    with (heads_list h (fun X c => head_attention a t e h c X) M) in *.
  rewrite view_storage.
  2:{ repeat constructor; lia. }
  2:{ simpl. rewrite !Nat2Z.id. lia. }
  cbn [bind map storage]. rewrite !Nat2Z.id.
  destruct (@heads_list_uniform _ b h t e (fun X c => head_attention a t e h c X) M)
    as [_ HG].
  { apply HM. }
  { intros X c HX Hc. apply head_attention_uniform.
    destruct HM as [_ HF]. rewrite Forall_forall in HF. apply (HF X HX). }
  destruct (@transpose12_merge b h t e
              (Tensor [b; h; t; e]
                 (flat3 (heads_list h (fun X c => head_attention a t e h c X) M)))
              (map (fun X => map (fun c => head_attention a t e h c X) (seq 0 h)) M)
              eq_refl eq_refl) as [-> Hmerged]; auto.
  { rewrite length_map. apply HM. }
  cbn [bind]. rewrite view_storage.
  2:{ repeat constructor; lia. }
  2:{ simpl. rewrite <- Nat2Z.inj_mul, !Nat2Z.id. lia. }
  cbn [bind map storage]. rewrite <- Nat2Z.inj_mul, !Nat2Z.id.
  unfold Linear_forward. rewrite Hui, Huo.
  destruct (@rowwise_sequences _ _ b t (h * e) e
              (linear_row (SelfAttention.unifyheads a))
              (Tensor [b; t; h * e] (flat3 (map (merged_rows t)
                 (map (fun X => map (fun c => head_attention a t e h c X) (seq 0 h)) M))))
              _ eq_refl eq_refl Hmerged) as (out & -> & Houts & Houtst & _).
  { intros v _. now rewrite length_linear_row. }
  cbn [bind]. f_equal. f_equal. apply tensor_eq; auto.
  rewrite Houtst. cbn [storage]. f_equal. rewrite !map_map.
  apply map_ext. intros X. now rewrite attention_rows_merged.
Qed.

Lemma forward_sequences :
  SelfAttention.mask a = false ->
  SelfAttention.forward a x
  = Ok (Tensor [b; t; e] (flat3 (map (attention_rows a t e h) M))).
Proof.
  intros Hm. destruct (attend_sequences Hm) as (att & Hatt).
  destruct scores_sequences as (Hsc & _).
  unfold SelfAttention.forward, SelfAttention.forward_with_attention.
  rewrite Hsc. cbn [bind]. now rewrite Hatt.
Qed.

End OnSequences.

End UnmaskedAttention.

(** ** Permuting the positions of one sequence *)

Lemma sum_Permutation (u v : list R) : Permutation u v -> sum u = sum v.
Proof.
  unfold sum. induction 1 as [|a u v _ IH|a c u|u v w _ IH1 _ IH2]; simpl.
  - reflexivity.
  - now rewrite IH.
  - ring.
  - now rewrite IH1.
Qed.

Lemma map_nth_all {A : Type} (l : list A) (d : A) :
  map (fun j => nth j l d) (seq 0 (length l)) = l.
Proof. rewrite map_nth_seq by lia. apply firstn_all. Qed.

Lemma zipWith_nth_seq (u v : list R) (t : nat) :
  length u = t -> length v = t ->
  zipWith Rmult u v = map (fun i => (nth i u 0 * nth i v 0)%R) (seq 0 t).
Proof.
  revert v t. induction u as [|a u IH]; intros [|c v] [|t] Hu Hv; simpl in *;
    try discriminate; auto.
  f_equal. rewrite <- seq_shift, map_map. apply IH; lia.
Qed.

Section Permuted.

Variable p : list nat.
Variable t : nat.
Hypothesis Hp : Permutation p (seq 0 t).

Lemma perm_length : length p = t.
Proof. rewrite (Permutation_length Hp). apply length_seq. Qed.

Lemma perm_bound (i : nat) : In i p -> i < t.
Proof.
  intros Hi. apply (Permutation_in _ Hp) in Hi. apply in_seq in Hi. lia.
Qed.

Lemma permute_length {A : Type} (d : A) (l : list A) : length (permute d p l) = t.
Proof. unfold permute. rewrite length_map. apply perm_length. Qed.

Lemma permute_map {A B : Type} (f : A -> B) (d : A) (d' : B) (l : list A) :
  length l = t -> map f (permute d p l) = permute d' p (map f l).
Proof.
  intros Hl. unfold permute. rewrite map_map. apply map_ext_in. intros i Hi.
  apply perm_bound in Hi.
  rewrite (nth_indep (map f l) d' (f d)) by (rewrite length_map; lia).
  symmetry. apply map_nth.
Qed.

Lemma permute_Permutation {A : Type} (d : A) (l : list A) :
  length l = t -> Permutation (permute d p l) l.
Proof.
  intros Hl. unfold permute.
  apply Permutation_trans with (map (fun i => nth i l d) (seq 0 t)).
  - now apply Permutation_map.
  - rewrite <- Hl, map_nth_all. apply Permutation_refl.
Qed.

Lemma nth_permute {A : Type} (d : A) (l : list A) (i : nat) :
  i < t -> nth i (permute d p l) d = nth (nth i p 0) l d.
Proof.
  intros Hi. unfold permute.
  rewrite (nth_indep _ d (nth 0 l d)) by (rewrite length_map, perm_length; lia).
  apply (map_nth (fun k => nth k l d)).
Qed.

Lemma map_over_perm {A : Type} (F : nat -> A) :
  map (fun i => F (nth i p 0)) (seq 0 t) = map F p.
Proof.
  rewrite <- (map_map (fun i => nth i p 0) F).
  rewrite <- perm_length at 1. now rewrite map_nth_all.
Qed.

Lemma permute_tabulated {A : Type} (d : A) (F : nat -> A) :
  permute d p (map F (seq 0 t)) = map F p.
Proof.
  unfold permute. apply map_ext_in. intros k Hk. apply perm_bound in Hk.
  rewrite (nth_indep _ d (F 0)) by (rewrite length_map, length_seq; lia).
  rewrite (map_nth F). now rewrite seq_nth.
Qed.

Lemma dotprod_permute (u v : list R) :
  length u = t -> length v = t ->
  dotprod (permute 0%R p u) (permute 0%R p v) = dotprod u v.
Proof.
  intros Hu Hv. unfold dotprod, permute.
  rewrite zipWith_map, zipWith_diag, (zipWith_nth_seq u v Hu Hv).
  apply sum_Permutation. now apply Permutation_map.
Qed.

Lemma softmax_row_permute (d : score) (row : list score) :
  length row = t ->
  softmax_row (permute d p row) = permute 0%R p (softmax_row row).
Proof.
  intros Hl. unfold softmax_row.
  assert (sum (map exp_score (permute d p row)) = sum (map exp_score row)) as ->.
  { apply sum_Permutation. apply Permutation_map. now apply permute_Permutation. }
  now apply permute_map.
Qed.

End Permuted.

Lemma column_transposeM (t e j : nat) (K : list (list R)) :
  uniform2 t e K -> j < t -> column j (transposeM e K) = nth j K [].
Proof.
  intros [Hl Hu] Hj. unfold transposeM, column. rewrite map_map.
  assert (length (nth j K []) = e) as He.
  { apply (@nth_Forall _ (fun row => length row = e)); auto. lia. }
  transitivity (map (fun c => nth c (nth j K []) 0%R) (seq 0 e)).
  - apply map_ext. intros c.
    rewrite (nth_indep _ 0%R ((fun row : list R => nth c row 0%R) []))
      by (rewrite length_map; lia).
    apply (map_nth (fun row : list R => nth c row 0%R)).
  - rewrite <- He. apply map_nth_all.
Qed.

Lemma scores_by_rows (t e : nat) (Q K : list (list R)) :
  uniform2 t e K ->
  matmul t Q (transposeM e K)
  = map (fun q => map (fun j => dotprod q (nth j K [])) (seq 0 t)) Q.
Proof.
  intros HK. unfold matmul. apply map_ext. intros q. apply map_ext_in.
  intros j Hj. apply in_seq in Hj. rewrite (column_transposeM HK); [reflexivity|lia].
Qed.

Lemma Forall_permute {A : Type} (P : A -> Prop) (d : A) (p : list nat) (l : list A) :
  Forall P l -> (forall i, In i p -> i < length l) -> Forall P (permute d p l).
Proof.
  intros Hl Hp. unfold permute. apply Forall_forall. intros y Hy.
  apply in_map_iff in Hy. destruct Hy as (i & <- & Hi).
  apply nth_Forall; auto.
Qed.

Section PermutedSequence.

Variable a : SelfAttention.t.
Hypothesis Hwf : wf_SelfAttention a.
Variables t e h : nat.
Hypothesis He : Z.of_nat e = SelfAttention.emb a.
Hypothesis Hh : Z.of_nat h = SelfAttention.heads a.
Variable p : list nat.
Hypothesis Hp : Permutation p (seq 0 t).
Variable X : list (list R).
Hypothesis HX : uniform2 t e X.

Lemma permute_uniform2 {A : Type} (n : nat) (Y : list (list A)) :
  uniform2 t n Y -> uniform2 t n (permute [] p Y).
Proof.
  intros [Hl Hu]. split.
  - apply (@permute_length p t Hp).
  - apply Forall_permute; auto. intros i Hi. rewrite Hl.
    now apply (@perm_bound p t Hp).
Qed.

Lemma head_rows_permute (l : Linear) (c : nat) :
  head_rows l h e c (permute [] p X) = permute [] p (head_rows l h e c X).
Proof. unfold head_rows. apply (@permute_map p t Hp). apply HX. Qed.

Lemma head_K_uniform (c : nat) : c < h -> uniform2 t e (head_K a h e X c).
Proof.
  intros Hc. pose proof Hwf as (_ & _ & Hk & _ & _ & _ & _ & Hko & _).
  rewrite (@emb_to_nat _ _ He), (@heads_to_nat _ _ Hh) in *.
  apply head_rows_uniform; auto; [lia | apply HX].
Qed.

Lemma head_V_length (c : nat) : length (head_V a h e X c) = t.
Proof. unfold head_V, head_rows. rewrite length_map. apply HX. Qed.

Lemma head_Q_length (c : nat) : length (head_Q a h e X c) = t.
Proof. unfold head_Q, head_rows. rewrite !length_map. apply HX. Qed.

Lemma head_scores_rows (c : nat) :
  c < h ->
  head_scores a t h e X c
  = map (fun q => map (fun j => dotprod q (nth j (head_K a h e X c) []))
                      (seq 0 t))
        (head_Q a h e X c).
Proof. intros Hc. apply scores_by_rows. now apply head_K_uniform. Qed.

Lemma head_scores_permute (c : nat) :
  c < h ->
  head_scores a t h e (permute [] p X) c
  = map (permute 0%R p) (permute [] p (head_scores a t h e X c)).
Proof.
  intros Hc. rewrite (head_scores_rows Hc).
  unfold head_scores, head_Q, head_K. rewrite !head_rows_permute.
  rewrite scores_by_rows.
  2:{ apply permute_uniform2. now apply head_K_uniform. }
  rewrite (@permute_map p t Hp _ _ (map (fun q => (q / sqrt (INR e))%R)) [] []).
  2:{ unfold head_rows. rewrite length_map. apply HX. }
  fold (head_K a h e X c). fold (head_Q a h e X c).
  rewrite <- (@permute_map p t Hp _ _
                (fun q => map (fun j => dotprod q (nth j (head_K a h e X c) []))
                              (seq 0 t)) [] []) by apply head_Q_length.
  rewrite map_map. apply map_ext. intros q.
  rewrite (@permute_tabulated p t Hp), <- (@map_over_perm p t Hp).
  apply map_ext_in. intros j Hj. apply in_seq in Hj.
  rewrite (@nth_permute p t Hp); [reflexivity | lia].
Qed.

Lemma head_scores_uniform (c : nat) : uniform2 t t (head_scores a t h e X c).
Proof. unfold head_scores. apply matmul_uniform. apply head_Q_length. Qed.

Lemma head_attention_permute (c : nat) :
  c < h ->
  head_attention a t e h c (permute [] p X)
  = permute [] p (head_attention a t e h c X).
Proof.
  intros Hc. unfold head_attention.
  fold (head_K a h e (permute [] p X) c). fold (head_Q a h e (permute [] p X) c).
  fold (head_V a h e (permute [] p X) c).
  fold (head_K a h e X c). fold (head_Q a h e X c). fold (head_V a h e X c).
  fold (head_scores a t h e (permute [] p X) c). fold (head_scores a t h e X c).
  rewrite (head_scores_permute Hc).
  destruct (head_scores_uniform c) as [HSl HSu].
  set (S := head_scores a t h e X c) in *.
  unfold head_V. rewrite head_rows_permute. fold (head_V a h e X c).
  set (V := head_V a h e X c).
  assert (length V = t) as HV by apply head_V_length.
  unfold matmul. rewrite !map_map.
  rewrite <- (@permute_map p t Hp _ _
                (fun w => map (fun j => dotprod (softmax_row (map Fin w)) (column j V))
                              (seq 0 e)) [] []) by exact HSl.
  apply map_ext_in. intros w Hw.
  assert (length w = t) as Hwl.
  { assert (Forall (fun row => length row = t) (permute [] p S)) as HF.
    { apply Forall_permute; auto. intros i Hi. rewrite HSl.
      now apply (@perm_bound p t Hp). }
    rewrite Forall_forall in HF. now apply HF. }
  apply map_ext. intros j.
  rewrite (@permute_map p t Hp _ _ Fin 0%R (Fin 0%R)) by exact Hwl.
  rewrite (@softmax_row_permute p t Hp) by now rewrite length_map.
  unfold column.
  rewrite (@permute_map p t Hp _ _ (fun row : list R => nth j row 0%R) [] 0%R)
    by exact HV.
  apply (@dotprod_permute p t Hp).
  - unfold softmax_row. now rewrite !length_map.
  - now rewrite length_map.
Qed.

Lemma attention_rows_permute :
  attention_rows a t e h (permute [] p X)
  = permute [] p (attention_rows a t e h X).
Proof.
  rewrite !attention_rows_merged.
  rewrite <- (@permute_map p t Hp _ _ (linear_row (SelfAttention.unifyheads a)) [] []).
  2:{ unfold merged_rows. now rewrite length_map, length_seq. }
  f_equal. unfold merged_rows at 2. rewrite (@permute_tabulated p t Hp).
  unfold merged_rows. rewrite <- (@map_over_perm p t Hp).
  apply map_ext_in. intros i Hi. apply in_seq in Hi. f_equal.
  rewrite !map_map. apply map_ext_in. intros c Hc. apply in_seq in Hc.
  rewrite head_attention_permute by lia.
  apply (@nth_permute p t Hp). lia.
Qed.

Lemma attention_rows_uniform : uniform2 t e (attention_rows a t e h X).
Proof.
  pose proof Hwf as (_ & _ & _ & _ & _ & Hu & _ & _ & _ & _ & _ & _ & _ & Huo).
  rewrite (@emb_to_nat _ _ He) in *.
  unfold attention_rows. split.
  - now rewrite length_map, length_seq.
  - apply Forall_map_length. intros i _. now rewrite length_linear_row.
Qed.

End PermutedSequence.

(** ** Permuting the positions of a tensor *)

Lemma permute_positions_sequences (p : list nat) (b t e : nat)
  (M : list (list (list R))) :
  uniform3 b t e M ->
  permute_positions p (Tensor [b; t; e] (flat3 M))
  = Tensor [b; t; e] (flat3 (map (permute [] p) M)).
Proof.
  intros HM. unfold permute_positions. cbn [size storage]. f_equal.
  unfold flat3 at 2. rewrite map_map, (uniform3_blocks HM), map_map.
  f_equal. apply map_ext_in. intros X HX.
  destruct HM as [_ HF]. rewrite Forall_forall in HF.
  now rewrite (uniform2_split (HF X HX)).
Qed.

Lemma permute_uniform3 (p : list nat) (b t e : nat) (M : list (list (list R))) :
  Permutation p (seq 0 t) -> uniform3 b t e M ->
  uniform3 b t e (map (permute [] p) M).
Proof.
  intros Hp [Hl HF]. split; [now rewrite length_map|].
  apply Forall_forall. intros X' HX'. apply in_map_iff in HX'.
  destruct HX' as (X & <- & HX). rewrite Forall_forall in HF.
  apply (@permute_uniform2 t p Hp). auto.
Qed.

Lemma shaped_as_sequences (b t e : nat) (x : tensor R) :
  shaped [b; t; e] x ->
  exists M, uniform3 b t e M /\ x = Tensor [b; t; e] (flat3 M).
Proof.
  intros [Hs Hl]. simpl in Hl. rewrite Nat.mul_1_r in Hl.
  destruct (@sequences_uniform b t e (storage x) Hl) as [HM Hst].
  exists (sequences b t e (storage x)). split; auto.
  apply tensor_eq; auto.
Qed.

Lemma get3_sequences (b t e n k j : nat) (N : list (list (list R))) :
  uniform3 b t e N -> k < t -> j < e ->
  get3 0%R (Tensor [b; t; e] (flat3 N)) n k j
  = nth j (nth k (nth n N []) []) 0%R.
Proof.
  intros [HNl HNF] Hk Hj. unfold get3, flat3. cbn [size storage].
  rewrite concat_map_concat.
  rewrite (@nth_concat_uniform _ e); auto.
  - rewrite (@nth_concat_uniform _ t); auto.
    eapply Forall_impl; [|exact HNF]. intros X [HXl _]. exact HXl.
  - apply Forall_concat. eapply Forall_impl; [|exact HNF].
    intros X [_ HXu]. exact HXu.
Qed.

Lemma permute_positions_get3 (p : list nat) (b t e n i j : nat) (x : tensor R) :
  Permutation p (seq 0 t) -> shaped [b; t; e] x ->
  n < b -> i < t -> j < e ->
  get3 0%R (permute_positions p x) n i j = get3 0%R x n (nth i p 0) j.
Proof.
  intros Hp Hx Hn Hi Hj.
  destruct (shaped_as_sequences Hx) as (M & HM & ->).
  rewrite (permute_positions_sequences p HM).
  pose proof (permute_uniform3 Hp HM) as HM'.
  assert (nth i p 0 < t) as Hpi.
  { apply (@perm_bound p t Hp). apply nth_In.
    rewrite (@perm_length p t Hp). exact Hi. }
  rewrite (get3_sequences n HM' Hi Hj), (get3_sequences n HM Hpi Hj).
  rewrite (nth_indep _ [] (permute [] p []))
    by (rewrite length_map; now destruct HM as [-> _]).
  rewrite (map_nth (permute [] p)).
  now rewrite (@nth_permute p t Hp).
Qed.

(** * Permutation equivariance *)

(** C7: without mask, for an input of size [(b, t, e)] and a permutation
    [p] of its [t] positions, [forward] applied to the input with its
    positions taken in the order [p] returns the result of [forward] on the
    input, with its positions taken in the order [p]. *)
Theorem unmasked_attention_is_permutation_equivariant (a : SelfAttention.t)
  (b t e h : nat) (p : list nat) (x : tensor R) :
  wf_SelfAttention a -> SelfAttention.mask a = false ->
  Z.of_nat e = SelfAttention.emb a -> Z.of_nat h = SelfAttention.heads a ->
  shaped [b; t; e] x -> Permutation p (seq 0 t) ->
  (forall n i j, n < b -> i < t -> j < e ->
     get3 0%R (permute_positions p x) n i j = get3 0%R x n (nth i p 0) j) /\
  exists y,
    SelfAttention.forward a x = Ok y /\
    SelfAttention.forward a (permute_positions p x) = Ok (permute_positions p y) /\
    forall n i j, n < b -> i < t -> j < e ->
      get3 0%R (permute_positions p y) n i j = get3 0%R y n (nth i p 0) j.
Proof.
  intros Hwf Hm He Hh Hx Hp.
  split; [intros; now apply permute_positions_get3 with (b := b) (t := t) (e := e)|].
  destruct (shaped_as_sequences Hx) as (M & HM & Hxeq).
  set (N := map (attention_rows a t e h) M).
  assert (uniform3 b t e N) as HN.
  { destruct HM as [HMl HMF]. split; [unfold N; now rewrite length_map|].
    apply Forall_forall. intros Y HY. apply in_map_iff in HY.
    destruct HY as (X & <- & HX). rewrite Forall_forall in HMF.
    apply (@attention_rows_uniform a Hwf t e h He X). }
  exists (Tensor [b; t; e] (flat3 N)). split_all.
  - rewrite Hxeq.
    apply (@forward_sequences a Hwf b t e h He Hh (Tensor [b; t; e] (flat3 M)) M
             eq_refl eq_refl HM Hm).
  - rewrite Hxeq, (permute_positions_sequences p HM), (permute_positions_sequences p HN).
    rewrite (@forward_sequences a Hwf b t e h He Hh
               (Tensor [b; t; e] (flat3 (map (permute [] p) M)))
               (map (permute [] p) M) eq_refl eq_refl
               (permute_uniform3 Hp HM) Hm).
    f_equal. f_equal. f_equal. unfold N. rewrite !map_map.
    apply map_ext_in. intros X HX. destruct HM as [_ HMF].
    rewrite Forall_forall in HMF.
    apply (@attention_rows_permute a Hwf t e h He Hh p Hp X (HMF X HX)).
  - intros n i j Hn Hi Hj.
    apply permute_positions_get3 with (b := b) (t := t) (e := e); auto.
    split; auto. cbn [storage]. rewrite (length_flat3 HN). simpl. lia.
Qed.

Lemma example_attention_unmasked_wf : wf_SelfAttention example_attention_unmasked.
Proof. exact example_attention_wf. Qed.

Lemma unmasked_attention_is_permutation_equivariant_witness :
  wf_SelfAttention example_attention_unmasked /\
  SelfAttention.mask example_attention_unmasked = false /\
  shaped [1; 2; 2] example_sequence /\
  Permutation [1; 0] (seq 0 2) /\
  exists y,
    SelfAttention.forward example_attention_unmasked example_sequence = Ok y /\
    SelfAttention.forward example_attention_unmasked
      (permute_positions [1; 0] example_sequence)
    = Ok (permute_positions [1; 0] y).
Proof.
  assert (shaped [1; 2; 2] example_sequence) as Hx by (split; reflexivity).
  assert (Permutation [1; 0] (seq 0 2)) as Hp by apply perm_swap.
  split; [apply example_attention_unmasked_wf|]. split; [reflexivity|].
  split; [exact Hx|]. split; [exact Hp|].
  destruct (@unmasked_attention_is_permutation_equivariant
              example_attention_unmasked 1 2 2 1 [1; 0] example_sequence
              example_attention_unmasked_wf eq_refl eq_refl eq_refl Hx Hp)
    as (_ & y & Hy & Hy' & _).
  exists y. split; assumption.
Defined.

(** * Attention with or without mask, one sequence at a time *)

Lemma mask_matrix_uniform (t : nat) (S : list (list score)) :
  uniform2 t t S -> uniform2 t t (mask_matrix t S).
Proof.
  intros [Hl Hu]. unfold mask_matrix. split.
  - rewrite length_zipWith, length_seq. lia.
  - apply Forall_zipWith. intros i row _ Hrow.
    rewrite length_zipWith, length_seq. rewrite Forall_forall in Hu.
    rewrite (Hu row Hrow). lia.
Qed.

Lemma mask__sequences (n t : nat) (x : tensor score) (D : list (list (list score))) :
  size x = [n; t; t] -> storage x = flat3 D -> uniform3 n t t D ->
  mask_ x NegInf false = Ok (Tensor [n; t; t] (flat3 (map (mask_matrix t) D)))
  /\ uniform3 n t t (map (mask_matrix t) D).
Proof.
  intros Hs Hst HD. split.
  - unfold mask_. rewrite Hs, Hst. f_equal. f_equal.
    rewrite (uniform3_blocks HD), map_map. unfold flat3. rewrite map_map.
    f_equal. apply map_ext_in. intros X HX.
    destruct HD as [_ HF]. rewrite Forall_forall in HF.
    now rewrite (uniform2_split (HF X HX)).
  - destruct HD as [Hl HF]. split; [now rewrite length_map|].
    apply Forall_forall. intros Y HY. apply in_map_iff in HY.
    destruct HY as (X & <- & HX). rewrite Forall_forall in HF.
    apply mask_matrix_uniform. auto.
Qed.

Lemma head_weights_uniform (msk : bool) (t : nat) (S : list (list R)) :
  uniform2 t t S -> uniform2 t t (head_weights msk t S).
Proof.
  intros HS. unfold head_weights.
  assert (uniform2 t t (map (map Fin) S)) as HF.
  { destruct HS as [Hl Hu]. split; [now rewrite length_map|].
    apply Forall_map_length. intros row Hrow. rewrite length_map.
    rewrite Forall_forall in Hu. auto. }
  assert (uniform2 t t (if msk then mask_matrix t (map (map Fin) S)
                        else map (map Fin) S)) as [Hl Hu].
  { destruct msk; auto. now apply mask_matrix_uniform. }
  split; [now rewrite length_map|].
  apply Forall_map_length. intros row Hrow. unfold softmax_row.
  rewrite length_map. rewrite Forall_forall in Hu. auto.
Qed.

Section BySequence.

Variable a : SelfAttention.t.
Hypothesis Hwf : wf_SelfAttention a.
Variables b t e h : nat.
Hypothesis He : Z.of_nat e = SelfAttention.emb a.
Hypothesis Hh : Z.of_nat h = SelfAttention.heads a.
Variable x : tensor R.
Variable M : list (list (list R)).
Hypothesis Hs : size x = [b; t; e].
Hypothesis Hst : storage x = flat3 M.
Hypothesis HM : uniform3 b t e M.

Lemma head_output_uniform (X : list (list R)) (c : nat) :
  uniform2 t e X -> uniform2 t e (head_output a t e h c X).
Proof.
  intros HX. unfold head_output. apply matmul_uniform.
  apply head_weights_uniform. now apply head_scores_uniform.
Qed.

Lemma attend_by_sequence :
  SelfAttention.attend a b t e
    (Tensor [b * h; t; t] (flat3 (heads_list h (head_scores a t h e) M)))
    (Tensor [b * h; t; e] (flat3 (heads_list h (head_V a h e) M)))
  = Ok (Tensor [b * h; t; t]
          (flat3 (heads_list h
                    (fun X c => head_weights (SelfAttention.mask a) t
                                  (head_scores a t h e X c)) M)),
        Tensor [b; t; e] (flat3 (map (sequence_output a t e h) M)))
  /\ uniform3 (b * h) t t
       (heads_list h (fun X c => head_weights (SelfAttention.mask a) t
                                   (head_scores a t h e X c)) M).
Proof.
  pose proof Hwf as (_ & _ & _ & _ & _ & Hu & _ & _ & _ & _ & _ & _ & Hui & Huo).
  rewrite (@emb_to_nat _ _ He), (@heads_to_nat _ _ Hh) in *.
  destruct (@scores_sequences a Hwf b t e h He Hh x M Hs Hst HM) as (_ & HD & HV).
  set (D := heads_list h (head_scores a t h e) M) in *.
  set (Vs := heads_list h (head_V a h e) M) in *.
  set (W := heads_list h (fun X c => head_weights (SelfAttention.mask a) t
                                       (head_scores a t h e X c)) M).
  assert (exists sc Dm,
             (if SelfAttention.mask a
              then mask_ (tmap Fin (Tensor [b * h; t; t] (flat3 D))) NegInf false
              else Ok (tmap Fin (Tensor [b * h; t; t] (flat3 D)))) = Ok sc /\
             size sc = [b * h; t; t] /\ storage sc = flat3 Dm /\
             uniform3 (b * h) t t Dm /\ map (map softmax_row) Dm = W)
    as (sc & Dm & Hsc & Hscs & Hscst & HDm & HW).
  { destruct (SelfAttention.mask a) eqn:Hm.
    - destruct (@mask__sequences (b * h) t
                  (tmap Fin (Tensor [b * h; t; t] (flat3 D)))
                  (map (map (map Fin)) D) eq_refl (flat3_map Fin D)
                  (uniform3_map Fin HD)) as [Hmk HmkU].
      eexists. exists (map (mask_matrix t) (map (map (map Fin)) D)).
      split; [exact Hmk|]. split_all; auto.
      unfold W, D, head_weights. now rewrite !map_heads_list.
    - eexists. exists (map (map (map Fin)) D). split; [reflexivity|].
      split_all; auto.
      + apply flat3_map.
      + now apply uniform3_map.
      + unfold W, D, head_weights. now rewrite !map_heads_list. }
  assert (uniform3 (b * h) t t W) as HWu.
  { rewrite <- HW. apply uniform3_map_rows with (e := t); auto.
    intros v Hv. unfold softmax_row. now rewrite length_map. }
  split; auto.
  unfold SelfAttention.attend. rewrite <- Hh.
  assert (size_eqb [b * h; t; t]
            [(Z.of_nat b * Z.of_nat h)%Z; Z.of_nat t; Z.of_nat t] = true) as Hsz.
  { rewrite <- Nat2Z.inj_mul. apply (size_eqb_of_nat [b * h; t; t]). }
  cbn [size]. rewrite Hsz. cbn [assert_ bind]. rewrite Hsc. cbn [bind].
  unfold softmax_dim2. rewrite Hscs.
  destruct (@rowwise_sequences _ _ (b * h) t t t softmax_row sc Dm Hscs Hscst HDm)
    as (att & -> & Hatts & Hattst & HattM).
  { intros v Hv. unfold softmax_row. now rewrite length_map. }
  cbn [bind]. rewrite HW in *.
  assert (att = Tensor [b * h; t; t] (flat3 W)) as -> by now apply tensor_eq.
  destruct (@bmm_sequences (b * h) t t e (Tensor [b * h; t; t] (flat3 W))
              (Tensor [b * h; t; e] (flat3 Vs))
              _ _ eq_refl eq_refl HWu eq_refl eq_refl HV) as [-> Hout].
  cbn [bind]. unfold W, Vs in *. rewrite zipWith_heads_list in *.
  change (heads_list h
            (fun X c =>
               matmul e (head_weights (SelfAttention.mask a) t (head_scores a t h e X c))
                 (head_V a h e X c)) M)
    with (heads_list h (fun X c => head_output a t e h c X) M) in *.
  rewrite view_storage.
  2:{ repeat constructor; lia. }
  2:{ simpl. rewrite !Nat2Z.id. lia. }
  cbn [bind map storage]. rewrite !Nat2Z.id.
  destruct (@heads_list_uniform _ b h t e (fun X c => head_output a t e h c X) M)
    as [_ HG].
  { apply HM. }
  { intros X c HX Hc. apply head_output_uniform.
    destruct HM as [_ HF]. rewrite Forall_forall in HF. apply (HF X HX). }
  destruct (@transpose12_merge b h t e
              (Tensor [b; h; t; e]
                 (flat3 (heads_list h (fun X c => head_output a t e h c X) M)))
              (map (fun X => map (fun c => head_output a t e h c X) (seq 0 h)) M)
              eq_refl eq_refl) as [-> Hmerged]; auto.
  { rewrite length_map. apply HM. }
  cbn [bind]. rewrite view_storage.
  2:{ repeat constructor; lia. }
  2:{ simpl. rewrite <- Nat2Z.inj_mul, !Nat2Z.id. lia. }
  cbn [bind map storage]. rewrite <- Nat2Z.inj_mul, !Nat2Z.id.
  unfold Linear_forward. rewrite Hui, Huo.
  destruct (@rowwise_sequences _ _ b t (h * e) e
              (linear_row (SelfAttention.unifyheads a))
              (Tensor [b; t; h * e] (flat3 (map (merged_rows t)
                 (map (fun X => map (fun c => head_output a t e h c X) (seq 0 h)) M))))
              _ eq_refl eq_refl Hmerged) as (out & -> & Houts & Houtst & _).
  { intros v _. now rewrite length_linear_row. }
  cbn [bind]. f_equal. f_equal. apply tensor_eq; auto.
  rewrite Houtst. cbn [storage]. f_equal. now rewrite !map_map.
Qed.

Lemma forward_by_sequence :
  SelfAttention.forward a x
  = Ok (Tensor [b; t; e] (flat3 (map (sequence_output a t e h) M))).
Proof.
  destruct attend_by_sequence as [Hatt _].
  destruct (@scores_sequences a Hwf b t e h He Hh x M Hs Hst HM) as (Hsc & _).
  unfold SelfAttention.forward, SelfAttention.forward_with_attention.
  rewrite Hsc. cbn [bind]. now rewrite Hatt.
Qed.

Lemma attention_by_sequence :
  SelfAttention.attention a x
  = Ok (Tensor [b * h; t; t]
          (flat3 (heads_list h
                    (fun X c => head_weights (SelfAttention.mask a) t
                                  (head_scores a t h e X c)) M))).
Proof.
  destruct attend_by_sequence as [Hatt _].
  destruct (@scores_sequences a Hwf b t e h He Hh x M Hs Hst HM) as (Hsc & _).
  unfold SelfAttention.attention, SelfAttention.forward_with_attention.
  rewrite Hsc. cbn [bind]. now rewrite Hatt.
Qed.

End BySequence.

(** ** Prefixes of a sequence *)

Lemma nth_map_lt (A B : Type) (f : A -> B) (l : list A) (i : nat) (d : A) (d' : B) :
  i < length l -> nth i (map f l) d' = f (nth i l d).
Proof.
  intros Hi. rewrite (nth_indep _ d' (f d)) by now rewrite length_map.
  apply map_nth.
Qed.

Lemma firstn_seq (s k t : nat) : k <= t -> firstn k (seq s t) = seq s k.
Proof.
  revert s t. induction k as [|k IH]; intros s t Hk; [reflexivity|].
  destruct t as [|t]; [lia|]. simpl. f_equal. apply IH. lia.
Qed.

Lemma firstn_repeat (A : Type) (x : A) (k m : nat) :
  k <= m -> firstn k (repeat x m) = repeat x k.
Proof.
  revert m. induction k as [|k IH]; intros m Hk; [reflexivity|].
  destruct m as [|m]; [lia|]. simpl. f_equal. apply IH. lia.
Qed.

Lemma firstn_min_length (A : Type) (k : nat) (l : list A) :
  firstn k l = firstn (Nat.min k (length l)) l.
Proof.
  destruct (Nat.le_ge_cases k (length l)) as [H|H].
  - now rewrite Nat.min_l.
  - rewrite Nat.min_r by assumption. rewrite firstn_all. now apply firstn_all2.
Qed.

Lemma firstn_concat_uniform (A : Type) (e k : nat) (X : list (list A)) :
  Forall (fun row => length row = e) X ->
  firstn (k * e) (concat X) = concat (firstn k X).
Proof.
  revert X. induction k as [|k IH]; intros X HX; [reflexivity|].
  destruct X as [|row X]; [cbn [concat]; now rewrite !firstn_nil|].
  inversion HX; subst.
  change (firstn (S k) (row :: X)) with (row :: firstn k X).
  cbn [concat]. rewrite firstn_app.
  replace (S k * length row - length row) with (k * length row) by lia.
  rewrite firstn_all2 by lia. f_equal. now apply IH.
Qed.

Lemma dotprod_zeros (m : nat) (c : list R) : dotprod (repeat 0%R m) c = 0%R.
Proof.
  revert c. induction m as [|m IH]; intros c; [reflexivity|].
  destruct c as [|y c]; [reflexivity|].
  unfold dotprod in *. simpl. rewrite IH. lra.
Qed.

Lemma dotprod_app_zeros (u : list R) (m : nat) (c : list R) :
  dotprod (u ++ repeat 0%R m) c = dotprod u c.
Proof.
  revert c. induction u as [|x u IH]; intros c.
  - simpl. rewrite dotprod_zeros. reflexivity.
  - destruct c as [|y c]; [reflexivity|].
    unfold dotprod in *. simpl. now rewrite IH.
Qed.

Lemma dotprod_firstn (u : list R) (k : nat) (c : list R) :
  length u <= k -> dotprod u (firstn k c) = dotprod u c.
Proof.
  revert k c. induction u as [|x u IH]; intros k c Hk; [reflexivity|].
  destruct k as [|k]; [simpl in Hk; lia|].
  destruct c as [|y c]; [reflexivity|].
  unfold dotprod in *. simpl. rewrite IH; [reflexivity|simpl in Hk; lia].
Qed.

Lemma softmax_masked_row (i : nat) (row : list score) :
  softmax_row (zipWith (fun j v => if i + 1 <=? j then NegInf else v)
                 (seq 0 (length row)) row)
  = softmax_row (firstn (i + 1) row) ++ repeat 0%R (length row - (i + 1)).
Proof.
  rewrite mask_row_split, Nat.sub_0_r. unfold softmax_row.
  rewrite !map_app, sum_app, sum_exp_masked, Rplus_0_r. f_equal.
  rewrite map_repeat. f_equal. simpl. unfold Rdiv. apply Rmult_0_l.
Qed.

Lemma uniform2_firstn (A : Type) (t e k : nat) (X : list (list A)) :
  uniform2 t e X -> k <= t -> uniform2 k e (firstn k X).
Proof.
  intros [Hl Hu] Hk. split.
  - rewrite length_firstn. lia.
  - now apply Forall_firstn.
Qed.

Lemma head_output_masked_row (a : SelfAttention.t) (t e h : nat)
  (X : list (list R)) (c i : nat) :
  SelfAttention.mask a = true -> uniform2 t e X -> i < t ->
  nth i (head_output a t e h c X) [] = causal_head_row a t e h c X i.
Proof.
  intros Hmask HX Hi.
  destruct (@head_scores_uniform a t e h X HX c) as [HSl HSu].
  unfold head_output, matmul, head_weights, causal_head_row. rewrite Hmask.
  assert (length (mask_matrix t (map (map Fin) (head_scores a t h e X c))) = t)
    as Hml.
  { unfold mask_matrix. rewrite length_zipWith, length_seq, length_map. lia. }
  rewrite map_map.
  rewrite (@nth_map_lt _ _ _ _ i [] []) by lia.
  apply map_ext. intros j.
  unfold mask_matrix.
  rewrite (@nth_zipWith _ _ _ _ _ _ i 0 [] [])
    by (rewrite ?length_seq, ?length_map; lia).
  rewrite seq_nth by lia. cbn [Nat.add].
  rewrite (@nth_map_lt _ _ _ _ i [] []) by lia.
  assert (length (nth i (head_scores a t h e X c) []) = t) as Hrow.
  { apply (@nth_Forall _ (fun row => length row = t)); auto. lia. }
  rewrite <- Hrow at 1. rewrite <- (length_map Fin) at 1.
  rewrite softmax_masked_row, dotprod_app_zeros. now rewrite firstn_map.
Qed.

Section Prefix.

Variable a : SelfAttention.t.
Hypothesis Hwf : wf_SelfAttention a.
Hypothesis Hmask : SelfAttention.mask a = true.
Variables t e h : nat.
Hypothesis He : Z.of_nat e = SelfAttention.emb a.
Hypothesis Hh : Z.of_nat h = SelfAttention.heads a.

Lemma head_rows_firstn (l : Linear) (k c : nat) (X : list (list R)) :
  head_rows l h e c (firstn k X) = firstn k (head_rows l h e c X).
Proof. unfold head_rows. now rewrite firstn_map. Qed.

Lemma causal_head_row_prefix (X : list (list R)) (k c i : nat) :
  uniform2 t e X -> c < h -> i < k -> k <= t ->
  causal_head_row a k e h c (firstn k X) i = causal_head_row a t e h c X i.
Proof.
  intros HX Hc Hi Hk.
  pose proof (uniform2_firstn HX Hk) as HXk.
  unfold causal_head_row.
  assert (firstn (i + 1) (nth i (head_scores a k h e (firstn k X) c) [])
          = firstn (i + 1) (nth i (head_scores a t h e X c) [])) as ->.
  { rewrite (@head_scores_rows a Hwf k e h He Hh _ HXk c Hc).
    rewrite (@head_scores_rows a Hwf t e h He Hh _ HX c Hc).
    rewrite (@nth_map_lt _ _ _ _ i [] [])
      by (rewrite (@head_Q_length a k e h _ HXk c); lia).
    rewrite (@nth_map_lt _ _ _ _ i [] [])
      by (rewrite (@head_Q_length a t e h _ HX c); lia).
    rewrite !firstn_map, !firstn_seq by lia.
    apply map_ext_in. intros j Hj. apply in_seq in Hj.
    unfold head_Q, head_K. rewrite !head_rows_firstn, <- firstn_map.
    rewrite !nth_firstn.
    destruct (Nat.ltb_spec i k); [|lia].
    destruct (Nat.ltb_spec j k); [|lia]. reflexivity. }
  apply map_ext. intros j.
  unfold head_V. rewrite head_rows_firstn. unfold column.
  rewrite <- (firstn_map (fun row : list R => nth j row 0%R)).
  apply dotprod_firstn.
  unfold softmax_row. rewrite !length_map, length_firstn. lia.
Qed.

Lemma head_output_prefix (X : list (list R)) (k c i : nat) :
  uniform2 t e X -> c < h -> i < k -> k <= t ->
  nth i (head_output a k e h c (firstn k X)) []
  = nth i (head_output a t e h c X) [].
Proof.
  intros HX Hc Hi Hk.
  pose proof (uniform2_firstn HX Hk) as HXk.
  rewrite (@head_output_masked_row a k e h _ c i Hmask HXk Hi).
  rewrite (@head_output_masked_row a t e h _ c i Hmask HX) by lia.
  now apply causal_head_row_prefix.
Qed.

Lemma sequence_output_prefix (X : list (list R)) (k : nat) :
  uniform2 t e X -> k <= t ->
  sequence_output a k e h (firstn k X) = firstn k (sequence_output a t e h X).
Proof.
  intros HX Hk. unfold sequence_output, merged_rows.
  rewrite !firstn_map, firstn_seq by assumption.
  f_equal. apply map_ext_in. intros i Hi. apply in_seq in Hi.
  f_equal. rewrite !map_map. apply map_ext_in. intros c Hc. apply in_seq in Hc.
  apply head_output_prefix; auto; lia.
Qed.

End Prefix.

Lemma take_positions_sequences (A : Type) (k b t e : nat)
  (M : list (list (list A))) :
  uniform3 b t e M ->
  take_positions k (Tensor [b; t; e] (flat3 M))
  = Tensor [b; Nat.min k t; e] (flat3 (map (firstn (Nat.min k t)) M))
  /\ uniform3 b (Nat.min k t) e (map (firstn (Nat.min k t)) M).
Proof.
  intros HM. split.
  - unfold take_positions. cbn [size storage]. f_equal.
    rewrite (uniform3_blocks HM), map_map. unfold flat3. rewrite map_map.
    f_equal. apply map_ext_in. intros X HX.
    destruct HM as [_ HF]. rewrite Forall_forall in HF.
    destruct (HF X HX) as [Hl Hu].
    rewrite (firstn_concat_uniform k Hu). f_equal.
    rewrite (firstn_min_length k X). now rewrite Hl.
  - destruct HM as [Hl HF]. split; [now rewrite length_map|].
    apply Forall_forall. intros Y HY. apply in_map_iff in HY.
    destruct HY as (X & <- & HX). rewrite Forall_forall in HF.
    apply uniform2_firstn with (t := t); auto. lia.
Qed.

Lemma Dropout_off (d : Dropout) (training : bool) (noise : nat -> bool)
  (x : tensor R) :
  dropout_off d training -> Dropout_forward d training noise x = x.
Proof.
  intros [-> | Hp]; [reflexivity|]. now apply Dropout_zero.
Qed.

Lemma sequence_output_uniform (a : SelfAttention.t) (t e h : nat)
  (X : list (list R)) :
  wf_SelfAttention a -> Z.of_nat e = SelfAttention.emb a ->
  Z.of_nat h = SelfAttention.heads a ->
  uniform2 t e X -> uniform2 t e (sequence_output a t e h X).
Proof.
  intros Hwf He Hh HX.
  pose proof Hwf as (_ & _ & _ & _ & _ & Hu & _ & _ & _ & _ & _ & _ & Hui & Huo).
  rewrite (@emb_to_nat _ _ He), (@heads_to_nat _ _ Hh) in *.
  unfold sequence_output. split.
  - unfold merged_rows. now rewrite !length_map, length_seq.
  - apply Forall_map_length. intros v _. now rewrite length_linear_row.
Qed.

Lemma uniform3_map_sequences (A B : Type) (F : list (list A) -> list (list B))
  (b t e t' e' : nat) (M : list (list (list A))) :
  (forall X, uniform2 t e X -> uniform2 t' e' (F X)) ->
  uniform3 b t e M -> uniform3 b t' e' (map F M).
Proof.
  intros HF [Hl Hu]. split; [now rewrite length_map|].
  apply Forall_forall. intros Y HY. apply in_map_iff in HY.
  destruct HY as (X & <- & HX). rewrite Forall_forall in Hu. auto.
Qed.

Lemma select_sequence_sequences (A : Type) (n b t e : nat)
  (M : list (list (list A))) :
  uniform3 b t e M -> n < b ->
  select_sequence n (Tensor [b; t; e] (flat3 M))
  = Tensor [1; t; e] (flat3 [nth n M []])
  /\ uniform3 1 t e [nth n M []].
Proof.
  intros HM Hn. split.
  - unfold select_sequence. cbn [size storage]. f_equal.
    rewrite (uniform3_blocks HM).
    destruct HM as [Hl _].
    rewrite (@nth_map_lt _ _ _ _ n [] []) by lia.
    unfold flat3. simpl. now rewrite app_nil_r.
  - destruct HM as [Hl Hu]. split; [reflexivity|].
    constructor; [|constructor].
    apply (@nth_Forall _ (uniform2 t e)); auto. lia.
Qed.

Section Attention.

Variable a : SelfAttention.t.
Hypothesis Hwf : wf_SelfAttention a.
Variables b t e h : nat.
Hypothesis He : Z.of_nat e = SelfAttention.emb a.
Hypothesis Hh : Z.of_nat h = SelfAttention.heads a.

Lemma forward_nested (M : list (list (list R))) :
  uniform3 b t e M ->
  SelfAttention.forward a (Tensor [b; t; e] (flat3 M))
  = Ok (Tensor [b; t; e] (flat3 (map (sequence_output a t e h) M)))
  /\ uniform3 b t e (map (sequence_output a t e h) M).
Proof.
  intros HM. split.
  - apply (@forward_by_sequence a Hwf b t e h He Hh (Tensor [b; t; e] (flat3 M)) M
             eq_refl eq_refl HM).
  - apply uniform3_map_sequences with (t := t) (e := e); auto.
    intros X HX. now apply sequence_output_uniform.
Qed.

End Attention.

Lemma forward_take_positions (a : SelfAttention.t) (b t e h k : nat)
  (M : list (list (list R))) :
  wf_SelfAttention a -> SelfAttention.mask a = true ->
  Z.of_nat e = SelfAttention.emb a -> Z.of_nat h = SelfAttention.heads a ->
  uniform3 b t e M ->
  SelfAttention.forward a (take_positions k (Tensor [b; t; e] (flat3 M)))
  = Ok (take_positions k
          (Tensor [b; t; e] (flat3 (map (sequence_output a t e h) M)))).
Proof.
  intros Hwf Hmask He Hh HM.
  destruct (@forward_nested a Hwf b t e h He Hh M HM) as [_ HO].
  destruct (take_positions_sequences k HM) as [-> HMk].
  destruct (take_positions_sequences k HO) as [-> _].
  destruct (@forward_nested a Hwf b (Nat.min k t) e h He Hh _ HMk) as [-> _].
  f_equal. f_equal. f_equal. rewrite !map_map. apply map_ext_in.
  intros X HX. destruct HM as [_ HF]. rewrite Forall_forall in HF.
  apply (@sequence_output_prefix a Hwf Hmask t e h He Hh X (Nat.min k t)
           (HF X HX)). lia.
Qed.

Lemma forward_select_sequence (a : SelfAttention.t) (b t e h n : nat)
  (M : list (list (list R))) :
  wf_SelfAttention a ->
  Z.of_nat e = SelfAttention.emb a -> Z.of_nat h = SelfAttention.heads a ->
  uniform3 b t e M -> n < b ->
  SelfAttention.forward a (select_sequence n (Tensor [b; t; e] (flat3 M)))
  = Ok (select_sequence n
          (Tensor [b; t; e] (flat3 (map (sequence_output a t e h) M)))).
Proof.
  intros Hwf He Hh HM Hn.
  destruct (@forward_nested a Hwf b t e h He Hh M HM) as [_ HO].
  destruct (select_sequence_sequences HM Hn) as [-> HMn].
  destruct (select_sequence_sequences HO Hn) as [-> _].
  destruct (@forward_nested a Hwf 1 t e h He Hh _ HMn) as [-> _].
  f_equal. f_equal. f_equal. cbn [map]. f_equal.
  destruct HM as [Hl _].
  symmetry. apply nth_map_lt. lia.
Qed.

(** ** The block, one sequence at a time *)

Lemma zipWith_concat (A B C : Type) (f : A -> B -> C)
  (U : list (list A)) (V : list (list B)) :
  Forall2 (fun u v => length u = length v) U V ->
  zipWith f (concat U) (concat V) = concat (zipWith (zipWith f) U V).
Proof.
  induction 1 as [|u v U V Huv _ IH]; [reflexivity|].
  cbn [concat zipWith]. now rewrite zipWith_app, IH.
Qed.

Lemma Forall2_uniform (A B : Type) (b t e : nat)
  (U : list (list (list A))) (V : list (list (list B))) :
  uniform3 b t e U -> uniform3 b t e V ->
  Forall2 (fun u v => length u = length v) U V.
Proof.
  intros [HUl HU] [HVl HV]. revert b V HUl HVl HV.
  induction HU as [|u U Hu _ IH]; intros b V HUl HVl HV.
  - destruct V; [constructor|simpl in *; lia].
  - destruct V as [|v V]; [simpl in *; lia|]. inversion HV; subst.
    constructor.
    + destruct Hu as [-> _]. now destruct H1 as [-> _].
    + apply (IH (length U)); auto; simpl in HVl; lia.
Qed.

Lemma zipWith_map_same (A B C D : Type) (f : B -> C -> D) (g : A -> B)
  (g' : A -> C) (l : list A) :
  zipWith f (map g l) (map g' l) = map (fun x => f (g x) (g' x)) l.
Proof. induction l as [|x l IH]; [reflexivity|]. simpl. now rewrite IH. Qed.

Lemma residual_uniform (t e : nat) (U V : list (list R)) :
  uniform2 t e U -> uniform2 t e V -> uniform2 t e (residual U V).
Proof.
  intros [HUl HU] [HVl HV]. unfold residual. split.
  - rewrite length_zipWith. lia.
  - apply Forall_zipWith. intros u v Hu Hv. rewrite length_zipWith.
    rewrite Forall_forall in HU, HV. rewrite (HU u Hu), (HV v Hv). lia.
Qed.

Lemma Normalize_uniform (ln : LayerNorm) (t e : nat) (U : list (list R)) :
  wf_LayerNorm ln -> normalized_shape ln = e ->
  uniform2 t e U -> uniform2 t e (Normalize ln U).
Proof.
  intros Hln He [HUl HU]. unfold Normalize. split; [now rewrite length_map|].
  apply Forall_forall. intros y Hy. apply in_map_iff in Hy.
  destruct Hy as (v & <- & Hv). rewrite Forall_forall in HU.
  rewrite length_layer_norm_row; auto. rewrite He. auto.
Qed.

Lemma FeedForward_uniform (ff : Linear * Linear) (t e : nat) (U : list (list R)) :
  wf_Linear (snd ff) -> out_features (snd ff) = e ->
  length U = t -> uniform2 t e (FeedForward ff U).
Proof.
  intros Hff He HUl. unfold FeedForward. split; [now rewrite length_map|].
  apply Forall_map_length. intros v _. now rewrite length_linear_row.
Qed.

Lemma Forall2_of_Forall (A B : Type) (P : A -> Prop) (Q : B -> Prop)
  (T : A -> B -> Prop) (U : list A) (V : list B) :
  length U = length V -> Forall P U -> Forall Q V ->
  (forall u v, P u -> Q v -> T u v) -> Forall2 T U V.
Proof.
  intros Hl HU. revert V Hl.
  induction HU as [|u U Hu _ IH]; intros V Hl HV HT.
  - destruct V; [constructor|discriminate].
  - destruct V as [|v V]; [discriminate|]. inversion HV; subst.
    constructor; auto.
Qed.

Lemma zipWith_map_left (A B C : Type) (f : B -> A -> C) (g : A -> B) (l : list A) :
  zipWith f (map g l) l = map (fun x => f (g x) x) l.
Proof. induction l as [|x l IH]; [reflexivity|]. simpl. now rewrite IH. Qed.

Lemma zipWith_concat_uniform2 (A B C : Type) (f : A -> B -> C) (t e : nat)
  (X : list (list A)) (Y : list (list B)) :
  uniform2 t e X -> uniform2 t e Y ->
  zipWith f (concat X) (concat Y) = concat (zipWith (zipWith f) X Y).
Proof.
  intros [HXl HX] [HYl HY]. apply zipWith_concat.
  apply Forall2_of_Forall with (P := fun r => length r = e)
                               (Q := fun r => length r = e); auto; congruence.
Qed.

Lemma zipWith_flat3 (A B C : Type) (f : A -> B -> C) (b t e : nat)
  (U : list (list (list A))) (V : list (list (list B))) :
  uniform3 b t e U -> uniform3 b t e V ->
  zipWith f (flat3 U) (flat3 V) = flat3 (zipWith (zipWith (zipWith f)) U V).
Proof.
  intros [HUl HU] [HVl HV]. unfold flat3.
  rewrite zipWith_concat.
  - f_equal. rewrite zipWith_map, map_zipWith.
    apply zipWith_ext_in. intros X Y HX HY.
    rewrite Forall_forall in HU, HV.
    apply zipWith_concat_uniform2 with (t := t) (e := e); auto.
  - apply Forall2_of_Forall with (P := fun r => length r = t * e)
                                 (Q := fun r => length r = t * e);
      try congruence.
    + now rewrite !length_map, HUl, HVl.
    + apply Forall_map_length. intros X HX. rewrite Forall_forall in HU.
      apply uniform2_concat. auto.
    + apply Forall_map_length. intros X HX. rewrite Forall_forall in HV.
      apply uniform2_concat. auto.
Qed.

Lemma uniform3_zipWith (A B C : Type) (F : list (list A) -> list (list B) -> list (list C))
  (b t e : nat) (U : list (list (list A))) (V : list (list (list B))) :
  (forall X Y, uniform2 t e X -> uniform2 t e Y -> uniform2 t e (F X Y)) ->
  uniform3 b t e U -> uniform3 b t e V -> uniform3 b t e (zipWith F U V).
Proof.
  intros HF [HUl HU] [HVl HV]. split.
  - rewrite length_zipWith. lia.
  - apply Forall_zipWith. intros X Y HX HY.
    rewrite Forall_forall in HU, HV. auto.
Qed.

Lemma tadd_nested (b t e : nat) (U V : list (list (list R))) :
  uniform3 b t e U -> uniform3 b t e V ->
  tadd (Tensor [b; t; e] (flat3 U)) (Tensor [b; t; e] (flat3 V))
  = Ok (Tensor [b; t; e] (flat3 (zipWith residual U V)))
  /\ uniform3 b t e (zipWith residual U V).
Proof.
  intros HU HV. split.
  - unfold tadd. cbn [size storage].
    destruct (list_eq_dec Nat.eq_dec [b; t; e] [b; t; e]) as [_|Hne];
      [|congruence].
    f_equal. f_equal. now apply zipWith_flat3 with (b := b) (t := t) (e := e).
  - apply uniform3_zipWith; auto. apply residual_uniform.
Qed.

Lemma rowwise_nested (A B : Type) (b t d d' : nat) (f : list A -> list B)
  (M : list (list (list A))) :
  (forall v, length v = d -> length (f v) = d') ->
  uniform3 b t d M ->
  rowwise d d' f (Tensor [b; t; d] (flat3 M))
  = Ok (Tensor [b; t; d'] (flat3 (map (map f) M)))
  /\ uniform3 b t d' (map (map f) M).
Proof.
  intros Hf HM.
  destruct (@rowwise_sequences _ _ b t d d' f (Tensor [b; t; d] (flat3 M)) M
              eq_refl eq_refl HM Hf) as (y & -> & Hs & Hst & Hu).
  split; auto. f_equal. now apply tensor_eq.
Qed.

Lemma LayerNorm_nested (ln : LayerNorm) (b t e : nat) (M : list (list (list R))) :
  wf_LayerNorm ln -> normalized_shape ln = e ->
  uniform3 b t e M ->
  LayerNorm_forward ln (Tensor [b; t; e] (flat3 M))
  = Ok (Tensor [b; t; e] (flat3 (map (Normalize ln) M)))
  /\ uniform3 b t e (map (Normalize ln) M).
Proof.
  intros Hln He HM. unfold LayerNorm_forward. rewrite He.
  apply rowwise_nested; auto.
  intros v Hv. rewrite length_layer_norm_row; auto; congruence.
Qed.

Lemma Linear_nested (l : Linear) (b t : nat) (M : list (list (list R))) :
  wf_Linear l ->
  uniform3 b t (in_features l) M ->
  Linear_forward l (Tensor [b; t; in_features l] (flat3 M))
  = Ok (Tensor [b; t; out_features l] (flat3 (map (map (linear_row l)) M)))
  /\ uniform3 b t (out_features l) (map (map (linear_row l)) M).
Proof.
  intros Hl HM. unfold Linear_forward. apply rowwise_nested; auto.
  intros v _. now apply length_linear_row.
Qed.

Lemma ff_nested (ff : Linear * Linear) (b t e : nat) (M : list (list (list R))) :
  wf_Linear (fst ff) -> wf_Linear (snd ff) ->
  in_features (fst ff) = e ->
  out_features (fst ff) = in_features (snd ff) ->
  out_features (snd ff) = e ->
  uniform3 b t e M ->
  TransformerBlock.ff_forward ff (Tensor [b; t; e] (flat3 M))
  = Ok (Tensor [b; t; e] (flat3 (map (FeedForward ff) M)))
  /\ uniform3 b t e (map (FeedForward ff) M).
Proof.
  intros H1 H2 Hi Hm Ho HM. unfold TransformerBlock.ff_forward. subst e.
  destruct (Linear_nested H1 HM) as [-> HM1]. cbn [bind].
  unfold ReLU, tmap. cbn [size storage].
  rewrite flat3_map. rewrite Hm in *.
  pose proof (uniform3_map (Rmax 0) HM1) as HM2.
  destruct (Linear_nested H2 HM2) as [-> HM3].
  rewrite Ho in *.
  assert (map (map (linear_row (snd ff)))
            (map (map (map (Rmax 0))) (map (map (linear_row (fst ff))) M))
          = map (FeedForward ff) M) as <-; [|split; auto].
  unfold FeedForward.
  rewrite !map_map. apply map_ext. intros X. now rewrite !map_map.
Qed.

Lemma block_sequence_uniform (blk : TransformerBlock.t) (t e h : nat)
  (X : list (list R)) :
  wf_TransformerBlock blk ->
  Z.of_nat e = SelfAttention.emb (TransformerBlock.attention blk) ->
  Z.of_nat h = SelfAttention.heads (TransformerBlock.attention blk) ->
  uniform2 t e X -> uniform2 t e (block_sequence blk t e h X).
Proof.
  intros (Ha & Hn1 & Hn2 & Hs1 & Hs2 & Hf1 & Hf2 & Hfi & Hfm & Hfo) He Hh HX.
  rewrite (@emb_to_nat _ _ He) in *.
  unfold block_sequence.
  apply Normalize_uniform; auto.
  assert (uniform2 t e
            (Normalize (TransformerBlock.norm1 blk)
               (residual (sequence_output (TransformerBlock.attention blk) t e h X) X)))
    as HX1.
  { apply Normalize_uniform; auto. apply residual_uniform; auto.
    now apply sequence_output_uniform. }
  apply residual_uniform; auto.
  apply FeedForward_uniform; auto. apply HX1.
Qed.

Lemma block_nested (blk : TransformerBlock.t) (b t e h : nat)
  (training : bool) (noise1 noise2 : nat -> bool) (M : list (list (list R))) :
  wf_TransformerBlock blk ->
  Z.of_nat e = SelfAttention.emb (TransformerBlock.attention blk) ->
  Z.of_nat h = SelfAttention.heads (TransformerBlock.attention blk) ->
  dropout_off (TransformerBlock.do_ blk) training ->
  uniform3 b t e M ->
  TransformerBlock.forward blk training noise1 noise2 (Tensor [b; t; e] (flat3 M))
  = Ok (Tensor [b; t; e] (flat3 (map (block_sequence blk t e h) M)))
  /\ uniform3 b t e (map (block_sequence blk t e h) M).
Proof.
  intros Hwf He Hh Hdo HM.
  split.
  2:{ apply uniform3_map_sequences with (t := t) (e := e); auto.
      intros X HX. now apply block_sequence_uniform. }
  destruct Hwf as (Ha & Hn1 & Hn2 & Hs1 & Hs2 & Hf1 & Hf2 & Hfi & Hfm & Hfo).
  rewrite (@emb_to_nat _ _ He) in *.
  unfold TransformerBlock.forward.
  destruct (@forward_nested _ Ha b t e h He Hh M HM) as [-> HA]. cbn [bind].
  destruct (tadd_nested HA HM) as [-> HS1]. cbn [bind].
  destruct (LayerNorm_nested Hn1 Hs1 HS1) as [-> HX1]. cbn [bind].
  rewrite (Dropout_off _ _ Hdo).
  destruct (@ff_nested _ b t e _ Hf1 Hf2 Hfi Hfm Hfo HX1) as [-> HF]. cbn [bind].
  destruct (tadd_nested HF HX1) as [-> HS2]. cbn [bind].
  destruct (LayerNorm_nested Hn2 Hs2 HS2) as [-> HX2]. cbn [bind].
  rewrite (Dropout_off _ _ Hdo).
  f_equal. f_equal. f_equal.
  rewrite zipWith_map_left. rewrite !map_map.
  rewrite zipWith_map_left. rewrite !map_map.
  reflexivity.
Qed.

Lemma block_sequence_prefix (blk : TransformerBlock.t) (t e h k : nat)
  (X : list (list R)) :
  wf_TransformerBlock blk ->
  SelfAttention.mask (TransformerBlock.attention blk) = true ->
  Z.of_nat e = SelfAttention.emb (TransformerBlock.attention blk) ->
  Z.of_nat h = SelfAttention.heads (TransformerBlock.attention blk) ->
  uniform2 t e X -> k <= t ->
  block_sequence blk k e h (firstn k X) = firstn k (block_sequence blk t e h X).
Proof.
  intros Hwf Hmask He Hh HX Hk. destruct Hwf as (Ha & _).
  unfold block_sequence, Normalize, residual, FeedForward.
  rewrite (@sequence_output_prefix _ Ha Hmask t e h He Hh X k HX Hk).
  now rewrite !firstn_map, !firstn_zipWith, !firstn_map, !firstn_zipWith.
Qed.


Lemma block_select_sequence (blk : TransformerBlock.t) (b t e h n : nat)
  (training : bool) (noise1 noise2 noise1' noise2' : nat -> bool)
  (M : list (list (list R))) :
  wf_TransformerBlock blk ->
  Z.of_nat e = SelfAttention.emb (TransformerBlock.attention blk) ->
  Z.of_nat h = SelfAttention.heads (TransformerBlock.attention blk) ->
  dropout_off (TransformerBlock.do_ blk) training ->
  uniform3 b t e M -> n < b ->
  TransformerBlock.forward blk training noise1' noise2'
    (select_sequence n (Tensor [b; t; e] (flat3 M)))
  = Ok (select_sequence n
          (Tensor [b; t; e] (flat3 (map (block_sequence blk t e h) M)))).
Proof.
  intros Hwf He Hh Hdo HM Hn.
  destruct (@block_nested blk b t e h training noise1 noise2 M Hwf He Hh Hdo HM)
    as [_ HO].
  destruct (select_sequence_sequences HM Hn) as [-> HMn].
  destruct (select_sequence_sequences HO Hn) as [-> _].
  destruct (@block_nested blk 1 t e h training noise1' noise2' _
              Hwf He Hh Hdo HMn) as [-> _].
  f_equal. f_equal. f_equal. cbn [map]. f_equal.
  destruct HM as [Hl _].
  symmetry. apply nth_map_lt. lia.
Qed.

(** ** The block and the order of the positions *)

Lemma sequence_output_unmasked (a : SelfAttention.t) (t e h : nat)
  (X : list (list R)) :
  SelfAttention.mask a = false ->
  sequence_output a t e h X = attention_rows a t e h X.
Proof.
  intros Hm. rewrite attention_rows_merged. unfold sequence_output.
  f_equal. f_equal. apply map_ext. intros c.
  unfold head_output, head_weights. rewrite Hm. reflexivity.
Qed.

Lemma zipWith_permute (A B C : Type) (f : A -> B -> C) (p : list nat) (t : nat)
  (U : list A) (V : list B) (d : A) (d' : B) (d'' : C) :
  Permutation p (seq 0 t) -> length U = t -> length V = t ->
  zipWith f (permute d p U) (permute d' p V) = permute d'' p (zipWith f U V).
Proof.
  intros Hp HU HV. unfold permute. rewrite zipWith_map_same.
  apply map_ext_in. intros i Hi. pose proof (perm_bound t Hp i Hi) as Hlt.
  symmetry. apply nth_zipWith; lia.
Qed.

Lemma block_sequence_permute (blk : TransformerBlock.t) (t e h : nat)
  (p : list nat) (X : list (list R)) :
  wf_TransformerBlock blk ->
  SelfAttention.mask (TransformerBlock.attention blk) = false ->
  Z.of_nat e = SelfAttention.emb (TransformerBlock.attention blk) ->
  Z.of_nat h = SelfAttention.heads (TransformerBlock.attention blk) ->
  Permutation p (seq 0 t) -> uniform2 t e X ->
  block_sequence blk t e h (permute [] p X)
  = permute [] p (block_sequence blk t e h X).
Proof.
  intros Hwf Hm He Hh Hp HX. pose proof Hwf as (Ha & _).
  pose proof (@sequence_output_uniform _ t e h X Ha He Hh HX) as [HOl _].
  destruct HX as [HXl HXu].
  unfold block_sequence. rewrite !sequence_output_unmasked by assumption.
  rewrite (@attention_rows_permute _ Ha t e h He Hh p Hp X (conj HXl HXu)).
  rewrite sequence_output_unmasked in HOl by assumption.
  unfold Normalize, residual, FeedForward.
  rewrite (@zipWith_permute _ _ _ (zipWith Rplus) p t _ _ [] [] [] Hp HOl HXl).
  set (S1 := zipWith (zipWith Rplus)
               (attention_rows (TransformerBlock.attention blk) t e h X) X).
  assert (length S1 = t) as HS1.
  { unfold S1. rewrite length_zipWith. lia. }
  rewrite (@permute_map p t Hp _ _ (layer_norm_row (TransformerBlock.norm1 blk))
             [] [] S1 HS1).
  set (X1 := map (layer_norm_row (TransformerBlock.norm1 blk)) S1).
  assert (length X1 = t) as HX1 by (unfold X1; now rewrite length_map).
  rewrite (@permute_map p t Hp _ _
             (fun v => linear_row (snd (TransformerBlock.ff blk))
                         (map (Rmax 0) (linear_row (fst (TransformerBlock.ff blk)) v)))
             [] [] X1 HX1).
  rewrite (@zipWith_permute _ _ _ (zipWith Rplus) p t _ X1 [] [] [] Hp);
    [|now rewrite length_map|assumption].
  apply permute_map with (t := t); auto.
  rewrite length_zipWith, length_map. lia.
Qed.

(** * Causality, batches and permutations *)

Lemma example_sequence_shaped : shaped [1; 2; 2] example_sequence.
Proof. split; reflexivity. Qed.

Lemma example_block_unmasked_wf : wf_TransformerBlock example_block_unmasked.
Proof. exact example_block_wf. Qed.

Lemma example_dropout_off (training : bool) :
  dropout_off (TransformerBlock.do_ example_block) training.
Proof. right. reflexivity. Qed.

(** With the causal mask, what [SelfAttention.forward] returns at the first
    [k] positions is determined by the first [k] positions of its input:
    applied to the input cut after [k] positions it returns its result cut
    after [k] positions, and an input that agrees with [x] on the first [k]
    positions gives a result that agrees there. *)
Theorem masked_attention_is_causal (a : SelfAttention.t) (b t e h k : nat)
  (x : tensor R) :
  wf_SelfAttention a -> SelfAttention.mask a = true ->
  Z.of_nat e = SelfAttention.emb a -> Z.of_nat h = SelfAttention.heads a ->
  shaped [b; t; e] x ->
  exists y,
    SelfAttention.forward a x = Ok y /\
    SelfAttention.forward a (take_positions k x) = Ok (take_positions k y) /\
    forall x', shaped [b; t; e] x' ->
      take_positions k x' = take_positions k x ->
      exists y', SelfAttention.forward a x' = Ok y' /\
                 take_positions k y' = take_positions k y.
Proof.
  intros Hwf Hm He Hh Hx.
  destruct (shaped_as_sequences Hx) as (M & HM & ->).
  destruct (@forward_nested a Hwf b t e h He Hh M HM) as [Hy _].
  pose proof (@forward_take_positions a b t e h k M Hwf Hm He Hh HM) as Hk.
  eexists. split; [exact Hy|]. split; [exact Hk|].
  intros x' Hx' Heq.
  destruct (shaped_as_sequences Hx') as (M' & HM' & ->).
  destruct (@forward_nested a Hwf b t e h He Hh M' HM') as [Hy' _].
  pose proof (@forward_take_positions a b t e h k M' Hwf Hm He Hh HM') as Hk'.
  eexists. split; [exact Hy'|].
  rewrite Heq, Hk in Hk'. symmetry. congruence.
Qed.

Lemma masked_attention_is_causal_witness :
  wf_SelfAttention example_attention /\
  SelfAttention.mask example_attention = true /\
  shaped [1; 2; 2] example_sequence /\
  exists y,
    SelfAttention.forward example_attention example_sequence = Ok y /\
    SelfAttention.forward example_attention (take_positions 1 example_sequence)
    = Ok (take_positions 1 y).
Proof.
  split; [apply example_attention_wf|]. split; [reflexivity|].
  split; [apply example_sequence_shaped|].
  destruct (@masked_attention_is_causal example_attention 1 2 2 1 1 example_sequence
              example_attention_wf eq_refl eq_refl eq_refl example_sequence_shaped)
    as (y & Hy & Hk & _).
  exists y. split; [exact Hy|exact Hk].
Defined.



(** [SelfAttention.forward] treats the sequences of a batch one by one:
    applied to sequence [n] alone it returns sequence [n] of its result on
    the batch, with or without mask. *)
Theorem attention_keeps_sequences_apart (a : SelfAttention.t) (b t e h n : nat)
  (x : tensor R) :
  wf_SelfAttention a ->
  Z.of_nat e = SelfAttention.emb a -> Z.of_nat h = SelfAttention.heads a ->
  shaped [b; t; e] x -> n < b ->
  exists y,
    SelfAttention.forward a x = Ok y /\
    SelfAttention.forward a (select_sequence n x) = Ok (select_sequence n y).
Proof.
  intros Hwf He Hh Hx Hn.
  destruct (shaped_as_sequences Hx) as (M & HM & ->).
  destruct (@forward_nested a Hwf b t e h He Hh M HM) as [Hy _].
  eexists. split; [exact Hy|].
  now apply forward_select_sequence.
Qed.

Lemma mixing_attention_wf : wf_SelfAttention mixing_attention.
Proof.
  unfold wf_SelfAttention, wf_Linear. simpl.
  split_all; try reflexivity; try lia; repeat constructor.
Qed.

Lemma mixing_block_wf : wf_TransformerBlock mixing_block.
Proof.
  unfold wf_TransformerBlock. split; [apply mixing_attention_wf|].
  unfold wf_LayerNorm, wf_Linear. simpl.
  split_all; try reflexivity; repeat constructor.
Qed.

Lemma example_batch_shaped : shaped [2; 2; 2] example_batch.
Proof. split; reflexivity. Qed.

Lemma attention_keeps_sequences_apart_witness :
  wf_SelfAttention mixing_attention /\
  shaped [2; 2; 2] example_batch /\
  select_sequence 1 example_batch = Tensor [1; 2; 2] [0; 1; 4; -2]%R /\
  exists y,
    SelfAttention.forward mixing_attention example_batch = Ok y /\
    SelfAttention.forward mixing_attention (select_sequence 1 example_batch)
    = Ok (select_sequence 1 y).
Proof.
  split; [apply mixing_attention_wf|].
  split; [apply example_batch_shaped|].
  split; [reflexivity|].
  apply (@attention_keeps_sequences_apart mixing_attention 2 2 2 1 1
           example_batch mixing_attention_wf eq_refl eq_refl
           example_batch_shaped).
  lia.
Defined.

(** So does [TransformerBlock.forward] when its dropout leaves the input as
    it is: applied to sequence [n] alone it returns sequence [n] of its
    result on the batch. *)
Theorem block_keeps_sequences_apart (blk : TransformerBlock.t) (b t e h n : nat)
  (training : bool) (noise1 noise2 : nat -> bool) (x : tensor R) :
  wf_TransformerBlock blk ->
  Z.of_nat e = SelfAttention.emb (TransformerBlock.attention blk) ->
  Z.of_nat h = SelfAttention.heads (TransformerBlock.attention blk) ->
  dropout_off (TransformerBlock.do_ blk) training ->
  shaped [b; t; e] x -> n < b ->
  exists y,
    TransformerBlock.forward blk training noise1 noise2 x = Ok y /\
    TransformerBlock.forward blk training noise1 noise2 (select_sequence n x)
    = Ok (select_sequence n y).
Proof.
  intros Hwf He Hh Hdo Hx Hn.
  destruct (shaped_as_sequences Hx) as (M & HM & ->).
  destruct (@block_nested blk b t e h training noise1 noise2 M Hwf He Hh Hdo HM)
    as [Hy _].
  eexists. split; [exact Hy|].
  now apply block_select_sequence with (training := training)
                                       (noise1 := noise1) (noise2 := noise2).
Qed.

Lemma block_keeps_sequences_apart_witness :
  wf_TransformerBlock mixing_block /\
  dropout_off (TransformerBlock.do_ mixing_block) true /\
  shaped [2; 2; 2] example_batch /\
  select_sequence 1 example_batch = Tensor [1; 2; 2] [0; 1; 4; -2]%R /\
  exists y,
    TransformerBlock.forward mixing_block true keep_all keep_all example_batch
    = Ok y /\
    TransformerBlock.forward mixing_block true keep_all keep_all
      (select_sequence 1 example_batch)
    = Ok (select_sequence 1 y).
Proof.
  assert (dropout_off (TransformerBlock.do_ mixing_block) true) as Hoff
    by (right; reflexivity).
  split; [apply mixing_block_wf|]. split; [exact Hoff|].
  split; [apply example_batch_shaped|].
  split; [reflexivity|].
  apply (@block_keeps_sequences_apart mixing_block 2 2 2 1 1 true keep_all
           keep_all example_batch mixing_block_wf eq_refl eq_refl
           Hoff example_batch_shaped).
  lia.
Defined.

(** Without mask, and with a dropout that leaves its input as it is, the
    whole block commutes with every permutation [p] of the positions: on
    the input with its positions taken in the order [p] it returns its
    result with the positions taken in the order [p]. *)
Theorem unmasked_block_is_permutation_equivariant (blk : TransformerBlock.t)
  (b t e h : nat) (p : list nat) (training : bool) (noise1 noise2 : nat -> bool)
  (x : tensor R) :
  wf_TransformerBlock blk ->
  SelfAttention.mask (TransformerBlock.attention blk) = false ->
  Z.of_nat e = SelfAttention.emb (TransformerBlock.attention blk) ->
  Z.of_nat h = SelfAttention.heads (TransformerBlock.attention blk) ->
  dropout_off (TransformerBlock.do_ blk) training ->
  shaped [b; t; e] x -> Permutation p (seq 0 t) ->
  exists y,
    TransformerBlock.forward blk training noise1 noise2 x = Ok y /\
    TransformerBlock.forward blk training noise1 noise2 (permute_positions p x)
    = Ok (permute_positions p y).
Proof.
  intros Hwf Hm He Hh Hdo Hx Hp.
  destruct (shaped_as_sequences Hx) as (M & HM & ->).
  destruct (@block_nested blk b t e h training noise1 noise2 M Hwf He Hh Hdo HM)
    as [Hy HN].
  eexists. split; [exact Hy|].
  rewrite (permute_positions_sequences p HM), (permute_positions_sequences p HN).
  destruct (@block_nested blk b t e h training noise1 noise2 _ Hwf He Hh Hdo
              (permute_uniform3 Hp HM)) as [-> _].
  f_equal. f_equal. f_equal. rewrite !map_map. apply map_ext_in.
  intros X HX. destruct HM as [_ HF]. rewrite Forall_forall in HF.
  apply block_sequence_permute; auto.
Qed.

Lemma unmasked_block_is_permutation_equivariant_witness :
  wf_TransformerBlock example_block_unmasked /\
  SelfAttention.mask (TransformerBlock.attention example_block_unmasked) = false /\
  dropout_off (TransformerBlock.do_ example_block_unmasked) true /\
  shaped [1; 2; 2] example_sequence /\
  Permutation [1; 0] (seq 0 2) /\
  exists y,
    TransformerBlock.forward example_block_unmasked true keep_all keep_all
      example_sequence = Ok y /\
    TransformerBlock.forward example_block_unmasked true keep_all keep_all
      (permute_positions [1; 0] example_sequence)
    = Ok (permute_positions [1; 0] y).
Proof.
  assert (Permutation [1; 0] (seq 0 2)) as Hp by apply perm_swap.
  split; [apply example_block_unmasked_wf|]. split; [reflexivity|].
  split; [apply example_dropout_off|].
  split; [apply example_sequence_shaped|]. split; [exact Hp|].
  apply (@unmasked_block_is_permutation_equivariant example_block_unmasked
           1 2 2 1 [1; 0] true keep_all keep_all example_sequence
           example_block_unmasked_wf eq_refl eq_refl eq_refl
           (example_dropout_off true) example_sequence_shaped Hp).
Defined.

(** [TransformerBlock.forward] on an input of size [(b, t, e)] raises
    exactly when [e] differs from the embedding width of its attention
    module, and then it is the assertion of the attention module that
    fails; otherwise it returns a tensor of the size of its input, whatever
    the mode and the dropout draws are. *)
Theorem block_forward_fails_iff_emb_mismatch (blk : TransformerBlock.t)
  (b t e h : nat) (training : bool) (noise1 noise2 : nat -> bool) (x : tensor R) :
  wf_TransformerBlock blk ->
  Z.of_nat h = SelfAttention.heads (TransformerBlock.attention blk) ->
  shaped [b; t; e] x ->
  ((exists err, TransformerBlock.forward blk training noise1 noise2 x = Err err)
     <-> Z.of_nat e <> SelfAttention.emb (TransformerBlock.attention blk)) /\
  (Z.of_nat e <> SelfAttention.emb (TransformerBlock.attention blk) ->
     TransformerBlock.forward blk training noise1 noise2 x = Err AssertionError) /\
  (Z.of_nat e = SelfAttention.emb (TransformerBlock.attention blk) ->
     exists y, TransformerBlock.forward blk training noise1 noise2 x = Ok y /\
               shaped [b; t; e] y).
Proof.
  intros Hwf Hh Hx.
  assert (Z.of_nat e <> SelfAttention.emb (TransformerBlock.attention blk) ->
          TransformerBlock.forward blk training noise1 noise2 x = Err AssertionError)
    as Hbad.
  { intros Hne. unfold TransformerBlock.forward.
    now rewrite (@forward_emb_mismatch _ b t e x (proj1 Hx) Hne). }
  assert (Z.of_nat e = SelfAttention.emb (TransformerBlock.attention blk) ->
          exists y, TransformerBlock.forward blk training noise1 noise2 x = Ok y /\
                    shaped [b; t; e] y) as Hgood.
  { intros He.
    destruct (@block_forward_spec blk Hwf b t e h He Hh training noise1 noise2 x Hx)
      as (att & _ & _ & Hy & Hs).
    eauto. }
  split_all; auto. split.
  - intros [err Herr] He. destruct (Hgood He) as (y & Hy & _). congruence.
  - intros Hne. exists AssertionError. auto.
Qed.

Lemma block_forward_fails_iff_emb_mismatch_witness :
  wf_TransformerBlock example_block /\
  shaped [1; 2; 2] example_sequence /\
  exists y,
    TransformerBlock.forward example_block true keep_all keep_all example_sequence
    = Ok y /\ shaped [1; 2; 2] y.
Proof.
  split; [apply example_block_wf|]. split; [apply example_sequence_shaped|].
  destruct (@block_forward_fails_iff_emb_mismatch example_block 1 2 2 1 true
              keep_all keep_all example_sequence example_block_wf eq_refl
              example_sequence_shaped) as (_ & _ & Hok).
  apply Hok. reflexivity.
Defined.

(** An input that does not have three dimensions makes both forward
    functions raise the [ValueError] of the failing unpacking of
    [x.size()], whatever the module holds. *)
Theorem forward_needs_three_dimensions (blk : TransformerBlock.t)
  (training : bool) (noise1 noise2 : nat -> bool) (x : tensor R) :
  length (size x) <> 3 ->
  SelfAttention.forward (TransformerBlock.attention blk) x = Err ValueError /\
  TransformerBlock.forward blk training noise1 noise2 x = Err ValueError.
Proof.
  intros Hs.
  assert (SelfAttention.forward (TransformerBlock.attention blk) x = Err ValueError)
    as Ha.
  { unfold SelfAttention.forward, SelfAttention.forward_with_attention,
      SelfAttention.scores.
    destruct (size x) as [|d0 [|d1 [|d2 [|d3 s]]]]; try reflexivity.
    simpl in Hs. lia. }
  split; [exact Ha|]. unfold TransformerBlock.forward. now rewrite Ha.
Qed.

Lemma forward_needs_three_dimensions_witness :
  length (size (Tensor [1; 2] [1; 2]%R)) <> 3 /\
  TransformerBlock.forward example_block true keep_all keep_all
    (Tensor [1; 2] [1; 2]%R) = Err ValueError.
Proof.
  assert (length (size (Tensor [1; 2] [1; 2]%R)) <> 3) as H by (simpl; lia).
  split; [exact H|].
  apply (@forward_needs_three_dimensions example_block true keep_all keep_all
           (Tensor [1; 2] [1; 2]%R) H).
Defined.

(** * The tensor library of [transformers.py] *)

(** ** Embeddings *)

Lemma nn_Embedding_inv (d n : Z) (w0 : nat -> nat -> R) (m : Embedding) :
  nn_Embedding d n w0 = Ok m ->
  (0 <= n)%Z /\ (0 <= d)%Z /\ wf_Embedding m /\
  num_embeddings m = Z.to_nat n /\ embedding_dim m = Z.to_nat d.
Proof.
  unfold nn_Embedding.
  destruct (0 <=? n)%Z eqn:Hn; [|discriminate].
  destruct (0 <=? d)%Z eqn:Hd; [|discriminate].
  cbn [andb]. intros [= <-]. apply Z.leb_le in Hn, Hd.
  unfold wf_Embedding. cbn [num_embeddings embedding_dim emb_weight].
  split_all; try lia; try reflexivity.
  - apply length_tabulate.
  - unfold tabulate at 1. apply Forall_map_length. intros r _.
    apply length_tabulate.
Qed.

Lemma nn_Embedding_nonneg (d n : Z) (w0 : nat -> nat -> R) :
  (0 <= d)%Z -> (0 <= n)%Z -> exists m, nn_Embedding d n w0 = Ok m.
Proof.
  intros Hd Hn. unfold nn_Embedding.
  destruct (Z.leb_spec 0 n); [|lia]. destruct (Z.leb_spec 0 d); [|lia].
  eexists. reflexivity.
Qed.

Lemma nn_Embedding_negative (d n : Z) (w0 : nat -> nat -> R) :
  (d < 0)%Z \/ (n < 0)%Z -> nn_Embedding d n w0 = Err RuntimeError.
Proof.
  intros H. unfold nn_Embedding.
  destruct (Z.leb_spec 0 n); destruct (Z.leb_spec 0 d); try reflexivity; lia.
Qed.

Lemma length_lookup (m : Embedding) (i : Z) :
  wf_Embedding m -> in_vocabulary m i -> length (lookup m i) = embedding_dim m.
Proof.
  intros [Hl Hu] [H0 H1]. unfold lookup.
  apply (@nth_Forall _ (fun row => length row = embedding_dim m)); auto. lia.
Qed.

Lemma in_vocabulary_forallb (m : Embedding) (l : list Z) :
  forallb (fun i => (0 <=? i)%Z && (i <? Z.of_nat (num_embeddings m))%Z) l = true
  <-> Forall (in_vocabulary m) l.
Proof.
  rewrite forallb_forall, Forall_forall. unfold in_vocabulary.
  split; intros H i Hi; specialize (H i Hi).
  - apply andb_true_iff in H. destruct H as [H0 H1].
    apply Z.leb_le in H0. apply Z.ltb_lt in H1. lia.
  - apply andb_true_iff. split; [apply Z.leb_le|apply Z.ltb_lt]; lia.
Qed.

Lemma Embedding_out_of_range (m : Embedding) (x : tensor Z) :
  ~ Forall (in_vocabulary m) (storage x) ->
  Embedding_forward m x = Err RuntimeError.
Proof.
  intros H. unfold Embedding_forward.
  destruct (forallb _ (storage x)) eqn:Hf; [|reflexivity].
  exfalso. apply H. now apply in_vocabulary_forallb.
Qed.

Lemma Embedding_in_range (m : Embedding) (x : tensor Z) :
  Forall (in_vocabulary m) (storage x) ->
  Embedding_forward m x
  = Ok (Tensor (size x ++ [embedding_dim m]) (concat (map (lookup m) (storage x)))).
Proof.
  intros H. unfold Embedding_forward.
  apply in_vocabulary_forallb in H. now rewrite H.
Qed.

Lemma Forall_concat (A : Type) (P : A -> Prop) (T : list (list A)) :
  Forall P (concat T) <-> Forall (Forall P) T.
Proof.
  induction T as [|r T IH]; simpl.
  - split; constructor.
  - rewrite Forall_app, IH. split.
    + intros [H1 H2]. now constructor.
    + intros H. inversion H; subst. auto.
Qed.

Lemma Embedding_nested (m : Embedding) (b t : nat) (T : list (list Z)) :
  wf_Embedding m -> uniform2 b t T -> Forall (Forall (in_vocabulary m)) T ->
  Embedding_forward m (Tensor [b; t] (concat T))
  = Ok (Tensor [b; t; embedding_dim m] (flat3 (map (map (lookup m)) T)))
  /\ uniform3 b t (embedding_dim m) (map (map (lookup m)) T).
Proof.
  intros Hm [HTl HT] Hin. split.
  - rewrite Embedding_in_range by now apply Forall_concat.
    cbn [size storage app]. unfold flat3.
    now rewrite concat_map, concat_map_concat.
  - split; [now rewrite length_map|].
    apply Forall_forall. intros Y HY. apply in_map_iff in HY.
    destruct HY as (toks & <- & Htoks).
    rewrite Forall_forall in HT, Hin. split.
    + rewrite length_map. auto.
    + apply Forall_forall. intros row Hrow. apply in_map_iff in Hrow.
      destruct Hrow as (i & <- & Hi). apply length_lookup; auto.
      specialize (Hin toks Htoks). rewrite Forall_forall in Hin. auto.
Qed.

Lemma positions_in_range (m : Embedding) (t : nat) :
  Forall (in_vocabulary m) (storage (arange t)) <-> t <= num_embeddings m.
Proof.
  cbn [arange storage]. rewrite Forall_forall. unfold in_vocabulary. split.
  - intros H. destruct t as [|t]; [lia|].
    assert (In (Z.of_nat t) (map Z.of_nat (seq 0 (S t)))) as Hin.
    { apply in_map, in_seq. lia. }
    specialize (H _ Hin). lia.
  - intros Ht i Hi. apply in_map_iff in Hi. destruct Hi as (j & <- & Hj).
    apply in_seq in Hj. lia.
Qed.

Lemma position_rows_uniform (m : Embedding) (t : nat) :
  wf_Embedding m -> t <= num_embeddings m ->
  uniform2 t (embedding_dim m) (position_rows m t).
Proof.
  intros Hm Ht. unfold position_rows. split.
  - now rewrite length_map, length_seq.
  - apply Forall_map_length. intros i Hi. apply in_seq in Hi.
    apply length_lookup; auto. unfold in_vocabulary. lia.
Qed.

Lemma positions_embedded (m : Embedding) (t : nat) :
  t <= num_embeddings m ->
  Embedding_forward m (arange t)
  = Ok (Tensor [t; embedding_dim m] (concat (position_rows m t))).
Proof.
  intros Ht. rewrite Embedding_in_range by now apply positions_in_range.
  cbn [arange size storage app]. unfold position_rows. now rewrite map_map.
Qed.

Lemma positions_too_long (m : Embedding) (t : nat) :
  num_embeddings m < t -> Embedding_forward m (arange t) = Err RuntimeError.
Proof.
  intros Ht. apply Embedding_out_of_range. rewrite positions_in_range. lia.
Qed.

(** ** Expanding over the batch *)

Lemma stretch_same (A : Type) (d : nat) (l : list A) : stretch d d l = l.
Proof. unfold stretch. now rewrite Nat.eqb_refl. Qed.

Lemma concat_repeat_singleton (A : Type) (x : A) (n : nat) :
  concat (repeat [x] n) = repeat x n.
Proof. induction n as [|n IH]; [reflexivity|]. simpl. now rewrite IH. Qed.

Lemma stretch_one (A : Type) (d : nat) (x : A) : stretch 1 d [x] = repeat x d.
Proof.
  unfold stretch. destruct (Nat.eqb_spec 1 d) as [<-|_]; [reflexivity|].
  apply concat_repeat_singleton.
Qed.

Lemma length_stretch (A : Type) (d0 d : nat) (l : list A) :
  length l = d0 -> expandable d0 d = true -> length (stretch d0 d l) = d.
Proof.
  intros Hl He. unfold stretch, expandable in *.
  destruct (Nat.eqb_spec d0 d) as [<-|Hne]; [assumption|].
  cbn [orb] in He. apply Nat.eqb_eq in He. subst d0.
  destruct l as [|x [|y l]]; try discriminate.
  now rewrite concat_repeat_singleton, repeat_length.
Qed.

Lemma split_n_one (A : Type) (m : nat) (l : list A) :
  length l = m -> split_n 1 m l = [l].
Proof. intros <-. cbn [split_n]. now rewrite firstn_all. Qed.

Lemma uniform3_repeat (A : Type) (b t e : nat) (P : list (list A)) :
  uniform2 t e P -> uniform3 b t e (repeat P b).
Proof.
  intros HP. split; [apply repeat_length|].
  apply Forall_forall. intros X HX. apply repeat_spec in HX. now subst.
Qed.

Lemma expand_batch (b t e : nat) (P : list (list R)) :
  uniform2 t e P ->
  expand (Tensor [1; t; e] (concat P)) b t e
  = Ok (Tensor [b; t; e] (flat3 (repeat P b))).
Proof.
  intros HP. unfold expand, expandable. cbn [size storage].
  rewrite !Nat.eqb_refl. cbn [Nat.eqb orb andb].
  rewrite orb_true_r. cbn [andb].
  rewrite split_n_one by (rewrite (uniform2_concat HP); lia).
  cbn [map]. rewrite (uniform2_split HP).
  rewrite stretch_same.
  rewrite (map_ext _ (fun row => row)) by (intros; apply stretch_same).
  now rewrite map_id, stretch_one.
Qed.

Lemma expand_refused (t f b e : nat) (st : list R) :
  f <> e -> f <> 1 -> expand (Tensor [1; t; f] st) b t e = Err RuntimeError.
Proof.
  intros H1 H2. unfold expand, expandable. cbn [size].
  destruct (Nat.eqb_spec f e); [contradiction|].
  destruct (Nat.eqb_spec f 1); [contradiction|].
  cbn [orb]. now rewrite andb_false_r.
Qed.

Lemma expand_feature (b t e : nat) (P : list (list R)) :
  uniform2 t 1 P ->
  exists y, expand (Tensor [1; t; 1] (concat P)) b t e = Ok y
            /\ shaped [b; t; e] y.
Proof.
  intros HP. unfold expand, expandable. cbn [size storage].
  rewrite !Nat.eqb_refl. cbn [Nat.eqb orb andb].
  rewrite !orb_true_r. cbn [andb].
  rewrite split_n_one by (rewrite (uniform2_concat HP); lia).
  cbn [map]. rewrite (uniform2_split HP). rewrite stretch_same, stretch_one.
  eexists. split; [reflexivity|]. split; [reflexivity|].
  cbn [storage].
  rewrite (@length_flat3 _ b t e); [simpl; lia|].
  apply uniform3_repeat. destruct HP as [HPl HP]. split.
  - now rewrite length_map.
  - apply Forall_map_length. intros row Hrow. rewrite Forall_forall in HP.
    apply length_stretch; auto. unfold expandable.
    now rewrite Nat.eqb_refl, orb_true_r.
Qed.

Lemma zipWith_repeat_r (A B C : Type) (f : A -> B -> C) (l : list A) (y : B) :
  zipWith f l (repeat y (length l)) = map (fun x => f x y) l.
Proof. induction l as [|x l IH]; [reflexivity|]. simpl. now rewrite IH. Qed.

(** ** Pooling over the positions *)

Lemma pooled_shaped (b t e : nat) (g : list (list R) -> nat -> R) (x : tensor R) :
  shaped [b; t; e] x ->
  shaped [b; e]
    (Tensor [b; e]
       (concat (map (fun blk => map (fun j => g (split_n t e blk) j) (seq 0 e))
                    (split_n b (t * e) (storage x))))).
Proof.
  intros _. split; [reflexivity|]. cbn [storage].
  rewrite (@length_concat_uniform _ e).
  - rewrite length_map, length_split_n. simpl. lia.
  - apply Forall_map_length. intros blk _. now rewrite length_map, length_seq.
Qed.

Lemma max_dim1_shaped (b t e : nat) (x : tensor R) :
  shaped [b; t; e] x -> 0 < t ->
  exists y, max_dim1 x = Ok y /\ shaped [b; e] y.
Proof.
  intros Hx Ht. unfold max_dim1. rewrite (proj1 Hx).
  destruct (Nat.eqb_spec t 0); [lia|].
  eexists. split; [reflexivity|].
  apply (@pooled_shaped b t e (fun X j => Rmax_list (column j X)) x Hx).
Qed.

Lemma max_dim1_empty (b e : nat) (x : tensor R) :
  size x = [b; 0; e] -> max_dim1 x = Err RuntimeError.
Proof. intros Hx. unfold max_dim1. now rewrite Hx. Qed.

Lemma mean_dim1_shaped (b t e : nat) (x : tensor R) :
  shaped [b; t; e] x ->
  exists y, mean_dim1 x = Ok y /\ shaped [b; e] y.
Proof.
  intros Hx. unfold mean_dim1. rewrite (proj1 Hx).
  eexists. split; [reflexivity|].
  apply (@pooled_shaped b t e (fun X j => mean (column j X)) x Hx).
Qed.

(** ** Logarithms of probabilities *)

Lemma sum_map_div_R (f : R -> R) (z : R) (l : list R) :
  sum (map (fun a => (f a / z)%R) l) = (sum (map f l) / z)%R.
Proof.
  induction l as [|a l IH]; simpl.
  - unfold Rdiv. now rewrite Rmult_0_l.
  - rewrite IH. unfold Rdiv. ring.
Qed.

Lemma sum_exp_positive (row : list R) :
  row <> [] -> (0 < sum (map exp row))%R.
Proof.
  intros Hne. destruct row as [|a row]; [contradiction|]. clear Hne.
  revert a. induction row as [|c row IH]; intros a; simpl.
  - pose proof (exp_pos a). lra.
  - pose proof (exp_pos a). specialize (IH c). simpl in IH. lra.
Qed.

Lemma length_log_softmax_row (row : list R) :
  length (log_softmax_row row) = length row.
Proof. unfold log_softmax_row. apply length_map. Qed.

Lemma log_softmax_row_probabilities (row : list R) :
  row <> [] -> log_probabilities (log_softmax_row row).
Proof.
  intros Hne. pose proof (sum_exp_positive Hne) as Hz.
  unfold log_probabilities, log_softmax_row. rewrite map_map.
  rewrite (map_ext _ (fun a => (exp a / sum (map exp row))%R)).
  - rewrite sum_map_div_R. field. lra.
  - intros a. unfold Rminus. rewrite exp_plus, exp_Ropp, exp_ln by assumption.
    reflexivity.
Qed.

(** ** Stacks of blocks *)

Lemma nn_Dropout_inv (q : R) (d : Dropout) :
  nn_Dropout q = Ok d -> p d = q /\ (0 <= q <= 1)%R.
Proof.
  unfold nn_Dropout. destruct (Rlt_dec q 0); [discriminate|].
  destruct (Rlt_dec 1 q); [discriminate|]. intros [= <-]. cbn. lra.
Qed.

Lemma collect_inv (A : Type) (l : list (result A)) (out : list A) :
  collect l = Ok out -> Forall2 (fun r a => r = Ok a) l out.
Proof.
  revert out. induction l as [|r l IH]; intros out H; simpl in H.
  - injection H as <-. constructor.
  - destruct r as [a|err]; [|discriminate]. cbn [bind] in H.
    destruct (collect l) as [rest|err]; [|discriminate]. cbn [bind] in H.
    injection H as <-. constructor; auto.
Qed.

Lemma collect_all_ok (A : Type) (l : list (result A)) :
  Forall (fun r => exists a, r = Ok a) l -> exists out, collect l = Ok out.
Proof.
  induction 1 as [|r l [a ->] _ [rest IH]]; simpl.
  - eexists; reflexivity.
  - rewrite IH. cbn [bind]. eexists; reflexivity.
Qed.

Lemma collect_map_inv (A B : Type) (f : A -> result B) (l : list A)
  (out : list B) :
  collect (map f l) = Ok out ->
  length out = length l /\ Forall (fun blk => exists i, In i l /\ f i = Ok blk) out.
Proof.
  intros H. apply collect_inv in H. remember (map f l) as rs eqn:Hrs.
  revert l Hrs. induction H as [|r a rs out Hr _ IH]; intros l Hrs.
  - destruct l; [|discriminate]. split; [reflexivity|constructor].
  - destruct l as [|i l]; [discriminate|]. injection Hrs as -> ->.
    destruct (IH l eq_refl) as [Hl HF]. split; [simpl; lia|].
    constructor.
    + exists i. split; [now left|assumption].
    + eapply Forall_impl; [|exact HF]. intros blk (j & Hj & Hblk).
      exists j. split; [now right|assumption].
Qed.

Lemma made_blocks (e h : nat) (mask : bool) (seq_length : Z) (dropout : R)
  (rnd : nat -> nat -> nat -> nat -> R) (n : nat) (blocks : list TransformerBlock.t) :
  collect (map (fun i => TransformerBlock.init (Z.of_nat e) (Z.of_nat h) mask
                           seq_length 4 dropout (rnd (3 + i))) (seq 0 n))
  = Ok blocks ->
  length blocks = n /\ wf_stack e h blocks /\
  Forall (fun blk => SelfAttention.mask (TransformerBlock.attention blk) = mask /\
                     p (TransformerBlock.do_ blk) = dropout) blocks.
Proof.
  intros H. apply collect_map_inv in H. destruct H as [Hl HF].
  rewrite length_seq in Hl. split; [assumption|]. split.
  - eapply Forall_impl; [|exact HF]. intros blk (i & _ & Hblk).
    apply TransformerBlock_init_wf in Hblk.
    destruct Hblk as (Hwf & He & Hh). split_all; auto.
  - eapply Forall_impl; [|exact HF]. intros blk (i & _ & Hblk).
    apply TransformerBlock_init_inv in Hblk.
    destruct Hblk as (Ha & _ & _ & _ & _ & _ & Hd).
    apply SelfAttention_init_inv in Ha. destruct Ha as (_ & _ & Hm & _).
    apply nn_Dropout_inv in Hd. split; [assumption|apply Hd].
Qed.

Lemma Sequential_shaped (e h b t : nat) (blocks : list TransformerBlock.t)
  (training : bool) (noise : nat -> nat -> bool) (call : nat) (x : tensor R) :
  wf_stack e h blocks -> shaped [b; t; e] x ->
  exists y, Sequential_forward blocks training noise call x = Ok y
            /\ shaped [b; t; e] y.
Proof.
  intros Hst. revert call x.
  induction Hst as [|blk rest (Hwf & He & Hh) _ IH]; intros call x Hx; simpl.
  - now exists x.
  - destruct (@block_forward_spec blk Hwf b t e h He Hh training (noise call)
                (noise (call + 1)) x Hx) as (att & _ & _ & -> & Hy).
    cbn [bind]. now apply IH.
Qed.

Lemma Sequential_wrong_width (blk : TransformerBlock.t)
  (rest : list TransformerBlock.t) (training : bool) (noise : nat -> nat -> bool)
  (call b t e : nat) (x : tensor R) :
  size x = [b; t; e] ->
  Z.of_nat e <> SelfAttention.emb (TransformerBlock.attention blk) ->
  Sequential_forward (blk :: rest) training noise call x = Err AssertionError.
Proof.
  intros Hx Hne. cbn [Sequential_forward]. unfold TransformerBlock.forward.
  now rewrite (@forward_emb_mismatch _ b t e x Hx Hne).
Qed.

Lemma stack_sequence_uniform (blocks : list TransformerBlock.t) (t e h : nat)
  (X : list (list R)) :
  wf_stack e h blocks -> uniform2 t e X ->
  uniform2 t e (stack_sequence blocks t e h X).
Proof.
  intros Hst. revert X. unfold stack_sequence.
  induction Hst as [|blk rest (Hwf & He & Hh) _ IH]; intros X HX; simpl; auto.
  apply IH. now apply block_sequence_uniform.
Qed.

Lemma Sequential_nested (e h b t : nat) (blocks : list TransformerBlock.t)
  (training : bool) (noise : nat -> nat -> bool) (call : nat)
  (M : list (list (list R))) :
  wf_stack e h blocks ->
  Forall (fun blk => dropout_off (TransformerBlock.do_ blk) training) blocks ->
  uniform3 b t e M ->
  Sequential_forward blocks training noise call (Tensor [b; t; e] (flat3 M))
  = Ok (Tensor [b; t; e] (flat3 (map (stack_sequence blocks t e h) M)))
  /\ uniform3 b t e (map (stack_sequence blocks t e h) M).
Proof.
  intros Hst Hdo HM. split.
  2:{ apply uniform3_map_sequences with (t := t) (e := e); auto.
      intros X HX. now apply stack_sequence_uniform. }
  revert call M HM Hdo.
  induction Hst as [|blk rest (Hwf & He & Hh) _ IH]; intros call M HM Hdo.
  - cbn [Sequential_forward]. unfold stack_sequence. cbn [fold_left].
    now rewrite map_id.
  - inversion Hdo as [|? ? Hd Hdr]; subst.
    cbn [Sequential_forward].
    destruct (@block_nested blk b t e h training (noise call) (noise (call + 1))
                M Hwf He Hh Hd HM) as [-> HM1].
    cbn [bind]. rewrite (IH _ _ HM1 Hdr). now rewrite map_map.
Qed.

Lemma stack_sequence_prefix (blocks : list TransformerBlock.t) (t e h k : nat)
  (X : list (list R)) :
  wf_stack e h blocks ->
  Forall (fun blk => SelfAttention.mask (TransformerBlock.attention blk) = true)
         blocks ->
  uniform2 t e X -> k <= t ->
  stack_sequence blocks k e h (firstn k X)
  = firstn k (stack_sequence blocks t e h X).
Proof.
  intros Hst Hmask HX Hk. revert X HX Hmask. unfold stack_sequence.
  induction Hst as [|blk rest (Hwf & He & Hh) _ IH]; intros X HX Hmask.
  - reflexivity.
  - inversion Hmask as [|? ? Hm Hmr]; subst. cbn [fold_left].
    rewrite (@block_sequence_prefix blk t e h k X Hwf Hm He Hh HX Hk).
    apply IH; auto. now apply block_sequence_uniform.
Qed.

Lemma Sequential_without_dropout (blocks : list TransformerBlock.t)
  (training training' : bool) (noise noise' : nat -> nat -> bool)
  (call call' : nat) (x : tensor R) :
  Forall (fun blk => p (TransformerBlock.do_ blk) = 0%R) blocks ->
  Sequential_forward blocks training noise call x
  = Sequential_forward blocks training' noise' call' x.
Proof.
  intros Hp. revert call call' x.
  induction Hp as [|blk rest Hblk _ IH]; intros call call' x; [reflexivity|].
  cbn [Sequential_forward].
  assert (TransformerBlock.forward blk training (noise call) (noise (call + 1)) x
          = TransformerBlock.forward blk training' (noise' call')
              (noise' (call' + 1)) x) as ->.
  { unfold TransformerBlock.forward.
    destruct (SelfAttention.forward (TransformerBlock.attention blk) x)
      as [att|err]; [|reflexivity]. cbn [bind].
    destruct (tadd att x) as [s|err]; [|reflexivity]. cbn [bind].
    destruct (LayerNorm_forward (TransformerBlock.norm1 blk) s)
      as [x1|err]; [|reflexivity]. cbn [bind].
    rewrite !(Dropout_zero _ _ _ _ Hblk).
    destruct (TransformerBlock.ff_forward (TransformerBlock.ff blk) x1)
      as [fed|err]; [|reflexivity]. cbn [bind].
    destruct (tadd fed x1) as [s2|err]; [|reflexivity]. cbn [bind].
    destruct (LayerNorm_forward (TransformerBlock.norm2 blk) s2)
      as [x2|err]; [|reflexivity]. cbn [bind].
    now rewrite !(Dropout_zero _ _ _ _ Hblk). }
  destruct (TransformerBlock.forward blk training' (noise' call')
              (noise' (call' + 1)) x); [|reflexivity].
  cbn [bind]. apply IH.
Qed.

(** ** Token tensors *)

Lemma shaped_as_rows (A : Type) (b t : nat) (x : tensor A) :
  shaped [b; t] x ->
  exists T, uniform2 b t T /\ x = Tensor [b; t] (concat T).
Proof.
  intros [Hs Hl]. exists (split_n b t (storage x)).
  assert (length (storage x) = b * t) as Hlen by (rewrite Hl; simpl; lia).
  split; [now apply split_uniform2|].
  apply tensor_eq; [assumption|]. cbn [storage]. now rewrite concat_split_n.
Qed.

Lemma take_tokens_rows (A : Type) (k b t : nat) (T : list (list A)) :
  uniform2 b t T ->
  take_tokens k (Tensor [b; t] (concat T))
  = Tensor [b; Nat.min k t] (concat (map (firstn (Nat.min k t)) T))
  /\ uniform2 b (Nat.min k t) (map (firstn (Nat.min k t)) T).
Proof.
  intros HT. split.
  - unfold take_tokens. cbn [size storage]. f_equal.
    rewrite (uniform2_split HT). f_equal. apply map_ext_in. intros r Hr.
    destruct HT as [_ HF]. rewrite Forall_forall in HF.
    rewrite (firstn_min_length k r). now rewrite (HF r Hr).
  - destruct HT as [Hl HF]. split; [now rewrite length_map|].
    apply Forall_map_length. intros r Hr. rewrite Forall_forall in HF.
    rewrite length_firstn, (HF r Hr). lia.
Qed.

(** * [GTransformer] *)

Lemma GTransformer_init_inv (e h L V : nat) (depth : Z)
  (rnd : nat -> nat -> nat -> nat -> R) (g : GTransformer.t) :
  GTransformer.init (Z.of_nat e) (Z.of_nat h) depth (Z.of_nat L) (Z.of_nat V) rnd
  = Ok g ->
  GTransformer.num_tokens g = Z.of_nat V /\
  wf_Embedding (GTransformer.token_embedding g) /\
  num_embeddings (GTransformer.token_embedding g) = V /\
  embedding_dim (GTransformer.token_embedding g) = e /\
  wf_Embedding (GTransformer.pos_embedding g) /\
  num_embeddings (GTransformer.pos_embedding g) = L /\
  embedding_dim (GTransformer.pos_embedding g) = e /\
  length (GTransformer.tblocks g) = Z.to_nat depth /\
  wf_stack e h (GTransformer.tblocks g) /\
  Forall (fun blk => SelfAttention.mask (TransformerBlock.attention blk) = true /\
                     p (TransformerBlock.do_ blk) = 0%R)
         (GTransformer.tblocks g) /\
  wf_Linear (GTransformer.toprobs g) /\
  in_features (GTransformer.toprobs g) = e /\
  out_features (GTransformer.toprobs g) = V.
Proof.
  unfold GTransformer.init. intros H.
  apply bind_Ok in H. destruct H as (tok & Htok & H).
  apply bind_Ok in H. destruct H as (pos & Hpos & H).
  apply bind_Ok in H. destruct H as (blocks & Hblocks & H).
  apply bind_Ok in H. destruct H as (lin & Hlin & H).
  injection H as <-. cbn.
  apply nn_Embedding_inv in Htok. destruct Htok as (_ & _ & Htw & Htn & Htd).
  apply nn_Embedding_inv in Hpos. destruct Hpos as (_ & _ & Hpw & Hpn & Hpd).
  apply made_blocks in Hblocks. destruct Hblocks as (Hbl & Hbw & Hbm).
  apply nn_Linear_inv in Hlin. destruct Hlin as (_ & _ & Hlw & Hli & Hlo & _).
  rewrite Nat2Z.id in *. split_all; auto.
Qed.

Lemma readout_nested (l : Linear) (b t e : nat) (V : Z)
  (M : list (list (list R))) :
  wf_Linear l -> in_features l = e -> Z.of_nat (out_features l) = V ->
  uniform3 b t e M ->
  (x <- view (Tensor [b; t; e] (flat3 M)) [(Z.of_nat b * Z.of_nat t)%Z; Z.of_nat e] ;;
   x <- Linear_forward l x ;;
   x <- view x [Z.of_nat b; Z.of_nat t; V] ;;
   log_softmax_dim2 x)
  = Ok (Tensor [b; t; out_features l]
          (flat3 (map (map (fun v => log_softmax_row (linear_row l v))) M)))
  /\ uniform3 b t (out_features l)
       (map (map (fun v => log_softmax_row (linear_row l v))) M).
Proof.
  intros Hl Hi Ho HM.
  assert (uniform3 b t (out_features l) (map (map (linear_row l)) M)) as HM1.
  { apply uniform3_map_rows with (e := e); auto.
    intros v _. now apply length_linear_row. }
  assert (uniform3 b t (out_features l)
            (map (map log_softmax_row) (map (map (linear_row l)) M))) as HM2.
  { apply uniform3_map_rows with (e := out_features l); auto.
    intros v Hv. now rewrite length_log_softmax_row. }
  assert (map (map log_softmax_row) (map (map (linear_row l)) M)
          = map (map (fun v => log_softmax_row (linear_row l v))) M) as Heq.
  { rewrite map_map. apply map_ext. intros X. now rewrite map_map. }
  rewrite <- Heq. split; auto.
  rewrite view_storage.
  2:{ repeat constructor; lia. }
  2:{ cbn [map size]. rewrite <- Nat2Z.inj_mul, !Nat2Z.id. simpl. lia. }
  cbn [bind map storage]. rewrite <- Nat2Z.inj_mul, !Nat2Z.id.
  destruct (@Linear_forward_shaped l [b * t] (Tensor [b * t; e] (flat3 M)) Hl)
    as (y & -> & Hy & Hyst).
  { rewrite Hi. split; [reflexivity|]. cbn [storage].
    rewrite (length_flat3 HM). simpl. lia. }
  cbn [bind]. rewrite view_storage.
  2:{ subst V. repeat constructor; lia. }
  2:{ subst V. cbn [map]. rewrite !Nat2Z.id. rewrite (proj1 Hy). simpl. lia. }
  cbn [bind map]. subst V. rewrite !Nat2Z.id.
  rewrite Hyst. cbn [storage numel fold_right]. rewrite Nat.mul_1_r, Hi.
  rewrite (uniform3_rows HM), flat3_map_rows.
  unfold log_softmax_dim2. cbn [size].
  destruct (@rowwise_nested _ _ b t (out_features l) (out_features l)
              log_softmax_row (map (map (linear_row l)) M)) as [-> _]; auto.
  intros v Hv. now rewrite length_log_softmax_row.
Qed.

Section Generator.

Variables e h L V : nat.
Variable depth : Z.
Variable rnd : nat -> nat -> nat -> nat -> R.
Variable g : GTransformer.t.
Hypothesis Hinit :
  GTransformer.init (Z.of_nat e) (Z.of_nat h) depth (Z.of_nat L) (Z.of_nat V) rnd
  = Ok g.

Lemma GTransformer_nested (training : bool) (noise : nat -> nat -> bool)
  (b t : nat) (T : list (list Z)) :
  uniform2 b t T ->
  Forall (Forall (fun i => (0 <= i < Z.of_nat V)%Z)) T -> t <= L ->
  GTransformer.forward g training noise (Tensor [b; t] (concat T))
  = Ok (Tensor [b; t; V] (flat3 (map (generated_sequence g t e h) T)))
  /\ uniform3 b t V (map (generated_sequence g t e h) T).
Proof.
  intros HT Hin Ht.
  destruct (GTransformer_init_inv _ _ _ _ _ _ Hinit)
    as (Hnt & Htw & Htn & Htd & Hpw & Hpn & Hpd & _ & Hst & Hmp & Hlw & Hli & Hlo).
  assert (Forall (Forall (in_vocabulary (GTransformer.token_embedding g))) T)
    as Hin'.
  { unfold in_vocabulary. now rewrite Htn. }
  unfold GTransformer.forward.
  destruct (Embedding_nested Htw HT Hin') as [-> HM0]. cbn [bind size].
  rewrite Htd in *.
  rewrite positions_embedded by lia. cbn [bind]. rewrite Hpd.
  unfold index_None. cbn [size storage bind].
  assert (uniform2 t e (position_rows (GTransformer.pos_embedding g) t)) as HP.
  { rewrite <- Hpd. apply position_rows_uniform; auto. lia. }
  rewrite (expand_batch b HP). cbn [bind].
  destruct (tadd_nested HM0 (uniform3_repeat b HP)) as [-> HM1]. cbn [bind].
  assert (Forall (fun blk => dropout_off (TransformerBlock.do_ blk) training)
            (GTransformer.tblocks g)) as Hdo.
  { eapply Forall_impl; [|exact Hmp]. intros blk [_ Hp]. now right. }
  destruct (@Sequential_nested e h b t _ training noise 0 _ Hst Hdo HM1)
    as [-> HM2]. cbn [bind].
  assert (Z.of_nat (out_features (GTransformer.toprobs g))
          = GTransformer.num_tokens g) as Hlo' by (rewrite Hlo; auto).
  destruct (@readout_nested (GTransformer.toprobs g) b t e
              (GTransformer.num_tokens g) _ Hlw Hli Hlo' HM2) as [-> HM3].
  rewrite Hlo in *.
  assert (map (map (fun v => log_softmax_row (linear_row (GTransformer.toprobs g) v)))
            (map (stack_sequence (GTransformer.tblocks g) t e h)
               (zipWith residual
                  (map (map (lookup (GTransformer.token_embedding g))) T)
                  (repeat (position_rows (GTransformer.pos_embedding g) t) b)))
          = map (generated_sequence g t e h) T) as Heq.
  { destruct HT as [HTl _]. rewrite <- HTl at 1.
    rewrite <- (length_map (map (lookup (GTransformer.token_embedding g))) T).
    rewrite zipWith_repeat_r. rewrite !map_map. reflexivity. }
  rewrite Heq in *. split; auto.
Qed.

Lemma generated_sequence_prefix (t k : nat) (toks : list Z) :
  length toks = t -> Forall (fun i => (0 <= i < Z.of_nat V)%Z) toks ->
  t <= L -> k <= t ->
  generated_sequence g k e h (firstn k toks)
  = firstn k (generated_sequence g t e h toks).
Proof.
  intros Hl Hin Ht Hk.
  destruct (GTransformer_init_inv _ _ _ _ _ _ Hinit)
    as (Hnt & Htw & Htn & Htd & Hpw & Hpn & Hpd & _ & Hst & Hmp & Hlw & Hli & Hlo).
  unfold generated_sequence. rewrite firstn_map. f_equal.
  assert (position_rows (GTransformer.pos_embedding g) k
          = firstn k (position_rows (GTransformer.pos_embedding g) t)) as ->.
  { unfold position_rows. now rewrite firstn_map, firstn_seq. }
  unfold residual at 1. rewrite <- firstn_map, <- firstn_zipWith.
  apply stack_sequence_prefix; auto.
  - eapply Forall_impl; [|exact Hmp]. now intros blk [Hm _].
  - apply residual_uniform.
    + split; [now rewrite length_map|].
      apply Forall_map_length. intros i Hi. rewrite <- Htd.
      apply length_lookup; auto. unfold in_vocabulary. rewrite Htn.
      rewrite Forall_forall in Hin. auto.
    + rewrite <- Hpd. apply position_rows_uniform; auto. lia.
Qed.

Lemma GTransformer_forward_inv (training : bool) (noise : nat -> nat -> bool)
  (b t : nat) (x : tensor Z) (y : tensor R) :
  size x = [b; t] ->
  GTransformer.forward g training noise x = Ok y ->
  Forall (fun i => (0 <= i < Z.of_nat V)%Z) (storage x) /\ t <= L.
Proof.
  intros Hx Hy.
  destruct (GTransformer_init_inv _ _ _ _ _ _ Hinit)
    as (Hnt & Htw & Htn & Htd & Hpw & Hpn & Hpd & _).
  unfold GTransformer.forward in Hy. unfold Embedding_forward at 1 in Hy.
  destruct (forallb _ (storage x)) eqn:Hf; [|discriminate].
  apply in_vocabulary_forallb in Hf. unfold in_vocabulary in Hf.
  rewrite Htn in Hf. split; [assumption|].
  cbn [bind size] in Hy. rewrite Hx in Hy. cbn [app] in Hy.
  destruct (Nat.le_gt_cases t L) as [|Hgt]; [assumption|].
  rewrite positions_too_long in Hy by lia. discriminate.
Qed.

End Generator.

(** * The pooled models *)

Lemma log_softmax_dim1_shaped (b k : nat) (x : tensor R) :
  shaped [b; k] x ->
  exists y, log_softmax_dim1 x = Ok y /\ shaped [b; k] y /\
            split_n b k (storage y)
            = map log_softmax_row (split_n b k (storage x)).
Proof.
  intros Hx. unfold log_softmax_dim1. rewrite (proj1 Hx).
  destruct (@rowwise_shaped _ _ [b] k k log_softmax_row x Hx)
    as (y & -> & Hy & Hst).
  { intros v Hv. now rewrite length_log_softmax_row. }
  exists y. split_all; auto; try apply Hy.
  rewrite Hst. cbn [numel fold_right]. rewrite Nat.mul_1_r.
  apply split_n_concat_map.
  - apply length_split_n.
  - intros row Hrow. rewrite length_log_softmax_row.
    assert (length (storage x) = b * k) as Hl.
    { rewrite (proj2 Hx). simpl. lia. }
    pose proof (split_n_lengths b k (storage x) Hl) as HF.
    rewrite Forall_forall in HF. auto.
Qed.

Lemma log_softmax_dim1_rows (b k : nat) (x y : tensor R) :
  shaped [b; k] x -> 0 < k -> log_softmax_dim1 x = Ok y ->
  shaped [b; k] y /\ Forall log_probabilities (split_n b k (storage y)).
Proof.
  intros Hx Hk Hy.
  destruct (log_softmax_dim1_shaped Hx) as (y' & Hy' & Hs & Hrows).
  rewrite Hy in Hy'. injection Hy' as <-. split; [assumption|].
  rewrite Hrows. apply Forall_forall. intros r Hr. apply in_map_iff in Hr.
  destruct Hr as (row & <- & Hrow).
  apply log_softmax_row_probabilities.
  assert (length (storage x) = b * k) as Hl.
  { rewrite (proj2 Hx). simpl. lia. }
  pose proof (split_n_lengths b k (storage x) Hl) as HF.
  rewrite Forall_forall in HF. specialize (HF row Hrow).
  destruct row; [simpl in HF; lia|discriminate].
Qed.

Lemma pool_shaped (mp : bool) (b t e : nat) (z : tensor R) :
  shaped [b; t; e] z -> (mp = true -> 0 < t) ->
  exists y, (if mp then max_dim1 z else mean_dim1 z) = Ok y /\ shaped [b; e] y.
Proof.
  intros Hz Hmp. destruct mp.
  - apply max_dim1_shaped with (t := t); auto.
  - now apply mean_dim1_shaped with (t := t).
Qed.

Lemma pool_empty (b e : nat) (z : tensor R) :
  size z = [b; 0; e] ->
  (if true then max_dim1 z else mean_dim1 z) = Err RuntimeError.
Proof. intros Hz. now apply max_dim1_empty with (b := b) (e := e). Qed.

Lemma pooled_body_ok (B : Type) (pos : Embedding)
  (blocks : list TransformerBlock.t) (d : Dropout) (mp : bool) (F h L : nat)
  (training : bool) (noise : nat -> nat -> bool) (b t e : nat) (x : tensor R)
  (k : tensor R -> result B) :
  wf_Embedding pos -> embedding_dim pos = F -> num_embeddings pos = L ->
  wf_stack F h blocks -> shaped [b; t; e] x ->
  t <= L -> e = F \/ (F = 1 /\ blocks = []) -> (mp = true -> 0 < t) ->
  exists z, shaped [b; e] z /\
            pooled_body pos blocks d mp training noise b t e x k = k z.
Proof.
  intros Hpw Hpd Hpn Hst Hx Ht Hw Hmp. unfold pooled_body.
  rewrite positions_embedded by lia. cbn [bind]. rewrite Hpd.
  unfold index_None. cbn [size storage bind].
  assert (uniform2 t F (position_rows pos t)) as HP.
  { rewrite <- Hpd. apply position_rows_uniform; auto. lia. }
  assert (exists ps, expand (Tensor [1; t; F] (concat (position_rows pos t))) b t e
                     = Ok ps /\ shaped [b; t; e] ps) as (ps & -> & Hps).
  { destruct Hw as [-> | [-> _]].
    - rewrite (expand_batch b HP). eexists. split; [reflexivity|].
      split; [reflexivity|]. cbn [storage].
      rewrite (length_flat3 (uniform3_repeat b HP)). simpl. lia.
    - apply expand_feature. exact HP. }
  cbn [bind].
  destruct (tadd_shaped Hx Hps) as (s & -> & Hs & _). cbn [bind].
  pose proof (shaped_Dropout d training (noise 0) Hs) as Hdx.
  assert (exists y, Sequential_forward blocks training noise 1
                      (Dropout_forward d training (noise 0) s) = Ok y
                    /\ shaped [b; t; e] y) as (y & -> & Hy).
  { destruct Hw as [-> | [_ ->]].
    - now apply Sequential_shaped with (h := h).
    - eexists. split; [reflexivity|assumption]. }
  cbn [bind].
  destruct (@pool_shaped mp b t e y Hy Hmp) as (z & -> & Hz). cbn [bind].
  now exists z.
Qed.

Lemma pooled_body_fails (B : Type) (pos : Embedding)
  (blocks : list TransformerBlock.t) (d : Dropout) (mp : bool) (F h L : nat)
  (training : bool) (noise : nat -> nat -> bool) (b t e : nat) (x : tensor R)
  (k : tensor R -> result B) :
  wf_Embedding pos -> embedding_dim pos = F -> num_embeddings pos = L ->
  wf_stack F h blocks -> shaped [b; t; e] x ->
  ~ (t <= L /\ (e = F \/ (F = 1 /\ blocks = [])) /\ (mp = true -> 0 < t)) ->
  exists err, pooled_body pos blocks d mp training noise b t e x k = Err err.
Proof.
  intros Hpw Hpd Hpn Hst Hx Hnot. unfold pooled_body.
  destruct (Nat.le_gt_cases t L) as [Ht|Ht].
  2:{ rewrite positions_too_long by lia. eexists; reflexivity. }
  rewrite positions_embedded by lia. cbn [bind]. rewrite Hpd.
  unfold index_None. cbn [size storage bind].
  assert (uniform2 t F (position_rows pos t)) as HP.
  { rewrite <- Hpd. apply position_rows_uniform; auto. lia. }
  assert (e = F \/ (F = 1 /\ blocks = []) -> mp = true /\ t = 0) as Hpool.
  { intros Hw. destruct mp.
    - split; [reflexivity|]. destruct t; [reflexivity|].
      exfalso. apply Hnot. split_all; auto. lia.
    - exfalso. apply Hnot. split_all; auto. discriminate. }
  destruct (Nat.eq_dec e F) as [HeF|HeF].
  - destruct (Hpool (or_introl HeF)) as [-> ->]. subst e.
    rewrite (expand_batch b HP). cbn [bind].
    assert (shaped [b; 0; F]
              (Tensor [b; 0; F] (flat3 (repeat (position_rows pos 0) b)))) as Hps.
    { split; [reflexivity|]. cbn [storage].
      rewrite (length_flat3 (uniform3_repeat b HP)). simpl. lia. }
    destruct (tadd_shaped Hx Hps) as (s & -> & Hs & _). cbn [bind].
    pose proof (shaped_Dropout d training (noise 0) Hs) as Hdx.
    destruct (@Sequential_shaped F h b 0 blocks training noise 1 _ Hst Hdx)
      as (y & -> & Hy).
    cbn [bind]. rewrite (@pool_empty b F y (proj1 Hy)). eexists; reflexivity.
  - destruct (Nat.eq_dec F 1) as [HF1|HF1].
    2:{ rewrite expand_refused by auto. eexists; reflexivity. }
    rewrite HF1 in *.
    destruct (expand_feature b e HP) as (ps & -> & Hps). cbn [bind].
    destruct (tadd_shaped Hx Hps) as (s & -> & Hs & _). cbn [bind].
    pose proof (shaped_Dropout d training (noise 0) Hs) as Hdx.
    destruct blocks as [|blk rest].
    + cbn [Sequential_forward bind].
      destruct Hpool as [-> ->]; [right; auto|].
      rewrite (@pool_empty b e _ (proj1 Hdx)). eexists; reflexivity.
    + inversion Hst as [|? ? (_ & He1 & _) _]; subst.
      rewrite (@Sequential_wrong_width blk rest training noise 1 b t e _
                 (proj1 Hdx)) by lia.
      eexists; reflexivity.
Qed.

(** ** What the constructors build *)

Lemma nn_Dropout_in_range (q : R) :
  (0 <= q <= 1)%R -> exists d, nn_Dropout q = Ok d.
Proof.
  intros Hq. unfold nn_Dropout. destruct (Rlt_dec q 0); [lra|].
  destruct (Rlt_dec 1 q); [lra|]. eexists; reflexivity.
Qed.

Lemma blocks_made (e h : nat) (mask : bool) (seq_length : Z) (dropout : R)
  (rnd : nat -> nat -> nat -> nat -> R) (n : nat) :
  (0 <= dropout <= 1)%R ->
  exists blocks,
    collect (map (fun i => TransformerBlock.init (Z.of_nat e) (Z.of_nat h) mask
                             seq_length 4 dropout (rnd (3 + i))) (seq 0 n))
    = Ok blocks.
Proof.
  intros Hq. apply collect_all_ok. apply Forall_forall. intros r Hr.
  apply in_map_iff in Hr. destruct Hr as (i & <- & _).
  apply TransformerBlock_init_nonneg; auto; lia.
Qed.

Lemma GTransformer_init_nonneg (e h L V : nat) (depth : Z)
  (rnd : nat -> nat -> nat -> nat -> R) :
  exists g, GTransformer.init (Z.of_nat e) (Z.of_nat h) depth (Z.of_nat L)
              (Z.of_nat V) rnd = Ok g.
Proof.
  unfold GTransformer.init.
  destruct (@nn_Embedding_nonneg (Z.of_nat e) (Z.of_nat V) (rnd 0 0))
    as [tok ->]; try lia.
  destruct (@nn_Embedding_nonneg (Z.of_nat e) (Z.of_nat L) (rnd 1 0))
    as [pos ->]; try lia.
  cbn [bind].
  destruct (@blocks_made e h true (Z.of_nat L) 0 rnd (Z.to_nat depth))
    as [blocks ->]; [lra|].
  destruct (@nn_Linear_nonneg (Z.of_nat e) (Z.of_nat V) true (rnd 2 0) (rnd 2 1 0))
    as [lin ->]; try lia.
  cbn [bind]. eexists; reflexivity.
Qed.

Lemma CTransformer_init_inv (e h L V C : nat) (depth : Z) (mp : bool)
  (dropout : R) (rnd : nat -> nat -> nat -> nat -> R) (c : CTransformer.t) :
  CTransformer.init (Z.of_nat e) (Z.of_nat h) depth (Z.of_nat L) (Z.of_nat V)
    (Z.of_nat C) mp dropout rnd = Ok c ->
  CTransformer.max_pool c = mp /\
  wf_Embedding (CTransformer.token_embedding c) /\
  num_embeddings (CTransformer.token_embedding c) = V /\
  embedding_dim (CTransformer.token_embedding c) = e /\
  wf_Embedding (CTransformer.pos_embedding c) /\
  num_embeddings (CTransformer.pos_embedding c) = L /\
  embedding_dim (CTransformer.pos_embedding c) = e /\
  length (CTransformer.tblocks c) = Z.to_nat depth /\
  wf_stack e h (CTransformer.tblocks c) /\
  wf_Linear (CTransformer.toprobs c) /\
  in_features (CTransformer.toprobs c) = e /\
  out_features (CTransformer.toprobs c) = C.
Proof.
  unfold CTransformer.init. intros H.
  apply bind_Ok in H. destruct H as (tok & Htok & H).
  apply bind_Ok in H. destruct H as (pos & Hpos & H).
  apply bind_Ok in H. destruct H as (blocks & Hblocks & H).
  apply bind_Ok in H. destruct H as (lin & Hlin & H).
  apply bind_Ok in H. destruct H as (dr & Hdr & H).
  injection H as <-. cbn.
  apply nn_Embedding_inv in Htok. destruct Htok as (_ & _ & Htw & Htn & Htd).
  apply nn_Embedding_inv in Hpos. destruct Hpos as (_ & _ & Hpw & Hpn & Hpd).
  apply made_blocks in Hblocks. destruct Hblocks as (Hbl & Hbw & Hbm).
  apply nn_Linear_inv in Hlin. destruct Hlin as (_ & _ & Hlw & Hli & Hlo & _).
  rewrite Nat2Z.id in *. split_all; auto.
Qed.

Lemma CTransformer_init_nonneg (e h L V C : nat) (depth : Z) (mp : bool)
  (dropout : R) (rnd : nat -> nat -> nat -> nat -> R) :
  (0 <= dropout <= 1)%R ->
  exists c, CTransformer.init (Z.of_nat e) (Z.of_nat h) depth (Z.of_nat L)
              (Z.of_nat V) (Z.of_nat C) mp dropout rnd = Ok c.
Proof.
  intros Hq. unfold CTransformer.init.
  destruct (@nn_Embedding_nonneg (Z.of_nat e) (Z.of_nat V) (rnd 0 0))
    as [tok ->]; try lia.
  destruct (@nn_Embedding_nonneg (Z.of_nat e) (Z.of_nat L) (rnd 1 0))
    as [pos ->]; try lia.
  cbn [bind].
  destruct (@blocks_made e h false (Z.of_nat L) dropout rnd (Z.to_nat depth) Hq)
    as [blocks ->].
  destruct (@nn_Linear_nonneg (Z.of_nat e) (Z.of_nat C) true (rnd 2 0) (rnd 2 1 0))
    as [lin ->]; try lia.
  destruct (nn_Dropout_in_range Hq) as [dr ->].
  cbn [bind]. eexists; reflexivity.
Qed.

Lemma TSTransformer_init_inv (f h L C : nat) (depth : Z) (mp : bool)
  (dropout : R) (rnd : nat -> nat -> nat -> nat -> R) (m : TSTransformer.t) :
  TSTransformer.init (Z.of_nat f) (Z.of_nat h) depth (Z.of_nat L) (Z.of_nat C)
    mp dropout rnd = Ok m ->
  TSTransformer.max_pool m = mp /\
  wf_Embedding (TSTransformer.pos_embedding m) /\
  num_embeddings (TSTransformer.pos_embedding m) = L /\
  embedding_dim (TSTransformer.pos_embedding m) = f /\
  length (TSTransformer.tblocks m) = Z.to_nat depth /\
  wf_stack f h (TSTransformer.tblocks m) /\
  wf_Linear (TSTransformer.toprobs m) /\
  in_features (TSTransformer.toprobs m) = f /\
  out_features (TSTransformer.toprobs m) = C.
Proof.
  unfold TSTransformer.init. intros H.
  apply bind_Ok in H. destruct H as (pos & Hpos & H).
  apply bind_Ok in H. destruct H as (blocks & Hblocks & H).
  apply bind_Ok in H. destruct H as (lin & Hlin & H).
  apply bind_Ok in H. destruct H as (dr & Hdr & H).
  injection H as <-. cbn.
  apply nn_Embedding_inv in Hpos. destruct Hpos as (_ & _ & Hpw & Hpn & Hpd).
  apply made_blocks in Hblocks. destruct Hblocks as (Hbl & Hbw & Hbm).
  apply nn_Linear_inv in Hlin. destruct Hlin as (_ & _ & Hlw & Hli & Hlo & _).
  rewrite Nat2Z.id in *. split_all; auto.
Qed.

Lemma TSTransformer_init_nonneg (f h L C : nat) (depth : Z) (mp : bool)
  (dropout : R) (rnd : nat -> nat -> nat -> nat -> R) :
  (0 <= dropout <= 1)%R ->
  exists m, TSTransformer.init (Z.of_nat f) (Z.of_nat h) depth (Z.of_nat L)
              (Z.of_nat C) mp dropout rnd = Ok m.
Proof.
  intros Hq. unfold TSTransformer.init.
  destruct (@nn_Embedding_nonneg (Z.of_nat f) (Z.of_nat L) (rnd 1 0))
    as [pos ->]; try lia.
  cbn [bind].
  destruct (@blocks_made f h true (Z.of_nat L) dropout rnd (Z.to_nat depth) Hq)
    as [blocks ->].
  destruct (@nn_Linear_nonneg (Z.of_nat f) (Z.of_nat C) true (rnd 2 0) (rnd 2 1 0))
    as [lin ->]; try lia.
  destruct (nn_Dropout_in_range Hq) as [dr ->].
  cbn [bind]. eexists; reflexivity.
Qed.

Lemma TSRegTransformer_init_inv (f h L D : nat) (depth : Z) (mp : bool)
  (dropout : R) (rnd : nat -> nat -> nat -> nat -> R) (m : TSRegTransformer.t) :
  TSRegTransformer.init (Z.of_nat f) (Z.of_nat h) depth (Z.of_nat L) (Z.of_nat D)
    mp dropout rnd = Ok m ->
  TSRegTransformer.max_pool m = mp /\
  wf_Embedding (TSRegTransformer.pos_embedding m) /\
  num_embeddings (TSRegTransformer.pos_embedding m) = L /\
  embedding_dim (TSRegTransformer.pos_embedding m) = f /\
  length (TSRegTransformer.tblocks m) = Z.to_nat depth /\
  wf_stack f h (TSRegTransformer.tblocks m) /\
  wf_Linear (TSRegTransformer.linear_output m) /\
  in_features (TSRegTransformer.linear_output m) = f /\
  out_features (TSRegTransformer.linear_output m) = D.
Proof.
  unfold TSRegTransformer.init. intros H.
  apply bind_Ok in H. destruct H as (pos & Hpos & H).
  apply bind_Ok in H. destruct H as (blocks & Hblocks & H).
  apply bind_Ok in H. destruct H as (lin & Hlin & H).
  apply bind_Ok in H. destruct H as (dr & Hdr & H).
  injection H as <-. cbn.
  apply nn_Embedding_inv in Hpos. destruct Hpos as (_ & _ & Hpw & Hpn & Hpd).
  apply made_blocks in Hblocks. destruct Hblocks as (Hbl & Hbw & Hbm).
  apply nn_Linear_inv in Hlin. destruct Hlin as (_ & _ & Hlw & Hli & Hlo & _).
  rewrite Nat2Z.id in *. split_all; auto.
Qed.

Lemma TSRegTransformer_init_nonneg (f h L D : nat) (depth : Z) (mp : bool)
  (dropout : R) (rnd : nat -> nat -> nat -> nat -> R) :
  (0 <= dropout <= 1)%R ->
  exists m, TSRegTransformer.init (Z.of_nat f) (Z.of_nat h) depth (Z.of_nat L)
              (Z.of_nat D) mp dropout rnd = Ok m.
Proof.
  intros Hq. unfold TSRegTransformer.init.
  destruct (@nn_Embedding_nonneg (Z.of_nat f) (Z.of_nat L) (rnd 1 0))
    as [pos ->]; try lia.
  cbn [bind].
  destruct (@blocks_made f h true (Z.of_nat L) dropout rnd (Z.to_nat depth) Hq)
    as [blocks ->].
  destruct (@nn_Linear_nonneg (Z.of_nat f) (Z.of_nat D) true (rnd 2 0) (rnd 2 1 0))
    as [lin ->]; try lia.
  destruct (nn_Dropout_in_range Hq) as [dr ->].
  cbn [bind]. eexists; reflexivity.
Qed.

(** ** The read-out of the pooled models *)

Lemma Linear_pooled (l : Linear) (b e : nat) (z : tensor R) :
  wf_Linear l -> in_features l = e -> shaped [b; e] z ->
  exists y, Linear_forward l z = Ok y /\ shaped [b; out_features l] y.
Proof.
  intros Hl Hi Hz. subst e.
  destruct (@Linear_forward_shaped l [b] z Hl Hz) as (y & Hy & Hs & _).
  eauto.
Qed.

Lemma Linear_wrong_width (l : Linear) (b e : nat) (z : tensor R) :
  in_features l <> e -> size z = [b; e] ->
  Linear_forward l z = Err RuntimeError.
Proof.
  intros Hne Hz. unfold Linear_forward.
  apply (@rowwise_mismatch _ _ [b] e); auto.
Qed.

(** * Construction of the generator *)

Lemma collect_first_error (A : Type) (l : list (result A)) (err : error) :
  l <> [] -> Forall (fun r => r = Err err) l -> collect l = Err err.
Proof.
  intros Hne HF. destruct l as [|r l]; [contradiction|].
  inversion HF; subst. reflexivity.
Qed.

(** [GTransformer.__init__] checks nothing itself: it raises exactly when
    the library refuses to allocate a parameter, that is when [emb],
    [num_tokens] or [seq_length] is negative, or when there is a block to
    build and [emb * heads] is negative.  A [depth] that is not positive is
    accepted and gives a model without blocks; otherwise the model has
    [depth] blocks. *)
Theorem generator_construction_fails_iff_negative_size
  (emb heads depth seq_length num_tokens : Z)
  (rnd : nat -> nat -> nat -> nat -> R) :
  ((exists err, GTransformer.init emb heads depth seq_length num_tokens rnd
                = Err err)
     <-> (emb < 0 \/ num_tokens < 0 \/ seq_length < 0
          \/ (0 < depth /\ emb * heads < 0))%Z) /\
  (forall g, GTransformer.init emb heads depth seq_length num_tokens rnd = Ok g ->
             length (GTransformer.tblocks g) = Z.to_nat depth).
Proof.
  split.
  - unfold GTransformer.init. split.
    + intros [err Herr].
      destruct (Z.lt_ge_cases emb 0) as [|He]; [now left|].
      destruct (Z.lt_ge_cases num_tokens 0) as [|HV]; [now right; left|].
      destruct (Z.lt_ge_cases seq_length 0) as [|HL]; [now right; right; left|].
      right. right. right.
      destruct (@nn_Embedding_nonneg emb num_tokens (rnd 0 0)) as [tok Htok];
        try lia.
      destruct (@nn_Embedding_nonneg emb seq_length (rnd 1 0)) as [pos Hpos];
        try lia.
      destruct (@nn_Linear_nonneg emb num_tokens true (rnd 2 0) (rnd 2 1 0))
        as [lin Hlin]; try lia.
      rewrite Htok, Hpos in Herr. cbn [bind] in Herr.
      destruct (Z.lt_ge_cases 0 depth) as [Hd|Hd].
      * split; [assumption|].
        destruct (Z.lt_ge_cases (emb * heads) 0) as [|Hh]; [assumption|].
        exfalso.
        destruct (@collect_all_ok _
                    (map (fun i => TransformerBlock.init emb heads true seq_length
                                     4 0 (rnd (3 + i)))
                         (seq 0 (Z.to_nat depth)))) as [blocks Hb].
        { apply Forall_forall. intros r Hr. apply in_map_iff in Hr.
          destruct Hr as (i & <- & _).
          apply TransformerBlock_init_nonneg; lia || lra. }
        rewrite Hb, Hlin in Herr. discriminate.
      * exfalso. replace (Z.to_nat depth) with 0%nat in Herr by lia.
        cbn [seq map collect bind] in Herr. rewrite Hlin in Herr. discriminate.
    + intros H.
      destruct (Z.lt_ge_cases emb 0) as [He|He].
      { rewrite nn_Embedding_negative by now left. eexists; reflexivity. }
      destruct (Z.lt_ge_cases num_tokens 0) as [HV|HV].
      { rewrite nn_Embedding_negative by now right. eexists; reflexivity. }
      destruct (@nn_Embedding_nonneg emb num_tokens (rnd 0 0)) as [tok ->];
        try lia.
      cbn [bind].
      destruct (Z.lt_ge_cases seq_length 0) as [HL|HL].
      { rewrite nn_Embedding_negative by now right. eexists; reflexivity. }
      destruct (@nn_Embedding_nonneg emb seq_length (rnd 1 0)) as [pos ->];
        try lia.
      cbn [bind].
      destruct H as [H|[H|[H|[Hd Hh]]]]; try lia.
      rewrite (@collect_first_error _ _ RuntimeError).
      * eexists; reflexivity.
      * destruct (Z.to_nat depth) eqn:Hn; [lia|]. discriminate.
      * apply Forall_forall. intros r Hr. apply in_map_iff in Hr.
        destruct Hr as (i & <- & _).
        apply TransformerBlock_init_negative. now right.
  - intros g Hg. unfold GTransformer.init in Hg.
    apply bind_Ok in Hg. destruct Hg as (tok & _ & Hg).
    apply bind_Ok in Hg. destruct Hg as (pos & _ & Hg).
    apply bind_Ok in Hg. destruct Hg as (blocks & Hblocks & Hg).
    apply bind_Ok in Hg. destruct Hg as (lin & _ & Hg).
    injection Hg as <-. cbn.
    apply collect_map_inv in Hblocks. destruct Hblocks as [Hl _].
    now rewrite length_seq in Hl.
Qed.

(** * The generator *)

Lemma example_tokens_shaped : shaped [1; 2] example_tokens.
Proof. split; reflexivity. Qed.

Lemma example_tokens_in_range :
  Forall (fun i => (0 <= i < Z.of_nat 4)%Z) (storage example_tokens).
Proof. repeat constructor; simpl; lia. Qed.

(** For a model built by [GTransformer.__init__], [forward] on a tensor of
    [b] sequences of [t] tokens returns exactly when every token is an
    index into the vocabulary and [t] is at most [seq_length]; what it
    returns has size [(b, t, num_tokens)]. *)
Theorem generator_accepts_iff_tokens_and_length_fit (e h L V : nat) (depth : Z)
  (rnd : nat -> nat -> nat -> nat -> R) (g : GTransformer.t)
  (training : bool) (noise : nat -> nat -> bool) (b t : nat) (x : tensor Z) :
  GTransformer.init (Z.of_nat e) (Z.of_nat h) depth (Z.of_nat L) (Z.of_nat V) rnd
  = Ok g ->
  shaped [b; t] x ->
  ((exists y, GTransformer.forward g training noise x = Ok y)
     <-> (Forall (fun i => (0 <= i < Z.of_nat V)%Z) (storage x) /\ t <= L)) /\
  (forall y, GTransformer.forward g training noise x = Ok y ->
             shaped [b; t; V] y).
Proof.
  intros Hg Hx.
  assert (Forall (fun i => (0 <= i < Z.of_nat V)%Z) (storage x) -> t <= L ->
          exists y, GTransformer.forward g training noise x = Ok y /\
                    shaped [b; t; V] y) as Hok.
  { intros Hin Ht. destruct (shaped_as_rows Hx) as (T & HT & ->).
    cbn [storage] in Hin. apply Forall_concat in Hin.
    destruct (@GTransformer_nested e h L V depth rnd g Hg training noise b t T
                HT Hin Ht) as [Hy HN].
    eexists. split; [exact Hy|]. split; [reflexivity|].
    cbn [storage]. rewrite (length_flat3 HN). simpl. lia. }
  split; [split|].
  - intros [y Hy].
    apply (@GTransformer_forward_inv e h L V depth rnd g Hg training noise b t x y
             (proj1 Hx) Hy).
  - intros [Hin Ht]. destruct (Hok Hin Ht) as (y & Hy & _). eauto.
  - intros y Hy.
    destruct (@GTransformer_forward_inv e h L V depth rnd g Hg training noise b t
                x y (proj1 Hx) Hy) as [Hin Ht].
    destruct (Hok Hin Ht) as (y' & Hy' & Hs). congruence.
Qed.

Lemma generator_accepts_iff_tokens_and_length_fit_witness :
  exists g,
    GTransformer.init 2 1 1 3 4 zero_weights = Ok g /\
    shaped [1; 2] example_tokens /\
    exists y, GTransformer.forward g true no_noise example_tokens = Ok y.
Proof.
  destruct (@GTransformer_init_nonneg 2 1 3 4 1 zero_weights) as [g Hg].
  exists g. split; [exact Hg|]. split; [apply example_tokens_shaped|].
  destruct (@generator_accepts_iff_tokens_and_length_fit 2 1 3 4 1 zero_weights g
              true no_noise 1 2 example_tokens Hg example_tokens_shaped)
    as [[_ Hok] _].
  apply Hok. split; [apply example_tokens_in_range|lia].
Defined.

(** Every row that [GTransformer.forward] returns, one for each position of
    each sequence, holds the logarithms of probabilities: when the
    vocabulary is not empty their exponentials sum to one. *)
Theorem generator_returns_log_probabilities (e h L V : nat) (depth : Z)
  (rnd : nat -> nat -> nat -> nat -> R) (g : GTransformer.t)
  (training : bool) (noise : nat -> nat -> bool) (b t : nat) (x : tensor Z)
  (y : tensor R) :
  GTransformer.init (Z.of_nat e) (Z.of_nat h) depth (Z.of_nat L) (Z.of_nat V) rnd
  = Ok g ->
  shaped [b; t] x -> 0 < V ->
  GTransformer.forward g training noise x = Ok y ->
  Forall log_probabilities (split_n (b * t) V (storage y)).
Proof.
  intros Hg Hx HV Hy.
  destruct (@GTransformer_forward_inv e h L V depth rnd g Hg training noise b t
              x y (proj1 Hx) Hy) as [Hin Ht].
  destruct (shaped_as_rows Hx) as (T & HT & ->).
  cbn [storage] in Hin. apply Forall_concat in Hin.
  destruct (@GTransformer_nested e h L V depth rnd g Hg training noise b t T
              HT Hin Ht) as [Hy' HN].
  rewrite Hy in Hy'. injection Hy' as ->. cbn [storage].
  rewrite (uniform3_rows HN). apply Forall_concat.
  apply Forall_forall. intros rows Hrows. apply in_map_iff in Hrows.
  destruct Hrows as (toks & <- & Htoks).
  apply Forall_forall. intros row Hrow. unfold generated_sequence in Hrow.
  apply in_map_iff in Hrow. destruct Hrow as (v & <- & Hv).
  apply log_softmax_row_probabilities.
  destruct (GTransformer_init_inv _ _ _ _ _ _ Hg)
    as (_ & _ & _ & _ & _ & _ & _ & _ & _ & _ & Hlw & _ & Hlo).
  intros Hnil. apply (f_equal (@length R)) in Hnil.
  rewrite length_linear_row in Hnil by assumption. simpl in Hnil. lia.
Qed.

Lemma generator_returns_log_probabilities_witness :
  exists g y,
    GTransformer.init 2 1 1 3 4 zero_weights = Ok g /\
    shaped [1; 2] example_tokens /\ 0 < 4 /\
    GTransformer.forward g true no_noise example_tokens = Ok y /\
    Forall log_probabilities (split_n (1 * 2) 4 (storage y)).
Proof.
  destruct (@GTransformer_init_nonneg 2 1 3 4 1 zero_weights) as [g Hg].
  destruct (@GTransformer_nested 2 1 3 4 1 zero_weights g Hg true no_noise 1 2
              [[1; 3]%Z]) as [Hy _].
  { split; [reflexivity|]. repeat constructor. }
  { repeat constructor; simpl; lia. }
  { lia. }
  eexists g, _. split; [exact Hg|]. split; [apply example_tokens_shaped|].
  split; [lia|]. split; [exact Hy|].
  apply (@generator_returns_log_probabilities 2 1 3 4 1 zero_weights g true
           no_noise 1 2 example_tokens _ Hg example_tokens_shaped);
    [lia|exact Hy].
Defined.

(** The generator is autoregressive: what [GTransformer.forward] returns
    for the first [k] positions only depends on the first [k] tokens.  On
    the sequences cut after [k] tokens it returns its result cut after [k]
    positions, and token tensors that agree on the first [k] tokens get the
    same log-probabilities at the first [k] positions. *)
Theorem generator_is_autoregressive (e h L V : nat) (depth : Z)
  (rnd : nat -> nat -> nat -> nat -> R) (g : GTransformer.t)
  (training : bool) (noise : nat -> nat -> bool) (b t k : nat) (x : tensor Z)
  (y : tensor R) :
  GTransformer.init (Z.of_nat e) (Z.of_nat h) depth (Z.of_nat L) (Z.of_nat V) rnd
  = Ok g ->
  shaped [b; t] x ->
  GTransformer.forward g training noise x = Ok y ->
  GTransformer.forward g training noise (take_tokens k x)
  = Ok (take_positions k y) /\
  forall x' y', shaped [b; t] x' -> take_tokens k x' = take_tokens k x ->
    GTransformer.forward g training noise x' = Ok y' ->
    take_positions k y' = take_positions k y.
Proof.
  intros Hg.
  assert (forall x y, shaped [b; t] x ->
            GTransformer.forward g training noise x = Ok y ->
            GTransformer.forward g training noise (take_tokens k x)
            = Ok (take_positions k y)) as Hcut.
  { clear x y. intros x y Hx Hy.
    destruct (@GTransformer_forward_inv e h L V depth rnd g Hg training noise b t
                x y (proj1 Hx) Hy) as [Hin Ht].
    destruct (shaped_as_rows Hx) as (T & HT & ->).
    cbn [storage] in Hin. apply Forall_concat in Hin.
    destruct (@GTransformer_nested e h L V depth rnd g Hg training noise b t T
                HT Hin Ht) as [Hy' HN].
    rewrite Hy in Hy'. injection Hy' as ->.
    destruct (take_tokens_rows k HT) as [-> HTk].
    destruct (take_positions_sequences k HN) as [-> _].
    destruct (@GTransformer_nested e h L V depth rnd g Hg training noise b
                (Nat.min k t) (map (firstn (Nat.min k t)) T)) as [-> _]; auto.
    - apply Forall_forall. intros r Hr. apply in_map_iff in Hr.
      destruct Hr as (toks & <- & Htoks). apply Forall_firstn.
      rewrite Forall_forall in Hin. auto.
    - lia.
    - f_equal. f_equal. f_equal. rewrite !map_map. apply map_ext_in.
      intros toks Htoks. destruct HT as [_ HF].
      rewrite Forall_forall in HF, Hin.
      apply (@generated_sequence_prefix e h L V depth rnd g Hg t (Nat.min k t) toks);
        auto. lia. }
  intros Hx Hy. split; [now apply Hcut|].
  intros x' y' Hx' Heq Hy'.
  pose proof (Hcut x y Hx Hy) as H1. pose proof (Hcut x' y' Hx' Hy') as H2.
  rewrite Heq in H2. congruence.
Qed.

Lemma generator_is_autoregressive_witness :
  exists g y,
    GTransformer.init 2 1 1 3 4 zero_weights = Ok g /\
    shaped [1; 2] example_tokens /\
    GTransformer.forward g true no_noise example_tokens = Ok y /\
    GTransformer.forward g true no_noise (take_tokens 1 example_tokens)
    = Ok (take_positions 1 y).
Proof.
  destruct (@GTransformer_init_nonneg 2 1 3 4 1 zero_weights) as [g Hg].
  destruct (@GTransformer_nested 2 1 3 4 1 zero_weights g Hg true no_noise 1 2
              [[1; 3]%Z]) as [Hy _].
  { split; [reflexivity|]. repeat constructor. }
  { repeat constructor; simpl; lia. }
  { lia. }
  eexists g, _. split; [exact Hg|]. split; [apply example_tokens_shaped|].
  split; [exact Hy|].
  apply (@generator_is_autoregressive 2 1 3 4 1 zero_weights g true no_noise
           1 2 1 example_tokens _ Hg example_tokens_shaped Hy).
Defined.

(** The blocks of a generator are built with the default [dropout=0.0], so
    [GTransformer.forward] returns the same in training and in evaluation
    mode, whatever the random draws of the dropout calls are. *)
Theorem generator_ignores_training_mode (emb heads depth seq_length num_tokens : Z)
  (rnd : nat -> nat -> nat -> nat -> R) (g : GTransformer.t)
  (training training' : bool) (noise noise' : nat -> nat -> bool) (x : tensor Z) :
  GTransformer.init emb heads depth seq_length num_tokens rnd = Ok g ->
  GTransformer.forward g training noise x
  = GTransformer.forward g training' noise' x.
Proof.
  intros Hg.
  assert (Forall (fun blk => p (TransformerBlock.do_ blk) = 0%R)
            (GTransformer.tblocks g)) as Hp.
  { unfold GTransformer.init in Hg.
    apply bind_Ok in Hg. destruct Hg as (tok & _ & Hg).
    apply bind_Ok in Hg. destruct Hg as (pos & _ & Hg).
    apply bind_Ok in Hg. destruct Hg as (blocks & Hblocks & Hg).
    apply bind_Ok in Hg. destruct Hg as (lin & _ & Hg).
    injection Hg as <-. cbn.
    apply collect_map_inv in Hblocks. destruct Hblocks as [_ HF].
    eapply Forall_impl; [|exact HF]. intros blk (i & _ & Hblk).
    apply TransformerBlock_init_inv in Hblk.
    destruct Hblk as (_ & _ & _ & _ & _ & _ & Hd).
    apply nn_Dropout_inv in Hd. apply Hd. }
  unfold GTransformer.forward.
  destruct (Embedding_forward (GTransformer.token_embedding g) x)
    as [tokens|err]; [|reflexivity].
  cbn [bind].
  destruct (size tokens) as [|b [|t [|e [|d3 s]]]]; try reflexivity.
  destruct (Embedding_forward (GTransformer.pos_embedding g) (arange t))
    as [pos|err]; [|reflexivity].
  cbn [bind]. destruct (index_None pos) as [pos1|err]; [|reflexivity].
  cbn [bind]. destruct (expand pos1 b t e) as [pos2|err]; [|reflexivity].
  cbn [bind]. destruct (tadd tokens pos2) as [x0|err]; [|reflexivity].
  cbn [bind].
  now rewrite (@Sequential_without_dropout (GTransformer.tblocks g) training
                 training' noise noise' 0 0 x0 Hp).
Qed.

Lemma generator_ignores_training_mode_witness :
  exists g,
    GTransformer.init 2 1 1 3 4 zero_weights = Ok g /\
    GTransformer.forward g true no_noise example_tokens
    = GTransformer.forward g false (fun _ _ => false) example_tokens.
Proof.
  destruct (@GTransformer_init_nonneg 2 1 3 4 1 zero_weights) as [g Hg].
  exists g. split; [exact Hg|].
  apply (@generator_ignores_training_mode 2 1 1 3 4 zero_weights g true false
           no_noise (fun _ _ => false) example_tokens Hg).
Defined.

(** * Batches of token sequences *)

Lemma select_row_rows (A : Type) (n b t : nat) (T : list (list A)) :
  uniform2 b t T -> n < b ->
  select_row n (Tensor [b; t] (concat T)) = Tensor [1; t] (concat [nth n T []])
  /\ uniform2 1 t [nth n T []].
Proof.
  intros HT Hn. split.
  - unfold select_row. cbn [size storage]. rewrite (uniform2_split HT).
    simpl. now rewrite app_nil_r.
  - destruct HT as [Hl Hu]. split; [reflexivity|].
    constructor; [|constructor].
    apply (@nth_Forall _ (fun row => length row = t)); auto. lia.
Qed.

(** [GTransformer.forward] treats the sequences of a batch one by one:
    applied to sequence [n] alone it returns the log-probabilities it
    returns for that sequence within the batch. *)
Theorem generator_keeps_sequences_apart (e h L V : nat) (depth : Z)
  (rnd : nat -> nat -> nat -> nat -> R) (g : GTransformer.t)
  (training : bool) (noise : nat -> nat -> bool) (b t n : nat) (x : tensor Z)
  (y : tensor R) :
  GTransformer.init (Z.of_nat e) (Z.of_nat h) depth (Z.of_nat L) (Z.of_nat V) rnd
  = Ok g ->
  shaped [b; t] x -> n < b ->
  GTransformer.forward g training noise x = Ok y ->
  GTransformer.forward g training noise (select_row n x)
  = Ok (select_sequence n y).
Proof.
  intros Hg Hx Hn Hy.
  destruct (@GTransformer_forward_inv e h L V depth rnd g Hg training noise b t
              x y (proj1 Hx) Hy) as [Hin Ht].
  destruct (shaped_as_rows Hx) as (T & HT & ->).
  cbn [storage] in Hin. apply Forall_concat in Hin.
  destruct (@GTransformer_nested e h L V depth rnd g Hg training noise b t T
              HT Hin Ht) as [Hy' HN].
  rewrite Hy in Hy'. injection Hy' as ->.
  destruct (select_row_rows HT Hn) as [-> HTn].
  destruct (select_sequence_sequences HN Hn) as [-> _].
  destruct (@GTransformer_nested e h L V depth rnd g Hg training noise 1 t
              [nth n T []] HTn) as [Hrow _]; auto.
  { constructor; [|constructor].
    apply (@nth_Forall _ (Forall (fun i => (0 <= i < Z.of_nat V)%Z))); auto.
    destruct HT as [-> _]. assumption. }
  rewrite Hrow. f_equal. f_equal. f_equal. cbn [map]. f_equal.
  destruct HT as [Hl _]. symmetry. apply nth_map_lt. lia.
Qed.

Lemma generator_keeps_sequences_apart_witness :
  exists g y,
    GTransformer.init 2 1 1 3 4 example_weights = Ok g /\
    shaped [2; 2] example_token_batch /\ 1 < 2 /\
    select_row 1 example_token_batch = Tensor [1; 2] [0; 2]%Z /\
    GTransformer.forward g true no_noise example_token_batch = Ok y /\
    GTransformer.forward g true no_noise (select_row 1 example_token_batch)
    = Ok (select_sequence 1 y).
Proof.
  destruct (@GTransformer_init_nonneg 2 1 3 4 1 example_weights) as [g Hg].
  destruct (@GTransformer_nested 2 1 3 4 1 example_weights g Hg true no_noise 2 2
              [[1; 3]; [0; 2]]%Z) as [Hy _].
  { split; [reflexivity|]. repeat constructor. }
  { repeat constructor; simpl; lia. }
  { lia. }
  eexists g, _. split; [exact Hg|]. split; [split; reflexivity|].
  split; [lia|]. split; [reflexivity|]. split; [exact Hy|].
  apply (@generator_keeps_sequences_apart 2 1 3 4 1 example_weights g true
           no_noise 2 2 1 example_token_batch _ Hg (conj eq_refl eq_refl));
    [lia|exact Hy].
Defined.

(** * Construction of the pooled models *)

Lemma nn_Dropout_refused (q : R) :
  (q < 0 \/ 1 < q)%R -> nn_Dropout q = Err ValueError.
Proof.
  intros H. unfold nn_Dropout. destruct (Rlt_dec q 0); [reflexivity|].
  destruct (Rlt_dec 1 q); [reflexivity|]. lra.
Qed.

Lemma block_refuses_dropout (e h : nat) (mask : bool) (seq_length : Z) (q : R)
  (rnd : nat -> nat -> nat -> R) :
  (q < 0 \/ 1 < q)%R ->
  TransformerBlock.init (Z.of_nat e) (Z.of_nat h) mask seq_length 4 q rnd
  = Err ValueError.
Proof.
  intros Hq. unfold TransformerBlock.init.
  destruct (@SelfAttention_init_nonneg (Z.of_nat e) (Z.of_nat h) mask rnd)
    as [a ->]; try lia.
  cbn [bind]. unfold nn_LayerNorm.
  destruct (Z.leb_spec 0 (Z.of_nat e)); [|lia]. cbn [bind].
  destruct (@nn_Linear_nonneg (Z.of_nat e) (4 * Z.of_nat e) true (rnd 5) (rnd 6 0))
    as [l1 ->]; try lia.
  destruct (@nn_Linear_nonneg (4 * Z.of_nat e) (Z.of_nat e) true (rnd 7) (rnd 8 0))
    as [l2 ->]; try lia.
  cbn [bind]. now rewrite nn_Dropout_refused.
Qed.

Lemma blocks_refuse_dropout (e h : nat) (mask : bool) (seq_length : Z) (q : R)
  (rnd : nat -> nat -> nat -> nat -> R) (n : nat) (B : Type)
  (k : list TransformerBlock.t -> result B) :
  (q < 0 \/ 1 < q)%R ->
  (forall blocks, k blocks = Err ValueError) ->
  (blocks <- collect (map (fun i => TransformerBlock.init (Z.of_nat e) (Z.of_nat h)
                                      mask seq_length 4 q (rnd (3 + i)))
                          (seq 0 n)) ;;
   k blocks) = Err ValueError.
Proof.
  intros Hq Hk. destruct n as [|n].
  - cbn [seq map collect bind]. apply Hk.
  - cbn [seq map collect]. now rewrite block_refuses_dropout.
Qed.

(** For sizes that are not negative, the constructors of the three pooled
    models raise exactly when [dropout] is not a probability, and then it
    is the [ValueError] of [nn.Dropout]. *)
Theorem pooled_models_refuse_bad_dropout (e h L V C : nat) (depth : Z)
  (mp : bool) (dropout : R) (rnd : nat -> nat -> nat -> nat -> R) :
  let bad := (dropout < 0 \/ 1 < dropout)%R in
  ((exists err, CTransformer.init (Z.of_nat e) (Z.of_nat h) depth (Z.of_nat L)
                  (Z.of_nat V) (Z.of_nat C) mp dropout rnd = Err err) <-> bad) /\
  ((exists err, TSTransformer.init (Z.of_nat e) (Z.of_nat h) depth (Z.of_nat L)
                  (Z.of_nat C) mp dropout rnd = Err err) <-> bad) /\
  ((exists err, TSRegTransformer.init (Z.of_nat e) (Z.of_nat h) depth (Z.of_nat L)
                  (Z.of_nat C) mp dropout rnd = Err err) <-> bad) /\
  (bad ->
   CTransformer.init (Z.of_nat e) (Z.of_nat h) depth (Z.of_nat L) (Z.of_nat V)
     (Z.of_nat C) mp dropout rnd = Err ValueError /\
   TSTransformer.init (Z.of_nat e) (Z.of_nat h) depth (Z.of_nat L) (Z.of_nat C)
     mp dropout rnd = Err ValueError /\
   TSRegTransformer.init (Z.of_nat e) (Z.of_nat h) depth (Z.of_nat L) (Z.of_nat C)
     mp dropout rnd = Err ValueError).
Proof.
  intros bad.
  assert (bad ->
          CTransformer.init (Z.of_nat e) (Z.of_nat h) depth (Z.of_nat L) (Z.of_nat V)
            (Z.of_nat C) mp dropout rnd = Err ValueError /\
          TSTransformer.init (Z.of_nat e) (Z.of_nat h) depth (Z.of_nat L)
            (Z.of_nat C) mp dropout rnd = Err ValueError /\
          TSRegTransformer.init (Z.of_nat e) (Z.of_nat h) depth (Z.of_nat L)
            (Z.of_nat C) mp dropout rnd = Err ValueError) as Hbad.
  { intros Hq.
    destruct (@nn_Embedding_nonneg (Z.of_nat e) (Z.of_nat V) (rnd 0 0))
      as [tok Htok]; try lia.
    destruct (@nn_Embedding_nonneg (Z.of_nat e) (Z.of_nat L) (rnd 1 0))
      as [pos Hpos]; try lia.
    destruct (@nn_Linear_nonneg (Z.of_nat e) (Z.of_nat C) true (rnd 2 0) (rnd 2 1 0))
      as [lin Hlin]; try lia.
    split_all.
    - unfold CTransformer.init. rewrite Htok, Hpos. cbn [bind].
      apply blocks_refuse_dropout; auto. intros blocks.
      rewrite Hlin. cbn [bind]. now rewrite nn_Dropout_refused.
    - unfold TSTransformer.init. rewrite Hpos. cbn [bind].
      apply blocks_refuse_dropout; auto. intros blocks.
      rewrite Hlin. cbn [bind]. now rewrite nn_Dropout_refused.
    - unfold TSRegTransformer.init. rewrite Hpos. cbn [bind].
      apply blocks_refuse_dropout; auto. intros blocks.
      rewrite Hlin. cbn [bind]. now rewrite nn_Dropout_refused. }
  assert (~ bad -> (0 <= dropout <= 1)%R) as Hgood by (unfold bad; lra).
  assert (bad \/ ~ bad) as Hdec by (unfold bad; lra).
  split_all; auto; split.
  - intros [err Herr]. destruct Hdec as [|Hn]; [assumption|]. exfalso.
    destruct (@CTransformer_init_nonneg e h L V C depth mp dropout rnd (Hgood Hn))
      as [c Hc]. congruence.
  - intros Hq. destruct (Hbad Hq) as (H & _). eauto.
  - intros [err Herr]. destruct Hdec as [|Hn]; [assumption|]. exfalso.
    destruct (@TSTransformer_init_nonneg e h L C depth mp dropout rnd (Hgood Hn))
      as [c Hc]. congruence.
  - intros Hq. destruct (Hbad Hq) as (_ & H & _). eauto.
  - intros [err Herr]. destruct Hdec as [|Hn]; [assumption|]. exfalso.
    destruct (@TSRegTransformer_init_nonneg e h L C depth mp dropout rnd (Hgood Hn))
      as [c Hc]. congruence.
  - intros Hq. destruct (Hbad Hq) as (_ & _ & H). eauto.
Qed.

(** * The classifiers and the regressor *)

Lemma pooling_decided (mp : bool) (t : nat) :
  (mp = true -> 0 < t) \/ ~ (mp = true -> 0 < t).
Proof.
  destruct mp.
  - destruct t; [right; intros H; specialize (H eq_refl); lia|left; lia].
  - left. discriminate.
Qed.

Lemma width_decided (e f : nat) (blocks : list TransformerBlock.t) :
  (e = f \/ (f = 1 /\ blocks = [])) \/ ~ (e = f \/ (f = 1 /\ blocks = [])).
Proof.
  destruct (Nat.eq_dec e f) as [|He]; [now left; left|].
  destruct (Nat.eq_dec f 1) as [Hf|Hf].
  - destruct blocks as [|blk rest].
    + left. right. auto.
    + right. intros [H|[_ H]]; [contradiction|discriminate].
  - right. intros [H|[H _]]; contradiction.
Qed.

(** ** [CTransformer] *)

Lemma CTransformer_forward_body (c : CTransformer.t) (training : bool)
  (noise : nat -> nat -> bool) (b t : nat) (T : list (list Z)) :
  wf_Embedding (CTransformer.token_embedding c) ->
  uniform2 b t T ->
  Forall (Forall (in_vocabulary (CTransformer.token_embedding c))) T ->
  exists tokens,
    shaped [b; t; embedding_dim (CTransformer.token_embedding c)] tokens /\
    CTransformer.forward c training noise (Tensor [b; t] (concat T))
    = pooled_body (CTransformer.pos_embedding c) (CTransformer.tblocks c)
        (CTransformer.do_ c) (CTransformer.max_pool c) training noise b t
        (embedding_dim (CTransformer.token_embedding c)) tokens
        (fun x => x <- Linear_forward (CTransformer.toprobs c) x ;;
                  log_softmax_dim1 x).
Proof.
  intros Hw HT Hin.
  destruct (Embedding_nested Hw HT Hin) as [Htok HM].
  eexists. split.
  2:{ unfold CTransformer.forward. rewrite Htok. cbn [bind size]. reflexivity. }
  split; [reflexivity|]. cbn [storage]. rewrite (length_flat3 HM). simpl. lia.
Qed.

Section Classifier.

Variables e h L V C : nat.
Variable depth : Z.
Variable mp : bool.
Variable dropout : R.
Variable rnd : nat -> nat -> nat -> nat -> R.
Variable c : CTransformer.t.
Hypothesis Hinit :
  CTransformer.init (Z.of_nat e) (Z.of_nat h) depth (Z.of_nat L) (Z.of_nat V)
    (Z.of_nat C) mp dropout rnd = Ok c.

Lemma CTransformer_forward_cases (training : bool) (noise : nat -> nat -> bool)
  (b t : nat) (x : tensor Z) :
  shaped [b; t] x ->
  (Forall (fun i => (0 <= i < Z.of_nat V)%Z) (storage x) /\ t <= L /\
   (mp = true -> 0 < t) /\
   exists logits y,
     shaped [b; C] logits /\
     log_softmax_dim1 logits = Ok y /\
     CTransformer.forward c training noise x = Ok y)
  \/
  (~ (Forall (fun i => (0 <= i < Z.of_nat V)%Z) (storage x) /\ t <= L /\
      (mp = true -> 0 < t)) /\
   exists err, CTransformer.forward c training noise x = Err err).
Proof.
  intros Hx.
  destruct (CTransformer_init_inv _ _ _ _ _ _ _ _ _ Hinit)
    as (Hmp & Htw & Htn & Htd & Hpw & Hpn & Hpd & _ & Hst & Hlw & Hli & Hlo).
  destruct (forallb (fun i => (0 <=? i)%Z
                              && (i <? Z.of_nat (num_embeddings
                                                   (CTransformer.token_embedding c)))%Z)
              (storage x)) eqn:Hf.
  2:{ right. split.
      - intros (Hin & _). rewrite <- Htn in Hin.
        apply (proj2 (in_vocabulary_forallb _ _)) in Hin. congruence.
      - exists RuntimeError. unfold CTransformer.forward, Embedding_forward.
        now rewrite Hf. }
  apply in_vocabulary_forallb in Hf.
  assert (Forall (fun i => (0 <= i < Z.of_nat V)%Z) (storage x)) as Hin.
  { unfold in_vocabulary in Hf. now rewrite Htn in Hf. }
  destruct (shaped_as_rows Hx) as (T & HT & ->). cbn [storage] in *.
  apply Forall_concat in Hf.
  destruct (@CTransformer_forward_body c training noise b t T Htw HT Hf)
    as (tokens & Htok & ->).
  rewrite Htd in *. rewrite Hmp in *.
  destruct (Nat.le_gt_cases t L) as [Ht|Ht];
    [destruct (pooling_decided mp t) as [Hpool|Hpool]|].
  - left. split_all; auto.
    destruct (@pooled_body_ok _ (CTransformer.pos_embedding c)
                (CTransformer.tblocks c) (CTransformer.do_ c) mp e h L training
                noise b t e tokens
                (fun x => x <- Linear_forward (CTransformer.toprobs c) x ;;
                          log_softmax_dim1 x)
                Hpw Hpd Hpn Hst Htok Ht (or_introl eq_refl) Hpool)
      as (z & Hz & ->).
    destruct (@Linear_pooled _ b e z Hlw Hli Hz) as (logits & -> & Hlg).
    cbn [bind]. rewrite Hlo in Hlg.
    destruct (log_softmax_dim1_shaped Hlg) as (y & Hy & _).
    exists logits, y. split_all; auto.
  - right. split; [tauto|].
    apply pooled_body_fails with (F := e) (h := h) (L := L); auto. tauto.
  - right. split; [intros (_ & H & _); lia|].
    apply pooled_body_fails with (F := e) (h := h) (L := L); auto.
    intros (H & _). lia.
Qed.

End Classifier.

(** For a model built by [CTransformer.__init__], [forward] on a tensor of
    [b] sequences of [t] tokens returns exactly when every token is an
    index into the vocabulary, [t] is at most [seq_length] and, with max
    pooling, there is at least one position; what it returns has size
    [(b, num_classes)], in both modes and for all dropout draws. *)
Theorem classifier_accepts_iff_tokens_and_length_fit (e h L V C : nat)
  (depth : Z) (mp : bool) (dropout : R) (rnd : nat -> nat -> nat -> nat -> R)
  (c : CTransformer.t) (training : bool) (noise : nat -> nat -> bool)
  (b t : nat) (x : tensor Z) :
  CTransformer.init (Z.of_nat e) (Z.of_nat h) depth (Z.of_nat L) (Z.of_nat V)
    (Z.of_nat C) mp dropout rnd = Ok c ->
  shaped [b; t] x ->
  ((exists y, CTransformer.forward c training noise x = Ok y)
     <-> (Forall (fun i => (0 <= i < Z.of_nat V)%Z) (storage x) /\ t <= L /\
          (mp = true -> 0 < t))) /\
  (forall y, CTransformer.forward c training noise x = Ok y -> shaped [b; C] y).
Proof.
  intros Hc Hx.
  destruct (@CTransformer_forward_cases e h L V C depth mp dropout rnd c Hc
              training noise b t x Hx)
    as [(Hin & Ht & Hp & logits & y & Hlg & Hy & Hfw) | (Hnot & err & Herr)].
  - split; [split|].
    + intros _. auto.
    + intros _. eauto.
    + intros y' Hy'. rewrite Hfw in Hy'. injection Hy' as <-.
      destruct (log_softmax_dim1_shaped Hlg) as (y' & Hy' & Hs & _).
      congruence.
  - split; [split|].
    + intros [y Hy]. congruence.
    + intros H. contradiction.
    + intros y Hy. congruence.
Qed.

Lemma classifier_accepts_iff_tokens_and_length_fit_witness :
  exists c,
    CTransformer.init 2 1 1 3 4 3 true (1 / 2) zero_weights = Ok c /\
    shaped [1; 2] example_tokens /\
    exists y, CTransformer.forward c true no_noise example_tokens = Ok y.
Proof.
  destruct (@CTransformer_init_nonneg 2 1 3 4 3 1 true (1 / 2) zero_weights)
    as [c Hc]; [lra|].
  exists c. split; [exact Hc|]. split; [split; reflexivity|].
  destruct (@classifier_accepts_iff_tokens_and_length_fit 2 1 3 4 3 1 true (1 / 2)
              zero_weights c true no_noise 1 2 example_tokens Hc
              (conj eq_refl eq_refl)) as [[_ Hok] _].
  apply Hok. split_all.
  - repeat constructor; simpl; lia.
  - lia.
  - intros _. lia.
Defined.

(** What [CTransformer.forward] returns for a batch of sequences with at
    least one position holds, for every sequence, the logarithms of class
    probabilities: when there is a class at all their exponentials sum to
    one. *)
Theorem classifier_returns_log_probabilities (e h L V C : nat)
  (depth : Z) (mp : bool) (dropout : R) (rnd : nat -> nat -> nat -> nat -> R)
  (c : CTransformer.t) (training : bool) (noise : nat -> nat -> bool)
  (b t : nat) (x : tensor Z) (y : tensor R) :
  CTransformer.init (Z.of_nat e) (Z.of_nat h) depth (Z.of_nat L) (Z.of_nat V)
    (Z.of_nat C) mp dropout rnd = Ok c ->
  shaped [b; t] x -> 0 < t -> 0 < C ->
  CTransformer.forward c training noise x = Ok y ->
  Forall log_probabilities (split_n b C (storage y)).
Proof.
  intros Hc Hx Ht HC Hy.
  destruct (@CTransformer_forward_cases e h L V C depth mp dropout rnd c Hc
              training noise b t x Hx)
    as [(_ & _ & _ & logits & y' & Hlg & Hy' & Hfw) | (_ & err & Herr)];
    [|congruence].
  rewrite Hfw in Hy. injection Hy as <-.
  apply (log_softmax_dim1_rows Hlg HC Hy').
Qed.

Lemma classifier_returns_log_probabilities_witness :
  exists c y,
    CTransformer.init 2 1 1 3 4 3 true (1 / 2) zero_weights = Ok c /\
    shaped [1; 2] example_tokens /\ 0 < 2 /\ 0 < 3 /\
    CTransformer.forward c true no_noise example_tokens = Ok y /\
    Forall log_probabilities (split_n 1 3 (storage y)).
Proof.
  destruct (@CTransformer_init_nonneg 2 1 3 4 3 1 true (1 / 2) zero_weights)
    as [c Hc]; [lra|].
  destruct (@CTransformer_forward_cases 2 1 3 4 3 1 true (1 / 2) zero_weights c Hc
              true no_noise 1 2 example_tokens (conj eq_refl eq_refl))
    as [(_ & _ & _ & logits & y & _ & _ & Hfw) | (Hnot & _)].
  2:{ exfalso. apply Hnot. split_all.
      - repeat constructor; simpl; lia.
      - lia.
      - intros _. lia. }
  exists c, y. split; [exact Hc|]. split; [split; reflexivity|].
  split; [lia|]. split; [lia|]. split; [exact Hfw|].
  apply (@classifier_returns_log_probabilities 2 1 3 4 3 1 true (1 / 2)
           zero_weights c true no_noise 1 2 example_tokens y Hc
           (conj eq_refl eq_refl)); [lia|lia|exact Hfw].
Defined.

(** ** [TSTransformer] and [TSRegTransformer] *)

Lemma series_cases (B : Type) (pos : Embedding)
  (blocks : list TransformerBlock.t) (d : Dropout) (mp : bool) (l : Linear)
  (f h L : nat) (training : bool) (noise : nat -> nat -> bool) (b t e : nat)
  (x : tensor R) (k : tensor R -> result B) :
  wf_Embedding pos -> embedding_dim pos = f -> num_embeddings pos = L ->
  wf_stack f h blocks -> wf_Linear l -> in_features l = f ->
  shaped [b; t; e] x ->
  (e = f /\ t <= L /\ (mp = true -> 0 < t) /\
   exists y, shaped [b; out_features l] y /\
     pooled_body pos blocks d mp training noise b t e x
       (fun z => y <- Linear_forward l z ;; k y) = k y)
  \/
  (~ (e = f /\ t <= L /\ (mp = true -> 0 < t)) /\
   exists err,
     pooled_body pos blocks d mp training noise b t e x
       (fun z => y <- Linear_forward l z ;; k y) = Err err).
Proof.
  intros Hpw Hpd Hpn Hst Hlw Hli Hx.
  destruct (Nat.le_gt_cases t L) as [Ht|Ht].
  2:{ right. split; [intros (_ & H & _); lia|].
      apply pooled_body_fails with (F := f) (h := h) (L := L); auto.
      intros (H & _). lia. }
  destruct (pooling_decided mp t) as [Hpool|Hpool].
  2:{ right. split; [tauto|].
      apply pooled_body_fails with (F := f) (h := h) (L := L); auto. tauto. }
  destruct (width_decided e f blocks) as [Hw|Hw].
  2:{ right. split; [intros (H & _); apply Hw; now left|].
      apply pooled_body_fails with (F := f) (h := h) (L := L); auto. tauto. }
  destruct (@pooled_body_ok _ pos blocks d mp f h L training noise b t e x
              (fun z => y <- Linear_forward l z ;; k y)
              Hpw Hpd Hpn Hst Hx Ht Hw Hpool) as (z & Hz & ->).
  destruct (Nat.eq_dec e f) as [Hef|Hef].
  - left. split_all; auto.
    destruct (@Linear_pooled l b e z Hlw) as (y & -> & Hy); auto; [congruence|].
    cbn [bind]. eauto.
  - right. split; [intros (H & _); contradiction|].
    rewrite (@Linear_wrong_width l b e z) by (try apply Hz; congruence).
    cbn [bind]. eauto.
Qed.

(** For a model built by [TSTransformer.__init__], [forward] on a tensor of
    size [(b, t, e)] returns exactly when [e] is the configured
    [feature_dim], [t] is at most [seq_length] and, with max pooling, there
    is at least one position.  What it returns has size
    [(b, num_classes)], and for [t > 0] and at least one class every row
    holds logarithms of probabilities that sum to one. *)
Theorem series_classifier_accepts_iff_sizes_fit (f h L C : nat) (depth : Z)
  (mp : bool) (dropout : R) (rnd : nat -> nat -> nat -> nat -> R)
  (m : TSTransformer.t) (training : bool) (noise : nat -> nat -> bool)
  (b t e : nat) (x : tensor R) :
  TSTransformer.init (Z.of_nat f) (Z.of_nat h) depth (Z.of_nat L) (Z.of_nat C)
    mp dropout rnd = Ok m ->
  shaped [b; t; e] x ->
  ((exists y, TSTransformer.forward m training noise x = Ok y)
     <-> (e = f /\ t <= L /\ (mp = true -> 0 < t))) /\
  (forall y, TSTransformer.forward m training noise x = Ok y ->
     shaped [b; C] y /\
     (0 < t -> 0 < C -> Forall log_probabilities (split_n b C (storage y)))).
Proof.
  intros Hm Hx.
  destruct (TSTransformer_init_inv _ _ _ _ _ _ _ _ Hm)
    as (Hmp & Hpw & Hpn & Hpd & _ & Hst & Hlw & Hli & Hlo).
  assert (TSTransformer.forward m training noise x
          = pooled_body (TSTransformer.pos_embedding m) (TSTransformer.tblocks m)
              (TSTransformer.do_ m) (TSTransformer.max_pool m) training noise
              b t e x
              (fun z => y <- Linear_forward (TSTransformer.toprobs m) z ;;
                        log_softmax_dim1 y)) as ->.
  { unfold TSTransformer.forward. rewrite (proj1 Hx). reflexivity. }
  rewrite Hmp.
  destruct (@series_cases _ (TSTransformer.pos_embedding m)
              (TSTransformer.tblocks m) (TSTransformer.do_ m) mp
              (TSTransformer.toprobs m) f h L training noise b t e x
              log_softmax_dim1 Hpw Hpd Hpn Hst Hlw Hli Hx)
    as [(He & Ht & Hp & logits & Hlg & ->) | (Hnot & err & ->)].
  - rewrite Hlo in Hlg.
    destruct (log_softmax_dim1_shaped Hlg) as (y & Hy & Hs & _).
    split; [split|].
    + intros _. auto.
    + intros _. eauto.
    + intros y' Hy'. split; [congruence|].
      intros _ HC. apply (log_softmax_dim1_rows Hlg HC Hy').
  - split; [split|].
    + intros [y Hy]. discriminate.
    + intros H. contradiction.
    + intros y Hy. discriminate.
Qed.

Lemma series_classifier_accepts_iff_sizes_fit_witness :
  exists m,
    TSTransformer.init 2 1 1 3 3 true (1 / 2) zero_weights = Ok m /\
    shaped [1; 2; 2] example_sequence /\
    exists y, TSTransformer.forward m true no_noise example_sequence = Ok y.
Proof.
  destruct (@TSTransformer_init_nonneg 2 1 3 3 1 true (1 / 2) zero_weights)
    as [m Hm]; [lra|].
  exists m. split; [exact Hm|]. split; [apply example_sequence_shaped|].
  destruct (@series_classifier_accepts_iff_sizes_fit 2 1 3 3 1 true (1 / 2)
              zero_weights m true no_noise 1 2 2 example_sequence Hm
              example_sequence_shaped) as [[_ Hok] _].
  apply Hok. split_all; [reflexivity|lia|intros _; lia].
Defined.

(** For a model built by [TSRegTransformer.__init__], [forward] on a tensor
    of size [(b, t, e)] returns exactly when [e] is the configured
    [feature_dim], [t] is at most [seq_length] and, with max pooling, there
    is at least one position; what it returns has size [(b, out_dim)]. *)
Theorem series_regressor_accepts_iff_sizes_fit (f h L D : nat) (depth : Z)
  (mp : bool) (dropout : R) (rnd : nat -> nat -> nat -> nat -> R)
  (m : TSRegTransformer.t) (training : bool) (noise : nat -> nat -> bool)
  (b t e : nat) (x : tensor R) :
  TSRegTransformer.init (Z.of_nat f) (Z.of_nat h) depth (Z.of_nat L) (Z.of_nat D)
    mp dropout rnd = Ok m ->
  shaped [b; t; e] x ->
  ((exists y, TSRegTransformer.forward m training noise x = Ok y)
     <-> (e = f /\ t <= L /\ (mp = true -> 0 < t))) /\
  (forall y, TSRegTransformer.forward m training noise x = Ok y ->
     shaped [b; D] y).
Proof.
  intros Hm Hx.
  destruct (TSRegTransformer_init_inv _ _ _ _ _ _ _ _ Hm)
    as (Hmp & Hpw & Hpn & Hpd & _ & Hst & Hlw & Hli & Hlo).
  assert (TSRegTransformer.forward m training noise x
          = pooled_body (TSRegTransformer.pos_embedding m)
              (TSRegTransformer.tblocks m) (TSRegTransformer.do_ m)
              (TSRegTransformer.max_pool m) training noise b t e x
              (fun z => y <- Linear_forward (TSRegTransformer.linear_output m) z ;;
                        Ok y)) as ->.
  { unfold TSRegTransformer.forward. rewrite (proj1 Hx). unfold pooled_body.
    destruct (Embedding_forward (TSRegTransformer.pos_embedding m) (arange t));
      [|reflexivity]. cbn [bind].
    destruct (index_None a); [|reflexivity]. cbn [bind].
    destruct (expand a0 b t e); [|reflexivity]. cbn [bind].
    destruct (tadd x a1); [|reflexivity]. cbn [bind].
    destruct (Sequential_forward _ _ _ _ _); [|reflexivity]. cbn [bind].
    destruct (if TSRegTransformer.max_pool m then max_dim1 a3 else mean_dim1 a3);
      [|reflexivity]. cbn [bind].
    now destruct (Linear_forward _ _). }
  rewrite Hmp.
  destruct (@series_cases _ (TSRegTransformer.pos_embedding m)
              (TSRegTransformer.tblocks m) (TSRegTransformer.do_ m) mp
              (TSRegTransformer.linear_output m) f h L training noise b t e x
              (@Ok (tensor R)) Hpw Hpd Hpn Hst Hlw Hli Hx)
    as [(He & Ht & Hp & y & Hy & ->) | (Hnot & err & ->)].
  - rewrite Hlo in Hy. split; [split|].
    + intros _. auto.
    + intros _. eauto.
    + intros y' Hy'. congruence.
  - split; [split|].
    + intros [y Hy]. discriminate.
    + intros H. contradiction.
    + intros y Hy. discriminate.
Qed.

Lemma series_regressor_accepts_iff_sizes_fit_witness :
  exists m,
    TSRegTransformer.init 2 1 1 3 5 false (1 / 2) zero_weights = Ok m /\
    shaped [1; 2; 2] example_sequence /\
    exists y, TSRegTransformer.forward m true no_noise example_sequence = Ok y.
Proof.
  destruct (@TSRegTransformer_init_nonneg 2 1 3 5 1 false (1 / 2) zero_weights)
    as [m Hm]; [lra|].
  exists m. split; [exact Hm|]. split; [apply example_sequence_shaped|].
  destruct (@series_regressor_accepts_iff_sizes_fit 2 1 3 5 1 false (1 / 2)
              zero_weights m true no_noise 1 2 2 example_sequence Hm
              example_sequence_shaped) as [[_ Hok] _].
  apply Hok. split_all; [reflexivity|lia|discriminate].
Defined.

(** * The attention weights on floating-point values *)

(** ** The range of the element type *)

Lemma float_max_lower : (10 ^ 38 <= float_max)%R.
Proof. unfold float_max. simpl. lra. Qed.

Lemma float_max_upper : (float_max < 10 ^ 39)%R.
Proof. unfold float_max. simpl. lra. Qed.

Lemma overflow_in_range (r r' : R) :
  r = r' -> (Rabs r' <= float_max)%R -> overflow r = Num r'.
Proof.
  intros -> Hr. unfold overflow. destruct (Rle_dec (Rabs r') float_max); auto.
  contradiction.
Qed.

Lemma overflow_above (r : R) : (float_max < r)%R -> overflow r = PosInf.
Proof.
  intros Hr. pose proof float_max_lower as Hm. unfold overflow.
  destruct (Rle_dec (Rabs r) float_max) as [Hle|_].
  - exfalso. rewrite Rabs_right in Hle; simpl in Hm; lra.
  - destruct (Rlt_dec 0 r); auto. exfalso. simpl in Hm. lra.
Qed.

Lemma fdot_copy (a : R) :
  (Rabs a <= float_max)%R -> fdot [Num a] [Num 1] = Num a.
Proof.
  intros Ha. unfold fdot. cbn [zipWith fold_left fmul fadd].
  rewrite (@overflow_in_range (a * 1) a) by (auto; lra).
  cbn [fadd]. apply overflow_in_range; auto. lra.
Qed.

Lemma fdot_product (a c : R) :
  (Rabs (a * c) <= float_max)%R -> fdot [Num a] [Num c] = Num (a * c).
Proof.
  intros Ha. unfold fdot. cbn [zipWith fold_left fmul fadd].
  rewrite (@overflow_in_range (a * c) (a * c)) by auto.
  cbn [fadd]. apply overflow_in_range; auto. lra.
Qed.

Lemma fdot_overflows (a c : R) :
  (float_max < a * c)%R -> fdot [Num a] [Num c] = PosInf.
Proof.
  intros Ha. unfold fdot. cbn [zipWith fold_left fmul fadd].
  now rewrite overflow_above.
Qed.

Lemma fdiv_by_one (a : R) :
  (Rabs a <= float_max)%R -> fdiv (Num a) (sqrt (INR 1)) = Num a.
Proof.
  intros Ha. cbn [INR]. rewrite sqrt_1. unfold fdiv.
  destruct (Req_dec_T 1 0) as [H|_]; [lra|].
  apply overflow_in_range; auto. field.
Qed.

(** ** Sizes *)

Lemma length_flinear_row (l : Linear) (v : list fvalue) :
  wf_Linear l -> length (flinear_row l v) = out_features l.
Proof.
  intros (Hw & _ & Hb). unfold flinear_row.
  destruct (bias l) as [b|].
  - rewrite length_zipWith, !length_map. lia.
  - now rewrite length_map.
Qed.

Lemma fLinear_forward_shaped (l : Linear) (lead : list nat) (x : tensor fvalue) :
  wf_Linear l -> shaped (lead ++ [in_features l]) x ->
  exists y, fLinear_forward l x = Ok y /\ shaped (lead ++ [out_features l]) y.
Proof.
  intros Hl Hx. unfold fLinear_forward.
  destruct (@rowwise_shaped _ _ lead (in_features l) (out_features l)
              (flinear_row l) x Hx) as (y & Hy & Hs & _).
  { intros v _. now apply length_flinear_row. }
  eauto.
Qed.

Lemma length_fmatmul_flat (p : nat) (a b : list (list fvalue)) :
  length (concat (fmatmul p a b)) = length a * p.
Proof.
  unfold fmatmul. rewrite (@length_concat_uniform _ p).
  - now rewrite length_map.
  - apply Forall_map_length. intros row _. now rewrite length_map, length_seq.
Qed.

Lemma fbmm_shaped (n m k q : nat) (x y : tensor fvalue) :
  shaped [n; m; k] x -> shaped [n; k; q] y ->
  exists z, fbmm x y = Ok z /\ shaped [n; m; q] z.
Proof.
  intros [Hsx Hlx] [Hsy Hly]. unfold fbmm. rewrite Hsx, Hsy, !Nat.eqb_refl. simpl.
  eexists; split; [reflexivity|]. split; simpl; auto.
  rewrite (@length_concat_uniform _ (m * q)).
  - rewrite length_zipWith, !length_split_n. lia.
  - apply Forall_zipWith. intros a b _ _.
    now rewrite length_fmatmul_flat, length_split_n.
Qed.

Section FloatShapes.

Variable a : SelfAttention.t.
Hypothesis Hwf : wf_SelfAttention a.
Variables b t e h : nat.
Hypothesis He : Z.of_nat e = SelfAttention.emb a.
Hypothesis Hh : Z.of_nat h = SelfAttention.heads a.

Lemma float_per_head_shaped (l : Linear) (x : tensor fvalue) :
  wf_Linear l -> in_features l = e -> out_features l = e * h ->
  shaped [b; t; e] x ->
  exists y, FloatAttention.per_head a l x b t e = Ok y /\ shaped [b; t; h; e] y.
Proof.
  intros Hl Hin Hout Hx. unfold FloatAttention.per_head.
  destruct (@fLinear_forward_shaped l [b; t] x Hl) as (y & -> & Hy).
  { now rewrite Hin. }
  simpl. rewrite <- Hh.
  destruct (@view_shaped _ _ [Z.of_nat b; Z.of_nat t; Z.of_nat h; Z.of_nat e] y Hy)
    as (y' & -> & Hy' & _).
  - repeat constructor; lia.
  - simpl. rewrite !Nat2Z.id, Hout. lia.
  - exists y'. split; auto. simpl in Hy'. now rewrite !Nat2Z.id in Hy'.
Qed.

Lemma float_fold_heads_shaped (y : tensor fvalue) :
  shaped [b; t; h; e] y ->
  exists y', FloatAttention.fold_heads a y b t e = Ok y' /\
             shaped [b * h; t; e] y'.
Proof.
  intros Hy. unfold FloatAttention.fold_heads.
  destruct (transpose12_shaped Hy) as (y1 & -> & Hy1). simpl.
  rewrite <- Hh.
  destruct (@view_shaped _ _ [(Z.of_nat b * Z.of_nat h)%Z; Z.of_nat t; Z.of_nat e]
              y1 Hy1) as (y' & -> & Hy' & _).
  - repeat constructor; lia.
  - simpl. rewrite <- Nat2Z.inj_mul, !Nat2Z.id. lia.
  - exists y'. split; auto. simpl in Hy'.
    now rewrite <- Nat2Z.inj_mul, !Nat2Z.id in Hy'.
Qed.

Lemma float_scores_shaped (x : tensor fvalue) :
  shaped [b; t; e] x ->
  exists dot values,
    FloatAttention.scores a x = Ok (b, t, e, dot, values) /\
    shaped [b * h; t; t] dot /\ shaped [b * h; t; e] values.
Proof.
  intros Hx. pose proof Hwf as Hwf'.
  destruct Hwf' as (_ & _ & Hk & Hq & Hv & _ & Hki & Hko & Hqi & Hqo & Hvi & Hvo & _).
  rewrite (@emb_to_nat _ _ He), (@heads_to_nat _ _ Hh) in *.
  unfold FloatAttention.scores. rewrite (proj1 Hx), He, Z.eqb_refl. simpl.
  destruct (float_per_head_shaped Hk Hki Hko Hx) as (k4 & -> & Hk4). simpl.
  destruct (float_per_head_shaped Hq Hqi Hqo Hx) as (q4 & -> & Hq4). simpl.
  destruct (float_per_head_shaped Hv Hvi Hvo Hx) as (v4 & -> & Hv4). simpl.
  destruct (float_fold_heads_shaped Hk4) as (k3 & -> & Hk3). simpl.
  destruct (float_fold_heads_shaped Hq4) as (q3 & -> & Hq3). simpl.
  destruct (float_fold_heads_shaped Hv4) as (v3 & -> & Hv3). simpl.
  unfold FloatAttention.scaled_dot.
  destruct (transpose12_shaped Hk3) as (kT & -> & HkT). simpl.
  destruct (@fbmm_shaped (b * h) t e t _ kT
              (shaped_tmap (fun q => fdiv q (sqrt (INR e))) Hq3) HkT)
    as (dot & -> & Hdot). simpl.
  exists dot, v3. auto.
Qed.

End FloatShapes.

(** ** Matrices as lists of rows *)

Lemma nested_uniform (A : Type) (b t e : nat) (st : list A) :
  length st = b * (t * e) ->
  uniform3 b t e (map (split_n t e) (split_n b (t * e) st)) /\
  flat3 (map (split_n t e) (split_n b (t * e) st)) = st.
Proof.
  intros Hl.
  pose proof (split_n_lengths b (t * e) st Hl) as HF.
  split; [split|].
  - now rewrite length_map, length_split_n.
  - apply Forall_forall. intros X HX. apply in_map_iff in HX.
    destruct HX as (blk & <- & Hblk). rewrite Forall_forall in HF.
    apply split_uniform2. auto.
  - unfold flat3. rewrite map_map.
    rewrite (map_ext_in _ (fun blk => blk)).
    + rewrite map_id. now apply concat_split_n.
    + intros blk Hblk. rewrite Forall_forall in HF.
      apply concat_split_n. auto.
Qed.

Lemma get3_flat3 (A : Type) (d : A) (b t e n k j : nat)
  (N : list (list (list A))) :
  uniform3 b t e N -> n < b -> k < t -> j < e ->
  get3 d (Tensor [b; t; e] (flat3 N)) n k j = nth j (nth k (nth n N []) []) d.
Proof.
  intros [Hl HF] Hn Hk Hj. unfold get3. cbn [size storage].
  unfold flat3. rewrite concat_map_concat.
  assert (Forall (fun row => length row = e) (concat N)) as Hrows.
  { apply Forall_concat. eapply Forall_impl; [|exact HF]. now intros X [_ HX]. }
  rewrite (@nth_concat_uniform _ e (concat N) (n * t + k) j d Hrows Hj).
  f_equal.
  apply (@nth_concat_uniform _ t N n k []); auto.
  eapply Forall_impl; [|exact HF]. now intros X [HX _].
Qed.

(** One matrix after [fmask_] without the diagonal. *)
Lemma fmask__nested (n t : nat) (D : list (list (list fvalue))) :
  uniform3 n t t D ->
  fmask_ (Tensor [n; t; t] (flat3 D)) MinusInf false
  = Ok (Tensor [n; t; t]
          (flat3 (map (fun X => zipWith (fun i row => fcausal_row i row) (seq 0 t) X)
                      D)))
  /\ uniform3 n t t
       (map (fun X => zipWith (fun i row => fcausal_row i row) (seq 0 t) X) D).
Proof.
  intros HD. split.
  - unfold fmask_. cbn [size storage]. f_equal. f_equal.
    rewrite (uniform3_blocks HD), map_map. unfold flat3. rewrite map_map.
    f_equal. apply map_ext_in. intros X HX.
    destruct HD as [_ HF]. rewrite Forall_forall in HF.
    destruct (HF X HX) as [HXl HXu].
    rewrite (uniform2_split (HF X HX)). f_equal.
    apply zipWith_ext_in. intros i row _ Hrow. unfold fcausal_row.
    rewrite Forall_forall in HXu. now rewrite (HXu row Hrow).
  - destruct HD as [Hl HF]. split; [now rewrite length_map|].
    apply Forall_forall. intros Y HY. apply in_map_iff in HY.
    destruct HY as (X & <- & HX). rewrite Forall_forall in HF.
    destruct (HF X HX) as [HXl HXu]. split.
    + rewrite length_zipWith, length_seq. lia.
    + apply Forall_zipWith. intros i row _ Hrow. unfold fcausal_row.
      rewrite length_zipWith, length_seq. rewrite Forall_forall in HXu.
      rewrite (HXu row Hrow). lia.
Qed.

Lemma length_fsoftmax_row (row : list fvalue) :
  length (fsoftmax_row row) = length row.
Proof.
  unfold fsoftmax_row. destruct (existsb spoils row || negb (existsb is_num row)).
  - apply length_map.
  - unfold softmax_row. now rewrite !length_map.
Qed.

(** ** One row of a masked matrix *)

Lemma fmask_row_split (c s : nat) (row : list fvalue) :
  zipWith (fun j v => if c <=? j then MinusInf else v) (seq s (length row)) row
  = firstn (c - s) row ++ repeat MinusInf (length row - (c - s)).
Proof.
  revert s. induction row as [|v row IH]; intros s; simpl.
  - now rewrite firstn_nil.
  - rewrite IH. destruct (c <=? s) eqn:Hc.
    + apply Nat.leb_le in Hc.
      replace (c - s) with 0 by lia. replace (c - S s) with 0 by lia.
      simpl. now rewrite Nat.sub_0_r.
    + apply Nat.leb_gt in Hc.
      replace (c - s) with (S (c - S s)) by lia. reflexivity.
Qed.

Section FloatRow.

Variable row : list fvalue.
Variable i : nat.
Hypothesis Hi : i < length row.

Lemma fcausal_split :
  fcausal_row i row = firstn (S i) row ++ repeat MinusInf (length row - S i).
Proof.
  unfold fcausal_row. rewrite fmask_row_split.
  now replace (i + 1 - 0) with (S i) by lia.
Qed.

Lemma length_fcausal : length (fcausal_row i row) = length row.
Proof. unfold fcausal_row. rewrite length_zipWith, length_seq. lia. Qed.

Lemma fcausal_visible (j : nat) (d : fvalue) :
  j <= i -> nth j (fcausal_row i row) d = nth j row d.
Proof.
  intros Hj. rewrite fcausal_split, app_nth1.
  2:{ rewrite length_firstn. lia. }
  rewrite nth_firstn. now destruct (Nat.ltb_spec j (S i)); [|lia].
Qed.

Lemma fcausal_future (j : nat) (d : fvalue) :
  i < j -> j < length row -> nth j (fcausal_row i row) d = MinusInf.
Proof.
  intros Hj Hl. rewrite fcausal_split, app_nth2.
  2:{ rewrite length_firstn. lia. }
  rewrite length_firstn.
  rewrite (nth_indep _ d MinusInf) by (rewrite repeat_length; lia).
  apply nth_repeat.
Qed.

(** A positive infinity or a not-a-number among the visible scores leaves
    not-a-number in the whole row. *)
Lemma fsoftmax_spoiled (j0 : nat) :
  j0 <= i -> spoils (nth j0 row NaN) = true ->
  forall j, j < length row -> nth j (fsoftmax_row (fcausal_row i row)) NaN = NaN.
Proof.
  intros Hj0 Hsp j Hj. unfold fsoftmax_row.
  assert (existsb spoils (fcausal_row i row) = true) as ->.
  { apply existsb_exists. exists (nth j0 row NaN). split; auto.
    rewrite <- (@fcausal_visible j0 NaN Hj0). apply nth_In.
    rewrite length_fcausal. lia. }
  cbn [orb].
  destruct (nth_in_or_default j (map (fun _ : fvalue => NaN) (fcausal_row i row)) NaN)
    as [Hin | ->]; [|reflexivity].
  apply in_map_iff in Hin. now destruct Hin as (v & <- & _).
Qed.

Hypothesis Hnum : forall j, j <= i -> is_num (nth j row NaN) = true.

Lemma visible_numbers : Forall (fun v => is_num v = true) (firstn (S i) row).
Proof.
  apply Forall_forall. intros v Hv.
  apply (In_nth _ _ NaN) in Hv. destruct Hv as (j & Hj & <-).
  rewrite length_firstn in Hj. rewrite nth_firstn.
  destruct (Nat.ltb_spec j (S i)); [|lia]. apply Hnum. lia.
Qed.

Lemma length_visible_scores : length (visible_scores i row) = length row.
Proof.
  unfold visible_scores.
  rewrite length_app, length_map, length_firstn, repeat_length. lia.
Qed.

Lemma visible_scores_finite : Forall is_finite (visible_scores i row).
Proof.
  unfold visible_scores. apply Forall_app. split.
  - apply Forall_forall. intros s Hs. apply in_map_iff in Hs.
    destruct Hs as (v & <- & Hv).
    pose proof visible_numbers as HF. rewrite Forall_forall in HF.
    specialize (HF v Hv). destruct v; try discriminate. now exists r.
  - apply Forall_forall. intros s Hs. apply repeat_spec in Hs. subst.
    now exists 0%R.
Qed.

Lemma as_score_fcausal :
  map as_score (fcausal_row i row) = causal_row i (visible_scores i row).
Proof.
  rewrite fcausal_split.
  rewrite (@masked_split (visible_scores i row) i)
    by (rewrite length_visible_scores; exact Hi).
  rewrite length_visible_scores, map_app, map_repeat. cbn [as_score].
  f_equal. unfold visible_scores. rewrite firstn_app, length_map, length_firstn.
  replace (S i - Nat.min (S i) (length row)) with 0 by lia.
  rewrite firstn_O, app_nil_r. symmetry. apply firstn_all2.
  rewrite length_map, length_firstn. lia.
Qed.

Lemma fsoftmax_numbers :
  fsoftmax_row (fcausal_row i row)
  = map Num (softmax_row (causal_row i (visible_scores i row))).
Proof.
  unfold fsoftmax_row.
  assert (existsb spoils (fcausal_row i row) = false) as ->.
  { rewrite fcausal_split, existsb_app.
    apply orb_false_iff. split.
    - apply not_true_is_false. intros H. apply existsb_exists in H.
      destruct H as (v & Hv & Hsp).
      pose proof visible_numbers as HF. rewrite Forall_forall in HF.
      specialize (HF v Hv). destruct v; discriminate.
    - apply not_true_is_false. intros H. apply existsb_exists in H.
      destruct H as (v & Hv & Hsp). apply repeat_spec in Hv. subst.
      discriminate. }
  assert (existsb is_num (fcausal_row i row) = true) as ->.
  { apply existsb_exists. exists (nth 0 row NaN). split.
    - rewrite <- (@fcausal_visible 0 NaN) by lia. apply nth_In.
      rewrite length_fcausal. lia.
    - apply Hnum. lia. }
  cbn [orb negb]. now rewrite as_score_fcausal.
Qed.

Lemma fsoftmax_future (j : nat) :
  i < j -> j < length row ->
  nth j (fsoftmax_row (fcausal_row i row)) NaN = Num 0.
Proof.
  intros Hij Hj. rewrite fsoftmax_numbers.
  rewrite (@nth_indep _ _ j NaN (Num 0)).
  2:{ unfold softmax_row. rewrite !length_map, length_masked;
        rewrite length_visible_scores; lia. }
  rewrite (map_nth Num). f_equal.
  apply softmax_future; auto. now rewrite length_visible_scores.
Qed.

Lemma fsoftmax_visible (j : nat) :
  j <= i ->
  nth j (fsoftmax_row (fcausal_row i row)) NaN
  = Num (nth j (softmax_row (causal_row i (visible_scores i row))) 0%R).
Proof.
  intros Hj. rewrite fsoftmax_numbers.
  rewrite (@nth_indep _ _ j NaN (Num 0)).
  2:{ unfold softmax_row. rewrite !length_map, length_masked;
        rewrite length_visible_scores; lia. }
  now rewrite (map_nth Num).
Qed.

Lemma fsoftmax_visible_sum :
  sum (map (fun j => number (nth j (fsoftmax_row (fcausal_row i row)) NaN))
           (seq 0 (S i))) = 1%R.
Proof.
  rewrite (map_ext_in _
             (fun j => nth j (softmax_row (causal_row i (visible_scores i row))) 0%R)).
  - apply softmax_visible_sum.
    + now rewrite length_visible_scores.
    + apply visible_scores_finite.
  - intros j Hj. apply in_seq in Hj. rewrite fsoftmax_visible by lia.
    reflexivity.
Qed.

Lemma fsoftmax_denominator :
  (0 < sum (map (fun j => exp_score (as_score (nth j (fcausal_row i row) NaN)))
                (seq 0 (length row))))%R.
Proof.
  rewrite <- (map_map (fun j => nth j (fcausal_row i row) NaN)
                      (fun v => exp_score (as_score v))).
  rewrite <- length_fcausal at 1. rewrite map_nth_all.
  rewrite <- (map_map as_score exp_score), as_score_fcausal.
  apply masked_denominator.
  - now rewrite length_visible_scores.
  - apply visible_scores_finite.
Qed.

End FloatRow.

(** ** The rows of the attention weights *)

Lemma float_rows (n t : nat) (dot : tensor fvalue) :
  shaped [n; t; t] dot ->
  exists masked att,
    fmask_ dot MinusInf false = Ok masked /\
    fsoftmax_dim2 masked = Ok att /\
    shaped [n; t; t] att /\
    forall k i, k < n -> i < t ->
      exists row, length row = t /\
        forall j, j < t ->
          get3 NaN dot k i j = nth j row NaN /\
          get3 NaN masked k i j = nth j (fcausal_row i row) NaN /\
          get3 NaN att k i j = nth j (fsoftmax_row (fcausal_row i row)) NaN.
Proof.
  intros Hdot.
  assert (length (storage dot) = n * (t * t)) as Hlen.
  { destruct Hdot as [_ Hl]. rewrite Hl. simpl. lia. }
  destruct (nested_uniform n t t (storage dot) Hlen) as [HD Hflat].
  remember (map (split_n t t) (split_n n (t * t) (storage dot))) as D eqn:HeqD.
  clear HeqD.
  assert (dot = Tensor [n; t; t] (flat3 D)) as ->.
  { apply tensor_eq; [apply Hdot|]. now rewrite Hflat. }
  destruct (fmask__nested HD) as [Hmask HDm].
  set (Dm := map (fun X => zipWith (fun i row => fcausal_row i row) (seq 0 t) X) D)
    in *.
  destruct (@rowwise_nested _ _ n t t t fsoftmax_row Dm) as [Hsoft HDs]; auto.
  { intros v Hv. now rewrite length_fsoftmax_row. }
  eexists. eexists. split; [exact Hmask|]. split; [exact Hsoft|]. split.
  { split; [reflexivity|]. cbn [storage]. rewrite (length_flat3 HDs). simpl. lia. }
  intros k i Hk Hi.
  assert (length D = n) as HDl by apply HD.
  assert (uniform2 t t (nth k D [])) as [HXl HXu].
  { apply (@nth_Forall _ (uniform2 t t)); [apply HD|lia]. }
  exists (nth i (nth k D []) []).
  assert (length (nth i (nth k D []) []) = t) as Hrow.
  { apply (@nth_Forall _ (fun row => length row = t)); auto. lia. }
  split; [exact Hrow|]. intros j Hj.
  assert (nth i (nth k Dm []) [] = fcausal_row i (nth i (nth k D []) [])) as HDmrow.
  { unfold Dm. rewrite (@nth_map_lt _ _ _ _ k [] []) by lia.
    rewrite (@nth_zipWith _ _ _ _ _ _ i 0 [] [])
      by (rewrite ?length_seq; lia).
    now rewrite seq_nth by lia. }
  split_all.
  - now apply get3_flat3.
  - rewrite (get3_flat3 NaN HDm) by auto. now rewrite HDmrow.
  - rewrite (get3_flat3 NaN HDs) by auto.
    rewrite (@nth_map_lt _ _ _ _ k [] []) by (unfold Dm; rewrite length_map; lia).
    rewrite (@nth_map_lt _ _ _ _ i [] []).
    + now rewrite HDmrow.
    + unfold Dm. rewrite (@nth_map_lt _ _ _ _ k [] []) by lia.
      rewrite length_zipWith, length_seq. lia.
Qed.

(** C1, as the code behaves on floating-point values: with the causal mask
    enabled, on every input of size [(b, t, e)], in every matrix [k] of the
    attention weights and every row [i], the score at a column [j <= i] is
    left as it is and the score at [j > i] is minus infinity.  When the
    scores of the row at the columns [j <= i] are numbers, the weight at
    every [j > i] is exactly zero, the weights at [j <= i] are numbers that
    sum to one, and the softmax denominator is positive.  When one of them
    is a positive infinity or not-a-number, as after an overflow, every
    weight of the row is not-a-number. *)
Theorem causal_attention_rows (a : SelfAttention.t) (b t e h : nat)
  (x : tensor fvalue) :
  wf_SelfAttention a -> SelfAttention.mask a = true ->
  Z.of_nat e = SelfAttention.emb a -> Z.of_nat h = SelfAttention.heads a ->
  shaped [b; t; e] x ->
  exists dot values masked att,
    FloatAttention.scores a x = Ok (b, t, e, dot, values) /\
    fmask_ dot MinusInf false = Ok masked /\
    fsoftmax_dim2 masked = Ok att /\
    FloatAttention.attention a x = Ok att /\
    size att = [b * h; t; t] /\
    forall k i, k < b * h -> i < t ->
      (forall j, j <= i -> get3 NaN masked k i j = get3 NaN dot k i j) /\
      (forall j, i < j -> j < t -> get3 NaN masked k i j = MinusInf) /\
      ((forall j, j <= i -> is_num (get3 NaN dot k i j) = true) ->
       (forall j, i < j -> j < t -> get3 NaN att k i j = Num 0) /\
       (forall j, j <= i -> is_num (get3 NaN att k i j) = true) /\
       (0 < sum (map (fun j => exp_score (as_score (get3 NaN masked k i j)))
                     (seq 0 t)))%R /\
       sum (map (fun j => number (get3 NaN att k i j)) (seq 0 (S i))) = 1%R) /\
      ((exists j, j <= i /\ spoils (get3 NaN dot k i j) = true) ->
       forall j, j < t -> get3 NaN att k i j = NaN).
Proof.
  intros Hwf Hm He Hh Hx.
  destruct (@float_scores_shaped _ Hwf _ _ _ _ He Hh _ Hx)
    as (dot & values & Hsc & Hd & Hv).
  destruct (float_rows Hd) as (masked & att & Hmask & Hsoft & Hash & Hrows).
  exists dot, values, masked, att. split_all; auto.
  - unfold FloatAttention.attention. rewrite Hsc. cbn [bind].
    rewrite <- Hh, (proj1 Hd), <- Nat2Z.inj_mul.
    assert (size_eqb [b * h; t; t] [Z.of_nat (b * h); Z.of_nat t; Z.of_nat t] = true)
      as -> by apply (size_eqb_of_nat [b * h; t; t]).
    cbn [assert_ bind].
    rewrite Hm, Hmask. cbn [bind]. exact Hsoft.
  - apply Hash.
  - intros k i Hk Hi.
    destruct (Hrows k i Hk Hi) as (row & Hlen & Hget).
    assert (i < length row) as Hi' by lia.
    split_all.
    + intros j Hj. destruct (Hget j ltac:(lia)) as (-> & -> & _).
      now apply fcausal_visible.
    + intros j Hij Hj. destruct (Hget j Hj) as (_ & -> & _).
      apply fcausal_future; auto. lia.
    + intros Hnum.
      assert (forall j, j <= i -> is_num (nth j row NaN) = true) as Hnum'.
      { intros j Hj. rewrite <- (proj1 (Hget j ltac:(lia))). now apply Hnum. }
      split_all.
      * intros j Hij Hj. destruct (Hget j Hj) as (_ & _ & ->).
        apply fsoftmax_future; auto. lia.
      * intros j Hj. destruct (Hget j ltac:(lia)) as (_ & _ & ->).
        now rewrite (@fsoftmax_visible row i Hi' Hnum' j Hj).
      * erewrite map_ext_in.
        2:{ intros j Hj. apply in_seq in Hj.
            destruct (Hget j ltac:(lia)) as (_ & -> & _). reflexivity. }
        rewrite <- Hlen. now apply fsoftmax_denominator.
      * erewrite map_ext_in.
        2:{ intros j Hj. apply in_seq in Hj.
            destruct (Hget j ltac:(lia)) as (_ & _ & ->). reflexivity. }
        now apply fsoftmax_visible_sum.
    + intros (j0 & Hj0 & Hsp) j Hj.
      destruct (Hget j Hj) as (_ & _ & ->).
      apply fsoftmax_spoiled with (j0 := j0); auto; [|lia].
      now rewrite <- (proj1 (Hget j0 ltac:(lia))).
Qed.

(** ** Two inputs of the copying module *)

Lemma copying_attention_wf : wf_SelfAttention copying_attention.
Proof.
  unfold wf_SelfAttention, wf_Linear. cbn.
  split_all; auto; try lia; repeat constructor.
Qed.

Lemma copying_scores (u v : fvalue) :
  FloatAttention.scores copying_attention (Tensor [1; 2; 1] [u; v])
  = Ok (1, 2, 1,
        Tensor [1; 2; 2]
          [fdot [fdiv (fdot [u] [Num 1]) (sqrt (INR 1))] [fdot [u] [Num 1]];
           fdot [fdiv (fdot [u] [Num 1]) (sqrt (INR 1))] [fdot [v] [Num 1]];
           fdot [fdiv (fdot [v] [Num 1]) (sqrt (INR 1))] [fdot [u] [Num 1]];
           fdot [fdiv (fdot [v] [Num 1]) (sqrt (INR 1))] [fdot [v] [Num 1]]],
        Tensor [1; 2; 1] [fdot [u] [Num 1]; fdot [v] [Num 1]]).
Proof. reflexivity. Qed.

Lemma copying_scores_numbers (c d : R) :
  (Rabs c <= 10)%R -> (Rabs d <= 10)%R ->
  FloatAttention.scores copying_attention (Tensor [1; 2; 1] [Num c; Num d])
  = Ok (1, 2, 1,
        Tensor [1; 2; 2] [Num (c * c); Num (c * d); Num (d * c); Num (d * d)],
        Tensor [1; 2; 1] [Num c; Num d]).
Proof.
  intros Hc Hd. pose proof float_max_lower as Hm. simpl in Hm.
  assert (forall u v, (Rabs u <= 10)%R -> (Rabs v <= 10)%R ->
                      (Rabs (u * v) <= float_max)%R) as Hprod.
  { intros u v Hu Hv. rewrite Rabs_mult.
    pose proof (Rabs_pos u). pose proof (Rabs_pos v).
    assert (Rabs u * Rabs v <= 10 * 10)%R by (apply Rmult_le_compat; lra).
    lra. }
  rewrite copying_scores.
  rewrite !fdot_copy by lra. rewrite !fdiv_by_one by lra.
  now rewrite !fdot_product by (apply Hprod; assumption).
Qed.

Lemma small_scores_input_shaped : shaped [1; 2; 1] small_scores_input.
Proof. split; reflexivity. Qed.

Lemma overflowing_input_shaped : shaped [1; 2; 1] overflowing_input.
Proof. split; reflexivity. Qed.

Lemma causal_attention_rows_witness :
  wf_SelfAttention copying_attention /\
  SelfAttention.mask copying_attention = true /\
  shaped [1; 2; 1] small_scores_input /\
  exists att,
    FloatAttention.attention copying_attention small_scores_input = Ok att /\
    get3 NaN att 0 0 1 = Num 0 /\
    sum (map (fun j => number (get3 NaN att 0 1 j)) (seq 0 2)) = 1%R.
Proof.
  split; [apply copying_attention_wf|]. split; [reflexivity|].
  split; [apply small_scores_input_shaped|].
  destruct (@causal_attention_rows copying_attention 1 2 1 1 small_scores_input
              copying_attention_wf eq_refl eq_refl eq_refl
              small_scores_input_shaped)
    as (dot & values & masked & att & Hsc & _ & _ & Hatt & _ & Hrows).
  assert (dot = Tensor [1; 2; 2] [Num (1 * 1); Num (1 * 2); Num (2 * 1); Num (2 * 2)])
    as Hdot.
  { unfold small_scores_input in Hsc.
    rewrite copying_scores_numbers in Hsc
      by (rewrite Rabs_right; lra).
    now injection Hsc as <- _. }
  exists att. split; [exact Hatt|]. split.
  - destruct (Hrows 0 0) as (_ & _ & Hnum & _); [lia|lia|].
    apply Hnum; [|lia|lia].
    intros j Hj. assert (j = 0) as -> by lia. now rewrite Hdot.
  - destruct (Hrows 0 1) as (_ & _ & Hnum & _); [lia|lia|].
    apply Hnum.
    intros j Hj. rewrite Hdot.
    destruct j as [|[|j]]; [reflexivity|reflexivity|lia].
Defined.

(** C1 as stated fails.  The copying module has the causal mask, and both
    entries of the input are the number [1e20], of size [(1, 2, 1)].  Keys
    and queries are [1e20], their products leave the range of the element
    type, so every raw score is a positive infinity and the softmax returns
    not-a-number everywhere: the weight at row [0], column [1] is not zero
    and no row sums to one. *)
Lemma overflowing_scores_give_nan_weights :
  wf_SelfAttention copying_attention /\
  SelfAttention.mask copying_attention = true /\
  shaped [1; 2; 1] overflowing_input /\
  Forall (fun v => is_num v = true) (storage overflowing_input) /\
  FloatAttention.attention copying_attention overflowing_input
  = Ok (Tensor [1; 2; 2] [NaN; NaN; NaN; NaN]) /\
  (forall att, FloatAttention.attention copying_attention overflowing_input = Ok att ->
               get3 NaN att 0 0 1 <> Num 0).
Proof.
  assert (FloatAttention.attention copying_attention overflowing_input
          = Ok (Tensor [1; 2; 2] [NaN; NaN; NaN; NaN])) as Hatt.
  { unfold FloatAttention.attention, overflowing_input.
    rewrite copying_scores.
    pose proof float_max_lower as Hlo. pose proof float_max_upper as Hup.
    simpl in Hlo, Hup.
    assert (Rabs (10 ^ 20) <= float_max)%R as Hc.
    { rewrite Rabs_right; simpl; lra. }
    rewrite !fdot_copy by exact Hc. rewrite !fdiv_by_one by exact Hc.
    rewrite !fdot_overflows by (simpl; lra).
    reflexivity. }
  split; [apply copying_attention_wf|]. split; [reflexivity|].
  split; [apply overflowing_input_shaped|].
  split; [repeat constructor|]. split; [exact Hatt|].
  intros att Hatt'. rewrite Hatt in Hatt'. injection Hatt' as <-.
  discriminate.
Qed.
